(* ===== verification/_CoqProject ===== *)
-Q . S2P
Prelude.v
GoStrings.v
GoNet.v
Crash.v
Labels.v
Chains.v
State.v
Hash.v
Config.v
Store.v
Generator.v
GeneratorSpec.v
GeneratorMasters.v
GeneratorProps.v
Loader.v
Dns.v
Exchanger.v
Logging.v
LockedSource.v
Resolver.v
Truncation.v
ResolverProps.v
Server.v
EndToEnd.v
Detect.v
Main.v
Detection.v
Concurrent.v
Serials.v
ConcurrentProps.v
ConcurrentRuns.v
Servers.v
Merge.v
Consul.v
ConsulProps.v
ConsulAgent.v
ConsulSync.v
ConsulLoop.v
ConsulDemo.v
ConsulReload.v
ConsulSystem.v
ConsulTasks.v
ConsulPipeline.v
Resolvers.v
ResolversProps.v
Startup.v
Live.v
Bench.v
FakeCluster.v
Dnstest.v
RepoTests.v
UnitTests.v
