(* ===== verification/Prelude.v ===== *)
(** * A verification library for Mesos-DNS

    Mesos-DNS (src/) makes the tasks of a Mesos cluster resolvable by name.  It
    polls the state of the cluster from the leading master, turns it into DNS
    records, and hands the records to its resolvers: the builtin one answers
    DNS queries and HTTP requests, the consul one registers services with the
    consul agents of the cluster.  This library models the program as Rocq
    functions and transition systems, translated from the Go source, and
    proves what makes it correct.

    ** How the program works

    main.go reads the configuration (records/config.go), starts the detection
    of masters (detect/masters.go) and builds the resolvers
    (resolvers/resolvers.go).  Its event loop then waits for a tick of the
    refresh timer, a change of masters, or an error.  A tick or a change makes
    a new generator parse the state (records/generator.go, ParseState), which
    loads /state.json from the leader and generates the records (InsertState).
    The generator is then handed to every resolver (Reload).  The builtin
    resolver (resolvers/builtin) answers queries in the domain from the records
    and forwards the others (exchanger/).  The consul resolver
    (resolvers/consul) sends every agent the services and checks of its slave,
    and the goroutine of the agent applies the difference to what it has
    cached.

    ** Files

    - Prelude: panics as a result type ([go]), loops over slices ([foldM]) with
      their rules, strings as sequences of bytes, the hint database.
    - GoStrings, GoNet: what the program uses of the packages strings, bytes,
      strconv, unicode/utf8 and net (parsing and printing of addresses).
    - Crash (utils/util.go): HandleCrash, its handlers, and the status that a
      panic ends the process with.
    - Labels (records/labels): host names to DNS labels, with the spare
      capacity of the byte slices that trimCut reslices.
    - Chains (records/chains.go): the links that build SRV names.
    - State (records/state, vendored upid): the data of the cluster, port
      ranges, sources of addresses, PIDs.
    - Hash (generator.go hashString, vendored zbase32): task hashes, with
      SHA-1.
    - Config (records/config.go, records/validation.go): configuration and its
      validation.
    - Store (generator.go): the record stores, the generator's state and the
      insertions.
    - Generator (generator.go): InsertState and all it calls.
      GeneratorSpec, GeneratorMasters and GeneratorProps prove that the
      generator inserts exactly the records of a list that is computed from
      the state ([context_spec], [task_spec], [framework_recs], [slave_recs]),
      and derive the properties of a generation from it.
    - Loader (generator.go): loading the state, finding the leader,
      ParseState.
    - Dns (vendored miekg/dns): messages, SetReply, EDNS0, labels of names,
      the length of a compressed message.
    - Exchanger (exchanger/, logging/): exchanges with external servers,
      their decorators, the forwarder, the counters.  Logging has the loggers
      and the printing of the counters.
    - LockedSource (resolvers/builtin/rand.go): the random source with its
      lock, and the goroutines that draw from it.
    - Resolver (resolvers/builtin): the handlers for DNS and HTTP, truncation,
      shuffling, configuration.  Truncation has the properties of truncation,
      ResolverProps those of the handlers.
    - Server (resolver.go LaunchDNS, configureHTTP, vendored ServeMux): which
      handler a query reaches.
    - EndToEnd: from a running task to the DNS answer.
    - Detect (detect/masters.go): the detector's state and callbacks.
    - Main (main.go): the event loop as a transition system over resolvers
      that satisfy the interface [Reloads]; a reload takes a step for every
      resolver.
    - Detection (main.go detectMasters): the loop with the detector and the
      channel between them.
    - Concurrent (resolver.go, main.go): requests that run while the records are
      reloaded, with the lock of the records, the shared configuration and the
      shared counters, as a transition system.  Serials separates a response
      from the serials in it; ConcurrentProps has the properties of the system;
      ConcurrentRuns proves that it refines Main, makes it
      executable ([exec]) and runs it.
    - Servers (resolver.go New, LaunchDNS, Serve, LaunchHTTP): the goroutines
      of the servers, the channels they report through, and the main loop.
    - Merge (utils/merge.go): settings into a struct by reflection; the class
      [Struct] is what reflection sees of a struct.
    - Consul (resolvers/consul): registrations, the generation of records,
      comparison, the cache, Dispatch and Reload.  ConsulProps has their
      properties.
    - ConsulAgent (consul.go consulAgent): the goroutine of an agent, against
      the interfaces [ConsulAPI] and [ConsulLaws].  ConsulSync proves what an
      update does to the services of an agent, ConsulLoop what reconnects do
      and that the loop is safe, ConsulSystem composes the loop with the
      reloads that send to it, ConsulTasks follows a running task from the
      state of the cluster to its services, ConsulPipeline has the goroutines
      of a reload and the channels they meet at, ConsulReload says when a
      reload returns, and ConsulDemo is an agent that satisfies the interface,
      with the witnesses.
    - Resolvers (resolvers.go, consul.go New, pollConsulKVHC): building the
      resolvers.  ResolversProps has their properties.
    - Startup (main.go): main up to its loop, and the process as a whole.
    - Live: from the start of the process to the answer that a client gets
      while requests and reloads interleave.
    - Bench (tools/main.go): the load generator.
    - FakeCluster, Dnstest, RepoTests, UnitTests (factories/fake.json,
      dnstest/): the cluster and the helpers of the repository's tests, and the
      tables of its tests of labels, records, masters, validation, PIDs, task
      addresses, detection, exchangers, truncation, consul records and
      handlers, replayed on the model.

    ** Conventions

    A Go function is a definition with its name.  Record fields that would
    clash carry the name of their type.  A pointer or map that may be nil is an
    [option]; an error is [option string]; a call that may panic or not return
    has type [go].  Integers are [Z] with the wrap-around written where the
    code relies on it (port loops, counters, TTLs); a float64 is a
    [spec_float].  A shared object that is changed in place (the generator, the
    configuration, the counters, the cache) is threaded through explicitly.
    The order of a loop over a map is a parameter ([MapOrder]) and so are the
    random draws ([Rand]), the lower case of non-ASCII text ([UnicodeTables])
    and conversions of numbers out of range ([FloatConv]): the theorems hold
    for all of them.

    Code that is not in src/ and input and output are arguments: the HTTP
    client and the JSON decoders ([get], [unmarshal]), DNS lookups
    ([resolve], [resolveTCP4]), the environment and the file system, the
    network interfaces, the exchange with a DNS server ([Exchange]) and the
    consul agent ([ConsulAPI]).  Only ConsulLaws assumes anything of them.

    ** Fuel

    A recursion that is not structural has a bound that is enough: a cut of a
    string shortens it ([Split]), a rune is at least one byte ([map_fuel]), an
    integer has at most 20 digits ([utoa]), a label shortens a name
    ([label_rests], [match_labels]), and the search of truncate halves an
    interval of the answers ([truncate_loop], proved in [truncate_loop_spec]).

    ** What the theorems show

    - Generation (GeneratorProps, GeneratorMasters, Store): a generation is
      well formed; every running task is published under the promised names,
      and only running tasks on known slaves matter; no SRV record dangles
      when leader and tasks have addresses, and one does when a task has none;
      the enumeration lists exactly the task records that were added; masters
      are numbered without gaps; InsertState returns for inputs whose labels
      and ports are sound.
    - Labels and state: labels are well formed, when they are not and when
      the code panics; the latest status counts; port ranges are read back.
    - Loading (Loader): ParseState fails without a change or yields the records
      of a state with a leader that a master answered with.
    - Answers (ResolverProps, Truncation, Server, EndToEnd, Live): replies have
      exactly the records of the store and the right code; a reply that does
      not fit is cut within one answer of the longest prefix that fits, which
      can be one too many; queries in the domain never reach an external
      server; a running task resolves to its address, also while the process
      runs and reloads.
    - Process (Startup, Main, Detect, Detection): resolvers hold whole
      generations only, all the same one outside of a reload and the last or
      the new one while a reload goes through them; the detector is safe, and
      with ZooKeeper the masters of the loop are those of the detector, in
      order, the leader in front; without it the configured masters stay; a
      failed reload blocks the loop.
    - Concurrency (ConcurrentProps, ConcurrentRuns, LockedSource, Servers): the
      reply to a request is, up to its serials, that of one generation that
      was current while it ran, however requests and reloads interleave; the
      system refines the loop of Main; the lock excludes the
      writer and its readers, and every request is answered; the counters
      account for every request; a zone transfer can carry a serial that is
      ahead of its records; draws from the random source are sequential; a
      server that stops is reported to the main loop.
    - Construction (Merge, ResolversProps): settings act field by field, and a
      null for a field panics; the
      resolvers that are built are those that are configured; lists have no
      effect; an unreachable consul agent blocks the start.
    - Consul (ConsulProps, ConsulSync, ConsulLoop, ConsulTasks, ConsulReload,
      ConsulPipeline): a reload returns for sound states and its records go to
      the agent of their slave, those of frameworks to none; after an update the services of an agent are determined,
      and equal to the record set when nothing changed in place, so that every
      running task is registered for its ports; a service that changes in place
      is lost; a reconnect restores the agreement of
      cache and agent; the loop of an agent keeps going in whatever order
      record sets arrive, unless the agent lists a service with the bare prefix
      as its ID; the goroutines of a reload cannot deadlock and make
      the sends of the sequential definition in every schedule.

    ** Not modelled

    Sockets, the packing of messages and the HTTP framework (vendored); the
    content of log output apart from the counters; the parsing of flags;
    version.go, whose string is an argument.  Error texts are built without the
    quotes and escapes of the verb %q.  The callbacks of the detector library
    are taken to come one after the other.  In the concurrent system a step
    that reads the configuration reads all of it at once, which is exact
    because only its serial and the masters ever change; the two increments of
    [stats] are one step, and the forwarding of external queries, which reads
    no records, takes no part.  A consul resolver keeps no generator: what its
    goroutines do with the one they are started with is in ConsulPipeline and
    ConsulSystem, and Startup only has which were started. *)

From stdpp Require Export base gmap strings list sorting fin_maps.
From Stdlib Require Export ZArith Lia Ascii.

Open Scope stdpp_scope.

(** ** Effects: run-time panics

    A Go call either returns a value or does not return.  [crash] names the
    reasons that occur in the modelled code: an index or a slice expression
    out of range, a nil pointer dereference, a failed type assertion, a
    division by zero, a call of [log.Fatal], which ends the process, and a
    loop that never exits ([NoReturn]). *)

Inductive crash : Set :=
| IndexOutOfRange
| SliceBounds
| NilDeref
| TypeAssertion
| DivideByZero
| Fatal
| NoReturn.

#[export] Instance crash_eq_dec : EqDecision crash.
Proof. solve_decision. Defined.

Inductive go (A : Type) : Type :=
| Ret (a : A)
| Panic (c : crash).
Arguments Ret {A} _.
Arguments Panic {A} _.

Lemma Ret_inj {A} (a b : A) : Ret a = Ret b → a = b.
Proof. congruence. Qed.

#[export] Instance go_ret : MRet go := λ A x, Ret x.
#[export] Instance go_bind : MBind go := λ A B f m,
  match m with Ret x => f x | Panic c => Panic c end.
#[export] Instance go_fmap : FMap go := λ A B f m,
  match m with Ret x => Ret (f x) | Panic c => Panic c end.

Lemma go_bind_ret {A B} (m : go A) (f : A → go B) b :
  m ≫= f = Ret b ↔ ∃ a, m = Ret a ∧ f a = Ret b.
Proof. destruct m; cbv [mbind go_bind]; naive_solver. Qed.

Lemma go_fmap_ret {A B} (m : go A) (f : A → B) b :
  f <$> m = Ret b ↔ ∃ a, m = Ret a ∧ f a = b.
Proof. destruct m; cbv [fmap go_fmap]; naive_solver. Qed.

(** The value of a call that is known to return. *)
Definition returns {A} (m : go A) : Prop := ∃ a, m = Ret a.

#[export] Instance returns_dec {A} (m : go A) : Decision (returns m).
Proof. destruct m; [left; by eexists | right; intros [? ?]; done]. Defined.

(** [go_inv H] splits a hypothesis [m ≫= f = Ret b] into its steps. *)
Ltac go_inv H :=
  repeat match type of H with
  | _ ≫= _ = Ret _ =>
      let a := fresh "r" in let E := fresh "E" in
      apply go_bind_ret in H as (a & E & H)
  | _ <$> _ = Ret _ =>
      let a := fresh "r" in let E := fresh "E" in
      apply go_fmap_ret in H as (a & E & H)
  end.

(** ** Loops

    [foldM f l s] is the loop [for _, x := range l { s = f(s, x) }] whose
    body may panic. *)

Fixpoint foldM {A S} (f : S → A → go S) (l : list A) (s : S) : go S :=
  match l with
  | [] => Ret s
  | x :: l => s' ← f s x; foldM f l s'
  end.

Fixpoint mapM_go {A B} (f : A → go B) (l : list A) : go (list B) :=
  match l with
  | [] => Ret []
  | x :: l => y ← f x; ys ← mapM_go f l; Ret (y :: ys)
  end.

Section loops.
Context {A S : Type}.
Implicit Types (f : S → A → go S) (l : list A).

Lemma foldM_app f l1 l2 s :
  foldM f (l1 ++ l2) s = foldM f l1 s ≫= foldM f l2.
Proof.
  revert s; induction l1 as [|x l1 IH]; intros s; [done|].
  simpl. destruct (f s x); [apply IH | done].
Qed.

(** The loop rule: an invariant kept by every iteration holds at the end. *)
Lemma foldM_ind (P : S → Prop) f l s s' :
  P s →
  (∀ s x s', x ∈ l → P s → f s x = Ret s' → P s') →
  foldM f l s = Ret s' → P s'.
Proof.
  revert s; induction l as [|x l IH]; intros s Hs Hstep Hl; [by inversion Hl; subst|].
  simpl in Hl; go_inv Hl.
  apply (IH r); [| |done].
  - eapply Hstep; eauto. by left.
  - intros s1 y s2 Hy. eapply Hstep; by right.
Qed.

(** A loop whose every iteration returns returns. *)
Lemma foldM_returns (P : S → Prop) f l s :
  P s →
  (∀ s x, x ∈ l → P s → ∃ s', f s x = Ret s' ∧ P s') →
  ∃ s', foldM f l s = Ret s' ∧ P s'.
Proof.
  revert s; induction l as [|x l IH]; intros s Hs Hstep; [by exists s|].
  destruct (Hstep s x) as (s' & Hf & Hs'); [by left|done|].
  simpl. rewrite Hf. apply (IH s'); [done|].
  intros; apply Hstep; [by right|done].
Qed.

(** An iteration on [x] is reached, and the invariant [Q] established by it
    survives the later ones. *)
Lemma foldM_reach (P : S → Prop) (Q : S → Prop) f l s s' x :
  x ∈ l → P s →
  (∀ s y s', y ∈ l → P s → f s y = Ret s' → P s') →
  (∀ s s', P s → f s x = Ret s' → Q s') →
  (∀ s y s', y ∈ l → P s → Q s → f s y = Ret s' → Q s') →
  foldM f l s = Ret s' → Q s'.
Proof.
  intros Hx Hs HP HQ HK Hl.
  apply list_elem_of_split in Hx as (l1 & l2 & ->).
  rewrite foldM_app in Hl. go_inv Hl. simpl in Hl. go_inv Hl.
  assert (P r) as Hr.
  { eapply foldM_ind; [exact Hs| |exact E].
    intros; eapply HP; eauto. set_solver. }
  assert (P r0 ∧ Q r0) as Hr0.
  { split; [eapply HP; [|exact Hr|exact E0]; set_solver | by eapply HQ]. }
  eapply (foldM_ind (λ s, P s ∧ Q s)) in Hl; [tauto|done|].
  intros s1 y s2 Hy [H1 H2] Hf. split; [eapply HP | eapply HK]; eauto; set_solver.
Qed.
End loops.

(** What holds of every result of a loop body holds of all results. *)
Lemma mapM_go_post {A B} (P : B → Prop) (f : A → go B) l ys :
  (∀ x y, f x = Ret y → P y) → mapM_go f l = Ret ys → Forall P ys.
Proof.
  intros Hf. revert ys. induction l as [|x l IH]; intros ys Hm; cbn in Hm.
  - apply Ret_inj in Hm as <-. constructor.
  - go_inv Hm. apply Ret_inj in Hm as <-. constructor; eauto.
Qed.

(** A panic of the loop is one of its body. *)
Lemma mapM_go_panic {A B} (f : A → go B) l c : mapM_go f l = Panic c → ∃ x, x ∈ l ∧ f x = Panic c.
Proof.
  induction l as [|x l IH]; cbn; [done|]. destruct (f x) as [y|c'] eqn:E; cbn.
  - destruct (mapM_go f l) as [ys|c']; [done|]. intros [= ->]. destruct IH as (x' & ? & ?); [done|].
    exists x'. split; [by right|done].
  - intros [= ->]. exists x. split; [by left|done].
Qed.

Lemma Forall_snoc {A} (P : A → Prop) l x : Forall P l → P x → Forall P (l ++ [x]).
Proof. intros. apply Forall_app. auto. Qed.

(** ** Counting the elements of a list that is updated *)

Lemma sum_list_with_alter {A} (f : A → nat) (g : A → A) l i x :
  l !! i = Some x →
  (sum_list_with f (alter g i l) + f x = sum_list_with f l + f (g x))%nat.
Proof.
  revert i. induction l as [|y l IH]; intros [|i] Hi; try done.
  - injection Hi as ->. cbn. lia.
  - specialize (IH i Hi). change (alter g (S i) (y :: l)) with (y :: alter g i l). cbn. lia.
Qed.

Lemma sum_list_with_pos {A} (f : A → nat) l :
  (0 < sum_list_with f l)%nat → ∃ i x, l !! i = Some x ∧ (0 < f x)%nat.
Proof.
  induction l as [|y l IH]; cbn; [lia|]. intros Hs. destruct (decide (f y = 0)%nat) as [E|E].
  - destruct IH as (i & x & ? & ?); [lia|]. by exists (S i), x.
  - exists 0%nat, y. split; [done|lia].
Qed.

Lemma Forall_alter_lookup {A} (P : A → Prop) (g : A → A) l i x :
  Forall P l → l !! i = Some x → P (g x) → Forall P (alter g i l).
Proof.
  intros Hl Hi Hg. apply Forall_alter; [done|]. intros y Hy _. by simplify_eq.
Qed.

(** When the sum is one, an element with a share has all of it. *)
Lemma sum_list_with_unique {A} (f : A → nat) l i j x y :
  sum_list_with f l = 1%nat → l !! i = Some x → f x = 1%nat → l !! j = Some y → i ≠ j →
  f y = 0%nat.
Proof.
  revert i j. induction l as [|z l IH]; intros [|i] [|j]; try done; cbn; intros Hs Hx Hfx Hy Hij.
  - injection Hx as ->. apply list_elem_of_lookup_2 in Hy. pose proof (sum_list_with_in y f l Hy). lia.
  - injection Hy as ->. apply list_elem_of_lookup_2 in Hx. pose proof (sum_list_with_in x f l Hx). lia.
  - pose proof (sum_list_with_in x f l (list_elem_of_lookup_2 _ _ _ Hx)).
    eapply (IH i j); try done; [lia|congruence].
Qed.

(** ** Go errors

    A value of type [error] is [None] for nil and carries the message (or the
    identity of the error variable) otherwise. *)

Definition error : Type := option string.

(** ** Strings

    A Go [string] is a sequence of bytes, which is what [string] (a list of
    8-bit [ascii]) is; [bytes s] and [str l] convert to and from [[]byte]. *)

Abbreviation bytes := String.list_ascii_of_string.
Abbreviation str := String.string_of_list_ascii.

Lemma str_bytes s : str (bytes s) = s.
Proof. apply String.string_of_list_ascii_of_string. Qed.
Lemma bytes_str l : bytes (str l) = l.
Proof. apply String.list_ascii_of_string_of_list_ascii. Qed.

Lemma bytes_app s t : bytes (s +:+ t) = bytes s ++ bytes t.
Proof. induction s as [|c s IH]; [done|]. exact (f_equal (cons c) IH). Qed.
Lemma str_app l k : str (l ++ k) = str l +:+ str k.
Proof. induction l as [|c l IH]; [done|]. exact (f_equal (String c) IH). Qed.
Lemma length_bytes s : length (bytes s) = String.length s.
Proof. induction s as [|c s IH]; [done|]. cbn. by f_equal. Qed.

#[export] Instance bytes_inj : Inj (=) (=) bytes.
Proof. intros s t H. rewrite <-(str_bytes s), <-(str_bytes t). by rewrite H. Qed.
#[export] Instance str_inj : Inj (=) (=) str.
Proof. intros l k H. rewrite <-(bytes_str l), <-(bytes_str k). by rewrite H. Qed.

Lemma app_string_assoc (s t u : string) : s +:+ (t +:+ u) = (s +:+ t) +:+ u.
Proof. apply (inj bytes). by rewrite !bytes_app, (assoc_L app). Qed.
Lemma app_string_nil_r (s : string) : s +:+ "" = s.
Proof. apply (inj bytes). rewrite bytes_app. apply app_nil_r. Qed.
Lemma length_app_string s t :
  String.length (s +:+ t) = (String.length s + String.length t)%nat.
Proof. by rewrite <-!length_bytes, bytes_app, length_app. Qed.

#[export] Instance app_string_inj_r t : Inj (=) (=) (λ s, s +:+ t).
Proof.
  intros s1 s2 H. apply (inj bytes). apply (f_equal bytes) in H.
  rewrite !bytes_app in H. by apply (inj (.++ bytes t)) in H.
Qed.

(** A byte occurs in a string: [strings.IndexByte(s, c) >= 0]. *)
Definition has_byte (c : ascii) (s : string) : bool := bool_decide (c ∈ bytes s).

Lemma has_byte_true c s : has_byte c s = true ↔ c ∈ bytes s.
Proof. apply bool_decide_eq_true. Qed.
Lemma has_byte_false c s : has_byte c s = false ↔ c ∉ bytes s.
Proof. apply bool_decide_eq_false. Qed.

(** ** Hint database of the development *)
Create HintDb mdns discriminated.
#[export] Hint Rewrite bytes_app str_bytes bytes_str length_app_string : mdns.
