(* ===== verification/GoStrings.v ===== *)
(** * The Go packages [strings], [bytes], [unicode/utf8] and [strconv]

    What the program uses of them, for the toolchain the build pins
    (go1.6.2, src/circle.yml).  Strings are byte sequences.  The case tables
    of [unicode] are a parameter ([UnicodeTables]): only strings with a byte
    above 0x7f consult them. *)

From S2P Require Import Prelude.

(** ** Bytes *)

Definition code (c : ascii) : Z := Z.of_N (N_of_ascii c).
Definition chr (n : Z) : ascii := ascii_of_N (Z.to_N n).

Lemma code_range c : (0 ≤ code c < 256)%Z.
Proof. unfold code. pose proof (N_ascii_bounded c). lia. Qed.
Lemma chr_code c : chr (code c) = c.
Proof. unfold chr, code. rewrite N2Z.id. apply ascii_N_embedding. Qed.
Lemma code_chr n : (0 ≤ n < 256)%Z → code (chr n) = n.
Proof. intros ?. unfold chr, code. rewrite N_ascii_embedding; lia. Qed.
#[export] Instance code_inj : Inj (=) (=) code.
Proof. intros c d H. by rewrite <-(chr_code c), H, chr_code. Qed.

Definition between (lo hi : Z) (c : ascii) : bool :=
  (lo <=? code c)%Z && (code c <=? hi)%Z.
Definition is_digit (c : ascii) : bool := between 48 57 c.
Definition is_lower (c : ascii) : bool := between 97 122 c.
Definition is_upper (c : ascii) : bool := between 65 90 c.
Definition is_ascii (c : ascii) : bool := (code c <? 128)%Z.

(** ** Searching and splitting *)

Fixpoint has_prefix (p s : string) : bool :=
  match p, s with
  | "", _ => true
  | String a p, String b s => bool_decide (a = b) && has_prefix p s
  | _, "" => false
  end.

Fixpoint drop_str (n : nat) (s : string) : string :=
  match n, s with
  | 0, _ => s
  | S n, String _ s => drop_str n s
  | S _, "" => ""
  end.

Definition HasPrefix (s p : string) : bool := has_prefix p s.

Definition HasSuffix (s p : string) : bool :=
  (String.length p <=? String.length s)%nat
  && bool_decide (drop_str (String.length s - String.length p) s = p).

(** [cut sep s] is [s] split at the first occurrence of [sep]. *)
Fixpoint cut (sep s : string) : option (string * string) :=
  if has_prefix sep s then Some ("", drop_str (String.length sep) s)
  else match s with
       | "" => None
       | String c s =>
           match cut sep s with
           | Some (a, b) => Some (String c a, b)
           | None => None
           end
       end.

Definition Contains (s sub : string) : bool :=
  match cut sub s with Some _ => true | None => false end.

(** [strings.Split(s, sep)] for a non-empty [sep]: every occurrence of [sep],
    left to right and without overlaps, ends a field.  A cut shortens the
    rest by at least one byte, so [length s] cuts always suffice. *)
Fixpoint split_fuel (n : nat) (sep s : string) : list string :=
  match n with
  | 0 => [s]
  | S n =>
      match cut sep s with
      | Some (a, b) => a :: split_fuel n sep b
      | None => [s]
      end
  end.

Definition Split (s sep : string) : list string := split_fuel (String.length s) sep s.

(** [strings.SplitN(s, sep, 2)]. *)
Definition SplitN2 (s sep : string) : list string :=
  match cut sep s with Some (a, b) => [a; b] | None => [s] end.

Fixpoint Join (l : list string) (sep : string) : string :=
  match l with
  | [] => ""
  | [s] => s
  | s :: l => s +:+ sep +:+ Join l sep
  end.

(** [strings.Replace(s, old, new, -1)] for a non-empty [old]. *)
Definition ReplaceAll (s old new : string) : string := Join (Split s old) new.

(** [strings.Replace(s, old, new, 1)] for a non-empty [old]. *)
Definition Replace1 (s old new : string) : string :=
  match cut old s with Some (a, b) => a +:+ new +:+ b | None => s end.

(** ** Trimming *)

Fixpoint trim_left (p : ascii → bool) (l : list ascii) : list ascii :=
  match l with
  | [] => []
  | c :: l' => if p c then trim_left p l' else l
  end.

Definition trim_right (p : ascii → bool) (l : list ascii) : list ascii :=
  rev (trim_left p (rev l)).

Definition TrimRight (s cutset : string) : string :=
  str (trim_right (λ c, has_byte c cutset) (bytes s)).

(** [strings.TrimSpace]: the UTF-8 encodings of the code points for which
    [unicode.IsSpace] holds.  A string that starts (ends) with the bytes of
    one of them starts (ends) with that rune, so trimming by these byte
    strings is trimming by runes. *)
Definition u3 (a b c : Z) : string := str [chr a; chr b; chr c].

Definition space_runes : list string :=
  (λ n, str [chr n]) <$> [9; 10; 11; 12; 13; 32]%Z.

Definition wide_space_runes : list string :=
  [str [chr 0xC2; chr 0x85]; str [chr 0xC2; chr 0xA0]; u3 0xE1 0x9A 0x80]
  ++ ((λ n, u3 0xE2 0x80 (0x80 + n)) <$> [0; 1; 2; 3; 4; 5; 6; 7; 8; 9; 10]%Z)
  ++ [u3 0xE2 0x80 0xA8; u3 0xE2 0x80 0xA9; u3 0xE2 0x80 0xAF;
      u3 0xE2 0x81 0x9F; u3 0xE3 0x80 0x80].

Fixpoint strip_first (f : string → string → option string) (ps : list string)
    (s : string) : option string :=
  match ps with
  | [] => None
  | p :: ps => match f p s with Some r => Some r | None => strip_first f ps s end
  end.

Definition strip_prefix (p s : string) : option string :=
  if HasPrefix s p then Some (drop_str (String.length p) s) else None.
Definition strip_suffix (p s : string) : option string :=
  if HasSuffix s p
  then Some (str (take (String.length s - String.length p) (bytes s))) else None.

Fixpoint strip_fuel (n : nat) (f : string → string → option string) (s : string) : string :=
  match n with
  | 0 => s
  | S n =>
      match strip_first f (space_runes ++ wide_space_runes) s with
      | Some r => strip_fuel n f r
      | None => s
      end
  end.

Definition TrimSpace (s : string) : string :=
  let l := strip_fuel (String.length s) strip_prefix s in
  strip_fuel (String.length l) strip_suffix l.

(** ** Case *)

Class UnicodeTables := { unicode_ToLower : string → string }.

Definition lower_byte (c : ascii) : ascii :=
  if is_upper c then chr (code c + 32) else c.

Definition ToLower `{UnicodeTables} (s : string) : string :=
  if forallb is_ascii (bytes s) then str (lower_byte <$> bytes s)
  else unicode_ToLower s.

(** ** [strconv] on 64-bit integers *)

Fixpoint digits_fuel (n : nat) (x : Z) (acc : list ascii) : list ascii :=
  match n with
  | 0 => acc
  | S n =>
      let acc := chr (48 + x mod 10) :: acc in
      if (x <? 10)%Z then acc else digits_fuel n (x / 10) acc
  end.

(** Twenty digits hold every 64-bit value. *)
Definition utoa (x : Z) : string := str (digits_fuel 20 x []).

Definition Itoa (x : Z) : string :=
  if (x <? 0)%Z then String "-" (utoa (- x)) else utoa x.

Definition maxUint64 : Z := 2 ^ 64 - 1.
Definition maxInt64 : Z := 2 ^ 63 - 1.
Definition minInt64 : Z := - 2 ^ 63.

Inductive num_error : Set := ErrSyntax | ErrRange.

#[export] Instance num_error_eq_dec : EqDecision num_error.
Proof. solve_decision. Defined.

(** The loop of [strconv.ParseUint(s, 10, 64)]: a byte that is no decimal
    digit is a syntax error, and a value above 2^64-1 is a range error as
    soon as it is reached. *)
Fixpoint parse_digits (l : list ascii) (n : Z) : Z * option num_error :=
  match l with
  | [] => (n, None)
  | c :: l =>
      if is_digit c then
        let n' := (n * 10 + (code c - 48))%Z in
        if (maxUint64 <? n')%Z then (maxUint64, Some ErrRange)
        else parse_digits l n'
      else (0%Z, Some ErrSyntax)
  end.

Definition ParseUint (l : list ascii) : Z * option num_error :=
  match l with [] => (0%Z, Some ErrSyntax) | _ => parse_digits l 0 end.

(** [strconv.Atoi]: the value is clamped on a range error and 0 on a syntax
    error; callers that drop the error use that value. *)
Definition Atoi (s : string) : Z * option num_error :=
  match bytes s with
  | [] => (0%Z, Some ErrSyntax)
  | c :: r =>
      let neg := bool_decide (c = "-"%char) in
      let l := if neg || bool_decide (c = "+"%char) then r else c :: r in
      let '(un, err) := ParseUint l in
      match err with
      | Some ErrSyntax => (0%Z, Some ErrSyntax)
      | _ =>
          if negb neg && (maxInt64 <? un)%Z then (maxInt64, Some ErrRange)
          else if neg && (2 ^ 63 <? un)%Z then (minInt64, Some ErrRange)
          else (if neg then - un else un, None)%Z
      end
  end.

(** ** [unicode/utf8] *)

Definition RuneError : Z := 0xFFFD.

Definition cont (c : ascii) : bool := between 0x80 0xBF c.
Definition low6 (c : ascii) : Z := Z.land (code c) 0x3F.

(** [utf8.DecodeRune]: the first rune of [l] and its width; an invalid
    encoding yields [RuneError] of width 1. *)
Definition DecodeRune (l : list ascii) : Z * nat :=
  match l with
  | [] => (RuneError, 0)
  | a :: l =>
      if is_ascii a then (code a, 1)
      else if between 0xC2 0xDF a then
        match l with
        | b :: _ =>
            if cont b then (Z.lor (Z.shiftl (Z.land (code a) 0x1F) 6) (low6 b), 2)
            else (RuneError, 1)
        | _ => (RuneError, 1)
        end
      else if between 0xE0 0xEF a then
        let lo := (if bool_decide (code a = 0xE0) then 0xA0 else 0x80)%Z in
        let hi := (if bool_decide (code a = 0xED) then 0x9F else 0xBF)%Z in
        match l with
        | b :: c :: _ =>
            if between lo hi b && cont c then
              (Z.lor (Z.shiftl (Z.land (code a) 0xF) 12)
                 (Z.lor (Z.shiftl (low6 b) 6) (low6 c)), 3)
            else (RuneError, 1)
        | _ => (RuneError, 1)
        end
      else if between 0xF0 0xF4 a then
        let lo := (if bool_decide (code a = 0xF0) then 0x90 else 0x80)%Z in
        let hi := (if bool_decide (code a = 0xF4) then 0x8F else 0xBF)%Z in
        match l with
        | b :: c :: d :: _ =>
            if between lo hi b && cont c && cont d then
              (Z.lor (Z.shiftl (Z.land (code a) 0x7) 18)
                 (Z.lor (Z.shiftl (low6 b) 12)
                    (Z.lor (Z.shiftl (low6 c) 6) (low6 d))), 4)
            else (RuneError, 1)
        | _ => (RuneError, 1)
        end
      else (RuneError, 1)
  end.

(** [utf8.EncodeRune]; surrogates and out-of-range values encode
    [RuneError]. *)
Definition EncodeRune (r : Z) : list ascii :=
  let enc r :=
    if (r <? 0x80)%Z then [chr r]
    else if (r <? 0x800)%Z then
      [chr (Z.lor 0xC0 (Z.shiftr r 6)); chr (Z.lor 0x80 (Z.land r 0x3F))]
    else if (r <? 0x10000)%Z then
      [chr (Z.lor 0xE0 (Z.shiftr r 12)); chr (Z.lor 0x80 (Z.land (Z.shiftr r 6) 0x3F));
       chr (Z.lor 0x80 (Z.land r 0x3F))]
    else
      [chr (Z.lor 0xF0 (Z.shiftr r 18)); chr (Z.lor 0x80 (Z.land (Z.shiftr r 12) 0x3F));
       chr (Z.lor 0x80 (Z.land (Z.shiftr r 6) 0x3F)); chr (Z.lor 0x80 (Z.land r 0x3F))]
  in
  if (r <? 0)%Z || (0x10FFFF <? r)%Z || ((0xD800 <=? r)%Z && (r <=? 0xDFFF)%Z)
  then enc RuneError else enc r.

(** [bytes.Map(mapping, s)]: the mapped bytes.  A rune is at least one byte
    wide, so [length s] rounds consume the input. *)
Fixpoint map_fuel (n : nat) (mapping : Z → Z) (s : list ascii) : list ascii :=
  match n, s with
  | 0, _ | _, [] => []
  | S n, _ =>
      let '(r, wid) := DecodeRune s in
      let out := if (0 <=? mapping r)%Z then EncodeRune (mapping r) else [] in
      out ++ map_fuel n mapping (drop wid s)
  end.

Definition bytes_Map (mapping : Z → Z) (s : list ascii) : list ascii :=
  map_fuel (length s) mapping s.

(** ** Facts: splitting *)

Lemma has_prefix_spec p s :
  has_prefix p s = true ↔ ∃ t, s = p +:+ t.
Proof.
  revert s; induction p as [|a p IH]; intros s; [naive_solver|].
  destruct s as [|b s]; [by split; [|intros [t ?]]|].
  cbn. rewrite andb_true_iff, bool_decide_eq_true, IH. split.
  - intros [-> [t ->]]. by exists t.
  - intros [t Ht]. injection Ht as -> ->. eauto.
Qed.

Lemma drop_str_app p t : drop_str (String.length p) (p +:+ t) = t.
Proof. induction p as [|a p IH]; [by destruct t|exact IH]. Qed.

Lemma has_prefix_drop p s :
  has_prefix p s = true → s = p +:+ drop_str (String.length p) s.
Proof. intros [t ->]%has_prefix_spec. by rewrite drop_str_app. Qed.

Lemma cut_Some sep s a b : cut sep s = Some (a, b) → s = a +:+ sep +:+ b.
Proof.
  revert a b; induction s as [|c s IH]; intros a b; cbn [cut].
  - destruct (has_prefix sep "") eqn:E; [|done].
    intros [= <- <-]. by apply has_prefix_drop in E.
  - destruct (has_prefix sep (String c s)) eqn:E.
    + intros [= <- <-]. by apply has_prefix_drop in E.
    + destruct (cut sep s) as [[a' b']|]; [|done]. intros [= <- <-].
      exact (f_equal (String c) (IH a' b' eq_refl)).
Qed.

Section one_byte_separator.
Context (c : ascii).
Implicit Types (s t : string).

Abbreviation sep := (String c "").

Lemma cut_byte_None s : cut sep s = None ↔ c ∉ bytes s.
Proof.
  induction s as [|d s IH]; [split; [intros _; apply not_elem_of_nil|done]|].
  cbn [cut has_prefix]. rewrite andb_true_r. case_bool_decide as Hd.
  - subst. split; [done|]. intros []. by left.
  - change (bytes (String d s)) with (d :: bytes s). rewrite not_elem_of_cons.
    destruct (cut sep s) as [[??]|]; naive_solver.
Qed.

Lemma cut_byte_app s t : c ∉ bytes s → cut sep (s +:+ String c t) = Some (s, t).
Proof.
  induction s as [|d s IH]; intros Hs.
  - change ("" +:+ String c t) with (String c t).
    cbn [cut has_prefix]. by rewrite bool_decide_eq_true_2.
  - change (bytes (String d s)) with (d :: bytes s) in Hs.
    apply not_elem_of_cons in Hs as [Hd Hs].
    change (String d s +:+ String c t) with (String d (s +:+ String c t)).
    cbn [cut has_prefix]. rewrite bool_decide_eq_false_2, IH by done. done.
Qed.

Lemma split_fuel_byte_nosep n s : c ∉ bytes s → split_fuel n sep s = [s].
Proof. intros Hs. destruct n; [done|]. cbn. by rewrite (proj2 (cut_byte_None s)). Qed.

Lemma split_fuel_enough n m s :
  (String.length s ≤ n)%nat → (String.length s ≤ m)%nat →
  split_fuel n sep s = split_fuel m sep s.
Proof.
  revert m s; induction n as [|n IH]; intros m s Hn Hm.
  - destruct s; [|cbn in Hn; lia]. by destruct m.
  - destruct m as [|m]; [destruct s; [done|cbn in Hm; lia]|].
    cbn. destruct (cut sep s) as [[a b]|] eqn:E; [|done].
    apply cut_Some in E as ->. rewrite !length_app_string in Hn, Hm. cbn in Hn, Hm.
    f_equal. apply IH; lia.
Qed.

(** A field that does not hold the separator comes off the front. *)
Lemma Split_cons s t :
  c ∉ bytes s → Split (s +:+ String c t) sep = s :: Split t sep.
Proof.
  intros Hs. unfold Split. rewrite length_app_string. cbn [String.length].
  rewrite Nat.add_succ_r. cbn [split_fuel]. rewrite cut_byte_app by done.
  f_equal. apply split_fuel_enough; lia.
Qed.

Lemma Split_nosep s : c ∉ bytes s → Split s sep = [s].
Proof. apply split_fuel_byte_nosep. Qed.

Lemma split_fuel_fields n s :
  (String.length s ≤ n)%nat → Forall (λ f, c ∉ bytes f) (split_fuel n sep s).
Proof.
  revert s; induction n as [|n IH]; intros s Hn.
  - destruct s; [|cbn in Hn; lia]. repeat constructor. apply not_elem_of_nil.
  - cbn. destruct (cut sep s) as [[a b]|] eqn:E.
    + pose proof E as Es. apply cut_Some in Es as ->.
      rewrite !length_app_string in Hn. cbn in Hn. constructor; [|apply IH; lia].
      destruct (decide (c ∈ bytes a)) as [Ha|]; [|done]. exfalso.
      apply list_elem_of_split_l in Ha as (l1 & l2 & Ha & Hl1).
      assert (a = str l1 +:+ String c (str l2)) as ->.
      { apply (inj bytes). rewrite bytes_app. cbn. by rewrite !bytes_str. }
      rewrite <-app_string_assoc in E.
      change (String c (str l2) +:+ sep +:+ b) with (String c (str l2 +:+ sep +:+ b)) in E.
      rewrite cut_byte_app in E by by rewrite bytes_str.
      injection E as E _. apply (f_equal String.length) in E.
      rewrite length_app_string in E. cbn in E. lia.
    + constructor; [|done]. by apply cut_byte_None.
Qed.

(** No field of a split holds the separator. *)
Lemma Split_fields s : Forall (λ f, c ∉ bytes f) (Split s sep).
Proof. by apply split_fuel_fields. Qed.
End one_byte_separator.

Lemma split_fuel_nonempty n sep s : split_fuel n sep s ≠ [].
Proof. destruct n; [done|]. cbn. by destruct (cut sep s) as [[??]|]. Qed.

Lemma Join_split_fuel n sep s : Join (split_fuel n sep s) sep = s.
Proof.
  revert s; induction n as [|n IH]; intros s; [done|].
  cbn. destruct (cut sep s) as [[a b]|] eqn:E; [|done].
  apply cut_Some in E as ->.
  pose proof (split_fuel_nonempty n sep b) as Hne. specialize (IH b).
  destruct (split_fuel n sep b) as [|f fs]; [done|]. by rewrite <-IH.
Qed.

(** [strings.Join] undoes [strings.Split]. *)
Lemma Join_Split s sep : Join (Split s sep) sep = s.
Proof. apply Join_split_fuel. Qed.

Lemma Join_cons s l sep : l ≠ [] → Join (s :: l) sep = s +:+ sep +:+ Join l sep.
Proof. by destruct l. Qed.

(** [strings.Split] undoes [strings.Join] of separator-free fields. *)
Lemma Split_Join c l :
  l ≠ [] → Forall (λ f, c ∉ bytes f) l → Split (Join l (String c "")) (String c "") = l.
Proof.
  induction l as [|s l IH]; [done|]. intros _ Hl. inversion Hl as [|?? Hs Hl']; subst.
  destruct (decide (l = [])) as [->|Hne]; [by apply Split_nosep|].
  rewrite Join_cons by done. change (String c "" +:+ Join l (String c ""))
    with (String c (Join l (String c ""))).
  rewrite Split_cons by done. by rewrite IH.
Qed.

(** The bytes of a join come from the fields or the separator. *)
Lemma bytes_Join l sep c :
  c ∈ bytes (Join l sep) → c ∈ bytes sep ∨ ∃ f, f ∈ l ∧ c ∈ bytes f.
Proof.
  induction l as [|s l IH]; [intros H; by apply elem_of_nil in H|].
  destruct (decide (l = [])) as [->|Hne].
  - intros H. right. exists s. split; [by left|done].
  - rewrite Join_cons, !bytes_app, !elem_of_app by done. set_solver.
Qed.

(** ** Facts: trimming *)

Lemma trim_left_suffix p l : ∃ k, l = k ++ trim_left p l ∧ Forall (λ c, p c = true) k.
Proof.
  induction l as [|c l (k & Hk & Hf)]; [by exists []|].
  cbn. destruct (p c) eqn:E; [|by exists []].
  exists (c :: k). split; [by rewrite Hk at 1|by constructor].
Qed.

Lemma trim_left_head p l c : head (trim_left p l) = Some c → p c = false.
Proof.
  induction l as [|d l IH]; [done|]. cbn. destruct (p d) eqn:E; [done|].
  by intros [= <-].
Qed.

Lemma trim_left_id p l : (∀ c, head l = Some c → p c = false) → trim_left p l = l.
Proof. destruct l as [|c l]; [done|]. intros H. cbn. by rewrite H. Qed.

Lemma trim_left_idemp p l : trim_left p (trim_left p l) = trim_left p l.
Proof. apply trim_left_id. intros c. apply trim_left_head. Qed.

Lemma trim_right_prefix p l :
  ∃ k, l = trim_right p l ++ k ∧ Forall (λ c, p c = true) k.
Proof.
  destruct (trim_left_suffix p (rev l)) as (k & Hk & Hf).
  exists (rev k). split.
  - unfold trim_right. rewrite <-rev_app_distr, <-Hk. by rewrite rev_involutive.
  - by apply Forall_rev.
Qed.

Lemma trim_right_last p l c : last (trim_right p l) = Some c → p c = false.
Proof.
  unfold trim_right. intros H. apply (trim_left_head p (rev l)).
  rewrite <-H. destruct (trim_left p (rev l)) as [|d k]; [done|].
  cbn. by rewrite last_snoc.
Qed.

Lemma trim_right_id p l : (∀ c, last l = Some c → p c = false) → trim_right p l = l.
Proof.
  intros H. unfold trim_right. rewrite trim_left_id; [apply rev_involutive|].
  intros c Hc. apply H. destruct (rev l) as [|d k] eqn:E; [done|].
  injection Hc as ->. rewrite <-(rev_involutive l), E. cbn. by rewrite last_snoc.
Qed.

Lemma Forall_trim_left (P : ascii → Prop) p l : Forall P l → Forall P (trim_left p l).
Proof.
  intros H. destruct (trim_left_suffix p l) as (k & Hk & _). rewrite Hk in H.
  by apply Forall_app in H as [].
Qed.
Lemma Forall_trim_right (P : ascii → Prop) p l : Forall P l → Forall P (trim_right p l).
Proof. intros H. unfold trim_right. by apply Forall_rev, Forall_trim_left, Forall_rev. Qed.

Lemma length_trim_left p l : (length (trim_left p l) ≤ length l)%nat.
Proof.
  destruct (trim_left_suffix p l) as (k & Hk & _). rewrite Hk at 2.
  rewrite length_app. lia.
Qed.
Lemma length_trim_right p l : (length (trim_right p l) ≤ length l)%nat.
Proof.
  destruct (trim_right_prefix p l) as (k & Hk & _). rewrite Hk at 2.
  rewrite length_app. lia.
Qed.

(** ** Facts: decimal numbers *)

Lemma code_digit x : (0 ≤ x < 10)%Z → code (chr (48 + x)) = (48 + x)%Z.
Proof. intros. apply code_chr. lia. Qed.

Lemma is_digit_chr x : (0 ≤ x < 10)%Z → is_digit (chr (48 + x)) = true.
Proof. intros. unfold is_digit, between. rewrite code_digit by lia. lia. Qed.

Lemma is_digit_range c : is_digit c = true → (48 ≤ code c ≤ 57)%Z.
Proof. unfold is_digit, between. lia. Qed.

Lemma parse_digits_cons x n l :
  (0 ≤ x < 10)%Z → (0 ≤ n)%Z → (n * 10 + x ≤ maxUint64)%Z →
  parse_digits (chr (48 + x) :: l) n = parse_digits l (n * 10 + x).
Proof.
  intros Hx Hn Hle. cbn [parse_digits]. rewrite is_digit_chr, code_digit by done.
  replace (48 + x - 48)%Z with x by lia.
  destruct (Z.ltb_spec maxUint64 (n * 10 + x)); [lia|done].
Qed.

Lemma parse_digits_fuel n x acc :
  (0 ≤ x < 10 ^ Z.of_nat n)%Z → (x ≤ maxUint64)%Z →
  parse_digits (digits_fuel n x acc) 0 = parse_digits acc x.
Proof.
  revert x acc; induction n as [|n IH]; intros x acc Hx Hmax.
  - assert (x = 0)%Z as -> by (change (10 ^ Z.of_nat 0)%Z with 1%Z in Hx; lia). done.
  - cbn [digits_fuel]. assert (0 ≤ x mod 10 < 10)%Z as Hm by (apply Z.mod_pos_bound; lia).
    pose proof (Z_div_mod_eq_full x 10) as Hdm.
    destruct (Z.ltb_spec x 10).
    + rewrite parse_digits_cons by (rewrite ?Z.mod_small by lia; lia).
      by rewrite Z.mod_small by lia.
    + assert (0 ≤ x / 10 < 10 ^ Z.of_nat n)%Z as Hd.
      { split; [apply Z.div_pos; lia|]. apply Z.div_lt_upper_bound; [lia|].
        rewrite Nat2Z.inj_succ, Z.pow_succ_r in Hx by lia. lia. }
      rewrite IH by lia. rewrite parse_digits_cons by lia. f_equal. lia.
Qed.

Lemma digits_fuel_digits n x acc :
  (0 ≤ x)%Z → Forall (λ c, is_digit c = true) acc →
  Forall (λ c, is_digit c = true) (digits_fuel n x acc).
Proof.
  revert x acc; induction n as [|n IH]; intros x acc Hx Hacc; [done|].
  cbn [digits_fuel].
  assert (is_digit (chr (48 + x mod 10)) = true) by (apply is_digit_chr, Z.mod_pos_bound; lia).
  destruct (x <? 10)%Z; [by constructor|].
  apply IH; [apply Z.div_pos; lia|by constructor].
Qed.

Lemma digits_fuel_nonempty n x acc :
  n ≠ 0 ∨ acc ≠ [] → digits_fuel n x acc ≠ [].
Proof.
  revert x acc; induction n as [|n IH]; intros x acc H; [naive_solver|].
  cbn. destruct (x <? 10)%Z; [done|]. apply IH. by right.
Qed.

Lemma utoa_digits x : (0 ≤ x)%Z → Forall (λ c, is_digit c = true) (bytes (utoa x)).
Proof. intros. unfold utoa. rewrite bytes_str. by apply digits_fuel_digits. Qed.

Lemma utoa_nonempty x : bytes (utoa x) ≠ [].
Proof. unfold utoa. rewrite bytes_str. apply digits_fuel_nonempty. by left. Qed.

Lemma ParseUint_utoa x :
  (0 ≤ x ≤ maxUint64)%Z → ParseUint (bytes (utoa x)) = (x, None).
Proof.
  intros Hx. pose proof (utoa_nonempty x) as Hne. unfold ParseUint.
  destruct (bytes (utoa x)) as [|c l] eqn:E; [done|]. rewrite <-E.
  unfold utoa. rewrite bytes_str, parse_digits_fuel; [done| |lia].
  split; [lia|]. unfold maxUint64 in Hx.
  change (10 ^ Z.of_nat 20)%Z with 100000000000000000000%Z. lia.
Qed.

Lemma digit_not_sign c : is_digit c = true → c ≠ "-"%char ∧ c ≠ "+"%char.
Proof. intros H. split; intros ->; by vm_compute in H. Qed.

(** [strconv.Atoi] undoes [strconv.Itoa] on every 64-bit integer. *)
Lemma Atoi_Itoa x : (minInt64 ≤ x ≤ maxInt64)%Z → Atoi (Itoa x) = (x, None).
Proof.
  intros Hx. unfold minInt64, maxInt64 in Hx. unfold Itoa, Atoi.
  destruct (Z.ltb_spec x 0).
  - change (bytes (String "-" (utoa (- x)))) with ("-"%char :: bytes (utoa (- x))).
    cbv beta iota zeta. rewrite bool_decide_eq_true_2 by done. cbn [orb negb andb].
    rewrite ParseUint_utoa by (unfold maxUint64; lia). cbn [andb negb].
    destruct (Z.ltb_spec (2 ^ 63) (- x)); [lia|]. f_equal. lia.
  - pose proof (utoa_digits x ltac:(lia)) as Hd.
    pose proof (ParseUint_utoa x ltac:(unfold maxUint64; lia)) as Hp.
    pose proof (utoa_nonempty x) as Hne.
    destruct (bytes (utoa x)) as [|c l]; [done|].
    inversion Hd as [|?? Hc _]; subst. apply digit_not_sign in Hc as [??].
    cbv beta iota zeta. rewrite !bool_decide_eq_false_2 by done. cbn [orb negb andb].
    rewrite Hp. cbn [andb negb]. unfold maxInt64.
    destruct (Z.ltb_spec (2 ^ 63 - 1) x); [lia|done].
Qed.

Lemma Itoa_bytes x c :
  c ∈ bytes (Itoa x) → is_digit c = true ∨ c = "-"%char.
Proof.
  unfold Itoa. destruct (Z.ltb_spec x 0) as [H|H].
  - change (bytes (String "-" (utoa (- x)))) with ("-"%char :: bytes (utoa (- x))).
    intros [->|Hc]%elem_of_cons; [by right|]. left.
    by eapply (proj1 (Forall_forall _ _) (utoa_digits (- x) ltac:(lia))).
  - intros Hc. left. by eapply (proj1 (Forall_forall _ _) (utoa_digits x H)).
Qed.

(** ** Facts: UTF-8

    A mapping that drops every rune above 0x7f acts byte by byte: the bytes
    of a multi-byte rune are all above 0x7f, and so is an invalid byte. *)

Definition byte_map (mapping : Z → Z) (c : ascii) : list ascii :=
  if is_ascii c && (0 <=? mapping (code c))%Z then EncodeRune (mapping (code c)) else [].

Lemma between_high lo hi c :
  (128 ≤ lo)%Z → between lo hi c = true → is_ascii c = false.
Proof. unfold between, is_ascii. lia. Qed.

Lemma lor_ge_l x y : (0 ≤ x)%Z → (0 ≤ y)%Z → (x ≤ Z.lor x y)%Z.
Proof.
  intros Hx Hy. apply Z.ldiff_le; [by apply Z.lor_nonneg|].
  apply Z.bits_inj'. intros i Hi. rewrite Z.ldiff_spec, Z.lor_spec, Z.bits_0.
  by destruct (Z.testbit x i), (Z.testbit y i).
Qed.

Lemma low6_nonneg c : (0 ≤ low6 c)%Z.
Proof. unfold low6. apply Z.land_nonneg. right. lia. Qed.

(** The lead byte of a two-byte sequence carries at least 2 in its low bits,
    and likewise for the longer ones. *)
Lemma lead2_bits a : between 0xC2 0xDF a = true → (2 ≤ Z.land (code a) 0x1F)%Z.
Proof. destruct a as [[] [] [] [] [] [] [] []]; vm_compute; intros; congruence. Qed.
Lemma lead3_bits a b :
  between 0xE0 0xEF a = true →
  between (if bool_decide (code a = 0xE0) then 0xA0 else 0x80)%Z
    (if bool_decide (code a = 0xED) then 0x9F else 0xBF)%Z b = true →
  (1 ≤ Z.land (code a) 0xF ∨ 32 ≤ low6 b)%Z.
Proof.
  intros Ha Hb. destruct (decide (code a = 0xE0)%Z) as [E|E].
  - right. rewrite E in Hb. rewrite bool_decide_eq_true_2 in Hb by done.
    rewrite bool_decide_eq_false_2 in Hb by done. clear Ha E.
    revert Hb. destruct b as [[] [] [] [] [] [] [] []]; vm_compute; intros; congruence.
  - left. revert Ha E. clear Hb.
    destruct a as [[] [] [] [] [] [] [] []]; vm_compute; intros; congruence.
Qed.
Lemma lead4_bits a b :
  between 0xF0 0xF4 a = true →
  between (if bool_decide (code a = 0xF0) then 0x90 else 0x80)%Z
    (if bool_decide (code a = 0xF4) then 0x8F else 0xBF)%Z b = true →
  (1 ≤ Z.land (code a) 0x7 ∨ 16 ≤ low6 b)%Z.
Proof.
  intros Ha Hb. destruct (decide (code a = 0xF0)%Z) as [E|E].
  - right. rewrite E in Hb. rewrite bool_decide_eq_true_2 in Hb by done.
    rewrite bool_decide_eq_false_2 in Hb by done. clear Ha E.
    revert Hb. destruct b as [[] [] [] [] [] [] [] []]; vm_compute; intros; congruence.
  - left. revert Ha E. clear Hb.
    destruct a as [[] [] [] [] [] [] [] []]; vm_compute; intros; congruence.
Qed.

Lemma lor_ge n x y :
  (0 ≤ x)%Z → (0 ≤ y)%Z → (n ≤ x ∨ n ≤ y)%Z → (n ≤ Z.lor x y)%Z.
Proof.
  intros Hx Hy [H|H].
  - pose proof (lor_ge_l x y Hx Hy). lia.
  - pose proof (lor_ge_l y x Hy Hx). rewrite Z.lor_comm. lia.
Qed.

Lemma shiftl_ge n x k : (0 ≤ k)%Z → (0 ≤ n ≤ x)%Z → (n * 2 ^ k ≤ Z.shiftl x k)%Z.
Proof. intros. rewrite Z.shiftl_mul_pow2 by done. apply Z.mul_le_mono_nonneg_r; lia. Qed.

(** Solves [0 ≤ e] for an expression [e] of shifted and masked bytes. *)
Ltac bits_nonneg :=
  repeat first
    [ apply low6_nonneg
    | apply Z.lor_nonneg; split
    | apply Z.shiftl_nonneg
    | apply Z.land_nonneg; right; lia ].

Lemma rune2_ge a b :
  between 0xC2 0xDF a = true →
  (128 ≤ Z.lor (Z.shiftl (Z.land (code a) 0x1F) 6) (low6 b))%Z.
Proof.
  intros H%lead2_bits. apply lor_ge; [bits_nonneg..|left].
  pose proof (shiftl_ge 2 (Z.land (code a) 0x1F) 6 ltac:(lia) ltac:(lia)). lia.
Qed.

Lemma rune3_ge a b c :
  (1 ≤ Z.land (code a) 0xF ∨ 32 ≤ low6 b)%Z →
  (128 ≤ Z.lor (Z.shiftl (Z.land (code a) 0xF) 12)
           (Z.lor (Z.shiftl (low6 b) 6) (low6 c)))%Z.
Proof.
  intros [H|H]; (apply lor_ge; [bits_nonneg..|]).
  - left. pose proof (shiftl_ge 1 (Z.land (code a) 0xF) 12 ltac:(lia) ltac:(lia)). lia.
  - right. apply lor_ge; [bits_nonneg..|left].
    pose proof (shiftl_ge 32 (low6 b) 6 ltac:(lia) ltac:(lia)). lia.
Qed.

Lemma rune4_ge a b c d :
  (1 ≤ Z.land (code a) 0x7 ∨ 16 ≤ low6 b)%Z →
  (128 ≤ Z.lor (Z.shiftl (Z.land (code a) 0x7) 18)
           (Z.lor (Z.shiftl (low6 b) 12) (Z.lor (Z.shiftl (low6 c) 6) (low6 d))))%Z.
Proof.
  intros [H|H]; (apply lor_ge; [bits_nonneg..|]).
  - left. pose proof (shiftl_ge 1 (Z.land (code a) 0x7) 18 ltac:(lia) ltac:(lia)). lia.
  - right. apply lor_ge; [bits_nonneg..|left].
    pose proof (shiftl_ge 16 (low6 b) 12 ltac:(lia) ltac:(lia)). lia.
Qed.

(** What a decoding step reads: one ASCII byte, or a rune of at least 0x80
    from bytes that are all at least 0x80. *)
Definition rune_step (l : list ascii) (r : Z) (w : nat) : Prop :=
  (∃ a l', l = a :: l' ∧ is_ascii a = true ∧ r = code a ∧ w = 1)
  ∨ ((128 ≤ r)%Z ∧ (1 ≤ w)%nat ∧ Forall (λ c, is_ascii c = false) (take w l)).

Lemma DecodeRune_step a l :
  rune_step (a :: l) (DecodeRune (a :: l)).1 (DecodeRune (a :: l)).2.
Proof.
  assert (∀ c, cont c = true → is_ascii c = false) as Hcont
    by (intros c; apply between_high; lia).
  assert (∀ (e : bool) hi c, between (if e then 0xA0 else 0x80)%Z hi c = true → is_ascii c = false)
    as Hb3 by (intros [] hi c; apply between_high; lia).
  assert (∀ (e : bool) hi c, between (if e then 0x90 else 0x80)%Z hi c = true → is_ascii c = false)
    as Hb4 by (intros [] hi c; apply between_high; lia).
  unfold DecodeRune. destruct (is_ascii a) eqn:Ea; [left; naive_solver|].
  assert (rune_step (a :: l) RuneError 1) as Herr.
  { right. unfold RuneError. repeat split; [lia..|]. cbn. rewrite take_0. by constructor. }
  destruct (between 0xC2 0xDF a) eqn:E2.
  { destruct l as [|b l]; [done|]. destruct (cont b) eqn:Eb; [|done].
    right. split_and!; [by apply rune2_ge|cbn; lia|cbn; repeat constructor; auto]. }
  destruct (between 0xE0 0xEF a) eqn:E3.
  { destruct l as [|b [|c l]]; [done..|]. cbv zeta. destruct (_ && _) eqn:Eb; [|done].
    apply andb_true_iff in Eb as [Eb Ec].
    right. split_and!; [by apply rune3_ge, lead3_bits|cbn; lia|].
    cbn. repeat constructor; eauto. }
  destruct (between 0xF0 0xF4 a) eqn:E4; [|done].
  destruct l as [|b [|c [|d l]]]; [done..|]. cbv zeta. destruct (_ && _) eqn:Eb; [|done].
  apply andb_true_iff in Eb as [[Eb Ec]%andb_true_iff Ed].
  right. split_and!; [by apply rune4_ge, lead4_bits|cbn; lia|].
  cbn. repeat constructor; eauto.
Qed.

Lemma byte_map_drop mapping w l :
  Forall (λ c, is_ascii c = false) (take w l) →
  l ≫= byte_map mapping = drop w l ≫= byte_map mapping.
Proof.
  intros H. rewrite <-(take_drop w l) at 1. rewrite bind_app.
  replace (take w l ≫= byte_map mapping) with (@nil ascii); [done|].
  induction H as [|c k Hc Hk IH]; [done|]. cbn. unfold byte_map at 1. by rewrite Hc.
Qed.

(** [bytes.Map] with a mapping that drops every rune above 0x7f maps byte by
    byte. *)
Lemma bytes_Map_bytewise mapping s :
  (∀ r, (128 ≤ r)%Z → (mapping r < 0)%Z) →
  bytes_Map mapping s = s ≫= byte_map mapping.
Proof.
  intros Hm. unfold bytes_Map.
  assert (∀ n s, (length s ≤ n)%nat → map_fuel n mapping s = s ≫= byte_map mapping) as H;
    [|by apply H].
  clear s. induction n as [|n IH]; intros s Hn; [by destruct s; [|cbn in Hn; lia]|].
  destruct s as [|a s]; [done|]. cbn [map_fuel].
  pose proof (DecodeRune_step a s) as Hd.
  destruct (DecodeRune (a :: s)) as [r w]. cbn [fst snd] in Hd.
  destruct Hd as [(a' & l' & [= <- <-] & Ha & -> & ->)|(Hr & Hw & Hf)].
  - change (drop 1 (a :: s)) with (drop 0 s). rewrite drop_0, IH by (cbn in *; lia).
    cbn [mbind list_bind]. f_equal. unfold byte_map. by rewrite Ha.
  - rewrite (byte_map_drop mapping w (a :: s)) by done.
    rewrite IH by (rewrite length_drop; cbn in *; lia).
    pose proof (Hm r Hr). destruct (Z.leb_spec 0 (mapping r)); [lia|done].
Qed.
