(* ===== verification/GoNet.v ===== *)
(** * The Go package [net]: addresses

    [net.ParseIP], [IP.String], [IP.To4], [net.SplitHostPort] and
    [net.JoinHostPort] (go1.6.2).  A [net.IP] is its byte slice, [[]] for
    nil.  Name resolution ([net.ResolveIPAddr]) asks the network and is a
    parameter of the definitions that use it. *)

From S2P Require Import Prelude GoStrings.

Definition IP : Type := list Z.

(** The prefix of an IPv4 address in 16-byte form. *)
Definition v4InV6Prefix : list Z := replicate 10 0%Z ++ [255; 255]%Z.

Definition IPv4 (a b c d : Z) : IP := v4InV6Prefix ++ [a; b; c; d].

Definition To4 (ip : IP) : IP :=
  if (length ip =? 4)%nat then ip
  else if (length ip =? 16)%nat && bool_decide (take 12 ip = v4InV6Prefix) then drop 12 ip
  else [].

(** ** Parsing *)

Definition big : Z := 0xFFFFFF.

(** Decimal to integer: the number and what follows it. *)
Fixpoint dtoi_loop (l : list ascii) (n : Z) : option (Z * list ascii) :=
  match l with
  | c :: r =>
      if is_digit c then
        let n := (n * 10 + (code c - 48))%Z in
        if (big <=? n)%Z then None else dtoi_loop r n
      else Some (n, l)
  | [] => Some (n, [])
  end.

Definition dtoi (l : list ascii) : option (Z * list ascii) :=
  match l with
  | c :: _ => if is_digit c then dtoi_loop l 0 else None
  | [] => None
  end.

Definition hex_digit (c : ascii) : option Z :=
  if is_digit c then Some (code c - 48)%Z
  else if between 97 102 c then Some (code c - 87)%Z
  else if between 65 70 c then Some (code c - 55)%Z
  else None.

Fixpoint xtoi_loop (l : list ascii) (n : Z) : option (Z * list ascii) :=
  match l with
  | c :: r =>
      match hex_digit c with
      | Some d =>
          let n := (n * 16 + d)%Z in
          if (big <=? n)%Z then None else xtoi_loop r n
      | None => Some (n, l)
      end
  | [] => Some (n, [])
  end.

Definition xtoi (l : list ascii) : option (Z * list ascii) :=
  match l with
  | c :: _ => match hex_digit c with Some _ => xtoi_loop l 0 | None => None end
  | [] => None
  end.

(** [k] dotted decimal octets that must end the input. *)
Fixpoint octets (k : nat) (l : list ascii) : option (list Z) :=
  match k with
  | 0 => None
  | S k =>
      match dtoi l with
      | Some (n, r) =>
          if (0xFF <? n)%Z then None
          else match k, r with
               | 0, [] => Some [n]
               | S _, "."%char :: r => cons n <$> octets k r
               | _, _ => None
               end
      | None => None
      end
  end.

Definition parseIPv4 (l : list ascii) : IP :=
  match octets 4 l with
  | Some [a; b; c; d] => IPv4 a b c d
  | _ => []
  end.

(** The loop of [parseIPv6]: [acc] holds the bytes parsed so far, [ell] the
    position of the ellipsis.  Each round parses two bytes, so eight rounds
    reach [IPv6len]. *)
Fixpoint v6_loop (fuel : nat) (l : list ascii) (acc : list Z) (ell : option nat) :
    option (list ascii * list Z * option nat) :=
  match fuel with
  | 0 => Some (l, acc, ell)
  | S fuel =>
      match xtoi l with
      | None => None
      | Some (n, r) =>
          if (0xFFFF <? n)%Z then None else
          match r with
          | "."%char :: _ =>
              if bool_decide (ell = None) && negb (length acc =? 12)%nat then None
              else if (16 <? length acc + 4)%nat then None
              else match parseIPv4 l with
                   | [] => None
                   | ip4 => Some ([], acc ++ drop 12 ip4, ell)
                   end
          | _ =>
              let acc := acc ++ [Z.shiftr n 8; Z.land n 255] in
              match r with
              | [] => Some ([], acc, ell)
              | ":"%char :: ":"%char :: r2 =>
                  if bool_decide (ell = None) then
                    match r2 with
                    | [] => Some ([], acc, Some (length acc))
                    | _ => v6_loop fuel r2 acc (Some (length acc))
                    end
                  else None
              | ":"%char :: [] => None
              | ":"%char :: r1 => v6_loop fuel r1 acc ell
              | _ => None
              end
          end
      end
  end.

Definition v6_finish (st : option (list ascii * list Z * option nat)) : IP :=
  match st with
  | Some ([], acc, ell) =>
      if (length acc <? 16)%nat then
        match ell with
        | None => []
        | Some e => take e acc ++ replicate (16 - length acc) 0%Z ++ drop e acc
        end
      else match ell with None => acc | Some _ => [] end
  | _ => []
  end.

Definition parseIPv6 (l : list ascii) : IP :=
  match l with
  | ":"%char :: ":"%char :: [] => replicate 16 0%Z
  | ":"%char :: ":"%char :: r => v6_finish (v6_loop 8 r [] (Some 0))
  | _ => v6_finish (v6_loop 8 l [] None)
  end.

(** [net.ParseIP]: the first dot or colon decides the family. *)
Fixpoint family (l : list ascii) : option bool :=
  match l with
  | [] => None
  | "."%char :: _ => Some true
  | ":"%char :: _ => Some false
  | _ :: l => family l
  end.

Definition ParseIP (s : string) : IP :=
  match family (bytes s) with
  | Some true => parseIPv4 (bytes s)
  | Some false => parseIPv6 (bytes s)
  | None => []
  end.

(** ** Printing *)

Definition hex_char (d : Z) : ascii := if (d <? 10)%Z then chr (48 + d) else chr (87 + d).

Fixpoint hex_fuel (n : nat) (x : Z) (acc : list ascii) : list ascii :=
  match n with
  | 0 => acc
  | S n =>
      let acc := hex_char (x mod 16) :: acc in
      if (x <? 16)%Z then acc else hex_fuel n (x / 16) acc
  end.

(** The hexadecimal digits of a 16-bit group. *)
Definition hextoa (x : Z) : list ascii := hex_fuel 4 x [].

Fixpoint groups (l : list Z) : list Z :=
  match l with
  | a :: b :: l => (a * 256 + b)%Z :: groups l
  | _ => []
  end.

Fixpoint zero_run (g : list Z) : nat :=
  match g with
  | x :: g => if (x =? 0)%Z then S (zero_run g) else 0
  | [] => 0
  end.

(** The first longest run of zero groups: its start and length (0 for
    none). *)
Fixpoint longest_run (i : nat) (g : list Z) (e0 len : nat) : nat * nat :=
  match g with
  | [] => (e0, len)
  | _ :: g' =>
      let r := zero_run g in
      if (len <? r)%nat then longest_run (S i) g' i r else longest_run (S i) g' e0 len
  end.

Definition join_groups (g : list Z) : list ascii :=
  bytes (Join ((λ x, str (hextoa x)) <$> g) ":").

Definition v6_string (ip : IP) : string :=
  let g := groups ip in
  let '(e0, len) := longest_run 0 g 0 0 in
  if (len <=? 1)%nat then str (join_groups g)
  else str (join_groups (take e0 g) ++ [":"%char; ":"%char] ++ join_groups (drop (e0 + len) g)).

Definition IP_String (ip : IP) : string :=
  match ip with
  | [] => "<nil>"
  | _ =>
      match To4 ip with
      | [a; b; c; d] => utoa a +:+ "." +:+ utoa b +:+ "." +:+ utoa c +:+ "." +:+ utoa d
      | _ => if (length ip =? 16)%nat then v6_string ip else "?"
      end
  end.

(** ** Host and port *)

Definition JoinHostPort (host port : string) : string :=
  if has_byte ":" host || has_byte "%" host
  then "[" +:+ host +:+ "]:" +:+ port
  else host +:+ ":" +:+ port.

(** Split at the last occurrence of a byte. *)
Fixpoint cut_last (c : ascii) (l : list ascii) : option (list ascii * list ascii) :=
  match l with
  | [] => None
  | d :: l =>
      match cut_last c l with
      | Some (a, b) => Some (d :: a, b)
      | None => if bool_decide (d = c) then Some ([], l) else None
      end
  end.

Definition missing_port : error := Some "missing port in address".
Definition too_many_colons : error := Some "too many colons in address".
Definition missing_brackets : error := Some "missing brackets in address".

(** [net.SplitHostPort]: host, port and error.  [j] and [k] are the positions
    from which a stray bracket is looked for. *)
Definition SplitHostPort (hostport : string) : string * string * error :=
  let l := bytes hostport in
  match cut_last ":" l with
  | None => ("", "", missing_port)
  | Some (before, port) =>
      let check (host : list ascii) (j k : nat) :=
        if bool_decide ("["%char ∈ drop j l) then
          (str host, "", Some "unexpected '[' in address")
        else if bool_decide ("]"%char ∈ drop k l) then
          (str host, "", Some "unexpected ']' in address")
        else (str host, str port, None) in
      match l with
      | "["%char :: _ =>
          match cut "]" hostport with
          | None => ("", "", Some "missing ']' in address")
          | Some (h, _) =>
              let e := String.length h in
              if (e + 1 =? length l)%nat then ("", "", missing_port)
              else if (e + 1 =? length before)%nat then
                check (drop 1 (bytes h)) 1 (e + 1)
              else match l !! (e + 1) with
                   | Some ":"%char => ("", "", too_many_colons)
                   | _ => ("", "", missing_port)
                   end
          end
      | _ =>
          if bool_decide (":"%char ∈ before) then (str before, "", too_many_colons)
          else if bool_decide ("%"%char ∈ before) then (str before, "", missing_brackets)
          else check before 0 0
      end
  end.

(** ** Examples *)

Example ParseIP_4 : ParseIP "10.0.4.1" = IPv4 10 0 4 1.
Proof. reflexivity. Qed.
Example ParseIP_6 : IP_String (ParseIP "2001:DB8::0:1") = "2001:db8::1".
Proof. reflexivity. Qed.
Example ParseIP_mapped : IP_String (ParseIP "::ffff:1.2.3.4") = "1.2.3.4".
Proof. reflexivity. Qed.
Example ParseIP_bad : ParseIP "1.2.3" = [] ∧ ParseIP "300.1.1.1" = [] ∧ ParseIP "leader" = [].
Proof. done. Qed.
Example SplitHostPort_6 : SplitHostPort "[::1]:5050" = ("::1", "5050", None).
Proof. reflexivity. Qed.
Example SplitHostPort_bare : SplitHostPort "1.2.3.4" = ("", "", missing_port).
Proof. reflexivity. Qed.

(** ** Facts: dotted decimal addresses *)

Lemma dtoi_loop_digits n x acc :
  (0 ≤ x < 10 ^ Z.of_nat n)%Z → (x < big)%Z →
  dtoi_loop (digits_fuel n x acc) 0 = dtoi_loop acc x.
Proof.
  revert x acc; induction n as [|n IH]; intros x acc Hx Hmax.
  - assert (x = 0)%Z as -> by (change (10 ^ Z.of_nat 0)%Z with 1%Z in Hx; lia). done.
  - cbn [digits_fuel]. assert (0 ≤ x mod 10 < 10)%Z as Hm by (apply Z.mod_pos_bound; lia).
    assert (∀ k l, (0 ≤ k)%Z → (k * 10 + x mod 10 < big)%Z →
      dtoi_loop (chr (48 + x mod 10) :: l) k = dtoi_loop l (k * 10 + x mod 10)) as Hcons.
    { intros k l Hk Hb. cbn [dtoi_loop]. rewrite is_digit_chr, code_digit by done.
      replace (48 + x mod 10 - 48)%Z with (x mod 10)%Z by lia.
      destruct (Z.leb_spec big (k * 10 + x mod 10)); [lia|done]. }
    pose proof (Z_div_mod_eq_full x 10) as Hdm. destruct (Z.ltb_spec x 10).
    + rewrite Hcons by (rewrite ?Z.mod_small by lia; lia). by rewrite Z.mod_small by lia.
    + assert (0 ≤ x / 10 < 10 ^ Z.of_nat n)%Z as Hd.
      { split; [apply Z.div_pos; lia|]. apply Z.div_lt_upper_bound; [lia|].
        rewrite Nat2Z.inj_succ, Z.pow_succ_r in Hx by lia. lia. }
      rewrite IH by lia. rewrite Hcons by lia. f_equal. lia.
Qed.

Lemma digits_fuel_app n x acc k : digits_fuel n x (acc ++ k) = digits_fuel n x acc ++ k.
Proof.
  revert x acc; induction n as [|n IH]; intros x acc; [done|].
  cbn [digits_fuel]. destruct (x <? 10)%Z; [done|]. exact (IH _ (_ :: acc)).
Qed.

Definition no_digit (l : list ascii) : Prop :=
  ∀ c r, l = c :: r → is_digit c = false.

Lemma dtoi_utoa x r :
  (0 ≤ x < big)%Z → no_digit r → dtoi (bytes (utoa x) ++ r) = Some (x, r).
Proof.
  intros Hx Hr. pose proof (utoa_digits x ltac:(lia)) as Hd.
  pose proof (utoa_nonempty x) as Hne.
  unfold dtoi. destruct (bytes (utoa x)) as [|c l] eqn:E; [done|].
  inversion Hd; subst. cbn [app]. rewrite H1. change (c :: l ++ r) with ((c :: l) ++ r).
  rewrite <-E. unfold utoa. rewrite bytes_str, <-digits_fuel_app. cbn [app].
  rewrite dtoi_loop_digits; [|unfold big in *; change (10 ^ Z.of_nat 20)%Z
    with 100000000000000000000%Z; lia|lia].
  destruct r as [|d r]; [done|]. cbn. by rewrite (Hr d r).
Qed.

Lemma octets_cons k x r :
  (0 ≤ x ≤ 255)%Z →
  octets (S (S k)) (bytes (utoa x) ++ "."%char :: r) = cons x <$> octets (S k) r.
Proof.
  intros Hx. cbn [octets]. rewrite dtoi_utoa.
  - destruct (Z.ltb_spec 0xFF x); [lia|done].
  - unfold big; lia.
  - by intros c r' [= <- _].
Qed.

Lemma octets_last x : (0 ≤ x ≤ 255)%Z → octets 1 (bytes (utoa x)) = Some [x].
Proof.
  intros Hx. cbn [octets]. rewrite <-(app_nil_r (bytes (utoa x))), dtoi_utoa.
  - destruct (Z.ltb_spec 0xFF x); [lia|done].
  - unfold big; lia.
  - by intros c r'.
Qed.

Lemma family_digits l r :
  Forall (λ c, is_digit c = true) l → family (l ++ "."%char :: r) = Some true.
Proof.
  induction 1 as [|c l Hc _ IH]; [done|]. cbn [app family].
  destruct c as [[] [] [] [] [] [] [] []]; by vm_compute in Hc || exact IH.
Qed.

Definition octet (x : Z) : Prop := (0 ≤ x ≤ 255)%Z.

Lemma To4_IPv4 a b c d : To4 (IPv4 a b c d) = [a; b; c; d].
Proof. reflexivity. Qed.

Lemma IP_String_IPv4 a b c d :
  IP_String (IPv4 a b c d)
  = utoa a +:+ "." +:+ utoa b +:+ "." +:+ utoa c +:+ "." +:+ utoa d.
Proof. reflexivity. Qed.

(** [net.ParseIP] undoes [IP.String] on IPv4 addresses. *)
Lemma ParseIP_String_IPv4 a b c d :
  octet a → octet b → octet c → octet d →
  ParseIP (IP_String (IPv4 a b c d)) = IPv4 a b c d.
Proof.
  intros Ha Hb Hc Hd. rewrite IP_String_IPv4. unfold ParseIP.
  rewrite !bytes_app. change (bytes ".") with ["."%char]. cbn [app].
  unfold octet in *. rewrite family_digits by (apply utoa_digits; lia).
  unfold parseIPv4. rewrite !octets_cons, octets_last by done. done.
Qed.

(** What [ParseIP] accepts as IPv4 is four octets. *)
Lemma octets_range k l os : octets k l = Some os → length os = k ∧ Forall octet os.
Proof.
  revert l os; induction k as [|k IH]; intros l os; [done|]. cbn [octets].
  destruct (dtoi l) as [[n r]|] eqn:E; [|done].
  assert (0 ≤ n)%Z as Hn.
  { unfold dtoi in E. destruct l as [|c l]; [done|]. destruct (is_digit c); [|done].
    revert E. generalize (c :: l) as m. assert (0 ≤ 0)%Z as H0 by lia. revert H0.
    generalize 0%Z at 2 3 as n0. intros n0 Hn0 m. revert n0 Hn0.
    induction m as [|e m IHm]; cbn; intros n0 Hn0; [by intros [= <- _]|].
    destruct (is_digit e) eqn:Ee; [|by intros [= <- _]].
    case_match; [done|]. apply IHm. apply is_digit_range in Ee. lia. }
  destruct (Z.ltb_spec 0xFF n); [done|].
  destruct k as [|k].
  - destruct r; [|done]. intros [= <-]. split; [done|]. repeat constructor; lia.
  - destruct r as [|e r]; [done|].
    destruct (decide (e = "."%char)) as [->|He].
    + destruct (octets (S k) r) as [os'|] eqn:Eo; [|done]. intros [= <-].
      apply IH in Eo as [<- ?]. split; [done|]. constructor; [unfold octet; lia|done].
    + intros Hm. exfalso. revert Hm. by destruct e as [[] [] [] [] [] [] [] []].
Qed.

(** ** Facts: host and port *)

Lemma cut_last_None c l : c ∉ l → cut_last c l = None.
Proof.
  induction l as [|d l IH]; [done|]. intros [Hd Hl]%not_elem_of_cons. cbn.
  by rewrite IH, bool_decide_eq_false_2 by done.
Qed.

Lemma cut_last_app c a b : c ∉ b → cut_last c (a ++ c :: b) = Some (a, b).
Proof.
  intros Hb. induction a as [|d a IH].
  - cbn. by rewrite cut_last_None, bool_decide_eq_true_2 by done.
  - cbn. by rewrite IH.
Qed.

(** Bytes that may not occur in a host or a port that is joined. *)
Definition plain (s : string) : Prop :=
  "["%char ∉ bytes s ∧ "]"%char ∉ bytes s.

(** [net.SplitHostPort] undoes [host + ":" + port]. *)
Lemma SplitHostPort_app host port :
  plain host → plain port →
  ":"%char ∉ bytes host → "%"%char ∉ bytes host → ":"%char ∉ bytes port →
  SplitHostPort (host +:+ ":" +:+ port) = (host, port, None).
Proof.
  intros [Hh1 Hh2] [Hp1 Hp2] Hc Hpc Hpp. unfold SplitHostPort.
  rewrite !bytes_app. change (bytes ":") with [":"%char]. cbn [app].
  rewrite cut_last_app by done.
  rewrite (bool_decide_eq_false_2 (":"%char ∈ bytes host)) by done.
  rewrite (bool_decide_eq_false_2 ("%"%char ∈ bytes host)) by done.
  rewrite !drop_0.
  rewrite (bool_decide_eq_false_2 ("["%char ∈ _)) by set_solver.
  rewrite (bool_decide_eq_false_2 ("]"%char ∈ _)) by set_solver.
  rewrite !str_bytes. destruct (bytes host) as [|c l]; [done|].
  cbn [app]. destruct (decide (c = "["%char)) as [->|Hne]; [set_solver|].
  by destruct c as [[] [] [] [] [] [] [] []].
Qed.

Lemma SplitHostPort_brackets host port :
  plain host → plain port → ":"%char ∉ bytes port →
  SplitHostPort ("[" +:+ host +:+ "]:" +:+ port) = (host, port, None).
Proof.
  intros [Hh1 Hh2] [Hp1 Hp2] Hc. unfold SplitHostPort.
  assert (cut "]" ("[" +:+ host +:+ "]:" +:+ port) = Some ("[" +:+ host, ":" +:+ port)) as ->.
  { rewrite app_string_assoc. change ("]:" +:+ port) with (String "]" (":" +:+ port)).
    apply cut_byte_app. rewrite bytes_app. change (bytes "[") with ["["%char]. set_solver. }
  rewrite !bytes_app. change (bytes "[") with ["["%char].
  change (bytes "]:") with ["]"%char; ":"%char]. cbn [app].
  change ("["%char :: bytes host ++ "]"%char :: ":"%char :: bytes port)
    with ("["%char :: bytes host ++ ["]"%char] ++ ":"%char :: bytes port).
  rewrite (app_assoc (bytes host)), app_comm_cons, cut_last_app by done. cbn [app].
  rewrite length_app_string. cbn [String.length Nat.add].
  rewrite <-length_bytes. cbn [length]. rewrite ?length_app. cbn [length].
  match goal with |- context [if ?b then (_, _, missing_port) else _] =>
    destruct b eqn:E; [apply Nat.eqb_eq in E; lia|clear E] end.
  rewrite (proj2 (Nat.eqb_eq _ _)) by lia.
  cbn [Nat.add drop]. rewrite (bool_decide_eq_false_2 ("["%char ∈ _)) by set_solver.
  rewrite (bool_decide_eq_false_2 ("]"%char ∈ _)).
  - by rewrite drop_0, !str_bytes.
  - rewrite drop_app_ge by (rewrite length_app; cbn; lia).
    rewrite length_app. cbn [length]. rewrite Nat.sub_diag. cbn. set_solver.
Qed.

(** [net.SplitHostPort] undoes [net.JoinHostPort]. *)
Lemma SplitHostPort_JoinHostPort host port :
  plain host → plain port → ":"%char ∉ bytes port →
  SplitHostPort (JoinHostPort host port) = (host, port, None).
Proof.
  intros Hh Hp Hc. unfold JoinHostPort. destruct (_ || _) eqn:E.
  - by apply SplitHostPort_brackets.
  - apply orb_false_iff in E as [E1%has_byte_false E2%has_byte_false].
    by apply SplitHostPort_app.
Qed.

(** ** A printed address is not empty *)

Lemma hex_fuel_nonempty n x acc : n ≠ 0%nat → hex_fuel n x acc ≠ [].
Proof.
  destruct n as [|n]; [done|]. intros _. cbn [hex_fuel].
  revert x acc; induction n as [|n IH]; intros x acc; cbn [hex_fuel]; case_match; try done.
Qed.

Lemma app_string_nonempty_l s t : s ≠ "" → s +:+ t ≠ "".
Proof. by destruct s. Qed.
Lemma app_string_nonempty_r s t : t ≠ "" → s +:+ t ≠ "".
Proof. by destruct s. Qed.

Lemma v6_string_nonempty ip : length ip = 16%nat → v6_string ip ≠ "".
Proof.
  intros Hl Hs. unfold v6_string in Hs. destruct (longest_run _ _ _ _) as [e0 len].
  destruct (len <=? 1)%nat; apply (f_equal bytes) in Hs; rewrite bytes_str in Hs.
  - do 16 (destruct ip as [|? ip]; [done|]). cbn [groups] in Hs.
    unfold join_groups in Hs. rewrite fmap_cons, Join_cons in Hs by done.
    rewrite !bytes_app, bytes_str in Hs. apply app_eq_nil in Hs as [Hs _].
    by apply hex_fuel_nonempty in Hs.
  - by apply app_eq_nil in Hs as [_ Hs].
Qed.

Lemma IP_String_nonempty ip : IP_String ip ≠ "".
Proof.
  unfold IP_String. destruct ip as [|b ip]; [done|].
  assert (∀ s, (if (length (b :: ip) =? 16)%nat then v6_string (b :: ip) else "?") = s → s ≠ "") as H.
  { intros s <-. destruct (Nat.eqb_spec (length (b :: ip)) 16); [by apply v6_string_nonempty|done]. }
  destruct (To4 (b :: ip)) as [|w [|x [|y [|z [|? ?]]]]]; try by eapply H.
  do 2 apply app_string_nonempty_r. by apply app_string_nonempty_r.
Qed.
