(* ===== verification/Crash.v ===== *)
(** * Handling of panics (src/utils/util.go, src/main.go)

    [HandleCrash] is deferred: when the function that deferred it panics, it
    recovers and calls the handlers, in order.  main adds a handler that exits,
    so that a panic of the main goroutine ends the process. *)

From S2P Require Import Prelude GoStrings.

(** A handler returns, panics itself, or ends the process. *)
Inductive handled := HReturns | HPanics (c : crash) | HExits (code : Z).

Abbreviation PanicHandler := (crash → handled).

(** What becomes of a function that defers [HandleCrash]: it returns, it
    returns zero values, the panic goes on, or the process ends. *)
Inductive outcome (A : Type) :=
| Returned (a : A)
| Recovered
| Propagated (c : crash)
| Ended (code : Z).
Arguments Returned {A} _.
Arguments Recovered {A}.
Arguments Propagated {A} _.
Arguments Ended {A} _.

(** [for _, fn := range PanicHandlers { fn(r) }] *)
Fixpoint run_handlers {A} (handlers : list PanicHandler) (r : crash) : outcome A :=
  match handlers with
  | [] => Recovered
  | fn :: handlers =>
      match fn r with
      | HReturns => run_handlers handlers r
      | HPanics c => Propagated c
      | HExits code => Ended code
      end
  end.

(** [log.Fatal] exits with status 1 and runs no deferred function.  The one
    loop of the program that does not end ([Resources.Ports]) appends to a
    slice: the runtime ends the process with status 2 when the memory is used
    up, and that cannot be recovered from. *)
Definition HandleCrash {A} (ReallyCrash : bool) (PanicHandlers : list PanicHandler) (body : go A) :
    outcome A :=
  match body with
  | Ret a => Returned a
  | Panic Fatal => Ended 1
  | Panic NoReturn => Ended 2
  | Panic r => if ReallyCrash then Propagated r else run_handlers PanicHandlers r
  end.

(** [frames] are the callers that [runtime.Caller] knows; the text is logged. *)
Definition logPanic_callers (frames : list (string * Z)) : string :=
  foldl (λ callers '(file, line), callers +:+ file +:+ ":" +:+ Itoa line +:+ String "010" "") "" frames.

Definition logPanic : PanicHandler := λ _, HReturns.

(** The default handlers, and those of the process. *)
Definition PanicHandlers : list PanicHandler := [logPanic].
Definition main_handlers : list PanicHandler := PanicHandlers ++ [λ _, HExits 1].

(** The status that the process ends with when its main goroutine does not
    return from [body]: a panic that goes on ends it with status 2. *)
Definition exit_code {A} (o : outcome A) : option Z :=
  match o with
  | Returned _ | Recovered => None
  | Propagated _ => Some 2%Z
  | Ended code => Some code
  end.

(** ** Properties *)

(** A handler runs exactly when all handlers before it have returned. *)
Lemma run_handlers_app {A} hs1 hs2 r :
  run_handlers (A := A) (hs1 ++ hs2) r =
  match run_handlers (A := A) hs1 r with Recovered => run_handlers hs2 r | o => o end.
Proof.
  induction hs1 as [|h hs1 IH]; [done|]. cbn. by destruct (h r).
Qed.

(** The default handlers recover from every panic, so that the caller goes on
    with zero values. *)
Lemma HandleCrash_recovers {A} (c : crash) :
  c ≠ Fatal → c ≠ NoReturn → HandleCrash (A := A) false PanicHandlers (Panic c) = Recovered.
Proof. by destruct c. Qed.

(** With the handlers of the process none returns to its caller: the status is
    1, or 2 when the memory is used up. *)
Lemma HandleCrash_main {A} (c : crash) :
  HandleCrash (A := A) false main_handlers (Panic c) = Ended (if bool_decide (c = NoReturn) then 2 else 1).
Proof. by destruct c. Qed.
