(* ===== verification/Labels.v ===== *)
(** * Domain name labels (src/records/labels/labels.go)

    [RFC952] and [RFC1123] turn a Mesos name into a DNS label; [DomainFrag]
    does so for every field of a dotted name.  The label functions reslice
    one backing array, so a byte slice is modelled with the spare capacity
    that a reslice can reach ([slice]). *)

From S2P Require Import Prelude GoStrings.

(** A [[]byte]: its elements and the elements of the backing array between
    its length and its capacity. *)
Record slice := Slice { data : list ascii; spare : list ascii }.

Definition cap (s : slice) : nat := (length (data s) + length (spare s))%nat.

(** [s[:n]], which may extend [s] up to its capacity. *)
Definition reslice (s : slice) (n : nat) : go (list ascii) :=
  if (n <=? cap s)%nat then Ret (take n (data s ++ spare s)) else Panic SliceBounds.

(** [s[n:]], for [n] within the length. *)
Definition slice_from (s : slice) (n : nat) : slice := Slice (drop n (data s)) (spare s).

(** [bytes.TrimLeft]: nil (with no capacity) when every byte is cut. *)
Definition bytes_TrimLeft (s : slice) (cutset : string) : slice :=
  match trim_left (λ c, has_byte c cutset) (data s) with
  | [] => Slice [] []
  | d => Slice d (spare s)
  end.

Definition bytes_TrimRight (l : list ascii) (cutset : string) : list ascii :=
  trim_right (λ c, has_byte c cutset) l.

(** [Sep] is the default domain fragment separator. *)
Definition Sep : string := ".".

(** [Func] is a label function; it may panic. *)
Definition Func : Type := string → go string.

(** [mapping] maps a rune to its label counterpart, -1 to drop it. *)
Definition mapping (r : Z) : Z :=
  if (65 <=? r)%Z && (r <=? 90)%Z then (r - (65 - 97))%Z
  else if (97 <=? r)%Z && (r <=? 122)%Z then r
  else if (48 <=? r)%Z && (r <=? 57)%Z then r
  else if (r =? 45)%Z || (r =? 46)%Z || (r =? 95)%Z then 45%Z
  else (-1)%Z.

(** [min] of the file. *)
Definition min (a b : nat) : nat := if (a <? b)%nat then a else b.

(** [trimCut] cuts the label at [min(maxlen, len(label))]; when the cut falls
    in a run of right-cutset bytes, bytes of the tail replace them. *)
Definition trimCut (label : slice) (maxlen : nat) (left right : string) : go (list ascii) :=
  let trim := bytes_TrimLeft label left in
  let size := min (length (data trim)) maxlen in
  let head := bytes_TrimRight (take size (data trim)) right in
  if (length head =? size)%nat then Ret head
  else
    let tail := bytes_TrimLeft (slice_from trim size) right in
    if (0 <? length (data tail))%nat then
      t ← reslice tail (size - length head); Ret (head ++ t)
    else Ret head.

(** [bytes.Map] writes into a fresh array as long as its input; the part it
    does not fill stays zero. *)
Definition map_slice (name : list ascii) : slice :=
  let m := bytes_Map mapping name in
  Slice m (replicate (length name - length m) zero).

Definition label (name : list ascii) (maxlen : nat) (left right : string) : go (list ascii) :=
  trimCut (map_slice name) maxlen left right.

Definition RFC952 (name : string) : go string :=
  str <$> label (bytes name) 24 "-0123456789" "-".

Definition RFC1123 (name : string) : go string :=
  str <$> label (bytes name) 63 "-" "-".

(** The loop of [DomainFrag]; the program only passes [Sep]. *)
Definition DomainFrag (name sep : string) (label : Func) : go string :=
  labels ← foldM (λ labels part,
      lab ← label part;
      Ret (if bool_decide (lab = "") then labels else labels ++ [lab]))
    (Split name sep) [];
  Ret (Join labels sep).

(** ** Examples from the package's tests *)

Example RFC1123_mixed : RFC1123 "a.c.d_de." = Ret "a-c-d-de".
Proof. vm_compute. reflexivity. Qed.

Example RFC952_cut :
  RFC952 "89fdgsf---gs7-fgs--d7fddg---123" = Ret "fdgsf---gs7-fgs--d7fddg1".
Proof. vm_compute. reflexivity. Qed.

Example DomainFrag_RFC952 :
  DomainFrag "pod_123$abc.marathon-0.6.0-dev.mesos" Sep RFC952
  = Ret "pod-123abc.marathon-0.dev.mesos".
Proof. vm_compute. reflexivity. Qed.

(** ** What a label is

    [ldh]: the bytes a DNS label may hold (letters, digits, hyphen; the
    letters in lower case).  [wf_label n left l]: at most [n] of them, none of
    [left] first and no hyphen last. *)

Definition ldh (c : ascii) : bool :=
  is_lower c || is_digit c || bool_decide (c = "-"%char).

Definition wf_label (n : nat) (left : string) (l : list ascii) : Prop :=
  (length l ≤ n)%nat ∧ Forall (λ c, ldh c = true) l
  ∧ (∀ c, head l = Some c → has_byte c left = false)
  ∧ (∀ c, last l = Some c → c ≠ "-"%char).

(** ** The byte mapping *)

Lemma mapping_high r : (128 ≤ r)%Z → (mapping r < 0)%Z.
Proof. intros Hr. unfold mapping. repeat case_match; lia. Qed.

Lemma mapped_bytewise s : bytes_Map mapping s = s ≫= byte_map mapping.
Proof. apply bytes_Map_bytewise, mapping_high. Qed.

Lemma byte_map_mapping c :
  byte_map mapping c = []
  ∨ ∃ d, byte_map mapping c = [d] ∧ ldh d = true.
Proof.
  assert (byte_map mapping c = []
          ∨ byte_map mapping c = [chr (mapping (code c))]
            ∧ ldh (chr (mapping (code c))) = true) as [?|[??]]; [|eauto..].
  destruct c as [[] [] [] [] [] [] [] []]; vm_compute; auto.
Qed.

Lemma byte_map_ldh c : ldh c = true → byte_map mapping c = [c].
Proof.
  destruct c as [[] [] [] [] [] [] [] []]; vm_compute; intros; congruence.
Qed.

Lemma mapped_ldh s : Forall (λ c, ldh c = true) (bytes_Map mapping s).
Proof.
  rewrite mapped_bytewise. induction s as [|c s IH]; [constructor|].
  cbn [mbind list_bind]. destruct (byte_map_mapping c) as [->|(d & -> & Hd)]; [done|].
  by constructor.
Qed.

Lemma length_mapped s : (length (bytes_Map mapping s) ≤ length s)%nat.
Proof.
  rewrite mapped_bytewise. induction s as [|c s IH]; [done|].
  cbn [mbind list_bind]. destruct (byte_map_mapping c) as [->|(d & -> & _)]; cbn in *; lia.
Qed.

Lemma mapped_ldh_id s : Forall (λ c, ldh c = true) s → bytes_Map mapping s = s.
Proof.
  rewrite mapped_bytewise. induction 1 as [|c s Hc Hs IH]; [done|].
  cbn [mbind list_bind]. rewrite byte_map_ldh by done. cbn. f_equal. exact IH.
Qed.

(** ** The label functions, case by case *)

Lemma cutr_dash c : has_byte c "-" = true ↔ c = "-"%char.
Proof. rewrite has_byte_true. change (bytes "-") with ["-"%char]. set_solver. Qed.

Lemma min_l a b : (a ≤ b)%nat → min a b = a.
Proof. unfold min. destruct (Nat.ltb_spec a b); lia. Qed.
Lemma min_r a b : (b ≤ a)%nat → min a b = b.
Proof. unfold min. destruct (Nat.ltb_spec a b); lia. Qed.

Lemma data_TrimLeft s cutset :
  data (bytes_TrimLeft s cutset) = trim_left (λ c, has_byte c cutset) (data s).
Proof. unfold bytes_TrimLeft. by destruct (trim_left _ (data s)). Qed.

Lemma spare_TrimLeft s cutset :
  data (bytes_TrimLeft s cutset) ≠ [] → spare (bytes_TrimLeft s cutset) = spare s.
Proof. unfold bytes_TrimLeft. by destruct (trim_left _ (data s)). Qed.

(** Trimming on the right keeps the first byte of a non-empty result. *)
Lemma head_trim_right p l c : head (trim_right p l) = Some c → head l = Some c.
Proof.
  destruct (trim_right_prefix p l) as (k & Hk & _). rewrite Hk at 2.
  by destruct (trim_right p l).
Qed.

Section trim_cut.
Context (n : nat) (left : string).

Abbreviation cutl := (λ c : ascii, has_byte c left).
Abbreviation cutr := (λ c : ascii, has_byte c "-").

(** The name after mapping and left trimming; the run of hyphens the cut at
    [n] ends in; what remains behind that run. *)
Definition trimmed (name : list ascii) : list ascii :=
  trim_left cutl (bytes_Map mapping name).
Definition dash_run (name : list ascii) : nat :=
  (n - length (trim_right cutr (take n (trimmed name))))%nat.
Definition rest (name : list ascii) : list ascii :=
  trim_left cutr (drop n (trimmed name)).
Definition dropped (name : list ascii) : nat :=
  (length name - length (bytes_Map mapping name))%nat.

Lemma label_short name :
  (length (trimmed name) ≤ n)%nat →
  label name n left "-" = Ret (trim_right cutr (trimmed name)).
Proof.
  intros Hle. unfold label, trimCut. rewrite data_TrimLeft. cbn [data map_slice].
  fold (trimmed name). rewrite min_l, firstn_all by done. unfold bytes_TrimRight. case_match; [done|].
  rewrite data_TrimLeft. cbn [data slice_from]. rewrite data_TrimLeft.
  cbn [data map_slice]. fold (trimmed name). rewrite drop_all. done.
Qed.

Lemma label_long name :
  (n < length (trimmed name))%nat →
  label name n left "-"
  = if (length (trim_right cutr (take n (trimmed name))) =? n)%nat
    then Ret (trim_right cutr (take n (trimmed name)))
    else match rest name with
         | [] => Ret (trim_right cutr (take n (trimmed name)))
         | u => if (dash_run name <=? length u + dropped name)%nat
                then Ret (trim_right cutr (take n (trimmed name))
                          ++ take (dash_run name) (u ++ replicate (dropped name) zero))
                else Panic SliceBounds
         end.
Proof.
  intros Hlt. unfold label, trimCut. rewrite data_TrimLeft. cbn [data map_slice].
  fold (trimmed name). rewrite min_r by lia.
  unfold bytes_TrimRight. case_match eqn:E; [done|].
  assert (spare (bytes_TrimLeft (map_slice name) left) = replicate (dropped name) zero) as Hsp.
  { rewrite spare_TrimLeft; [done|]. rewrite data_TrimLeft. cbn. fold (trimmed name).
    destruct (trimmed name); [cbn in Hlt; lia|done]. }
  set (tail := bytes_TrimLeft (slice_from _ n) "-").
  assert (data tail = rest name) as Hd.
  { unfold tail. rewrite data_TrimLeft. cbn [data slice_from]. by rewrite data_TrimLeft. }
  unfold reslice, cap. rewrite Hd.
  destruct (rest name) as [|c u]; [done|]. cbn [length Nat.ltb Nat.leb].
  assert (spare tail = replicate (dropped name) zero) as ->.
  { unfold tail. rewrite spare_TrimLeft by (fold tail; by rewrite Hd). done. }
  rewrite length_replicate. fold (dash_run name). by case_match.
Qed.

Lemma head_trimmed name c : head (trimmed name) = Some c → has_byte c left = false.
Proof. apply trim_left_head. Qed.

Lemma trimmed_ldh name : Forall (λ c, ldh c = true) (trimmed name).
Proof. apply Forall_trim_left, mapped_ldh. Qed.

Lemma trim_right_wf name m :
  (length (take m (trimmed name)) ≤ n)%nat →
  wf_label n left (trim_right cutr (take m (trimmed name))).
Proof.
  intros Hle. split_and!.
  - pose proof (length_trim_right cutr (take m (trimmed name))). lia.
  - apply Forall_trim_right, Forall_take, trimmed_ldh.
  - intros c Hc%head_trim_right. apply (head_trimmed name).
    by destruct m, (trimmed name).
  - intros c Hc%trim_right_last ->. by vm_compute in Hc.
Qed.

(** A name whose cut does not fall on a hyphen gives a well-formed label. *)
Lemma label_wf name :
  (0 < n)%nat →
  trimmed name !! (n - 1) ≠ Some "-"%char ∨ (length (trimmed name) ≤ n)%nat →
  ∃ l, label name n left "-" = Ret l ∧ wf_label n left l.
Proof.
  intros Hn H. destruct (decide (length (trimmed name) ≤ n)%nat) as [Hle|Hlt].
  - rewrite label_short by done. eexists; split; [done|].
    rewrite <-(firstn_all (trimmed name)). by apply trim_right_wf; rewrite length_take; lia.
  - destruct H as [H|H]; [|done]. rewrite label_long by lia.
    assert (trim_right cutr (take n (trimmed name)) = take n (trimmed name)) as Hid.
    { apply trim_right_id. intros c Hc. apply not_true_is_false. intros ->%cutr_dash.
      rewrite last_lookup, length_take, lookup_take_lt in Hc by lia.
      apply H. rewrite <-Hc. f_equal. lia. }
    exists (take n (trimmed name)). split.
    + by rewrite Hid, length_take, Nat.min_l, Nat.eqb_refl by lia.
    + rewrite <-Hid. apply trim_right_wf. rewrite length_take. lia.
Qed.

(** A well-formed label is left as it is. *)
Lemma label_id l : wf_label n left l → label l n left "-" = Ret l.
Proof.
  intros (Hlen & Hldh & Hhd & Hlast).
  assert (trimmed l = l) as Ht.
  { unfold trimmed. rewrite mapped_ldh_id by done. by apply trim_left_id. }
  rewrite label_short by by rewrite Ht. rewrite Ht. f_equal.
  apply trim_right_id. intros c Hc. apply not_true_is_false.
  intros ->%cutr_dash. by apply (Hlast "-"%char).
Qed.
End trim_cut.

(** ** Every returned label *)

Section returned.
Context (n : nat) (left : string).
Context (Hn : (0 < n)%nat) (Hleft : has_byte "-" left = true).

Abbreviation cutr := (λ c : ascii, has_byte c "-").

(** The first byte of a non-empty trimmed name survives the right trim: it
    is not a hyphen. *)
Lemma head_cut name :
  trimmed left name ≠ [] →
  head (trim_right cutr (take n (trimmed left name))) = head (trimmed left name).
Proof.
  intros Hne. destruct (trimmed left name) as [|a t] eqn:E; [done|].
  assert (has_byte a left = false) as Ha by (apply (head_trimmed left name); by rewrite E).
  destruct (trim_right_prefix cutr (take n (a :: t))) as (k & Hk & Hf).
  destruct (trim_right cutr (take n (a :: t))) as [|b r] eqn:Er.
  - exfalso. cbn in Hk. rewrite <-Hk in Hf. destruct n as [|m]; [lia|].
    cbn in Hf. inversion Hf as [|?? Hc _]; subst. apply cutr_dash in Hc as ->. congruence.
  - destruct n as [|m]; [lia|]. cbn in Hk. by injection Hk as <- _.
Qed.

(** A returned label has at most [n] bytes, does not start with a byte of
    the left cutset, and holds only label bytes and zero bytes. *)
Lemma label_bounds name l :
  label name n left "-" = Ret l →
  (length l ≤ n)%nat
  ∧ (∀ c, head l = Some c → has_byte c left = false)
  ∧ Forall (λ c, ldh c = true ∨ c = zero) l.
Proof.
  assert (∀ m, (length (take m (trimmed left name)) ≤ n)%nat →
    let l := trim_right cutr (take m (trimmed left name)) in
    (length l ≤ n)%nat ∧ (∀ c, head l = Some c → has_byte c left = false)
    ∧ Forall (λ c, ldh c = true ∨ c = zero) l) as Hcut.
  { intros m Hm. destruct (trim_right_wf n left name m Hm) as (? & Hl & ? & _).
    split_and!; [done..|]. eapply Forall_impl; [exact Hl|]. auto. }
  destruct (decide (length (trimmed left name) ≤ n)%nat) as [Hle|Hlt].
  - rewrite label_short by done. intros [= <-]. rewrite <-(firstn_all (trimmed left name)).
    apply Hcut. by rewrite length_take; lia.
  - rewrite label_long by lia. specialize (Hcut n).
    rewrite length_take in Hcut. specialize (Hcut ltac:(lia)).
    destruct (length _ =? n)%nat eqn:En; [by intros [= <-]|].
    destruct (rest n left name) as [|c u] eqn:Er; [by intros [= <-]|].
    cbv zeta. case_match eqn:Hd; [|done]. intros [= <-]. apply Nat.leb_le in Hd.
    destruct Hcut as (Hc1 & Hc2 & Hc3). split_and!.
    + rewrite length_app, length_take. unfold dash_run in *. lia.
    + intros d Hhd. apply (head_trimmed left name).
      rewrite <-head_cut by (intros Ht; rewrite Ht in Hlt; cbn in Hlt; lia).
      assert (trim_right cutr (take n (trimmed left name)) ≠ []) as Hne.
      { intros Hnil. pose proof (head_cut name) as Hh. rewrite Hnil in Hh.
        destruct (trimmed left name); [cbn in Hlt; lia|]. by specialize (Hh ltac:(done)). }
      by destruct (trim_right cutr (take n (trimmed left name))).
    + apply Forall_app; split; [done|]. apply Forall_take.
      change (c :: u ++ ?k) with ((c :: u) ++ k). rewrite <-Er. apply Forall_app; split.
      * eapply Forall_impl; [apply Forall_trim_left, Forall_drop, trimmed_ldh|].
        auto.
      * apply Forall_replicate. auto.
Qed.

(** The one way a label function fails: the cut falls in a run of hyphens
    that is longer than what is left of the name to refill it. *)
Lemma label_panic name c :
  label name n left "-" = Panic c ↔
  c = SliceBounds ∧ (n < length (trimmed left name))%nat
  ∧ (0 < length (rest n left name))%nat
  ∧ (length (rest n left name) + dropped name < dash_run n left name)%nat.
Proof.
  destruct (decide (length (trimmed left name) ≤ n)%nat) as [Hle|Hlt].
  { rewrite label_short by done. split; [done|]. lia. }
  rewrite label_long by lia. destruct (Nat.eqb_spec
    (length (trim_right cutr (take n (trimmed left name)))) n) as [E|E].
  { split; [done|]. unfold dash_run. lia. }
  destruct (rest n left name) as [|d u]; [split; [done|cbn; lia]|].
  cbv zeta. case_match eqn:Hd; [apply Nat.leb_le in Hd|apply Nat.leb_gt in Hd].
  - split; [done|]. lia.
  - split; [intros [= <-]|by intros [-> _]]. cbn [length] in *. split_and!; [done|lia..].
Qed.
End returned.

(** ** The properties of the package *)

Definition cut_ok (n : nat) (left : string) (name : string) : Prop :=
  trimmed left (bytes name) !! (n - 1) ≠ Some "-"%char
  ∨ (length (trimmed left (bytes name)) ≤ n)%nat.

Lemma RFC1123_label_wf name :
  cut_ok 63 "-" name → ∃ s, RFC1123 name = Ret s ∧ wf_label 63 "-" (bytes s).
Proof.
  intros H. destruct (label_wf 63 "-" (bytes name) ltac:(lia) H) as (l & Hl & Hwf).
  exists (str l). unfold RFC1123. by rewrite Hl, bytes_str.
Qed.

Lemma RFC952_label_wf name :
  cut_ok 24 "-0123456789" name →
  ∃ s, RFC952 name = Ret s ∧ wf_label 24 "-0123456789" (bytes s).
Proof.
  intros H. destruct (label_wf 24 "-0123456789" (bytes name) ltac:(lia) H) as (l & Hl & Hwf).
  exists (str l). unfold RFC952. by rewrite Hl, bytes_str.
Qed.

(** C33: A name whose cut at the label length does not fall on a hyphen is
    turned by [RFC1123] into a label of at most 63 lower-case letters, digits
    and hyphens that neither starts nor ends with a hyphen, and by [RFC952]
    into one of at most 24 that also does not start with a digit. *)
Theorem label_functions_wf name :
  (cut_ok 63 "-" name → ∃ s, RFC1123 name = Ret s ∧ wf_label 63 "-" (bytes s))
  ∧ (cut_ok 24 "-0123456789" name →
     ∃ s, RFC952 name = Ret s ∧ wf_label 24 "-0123456789" (bytes s)).
Proof. split; [apply RFC1123_label_wf | apply RFC952_label_wf]. Qed.

Lemma label_functions_wf_witness :
  ∃ s, RFC1123 "Pod_123$abc" = Ret s ∧ wf_label 63 "-" (bytes s).
Proof. apply (label_functions_wf "Pod_123$abc"). right. vm_compute. lia. Defined.

(** Whatever the name, a label that is returned has at most 63 (24) bytes
    and does not start with a byte of the left cutset; its bytes are label
    bytes or the zero bytes of unused capacity. *)
Theorem label_functions_bounds name s :
  (RFC1123 name = Ret s →
    (String.length s ≤ 63)%nat ∧ (∀ c, head (bytes s) = Some c → c ≠ "-"%char)
    ∧ Forall (λ c, ldh c = true ∨ c = zero) (bytes s))
  ∧ (RFC952 name = Ret s →
    (String.length s ≤ 24)%nat
    ∧ (∀ c, head (bytes s) = Some c → has_byte c "-0123456789" = false)
    ∧ Forall (λ c, ldh c = true ∨ c = zero) (bytes s)).
Proof.
  split; intros H; apply go_fmap_ret in H as (l & Hl & <-); rewrite <-length_bytes, bytes_str.
  - apply label_bounds in Hl as (? & Hhd & ?); [|lia|done].
    split_and!; [done| |done]. intros c Hc ->. apply Hhd in Hc. by vm_compute in Hc.
  - apply label_bounds in Hl as (? & Hhd & ?); [done|lia|done].
Qed.

Lemma label_functions_bounds_witness :
  RFC952 "4abc123" = Ret "abc123" ∧ (String.length "abc123" ≤ 24)%nat.
Proof.
  split; [vm_compute; reflexivity|].
  apply (proj2 (label_functions_bounds "4abc123" "abc123")). vm_compute. reflexivity.
Defined.

(** [RFC1123] panics on exactly the names whose 63-byte cut falls in a run
    of hyphens longer than the rest of the name together with the bytes the
    mapping dropped: the reslice [tail[:size-len(head)]] is out of range. *)
Theorem RFC1123_panics_iff name c :
  RFC1123 name = Panic c ↔
  c = SliceBounds
  ∧ (63 < length (trimmed "-" (bytes name)))%nat
  ∧ (0 < length (rest 63 "-" (bytes name)))%nat
  ∧ (length (rest 63 "-" (bytes name)) + dropped (bytes name)
     < dash_run 63 "-" (bytes name))%nat.
Proof.
  rewrite <-label_panic by (lia || done). unfold RFC1123.
  destruct (label (bytes name) 63 "-" "-"); cbv [fmap go_fmap]; split; congruence.
Qed.

Lemma RFC1123_id l : wf_label 63 "-" (bytes l) → RFC1123 l = Ret l.
Proof. intros H. unfold RFC1123. rewrite label_id by done. cbn. by rewrite str_bytes. Qed.
Lemma RFC952_id l : wf_label 24 "-0123456789" (bytes l) → RFC952 l = Ret l.
Proof. intros H. unfold RFC952. rewrite label_id by done. cbn. by rewrite str_bytes. Qed.

(** A label in the form the functions promise is a fixed point of them, so
    mangling a name twice is mangling it once. *)
Theorem label_functions_idempotent l :
  (wf_label 63 "-" (bytes l) → RFC1123 l = Ret l)
  ∧ (wf_label 24 "-0123456789" (bytes l) → RFC952 l = Ret l).
Proof. split; [apply RFC1123_id | apply RFC952_id]. Qed.

Lemma label_functions_idempotent_witness : RFC1123 "pod-123abc" = Ret "pod-123abc".
Proof.
  apply (label_functions_idempotent "pod-123abc").
  split_and!; [vm_compute; lia|repeat constructor| |]; cbn; intros c [= <-]; done.
Defined.

(** The package comment says [trimCut] ensures that the cutsets are
    trimmed from the ends; three names of 64 to 66 bytes show what happens
    when the cut falls in a run of hyphens: a panic, a label that ends in a
    hyphen, and a label that holds a zero byte. *)
Theorem trimCut_dash_run :
  RFC1123 (str (replicate 61 "a"%char) +:+ "--b") = Panic SliceBounds
  ∧ RFC1123 (str (replicate 61 "a"%char) +:+ "--b-c")
    = Ret (str (replicate 61 "a"%char) +:+ "b-")
  ∧ RFC1123 (str (replicate 61 "a"%char) +:+ "--b$")
    = Ret (str (replicate 61 "a"%char ++ ["b"%char; zero])).
Proof. vm_compute. auto. Qed.

(** ** [DomainFrag] *)

Lemma snoc_nonempty (acc labs : list string) lab :
  (if bool_decide (lab = "") then acc else acc ++ [lab]) ++ filter (.≠ "") labs
  = acc ++ filter (.≠ "") (lab :: labs).
Proof.
  destruct (decide (lab = "")) as [->|Hne].
  - by rewrite bool_decide_eq_true_2, filter_cons_False by naive_solver.
  - by rewrite bool_decide_eq_false_2, filter_cons_True, <-app_assoc by done.
Qed.

(** The loop collects the non-empty labels of the parts, in order. *)
Lemma DomainFrag_loop (label : Func) parts acc :
  foldM (λ labels part,
      lab ← label part;
      Ret (if bool_decide (lab = "") then labels else labels ++ [lab])) parts acc
  = labs ← mapM_go label parts; Ret (acc ++ filter (.≠ "") labs).
Proof.
  revert acc; induction parts as [|p parts IH]; intros acc; cbn.
  - by rewrite app_nil_r.
  - destruct (label p) as [lab|]; [|done]. cbn. rewrite IH.
    destruct (mapM_go label parts) as [labs|]; [|done]. cbn.
    by rewrite snoc_nonempty.
Qed.

Lemma DomainFrag_eq name sep label :
  DomainFrag name sep label
  = labs ← mapM_go label (Split name sep); Ret (Join (filter (.≠ "") labs) sep).
Proof.
  unfold DomainFrag. rewrite DomainFrag_loop.
  by destruct (mapM_go label (Split name sep)).
Qed.

Lemma mapM_go_Forall {A B} (f : A → go B) (P : B → Prop) l :
  Forall (λ x, ∃ y, f x = Ret y ∧ P y) l →
  ∃ ys, mapM_go f l = Ret ys ∧ Forall2 (λ x y, f x = Ret y ∧ P y) l ys.
Proof.
  induction 1 as [|x l (y & Hy & HP) _ (ys & Hys & HPs)]; [by exists []|].
  exists (y :: ys). cbn. rewrite Hy. cbn. rewrite Hys. split; [done|by constructor].
Qed.

Lemma mapM_go_id (f : string → go string) l :
  Forall (λ x, f x = Ret x) l → mapM_go f l = Ret l.
Proof. induction 1 as [|x l Hx _ IH]; [done|]. cbn. rewrite Hx. cbn. by rewrite IH. Qed.

Lemma wf_label_no_dot n left l : wf_label n left l → "."%char ∉ l.
Proof.
  intros (_ & Hl & _) Hin. rewrite Forall_forall in Hl. apply Hl in Hin.
  by vm_compute in Hin.
Qed.

(** C34: [DomainFrag] turns a dotted name into the dotted sequence of the
    labels of its fields.  For a name whose cuts are in order every field has a
    label, the fragment consists of those that are not empty, in the order of
    the fields and none left out, each of them well formed, and another
    [DomainFrag] does not change it. *)
Theorem DomainFrag_wf name :
  Forall (cut_ok 63 "-") (Split name Sep) →
  ∃ frag labs,
    Forall2 (λ field lab, RFC1123 field = Ret lab ∧ wf_label 63 "-" (bytes lab)) (Split name Sep) labs
    ∧ DomainFrag name Sep RFC1123 = Ret frag
    ∧ frag = Join (filter (.≠ "") labs) Sep
    ∧ (filter (.≠ "") labs ≠ [] → Split frag Sep = filter (.≠ "") labs)
    ∧ DomainFrag frag Sep RFC1123 = Ret frag.
Proof.
  intros H.
  destruct (mapM_go_Forall RFC1123 (λ s, wf_label 63 "-" (bytes s)) (Split name Sep))
    as (labs & Hlabs & Hwf).
  { eapply Forall_impl; [exact H|]. apply RFC1123_label_wf. }
  set (labels := filter (.≠ "") labs).
  assert (Forall (λ l, wf_label 63 "-" (bytes l)) labels) as Hlab.
  { apply Forall_forall. intros l [_ (i & Hl)%list_elem_of_lookup]%list_elem_of_filter.
    by destruct (Forall2_lookup_r _ _ _ _ _ Hwf Hl) as (field & _ & _ & Hlwf). }
  assert (labels ≠ [] → Split (Join labels Sep) Sep = labels) as Hsplit.
  { intros Hne. apply Split_Join; [done|]. eapply Forall_impl; [exact Hlab|].
    intros l Hl. cbn in Hl. by eapply wf_label_no_dot in Hl. }
  exists (Join labels Sep), labs. rewrite DomainFrag_eq, Hlabs. fold labels.
  split_and!; [exact Hwf|done|done|exact Hsplit|].
  destruct (decide (labels = [])) as [->|Hne]; [done|].
  rewrite DomainFrag_eq, Hsplit by done. rewrite mapM_go_id.
  - cbn. f_equal. f_equal. unfold labels. by rewrite list_filter_filter_r.
  - eapply Forall_impl; [exact Hlab|]. intros l Hl. by apply RFC1123_id.
Qed.

Lemma DomainFrag_wf_witness :
  ∃ frag labs,
    Forall2 (λ field lab, RFC1123 field = Ret lab ∧ wf_label 63 "-" (bytes lab))
      ["pod_1$a"; ""; "marathon"] labs
    ∧ DomainFrag "pod_1$a..marathon" Sep RFC1123 = Ret frag
    ∧ frag = Join (filter (.≠ "") labs) Sep
    ∧ (filter (.≠ "") labs ≠ [] → Split frag Sep = filter (.≠ "") labs)
    ∧ DomainFrag frag Sep RFC1123 = Ret frag.
Proof.
  apply (DomainFrag_wf "pod_1$a..marathon").
  repeat constructor; right; vm_compute; lia.
Defined.
