(* ===== verification/Chains.v ===== *)
(** * Generation chains (src/records/chains.go)

    A [chain] consumes record-like strings and acts on a state [S] (the
    stores that the last link of every chain inserts into).  A link receives
    a slice that its caller does not use again before the next call, and the
    last link does not keep it, so the in-place updates of [records] are
    modelled by the lists they produce. *)

From S2P Require Import Prelude GoStrings Labels.

Definition chain (S : Type) : Type := list string → S → go S.

Definition protocolNone : string := "".
Definition domainNone : string := "".

Section links.
Context {S : Type}.
Implicit Types (gen : chain S).

(** [withProtocol] appends [._{protocol}.{framework}]; without a protocol
    it makes the tcp names and then the udp names. *)
Definition withProtocol (protocol framework : string) (spec : Func) gen : chain S :=
  λ records st,
    protocol ← spec protocol;
    if bool_decide (protocol = protocolNone)
    then gen (((λ r, r +:+ "._tcp." +:+ framework) <$> records)
              ++ ((λ r, r +:+ "._udp." +:+ framework) <$> records)) st
    else gen ((λ r, r +:+ "._" +:+ protocol +:+ "." +:+ framework) <$> records) st.

(** [withSubdomains] appends [.{subdomain}] for every subdomain, the empty
    one meaning no suffix. *)
Definition withSubdomains (subdomains : list string) gen : chain S :=
  match subdomains with
  | [] => gen
  | _ => λ records st,
      gen (subdomains ≫= λ s,
             if bool_decide (s = domainNone) then records
             else (λ r, r +:+ "." +:+ s) <$> records) st
  end.

(** [withNamedPort] runs [gen] on the records and then on the records
    prefixed with the port's label.  The label is computed when the link is
    built. *)
Definition withNamedPort (portName : string) (spec : Func) gen : go (chain S) :=
  portName ← spec portName;
  Ret (if bool_decide (portName = "") then gen
       else λ records st,
         st ← gen records st;
         gen ((λ r, "_" +:+ portName +:+ "." +:+ r) <$> records) st).
End links.

(** ** The names a chain makes

    [names_protocol], [names_subdomains] and [names_port] are the names the
    links hand to the last one; the lemmas say that running a chain over a
    last link that treats its records one by one is one loop over them. *)

Definition names_protocol (protocol framework : string) (records : list string) : list string :=
  if bool_decide (protocol = "")
  then ["tcp"; "udp"] ≫= λ p, (λ r, r +:+ "._" +:+ p +:+ "." +:+ framework) <$> records
  else (λ r, r +:+ "._" +:+ protocol +:+ "." +:+ framework) <$> records.

Definition names_subdomains (subdomains records : list string) : list string :=
  match subdomains with
  | [] => records
  | _ => subdomains ≫= λ s, if bool_decide (s = "") then records
                            else (λ r, r +:+ "." +:+ s) <$> records
  end.

Definition names_port (portName : string) (records : list string) : list string :=
  records ++ (if bool_decide (portName = "") then []
              else (λ r, "_" +:+ portName +:+ "." +:+ r) <$> records).

Section chains.
Context {S : Type} (f : S → string → go S).

(** The last link: one action per record. *)
Definition each : chain S := λ records st, foldM f records st.

Lemma withProtocol_subdomains protocol framework spec subs records st :
  withProtocol protocol framework spec (withSubdomains subs each) records st
  = p ← spec protocol;
    foldM f (names_subdomains subs (names_protocol p framework records)) st.
Proof.
  unfold withProtocol. destruct (spec protocol) as [p|c]; [|done].
  cbn [mbind go_bind]. unfold names_protocol, protocolNone.
  case_bool_decide; unfold withSubdomains, names_subdomains, each, domainNone;
    destruct subs; cbn [mbind list_bind]; by rewrite ?app_nil_r.
Qed.

Lemma withProtocol_namedPort protocol framework port spec records st :
  (gen ← withNamedPort port spec each; withProtocol protocol framework spec gen records st)
  = n ← spec port; p ← spec protocol;
    foldM f (names_port n (names_protocol p framework records)) st.
Proof.
  unfold withNamedPort. destruct (spec port) as [n|c]; [|done]. cbn [mbind go_bind].
  unfold withProtocol. destruct (spec protocol) as [p|c]; [|done]. cbn [mbind go_bind].
  unfold names_port, names_protocol, protocolNone, each.
  repeat case_bool_decide; cbn [mbind list_bind]; rewrite ?app_nil_r, ?foldM_app; done.
Qed.
End chains.

Lemma elem_names_protocol p framework r :
  p ∈ ["tcp"; "udp"] → r +:+ "._" +:+ p +:+ "." +:+ framework ∈ names_protocol "" framework [r].
Proof.
  intros Hp. unfold names_protocol. rewrite bool_decide_true by done.
  apply list_elem_of_bind. exists p. split; [by left|done].
Qed.

Lemma elem_names_subdomains subs s r records :
  s ∈ subs → r ∈ records →
  (if bool_decide (s = "") then r else r +:+ "." +:+ s) ∈ names_subdomains subs records.
Proof.
  intros Hs Hr. unfold names_subdomains. destruct subs as [|s0 subs]; [by apply elem_of_nil in Hs|].
  apply list_elem_of_bind. exists s. split; [|done].
  case_bool_decide; [done|]. by apply (list_elem_of_fmap_2 (λ r, r +:+ "." +:+ s)).
Qed.
