(* ===== verification/State.v ===== *)
(** * The Mesos state (src/records/state/state.go, vendored upid)

    The data of /state.json and the methods on it: port ranges, task IP
    sources, framework addresses.  A pointer that may be nil is an [option];
    a [float64] timestamp is its IEEE value ([spec_float]).

    [upid.Parse] resolves the address it parses; that network query is the
    argument [resolveTCP4]. *)

From Corelib Require Import SpecFloat.
From S2P Require Import Prelude GoStrings GoNet.

(** An element of a slice, or the panic of an index out of range. *)
Definition index {A} (l : list A) (i : nat) : go A :=
  match l !! i with Some x => Ret x | None => Panic IndexOutOfRange end.

(** ** Data *)

Record Resources := { PortRanges : string }.

Record Label := { Label_Key : string; Label_Value : string }.

Record IPAddress := { IPAddress_IPAddress : string }.

Record NetworkInfo := {
  IPAddresses : list IPAddress;
  NetworkInfo_IPAddress : string }.

Record ContainerStatus := { NetworkInfos : list NetworkInfo }.

Record Status := {
  Timestamp : spec_float;
  Status_State : string;
  Status_Labels : list Label;
  Status_ContainerStatus : ContainerStatus }.

Record DiscoveryPort := {
  DiscoveryPort_Protocol : string;
  DiscoveryPort_Number : Z;
  DiscoveryPort_Name : string }.

Record DiscoveryInfo := {
  Visibilty : string;
  DiscoveryInfo_Version : string;
  DiscoveryInfo_Name : string;
  Location : string;
  Environment : string;
  DiscoveryInfo_Labels : list Label;
  DiscoveryPorts : list DiscoveryPort }.

Record Task := {
  FrameworkID : string;
  Task_ID : string;
  Task_Name : string;
  SlaveID : string;
  Task_State : string;
  Statuses : list Status;
  Task_Resources : Resources;
  Task_DiscoveryInfo : DiscoveryInfo;
  SlaveIP : string;
  Task_Labels : list Label }.

(** [task.SlaveIP = ip] *)
Definition set_SlaveIP (t : Task) (ip : string) : Task :=
  {| FrameworkID := FrameworkID t; Task_ID := Task_ID t; Task_Name := Task_Name t;
     SlaveID := SlaveID t; Task_State := Task_State t; Statuses := Statuses t;
     Task_Resources := Task_Resources t; Task_DiscoveryInfo := Task_DiscoveryInfo t;
     SlaveIP := ip; Task_Labels := Task_Labels t |}.

(** A libprocess PID, and the pointer the JSON decoder fills in. *)
Record UPID := { UPID_ID : string; UPID_Host : string; UPID_Port : string }.

Definition PID : Type := option UPID.

Record Framework := {
  Tasks : list Task;
  Framework_PID : PID;
  Framework_Name : string;
  Framework_Hostname : string;
  Framework_Active : bool }.

Record Attributes := { DC : string; Master : string; Rack : string }.

Record Slave := {
  Slave_ID : string;
  Slave_Hostname : string;
  Slave_PID : PID;
  Attrs : Attributes;
  Slave_Active : bool }.

Record State := {
  Frameworks : list Framework;
  Slaves : list Slave;
  Leader : string }.

(** The zero value [state.State{}]. *)
Definition State0 : State := {| Frameworks := []; Slaves := []; Leader := "" |}.

(** ** Ports *)

(** [for t := lo; t <= hi; t++]: with [hi] the largest [int] the counter
    wraps around and the loop never ends. *)
Definition port_loop (lo hi : Z) : go (list string) :=
  if (hi <? lo)%Z then Ret []
  else if (hi =? maxInt64)%Z then Panic NoReturn
  else Ret (Itoa <$> seqZ lo (hi - lo + 1)).

Definition Ports (r : Resources) : go (list string) :=
  if bool_decide (PortRanges r = "") || bool_decide (PortRanges r = "[]") then Ret []
  else
    rhs ← index (Split (PortRanges r) "[") 1;
    lhs ← index (Split rhs "]") 0;
    foldM (λ yports port,
        let pz := Split (TrimSpace port) "-" in
        lo ← index pz 0;
        hi ← index pz 1;
        ts ← port_loop (Atoi lo).1 (Atoi hi).1;
        Ret (yports ++ ts))
      (Split lhs ",") [].

(** ** Tasks *)

Definition HasDiscoveryInfo (t : Task) : bool :=
  negb (bool_decide (DiscoveryInfo_Name (Task_DiscoveryInfo t) = "")).

Definition minus_one : spec_float := S754_finite true 4503599627370496 (-52).

(** [a > b] on [float64]. *)
Definition gtb (a b : spec_float) : bool := SFltb b a.

(** The loop of [StatusIPs]: the best timestamp and its index so far. *)
Fixpoint latest (st : list Status) (i : nat) (ts : spec_float) (j : option nat) : option nat :=
  match st with
  | [] => j
  | s :: st =>
      if bool_decide (Status_State s = "TASK_RUNNING") && gtb (Timestamp s) ts
      then latest st (S i) (Timestamp s) (Some i)
      else latest st (S i) ts j
  end.

Definition StatusIPs (st : list Status) (src : Status → list string) : list string :=
  match latest st 0 minus_one None with
  | Some j => match st !! j with Some s => src s | None => [] end
  | None => []
  end.

Definition Labels (key : string) (s : Status) : list string :=
  foldl (λ vs l, if bool_decide (Label_Key l = key) then vs ++ [Label_Value l] else vs)
    [] (Status_Labels s).

Definition DockerIPLabel : string := "Docker.NetworkSettings.IPAddress".
Definition MesosIPLabel : string := "MesosContainerizer.NetworkSettings.IPAddress".

Definition hostIPs (t : Task) : list string := [SlaveIP t].

(** The result starts with one empty string per network: [ips] is made with
    that length and then appended to. *)
Definition networkInfoIPs (t : Task) : list string :=
  StatusIPs (Statuses t) (λ s,
    foldl (λ ips netinfo,
        match IPAddresses netinfo with
        | [] =>
            if bool_decide (NetworkInfo_IPAddress netinfo = "") then ips
            else ips ++ [NetworkInfo_IPAddress netinfo]
        | addrs => ips ++ (IPAddress_IPAddress <$> addrs)
        end)
      (replicate (length (NetworkInfos (Status_ContainerStatus s))) "")
      (NetworkInfos (Status_ContainerStatus s))).

Definition dockerIPs (t : Task) : list string := StatusIPs (Statuses t) (Labels DockerIPLabel).
Definition mesosIPs (t : Task) : list string := StatusIPs (Statuses t) (Labels MesosIPLabel).

(** The map [sources]. *)
Definition sources (src : string) : option (Task → list string) :=
  if bool_decide (src = "host") then Some hostIPs
  else if bool_decide (src = "mesos") then Some mesosIPs
  else if bool_decide (src = "docker") then Some dockerIPs
  else if bool_decide (src = "netinfo") then Some networkInfoIPs
  else None.

Definition IPs (t : Task) (srcs : list string) : list IP :=
  foldl (λ ips s,
      match sources s with
      | Some src =>
          foldl (λ ips srcIP,
              let ip := ParseIP srcIP in
              if (0 <? length ip)%nat then ips ++ [ip] else ips)
            ips (src t)
      | None => ips
      end) [] srcs.

Definition Task_IP (t : Task) (srcs : list string) : string :=
  match IPs t srcs with
  | ip :: _ => IP_String ip
  | [] => ""
  end.

(** ** Frameworks and PIDs *)

(** [p.Host] and [p.Port] through the embedded pointer. *)
Definition PID_Host (p : PID) : go string :=
  match p with Some u => Ret (UPID_Host u) | None => Panic NilDeref end.
Definition PID_Port (p : PID) : go string :=
  match p with Some u => Ret (UPID_Port u) | None => Panic NilDeref end.

Definition HostPort (f : Framework) : string * string :=
  match Framework_PID f with
  | Some u => (UPID_Host u, UPID_Port u)
  | None => (Framework_Hostname f, "")
  end.

(** [upid.Parse]. *)
Definition upid_Parse (resolveTCP4 : string → error) (input : string) : PID * error :=
  match Split input "@" with
  | [id; addr] =>
      match resolveTCP4 addr with
      | Some e => (None, Some e)
      | None =>
          let '(h, p, _) := SplitHostPort addr in
          (Some {| UPID_ID := id; UPID_Host := h; UPID_Port := p |}, None)
      end
  | _ => (None, Some "Expect one `@' in the input")
  end.

(** [bytes.Trim] with the cutset of the double quote (byte 34) and the
    space. *)
Definition Trim_quotes (data : list ascii) : list ascii :=
  let p c := bool_decide (c = "034"%char) || bool_decide (c = " "%char) in
  trim_right p (trim_left p data).

Definition UnmarshalJSON (resolveTCP4 : string → error) (data : list ascii) : PID * error :=
  upid_Parse resolveTCP4 (str (Trim_quotes data)).

Example Ports_two_ranges :
  Ports {| PortRanges := "[31111-31111, 31115-31117]" |}
  = Ret ["31111"; "31115"; "31116"; "31117"].
Proof. vm_compute. reflexivity. Qed.

(** ** The latest running status *)

(** [<] on [float64] is transitive (NaN is below nothing). *)
Lemma SFltb_trans a b c : SFltb a b = true → SFltb b c = true → SFltb a c = true.
Proof.
  unfold SFltb, SFcompare.
  destruct a as [[]|[]| |[] m1 e1], b as [[]|[]| |[] m2 e2], c as [[]|[]| |[] m3 e3];
    try done; intros H1 H2;
    destruct (Z.compare_spec e1 e2), (Z.compare_spec e2 e3); try done; subst;
    repeat match goal with
    | |- context [Z.compare ?x ?y] => destruct (Z.compare_spec x y); subst; try lia; try done
    end; unfold Pos.compare in *;
    change (Pos.compare_cont Eq ?x ?y) with (Pos.compare x y) in *;
    destruct (Pos.compare_spec m1 m2), (Pos.compare_spec m2 m3); try done;
    destruct (Pos.compare_spec m1 m3); try done; lia.
Qed.

Lemma gtb_trans a b c : gtb a b = true → gtb b c = true → gtb a c = true.
Proof. unfold gtb. eauto using SFltb_trans. Qed.

Lemma gtb_irrefl t : gtb t t = false.
Proof.
  unfold gtb, SFltb, SFcompare. destruct t as [|[]| |[] m e]; try done;
    rewrite Z.compare_refl; change (Pos.compare_cont Eq m m) with (Pos.compare m m);
    by rewrite Pos.compare_refl.
Qed.

Definition running (s : Status) : Prop := Status_State s = "TASK_RUNNING".

(** What the loop keeps: [j] is a running status that no earlier running one
    is later than. *)
Definition latest_inv (all : list Status) (i : nat) (ts : spec_float) (j : option nat) : Prop :=
  (∀ k s, (k < i)%nat → all !! k = Some s → running s → gtb (Timestamp s) ts = false)
  ∧ match j with
    | None => ts = minus_one
    | Some j => ∃ s, all !! j = Some s ∧ running s ∧ ts = Timestamp s
                     ∧ gtb ts minus_one = true
    end.

Lemma latest_correct all i ts j :
  latest_inv all i ts j →
  ∃ ts', latest_inv all (length all) ts' (latest (drop i all) i ts j).
Proof.
  remember (length all - i)%nat as n eqn:Hn. revert i ts j Hn.
  induction n as [|n IH]; intros i ts j Hn Hinv.
  - exists ts. rewrite drop_ge by lia. cbn. destruct Hinv as [H1 H2]. split; [|done].
    intros k s Hk Hs. apply (H1 k); [|done]. lia.
  - destruct (lookup_lt_is_Some_2 all i ltac:(lia)) as [s Hs].
    rewrite (drop_S all s i) by done. cbn [latest]. destruct Hinv as [H1 H2].
    destruct (bool_decide _) eqn:Er; cbn [andb]; [apply bool_decide_eq_true in Er|
      apply bool_decide_eq_false in Er].
    + destruct (gtb (Timestamp s) ts) eqn:Eg; (apply IH; [lia|]); split.
      * intros k s' Hk Hk' Hr. destruct (decide (k = i)) as [->|Hne].
        { simplify_eq. apply gtb_irrefl. }
        apply not_true_is_false. intros Hg. specialize (H1 k s' ltac:(lia) Hk' Hr).
        pose proof (gtb_trans _ _ _ Hg Eg). congruence.
      * exists s. split_and!; [done..|]. destruct j as [j|]; [|by subst].
        destruct H2 as (s0 & _ & _ & -> & Hm). by apply (gtb_trans _ (Timestamp s0)).
      * intros k s' Hk Hk' Hr. destruct (decide (k = i)) as [->|Hne]; [by simplify_eq|].
        apply (H1 k); [lia|done..].
      * done.
    + apply IH; [lia|]. split; [|done]. intros k s' Hk Hk' Hr.
      destruct (decide (k = i)) as [->|Hne]; [by simplify_eq|]. apply (H1 k); [lia|done..].
Qed.

(** C35: [StatusIPs] reads its addresses from the latest running status: the
    chosen status is running, and no running status has a later timestamp; it
    returns no address when no running status is later than the epoch minus
    one second. *)
Theorem StatusIPs_latest st src :
  (∃ j s, st !! j = Some s ∧ running s ∧ StatusIPs st src = src s
     ∧ ∀ k s', st !! k = Some s' → running s' → gtb (Timestamp s') (Timestamp s) = false)
  ∨ (StatusIPs st src = []
     ∧ ∀ k s', st !! k = Some s' → running s' → gtb (Timestamp s') minus_one = false).
Proof.
  destruct (latest_correct st 0 minus_one None) as (ts & H1 & H2).
  { split; [intros; lia|done]. }
  rewrite drop_0 in H2. unfold StatusIPs.
  destruct (latest st 0 minus_one None) as [j|].
  - left. destruct H2 as (s & Hs & Hr & -> & _). exists j, s. rewrite Hs.
    split_and!; [done..|]. intros k s' Hk. apply (H1 k); [|done]. by eapply lookup_lt_Some.
  - right. subst. split; [done|]. intros k s' Hk. apply (H1 k); [|done].
    by eapply lookup_lt_Some.
Qed.

(** ** Task addresses *)

Lemma foldl_snoc_filter {A B} (f : A → B) (p : B → bool) (l : list A) acc :
  foldl (λ acc x, if p (f x) then acc ++ [f x] else acc) acc l
  = acc ++ filter (λ y, p y = true) (f <$> l).
Proof.
  revert acc; induction l as [|x l IH]; intros acc; cbn [foldl fmap list_fmap].
  - by rewrite app_nil_r.
  - rewrite IH. destruct (p (f x)) eqn:E.
    + by rewrite filter_cons_True, <-app_assoc by done.
    + by rewrite filter_cons_False by congruence.
Qed.

(** The candidate addresses of a task, source by source. *)
Definition candidates (t : Task) (srcs : list string) : list string :=
  srcs ≫= (λ s, match sources s with Some src => src t | None => [] end).

Definition parses (ip : IP) : bool := (0 <? length ip)%nat.

(** [IPs] is the parseable candidates, in the order of the sources. *)
Lemma IPs_eq t srcs :
  IPs t srcs = filter (λ ip, parses ip = true) (ParseIP <$> candidates t srcs).
Proof.
  unfold IPs, candidates.
  assert (∀ acc, foldl (λ ips s,
      match sources s with
      | Some src => foldl (λ ips srcIP,
          let ip := ParseIP srcIP in if (0 <? length ip)%nat then ips ++ [ip] else ips)
          ips (src t)
      | None => ips
      end) acc srcs
    = acc ++ filter (λ ip, parses ip = true) (ParseIP <$>
        (srcs ≫= λ s, match sources s with Some src => src t | None => [] end))) as H;
    [|by rewrite H].
  induction srcs as [|s srcs IH]; intros acc; cbn [foldl mbind list_bind].
  - cbn. by rewrite app_nil_r.
  - rewrite IH, fmap_app, filter_app. destruct (sources s) as [src|]; [|done].
    rewrite (foldl_snoc_filter ParseIP parses), <-app_assoc. done.
Qed.

(** The task address is the first candidate that parses; earlier ones do
    not. *)
Lemma Task_IP_first t srcs :
  (∃ a s b, candidates t srcs = a ++ s :: b ∧ Forall (λ c, ParseIP c = []) a
     ∧ ParseIP s ≠ [] ∧ Task_IP t srcs = IP_String (ParseIP s))
  ∨ (Forall (λ c, ParseIP c = []) (candidates t srcs) ∧ Task_IP t srcs = "").
Proof.
  unfold Task_IP. rewrite IPs_eq. induction (candidates t srcs) as [|c l IH]; [by right|].
  cbn [fmap list_fmap]. destruct (ParseIP c) as [|b ip] eqn:E.
  - rewrite filter_cons_False by done. destruct IH as [(a & s & r & -> & Ha & Hs & Hip)|[Hl Hip]].
    + left. exists (c :: a), s, r. split_and!; [done|by constructor|done|done].
    + right. split; [by constructor|done].
  - rewrite filter_cons_True by done. left. exists [], c, l. rewrite E. split_and!; [done|constructor|done|done].
Qed.

(** ** Port ranges *)

Definition all_spaces : list string := space_runes ++ wide_space_runes.

Definition digit_at (o : option ascii) : Prop := ∃ c, o = Some c ∧ is_digit c = true.

(** No space rune starts or ends with a digit. *)
Lemma spaces_no_digit :
  Forall (λ p, p ≠ "" ∧ ¬ digit_at (head (bytes p)) ∧ ¬ digit_at (last (bytes p))) all_spaces.
Proof.
  assert (forallb (λ p, match head (bytes p), last (bytes p) with
    | Some a, Some b => negb (is_digit a) && negb (is_digit b)
    | _, _ => false end) all_spaces = true) as H by (vm_compute; reflexivity).
  apply Forall_forall. intros p Hp. rewrite forallb_forall in H.
  specialize (H p (proj1 (list_elem_of_In _ _) Hp)). unfold digit_at.
  destruct p as [|a p]; [done|]. split; [done|].
  destruct (head (bytes (String a p))), (last (bytes (String a p))); try done.
  apply andb_true_iff in H as [?%negb_true_iff ?%negb_true_iff].
  split; intros (c & [= <-] & ?); congruence.
Qed.

Lemma strip_first_None f ps s :
  Forall (λ p, f p s = None) ps → strip_first f ps s = None.
Proof. induction 1 as [|p ps Hp _ IH]; [done|]. cbn. by rewrite Hp. Qed.

Lemma strip_fuel_None n f s : strip_first f all_spaces s = None → strip_fuel n f s = s.
Proof. destruct n; [done|]. cbn. fold all_spaces. by intros ->. Qed.

Lemma no_space_prefix s :
  digit_at (head (bytes s)) → strip_first strip_prefix all_spaces s = None.
Proof.
  intros Hs. apply strip_first_None. eapply Forall_impl; [apply spaces_no_digit|].
  intros p (Hne & Hp & _). unfold strip_prefix, HasPrefix.
  destruct (has_prefix p s) eqn:E; [|done]. apply has_prefix_spec in E as [t ->].
  exfalso. apply Hp. by destruct p.
Qed.

Lemma no_space_suffix s :
  digit_at (last (bytes s)) → strip_first strip_suffix all_spaces s = None.
Proof.
  intros Hs. apply strip_first_None. eapply Forall_impl; [apply spaces_no_digit|].
  intros p (Hne & _ & Hp). unfold strip_suffix, HasSuffix.
  destruct (_ && _) eqn:E; [|done]. apply andb_true_iff in E as [E1 E2%bool_decide_eq_true].
  exfalso. apply Hp. rewrite <-E2 in Hne |- *. clear E1 E2 Hp.
  revert Hs Hne. generalize (String.length s - String.length p)%nat as k. clear p.
  intros k. revert s. induction k as [|k IH]; intros [|c s]; cbn [drop_str]; try done.
  intros Hs Hne. apply IH; [|done]. destruct s as [|d s]; [by destruct k|].
  exact Hs.
Qed.

Lemma TrimSpace_digits s :
  digit_at (head (bytes s)) → digit_at (last (bytes s)) → TrimSpace s = s.
Proof.
  intros Hh Hl. unfold TrimSpace.
  rewrite (strip_fuel_None _ strip_prefix) by by apply no_space_prefix.
  apply strip_fuel_None. by apply no_space_suffix.
Qed.

Lemma TrimSpace_space s :
  digit_at (head (bytes s)) → digit_at (last (bytes s)) → TrimSpace (String " " s) = s.
Proof.
  intros Hh Hl. unfold TrimSpace. cbn [String.length strip_fuel].
  assert (strip_first strip_prefix (space_runes ++ wide_space_runes) (String " " s) = Some s)
    as -> by (destruct s; reflexivity).
  rewrite (strip_fuel_None _ strip_prefix) by by apply no_space_prefix.
  apply strip_fuel_None. by apply no_space_suffix.
Qed.

(** The text Mesos writes for a list of port ranges. *)
Definition show_range (r : Z * Z) : string := Itoa r.1 +:+ "-" +:+ Itoa r.2.
Definition show_ranges (rs : list (Z * Z)) : string :=
  "[" +:+ Join (show_range <$> rs) ", " +:+ "]".

Definition port_range (r : Z * Z) : Prop := (0 ≤ r.1 < maxInt64 ∧ 0 ≤ r.2 < maxInt64)%Z.

Lemma Itoa_nonneg x : (0 ≤ x)%Z → Itoa x = utoa x.
Proof. intros. unfold Itoa. destruct (Z.ltb_spec x 0); [lia|done]. Qed.

Lemma show_range_bytes r c :
  port_range r → c ∈ bytes (show_range r) → is_digit c = true ∨ c = "-"%char.
Proof.
  intros [H1 H2]. unfold show_range. rewrite !bytes_app, !elem_of_app.
  change (bytes "-") with ["-"%char]. rewrite list_elem_of_singleton.
  intros [H|[->|H]]; [by eapply Itoa_bytes|by right|by eapply Itoa_bytes].
Qed.

Lemma show_range_ends r :
  port_range r →
  digit_at (head (bytes (show_range r))) ∧ digit_at (last (bytes (show_range r))).
Proof.
  intros [H1 H2]. unfold show_range. rewrite !Itoa_nonneg, !bytes_app by lia.
  pose proof (utoa_digits r.1 ltac:(lia)) as D1. pose proof (utoa_nonempty r.1).
  pose proof (utoa_digits r.2 ltac:(lia)) as D2. pose proof (utoa_nonempty r.2).
  split.
  - destruct (bytes (utoa r.1)) as [|c l]; [done|]. inversion D1; subst. by exists c.
  - rewrite app_assoc, last_app. destruct (last (bytes (utoa r.2))) as [c|] eqn:E.
    + exists c. split; [done|]. apply last_Some_elem_of in E. by eapply Forall_forall in D2.
    + by apply last_None in E.
Qed.

Lemma Split_Join_comma l :
  l ≠ [] → Forall (λ s, ","%char ∉ bytes s) l →
  Split (Join l ", ") "," = match l with [] => [] | s :: l => s :: (String " " <$> l) end.
Proof.
  assert (∀ s l, Forall (λ s, ","%char ∉ bytes s) (s :: l) → ∀ pre, ","%char ∉ bytes pre →
    Split (pre +:+ Join (s :: l) ", ") "," = (pre +:+ s) :: (String " " <$> l)) as H.
  { intros s k. revert s. induction k as [|t k IH]; intros s Hl pre Hpre;
      inversion Hl as [|?? Hs Hk]; subst.
    - cbn. apply Split_nosep. rewrite bytes_app. set_solver.
    - rewrite Join_cons by done.
      replace (pre +:+ s +:+ ", " +:+ Join (t :: k) ", ")
        with ((pre +:+ s) +:+ String "," (" " +:+ Join (t :: k) ", "))
        by (rewrite <-app_string_assoc; done).
      rewrite Split_cons by (rewrite bytes_app; set_solver).
      rewrite IH; [done|done|]. by change (bytes " ") with [" "%char]; set_solver. }
  destruct l as [|s l]; [done|]. intros _ Hl. exact (H s l Hl "" ltac:(set_solver)).
Qed.

(** The ports of one range: what the loop body appends. *)
Definition range_ports (r : Z * Z) : list string :=
  if (r.2 <? r.1)%Z then [] else Itoa <$> seqZ r.1 (r.2 - r.1 + 1).

Lemma range_body r (yports : list string) :
  port_range r →
  (lo ← index (Split (show_range r) "-") 0;
   hi ← index (Split (show_range r) "-") 1;
   ts ← port_loop (Atoi lo).1 (Atoi hi).1;
   Ret (yports ++ ts)) = Ret (yports ++ range_ports r).
Proof.
  intros Hr. pose proof Hr as [H1 H2]. unfold show_range.
  assert (∀ x, (0 ≤ x)%Z → "-"%char ∉ bytes (Itoa x)) as Hd.
  { intros x Hx Hin. rewrite Itoa_nonneg in Hin by done.
    eapply Forall_forall in Hin; [|apply utoa_digits, Hx]. by vm_compute in Hin. }
  change ("-" +:+ Itoa r.2) with (String "-" (Itoa r.2)).
  rewrite Split_cons, Split_nosep by (apply Hd; lia). cbn.
  unfold maxInt64, minInt64 in *.
  rewrite !Atoi_Itoa by (unfold maxInt64, minInt64; lia). cbn.
  unfold port_loop, range_ports. destruct (r.2 <? r.1)%Z; [done|].
  destruct (Z.eqb_spec r.2 maxInt64); [unfold maxInt64 in *; lia|done].
Qed.

(** One iteration of the loop of [Ports]. *)
Definition ports_step (yports : list string) (port : string) : go (list string) :=
  let pz := Split (TrimSpace port) "-" in
  lo ← index pz 0;
  hi ← index pz 1;
  ts ← port_loop (Atoi lo).1 (Atoi hi).1;
  Ret (yports ++ ts).

Lemma ports_loop rs pre acc :
  Forall port_range rs → (pre = "" ∨ pre = " ") →
  foldM ports_step (String.app pre <$> (show_range <$> rs)) acc = Ret (acc ++ (rs ≫= range_ports)).
Proof.
  intros Hrs Hpre. revert acc. induction Hrs as [|r rs Hr _ IH]; intros acc.
  - cbn. by rewrite app_nil_r.
  - cbn [fmap list_fmap foldM mbind list_bind].
    destruct (show_range_ends r Hr) as [Hh Hl].
    assert (ports_step acc (pre +:+ show_range r) = Ret (acc ++ range_ports r)) as ->.
    { unfold ports_step. destruct Hpre as [-> | ->].
      - change ("" +:+ show_range r) with (show_range r).
        rewrite TrimSpace_digits by done. by apply range_body.
      - change (" " +:+ show_range r) with (String " " (show_range r)).
        rewrite TrimSpace_space by done. by apply range_body. }
    cbn. rewrite IH. by rewrite app_assoc.
Qed.

Lemma fmap_empty_app (l : list string) : (String.app "" <$> l) = l.
Proof. induction l as [|s l IH]; [done|]. cbn [fmap list_fmap]. by f_equal. Qed.

Abbreviation joined rs := (Join (show_range <$> rs) ", ").

Lemma joined_bytes rs c :
  Forall port_range rs → c ∈ bytes (joined rs) → is_digit c = true ∨ c ∈ ["-"; ","; " "]%char.
Proof.
  intros Hrs [Hc|(f & Hf & Hc)]%bytes_Join; [set_solver|].
  apply list_elem_of_fmap in Hf as (r & -> & Hr). eapply Forall_forall in Hrs; [|exact Hr].
  destruct (show_range_bytes r c Hrs Hc); set_solver.
Qed.

Lemma joined_no_brackets rs :
  Forall port_range rs → "["%char ∉ bytes (joined rs) ∧ "]"%char ∉ bytes (joined rs).
Proof.
  intros Hrs. split; (intros [Hc|Hc]%joined_bytes; [by vm_compute in Hc|set_solver|done]).
Qed.

Lemma joined_nonempty rs : rs ≠ [] → Forall port_range rs → bytes (joined rs) ≠ [].
Proof.
  intros Hne Hrs Hb. destruct rs as [|r rs]; [done|]. inversion Hrs as [|?? Hr _]; subst.
  destruct (show_range_ends r Hr) as [(c & Hc & _) _].
  cbn [fmap list_fmap] in Hb. destruct rs; [by cbn in Hb; rewrite Hb in Hc|].
  rewrite Join_cons, bytes_app in Hb by done. apply app_eq_nil in Hb as [Hb _].
  by rewrite Hb in Hc.
Qed.

Lemma show_range_no_comma rs :
  Forall port_range rs → Forall (λ s, ","%char ∉ bytes s) (show_range <$> rs).
Proof.
  intros Hrs. apply Forall_forall. intros s (r & -> & Hr)%list_elem_of_fmap Hc.
  eapply Forall_forall in Hrs; [|exact Hr].
  destruct (show_range_bytes r _ Hrs Hc) as [H|H]; by vm_compute in H.
Qed.

(** The fields the loop of [Ports] runs over. *)
Lemma Ports_show_ranges rs :
  rs ≠ [] → Forall port_range rs →
  Ports {| PortRanges := show_ranges rs |} = foldM ports_step (Split (joined rs) ",") [].
Proof.
  intros Hne Hrs. unfold Ports, show_ranges. cbn [PortRanges].
  destruct (joined_no_brackets rs Hrs) as [Hj1 Hj2].
  pose proof (joined_nonempty rs Hne Hrs) as Hj0.
  rewrite (bool_decide_eq_false_2 (_ = "")) by done.
  rewrite (bool_decide_eq_false_2 (_ = "[]")).
  2: { intros E. apply (f_equal bytes) in E. rewrite !bytes_app in E. cbn in E.
       injection E as E. apply (f_equal length) in E. rewrite length_app in E. cbn in E.
       destruct (bytes (joined rs)) eqn:Eb; [done|cbn in E; lia]. }
  cbn [orb]. change ("[" +:+ joined rs +:+ "]") with ("" +:+ String "[" (joined rs +:+ "]")).
  rewrite Split_cons by set_solver.
  rewrite (Split_nosep "[") by (rewrite bytes_app; set_solver). cbn.
  by rewrite Split_cons by done.
Qed.

(** C36: [Resources.Ports] expands exactly the ranges that Mesos prints: on the
    text of a non-empty list of ranges it returns, in order, every port of
    every range. *)
Theorem Ports_ranges rs :
  rs ≠ [] → Forall port_range rs →
  Ports {| PortRanges := show_ranges rs |} = Ret (rs ≫= range_ports).
Proof.
  intros Hne Hrs. rewrite Ports_show_ranges by done.
  rewrite Split_Join_comma; [|by destruct rs|by apply show_range_no_comma].
  destruct rs as [|r rs]; [done|]. inversion Hrs as [|?? Hr Hrs']; subst.
  cbn [fmap list_fmap]. change (show_range r :: ?l) with ([show_range r] ++ l).
  rewrite foldM_app.
  pose proof (ports_loop [r] "" [] ltac:(constructor; [exact Hr|constructor]) ltac:(by left)) as H1.
  rewrite fmap_empty_app in H1. cbn [fmap list_fmap] in H1. rewrite H1.
  pose proof (ports_loop rs " " ([] ++ ([r] ≫= range_ports)) Hrs' ltac:(by right)) as H2.
  cbn [app mbind list_bind] in H2 |- *. rewrite app_nil_r in H2 |- *. exact H2.
Qed.

Lemma Ports_ranges_witness :
  Ports {| PortRanges := show_ranges [(31000, 31001); (31005, 31005)]%Z |}
  = Ret ["31000"; "31001"; "31005"].
Proof.
  rewrite (Ports_ranges [(31000, 31001); (31005, 31005)]%Z); [vm_compute; reflexivity|done|].
  repeat constructor; vm_compute; congruence.
Defined.

(** Every other shape of the port resource is a crash of the caller: text
    without an opening bracket, or a range without a hyphen, is an index out
    of range, and a range up to the largest [int] never ends. *)
Theorem Ports_malformed :
  Ports {| PortRanges := "31000-31001" |} = Panic IndexOutOfRange
  ∧ Ports {| PortRanges := "[31000]" |} = Panic IndexOutOfRange
  ∧ Ports {| PortRanges := "[31000-9223372036854775807]" |} = Panic NoReturn
  ∧ Ports {| PortRanges := "[a-b]" |} = Ret ["0"].
Proof. vm_compute. auto. Qed.
