(* ===== verification/Hash.v ===== *)
(** * Task identifiers ([hashString] of src/records/generator.go)

    [hashString] is five characters of the z-base-32 form of a SHA-1 digest:
    [crypto/sha1] of the Go library (FIPS 180-1) and the vendored encoder
    (src/vendor/github.com/tv42/zbase32/zbase32.go). *)

From S2P Require Import Prelude GoStrings.

(** ** SHA-1 *)

Definition w32 (x : Z) : Z := (x mod 2 ^ 32)%Z.
Definition rotl (n x : Z) : Z := Z.lor (w32 (Z.shiftl x n)) (Z.shiftr x (32 - n)).
Definition not32 (x : Z) : Z := Z.lxor x (2 ^ 32 - 1).

(** The big-endian bytes of [x], [n] of them. *)
Fixpoint be_bytes (n : nat) (x : Z) : list Z :=
  match n with
  | 0 => []
  | S n => be_bytes n (Z.shiftr x 8) ++ [Z.land x 255]
  end.

Fixpoint be_words (fuel : nat) (l : list Z) : list Z :=
  match fuel, l with
  | S fuel, a :: b :: c :: d :: l =>
      (((a * 256 + b) * 256 + c) * 256 + d)%Z :: be_words fuel l
  | _, _ => []
  end.

(** The message followed by 0x80, zeros up to 56 modulo 64, and the length in
    bits. *)
Definition pad (m : list Z) : list Z :=
  let n := length m in
  m ++ [0x80]%Z ++ replicate ((119 - n mod 64) mod 64) 0%Z ++ be_bytes 8 (8 * Z.of_nat n).

(** The message schedule, latest word first: [n] more words. *)
Fixpoint schedule (n : nat) (w : list Z) : list Z :=
  match n with
  | 0 => w
  | S n =>
      let g i := nth i w 0%Z in
      schedule n (rotl 1 (Z.lxor (Z.lxor (g 2) (g 7)) (Z.lxor (g 13) (g 15))) :: w)
  end.

Definition sha_f (t : nat) (b c d : Z) : Z * Z :=
  if (t <? 20)%nat then (Z.lor (Z.land b c) (Z.land (not32 b) d), 0x5A827999)%Z
  else if (t <? 40)%nat then (Z.lxor b (Z.lxor c d), 0x6ED9EBA1)%Z
  else if (t <? 60)%nat then
    (Z.lor (Z.land b c) (Z.lor (Z.land b d) (Z.land c d)), 0x8F1BBCDC)%Z
  else (Z.lxor b (Z.lxor c d), 0xCA62C1D6)%Z.

Record digest := Digest { dA : Z; dB : Z; dC : Z; dD : Z; dE : Z }.

Fixpoint rounds (t : nat) (w : list Z) (h : digest) : digest :=
  match w with
  | [] => h
  | x :: w =>
      let '(f, k) := sha_f t (dB h) (dC h) (dD h) in
      let tmp := w32 (rotl 5 (dA h) + f + dE h + k + x) in
      rounds (S t) w (Digest tmp (dA h) (rotl 30 (dB h)) (dC h) (dD h))
  end.

Definition sha_block (h : digest) (blk : list Z) : digest :=
  let w := rev (schedule 64 (rev (be_words 16 blk))) in
  let r := rounds 0 w h in
  Digest (w32 (dA h + dA r)) (w32 (dB h + dB r)) (w32 (dC h + dC r))
    (w32 (dD h + dD r)) (w32 (dE h + dE r)).

Fixpoint sha_blocks (fuel : nat) (l : list Z) (h : digest) : digest :=
  match fuel with
  | 0 => h
  | S fuel => sha_blocks fuel (drop 64 l) (sha_block h (take 64 l))
  end.

(** [sha1.Sum]. *)
Definition sha1_Sum (data : list ascii) : list Z :=
  let m := pad (code <$> data) in
  let h := sha_blocks (length m / 64) m
    (Digest 0x67452301 0xEFCDAB89 0x98BADCFE 0x10325476 0xC3D2E1F0) in
  be_bytes 4 (dA h) ++ be_bytes 4 (dB h) ++ be_bytes 4 (dC h) ++ be_bytes 4 (dD h)
  ++ be_bytes 4 (dE h).

(** ** z-base-32 *)

Definition alphabet : string := "ybndrfg8ejkmcpqxot1uwisza345h769".

(** One character of [encode] at bit offset [offset] of the byte [b0], the
    byte [b1] following it. *)
Definition encode_char (offset : nat) (b0 b1 : Z) : Z :=
  let o := Z.of_nat offset in
  if (offset <? 4)%nat
  then Z.shiftr (Z.land b0 (Z.shiftl 31 (3 - o))) (3 - o)
  else Z.lor (Z.shiftl (Z.land b0 (Z.shiftr 31 (o - 3))) (o - 3))
         (Z.shiftr (Z.land b1 (Z.land (Z.shiftl 255 (11 - o)) 255)) (11 - o)).

(** The loop of [encode] with no bit limit.  Every round consumes five bits,
    so two rounds per byte are enough. *)
Fixpoint encode_loop (fuel : nat) (i : nat) (src : list Z) : list ascii :=
  match fuel, src with
  | S fuel, b0 :: src' =>
      let b1 := match src' with b1 :: _ => b1 | [] => 0%Z end in
      let offset := (i mod 8)%nat in
      nth (Z.to_nat (encode_char offset b0 b1)) (bytes alphabet) zero
      :: encode_loop fuel (i + 5) (if (2 <? offset)%nat then src' else src)
  | _, _ => []
  end.

Definition EncodeToString (src : list Z) : string :=
  str (encode_loop (2 * length src) 0 src).

(** ** [hashString] *)

Definition hashString (s : string) : string :=
  str (take 5 (bytes (EncodeToString (sha1_Sum (bytes s))))).

(** FIPS 180-1 test vector, and the digest of a task identifier. *)
Example sha1_abc :
  sha1_Sum (bytes "abc") = be_bytes 20 0xa9993e364706816aba3e25717850c26c9cd0d89d.
Proof. vm_compute. reflexivity. Qed.

Example zbase32_doc : EncodeToString [240; 191; 199]%Z = "6n9hq".
Proof. vm_compute. reflexivity. Qed.

(** ** The form of a hash *)

Example hashString_test : hashString "test" = "iffe9".
Proof. vm_compute. reflexivity. Qed.

Lemma forallb_below (p : Z → bool) (n : nat) z :
  forallb p (Z.of_nat <$> seq 0 n) = true → (0 ≤ z < Z.of_nat n)%Z → p z = true.
Proof.
  intros H Hz. rewrite forallb_forall in H. apply H. apply list_elem_of_In.
  apply list_elem_of_fmap. exists (Z.to_nat z). split; [lia|].
  apply elem_of_seq. lia.
Qed.

Definition below32 (x : Z) : bool := (0 <=? x)%Z && (x <? 32)%Z.

Lemma lor_below32 x y : below32 x = true → below32 y = true → below32 (Z.lor x y) = true.
Proof.
  unfold below32 at 1 2. intros Hx Hy.
  apply (forallb_below (λ y, below32 (Z.lor x y)) 32); [|lia].
  apply (forallb_below (λ x, forallb (λ y, below32 (Z.lor x y)) (Z.of_nat <$> seq 0 32)) 32);
    [vm_compute; reflexivity|lia].
Qed.

(** Every character of the encoding is one of the alphabet's 32. *)
Lemma encode_char_range offset b0 b1 :
  (0 ≤ b0 < 256)%Z → (0 ≤ b1 < 256)%Z → (offset < 8)%nat →
  below32 (encode_char offset b0 b1) = true.
Proof.
  intros H0 H1 Ho.
  do 4 (destruct offset as [|offset];
    [apply (forallb_below (λ b, below32 (encode_char _ b b1)) 256);
      [vm_compute; reflexivity|lia]|]).
  do 4 (destruct offset as [|offset]; [apply lor_below32;
    match goal with |- below32 ?e = true => match e with
      | context [Z.land b0 _] => apply (forallb_below (λ b, below32
          ltac:(let f := eval pattern b0 in e in match f with ?g _ => exact (g b) end)) 256)
      | context [Z.land b1 _] => apply (forallb_below (λ b, below32
          ltac:(let f := eval pattern b1 in e in match f with ?g _ => exact (g b) end)) 256)
      end end; [vm_compute; reflexivity|lia|vm_compute; reflexivity|lia]|]).
  lia.
Qed.

Definition alnum (c : ascii) : bool := is_lower c || is_digit c.

Lemma alphabet_alnum i : below32 i = true → alnum (nth (Z.to_nat i) (bytes alphabet) zero) = true.
Proof.
  unfold below32. intros Hi.
  apply (forallb_below (λ i, alnum (nth (Z.to_nat i) (bytes alphabet) zero)) 32);
    [vm_compute; reflexivity|lia].
Qed.

Lemma be_bytes_range n x : Forall (λ b, (0 ≤ b < 256)%Z) (be_bytes n x).
Proof.
  revert x; induction n as [|n IH]; intros x; [constructor|]. cbn.
  apply Forall_app. split; [apply IH|]. constructor; [|constructor].
  change 255%Z with (Z.ones 8). rewrite Z.land_ones by lia. apply Z.mod_pos_bound. lia.
Qed.

Lemma length_be_bytes n x : length (be_bytes n x) = n.
Proof. revert x; induction n as [|n IH]; intros x; [done|]. cbn. rewrite length_app, IH. cbn. lia. Qed.

Lemma encode_loop_alnum fuel i src :
  Forall (λ b, (0 ≤ b < 256)%Z) src →
  Forall (λ c, alnum c = true) (encode_loop fuel i src).
Proof.
  revert i src; induction fuel as [|fuel IH]; intros i src Hs; [constructor|].
  destruct src as [|b0 src]; [constructor|]. inversion Hs as [|?? H0 Hs']; subst.
  cbn [encode_loop]. constructor.
  - apply alphabet_alnum, encode_char_range; [done| |by apply Nat.mod_upper_bound].
    destruct src as [|b1 src]; [lia|]. by inversion Hs'.
  - apply IH. by destruct (2 <? i mod 8)%nat.
Qed.

Lemma encode_loop_length fuel i src :
  (Nat.min fuel (length src) ≤ length (encode_loop fuel i src))%nat.
Proof.
  revert i src; induction fuel as [|fuel IH]; intros i src; [cbn; lia|].
  destruct src as [|b0 src]; [cbn; lia|]. cbn [encode_loop length].
  destruct (2 <? i mod 8)%nat.
  - pose proof (IH (i + 5)%nat src). lia.
  - pose proof (IH (i + 5)%nat (b0 :: src)). cbn [length] in *. lia.
Qed.

(** A hash is five characters, each a lower-case letter or a digit. *)
Lemma hashString_form s :
  length (bytes (hashString s)) = 5 ∧ Forall (λ c, alnum c = true) (bytes (hashString s)).
Proof.
  unfold hashString, EncodeToString. rewrite !bytes_str.
  set (src := sha1_Sum (bytes s)).
  assert (Forall (λ b, (0 ≤ b < 256)%Z) src ∧ length src = 20) as [Hr Hl].
  { unfold src, sha1_Sum. cbv zeta. split.
    - rewrite !Forall_app. split_and!; apply be_bytes_range.
    - by rewrite !length_app, !length_be_bytes. }
  split; [|by apply Forall_take, encode_loop_alnum].
  rewrite length_take. pose proof (encode_loop_length (2 * length src) 0 src). lia.
Qed.
