(* ===== verification/Config.v ===== *)
(** * The configuration (src/records/config.go, src/records/validation.go)

    Reading the file, its validation and its completion.  The environment
    ([os.Getenv]), the file system ([filepath.Abs], [ioutil.ReadFile]) and
    the JSON decoder are arguments of [ReadConfig]; [logging.Error.Fatal]
    ends the process, which [SetConfig] shows as [inl].  The quotes that the
    verb %q puts around a text in an error are left out. *)

From Corelib Require Import SpecFloat.
From S2P Require Import Prelude GoStrings GoNet.

(** An [interface{}] that the JSON decoder filled in. *)
Inductive json :=
| JNull
| JBool (b : bool)
| JNumber (x : spec_float)
| JString (s : string)
| JArray (l : list json)
| JObject (m : list (string * json)).

Record Config := {
  Domain : string;
  EnforceRFC952 : bool;
  File : string;
  IPSources : list string;
  Masters : list string;
  RefreshSeconds : Z;
  Resolvers : option (gmap string json);
  StateTimeoutSeconds : Z;
  SOAExpire : Z;
  SOAMinttl : Z;
  SOAMname : string;
  SOARefresh : Z;
  SOARetry : Z;
  SOARname : string;
  SOASerial : Z;
  Zk : string;
  ZkDetectionTimeout : Z }.

(** [uint32(x)] *)
Definition uint32 (x : Z) : Z := (x mod 2 ^ 32)%Z.

Definition NewConfig (now : Z) : Config :=
  {| Domain := "mesos"; EnforceRFC952 := false; File := "";
     IPSources := ["netinfo"; "mesos"; "host"]; Masters := [];
     RefreshSeconds := 60; Resolvers := None; StateTimeoutSeconds := 300;
     SOAExpire := 86400; SOAMinttl := 60; SOAMname := "ns1.mesos";
     SOARefresh := 60; SOARetry := 600; SOARname := "root.ns1.mesos";
     SOASerial := uint32 now; Zk := ""; ZkDetectionTimeout := 30 |}.

(** The assignments to single fields that the program makes. *)
Definition set_SOASerial (c : Config) (n : Z) : Config :=
  {| Domain := Domain c; EnforceRFC952 := EnforceRFC952 c; File := File c;
     IPSources := IPSources c; Masters := Masters c; RefreshSeconds := RefreshSeconds c;
     Resolvers := Resolvers c; StateTimeoutSeconds := StateTimeoutSeconds c;
     SOAExpire := SOAExpire c; SOAMinttl := SOAMinttl c; SOAMname := SOAMname c;
     SOARefresh := SOARefresh c; SOARetry := SOARetry c; SOARname := SOARname c;
     SOASerial := n; Zk := Zk c; ZkDetectionTimeout := ZkDetectionTimeout c |}.

Definition set_Masters (c : Config) (ms : list string) : Config :=
  {| Domain := Domain c; EnforceRFC952 := EnforceRFC952 c; File := File c;
     IPSources := IPSources c; Masters := ms; RefreshSeconds := RefreshSeconds c;
     Resolvers := Resolvers c; StateTimeoutSeconds := StateTimeoutSeconds c;
     SOAExpire := SOAExpire c; SOAMinttl := SOAMinttl c; SOAMname := SOAMname c;
     SOARefresh := SOARefresh c; SOARetry := SOARetry c; SOARname := SOARname c;
     SOASerial := SOASerial c; Zk := Zk c; ZkDetectionTimeout := ZkDetectionTimeout c |}.

(** ** Validation *)

Definition validateEnabledServices (c : Config) : error :=
  if (length (Masters c) =? 0)%nat && bool_decide (Zk c = "")
  then Some "specify mesos masters or zookeeper in config.json" else None.

(** The key under which a master is remembered: an address is normalized. *)
Definition master_key (m h p : string) : string :=
  match ParseIP h with
  | [] => m
  | ip => IP_String ip +:+ "_" +:+ p
  end.

Fixpoint validateMasters_loop (ms : list string) (valid : gset string) : error :=
  match ms with
  | [] => None
  | m :: ms =>
      let '(h, p, err) := SplitHostPort m in
      match err with
      | Some _ => Some ("illegal host:port specified for master " +:+ m)
      | None =>
          let k := master_key m h p in
          if bool_decide (k ∈ valid) then Some ("duplicate master specified: " +:+ m)
          else validateMasters_loop ms ({[k]} ∪ valid)
      end
  end.

Definition validateMasters (ms : list string) : error := validateMasters_loop ms ∅.

(** [unique] keeps the first of equal strings. *)
Definition unique (ss : list string) : list string :=
  (foldl (λ '(set, out) s,
      if bool_decide (s ∈ set) then (set, out) else ({[s]} ∪ set, out ++ [s]))
    ((∅ : gset string), []) ss).2.

Definition known_source (src : string) : bool :=
  match Split src ":" with
  | s :: _ => bool_decide (s ∈ ["host"; "docker"; "mesos"; "netinfo"; "label"])
  | [] => false
  end.

Fixpoint validateIPSources_loop (srcs : list string) : error :=
  match srcs with
  | [] => None
  | src :: srcs =>
      if known_source src then validateIPSources_loop srcs
      else Some ("invalid ip source " +:+ src)
  end.

Definition validateIPSources (srcs : list string) : error :=
  if (length srcs =? 0)%nat then Some "empty ip sources"
  else if negb (length srcs =? length (unique srcs))%nat
  then Some "duplicate ip source specified"
  else validateIPSources_loop srcs.

(** ** Reading and completing *)

Section environment.
Context `{UnicodeTables}.
Context (getenv : string → string)
        (abs : string → option string)
        (readFile : string → option (list ascii))
        (unmarshal : list ascii → Config → option Config + string)
        (now : Z).

Definition workingDir : string :=
  foldl (λ wd name, if bool_decide (getenv name = "") then wd else getenv name)
    "." ["HOME"; "USERPROFILE"].

(** The result is a pointer, which the decoder sets to nil ([None]) when the
    file says null. *)
Definition ReadConfig (file : string) : string + option Config :=
  match abs (Replace1 file "~/" (workingDir +:+ "/")) with
  | None => inl "cannot find configuration file"
  | Some file =>
      match readFile file with
      | None => inl ("missing configuration file: " +:+ file)
      | Some bs =>
          match unmarshal bs (NewConfig now) with
          | inl c => inr c
          | inr e => inl ("failed to unmarshal config file " +:+ file +:+ ": " +:+ e)
          end
      end
  end.

(** The SOA names as the server uses them. *)
Definition soa_rname (s : string) : string := TrimRight (ReplaceAll s "@" ".") "." +:+ ".".
Definition soa_mname (s : string) : string := TrimRight s "." +:+ ".".

Definition complete (c : Config) : Config :=
  {| Domain := ToLower (Domain c); EnforceRFC952 := EnforceRFC952 c; File := File c;
     IPSources := IPSources c; Masters := Masters c; RefreshSeconds := RefreshSeconds c;
     Resolvers := match Resolvers c with None => Some {["builtin" := JNull]} | r => r end;
     StateTimeoutSeconds := StateTimeoutSeconds c;
     SOAExpire := SOAExpire c; SOAMinttl := SOAMinttl c; SOAMname := soa_mname (SOAMname c);
     SOARefresh := SOARefresh c; SOARetry := SOARetry c; SOARname := soa_rname (SOARname c);
     SOASerial := SOASerial c; Zk := Zk c; ZkDetectionTimeout := ZkDetectionTimeout c |}.

Definition SetConfig (cjson : string) : go (string + Config) :=
  match ReadConfig cjson with
  | inl e => Ret (inl e)
  | inr None => Panic NilDeref
  | inr (Some c) =>
      Ret match validateMasters (Masters c) with
          | Some e => inl ("Masters validation failed: " +:+ e)
          | None =>
              match validateIPSources (IPSources c) with
              | Some e => inl ("IPSources validation failed: " +:+ e)
              | None => inr (complete c)
              end
          end
  end.

(** What the rest of the program may rely on: a configuration that is
    accepted is the completion of one that was read, whose masters and address
    sources are valid. *)
Lemma SetConfig_accepts cjson config :
  SetConfig cjson = Ret (inr config) →
  ∃ c, ReadConfig cjson = inr (Some c) ∧ config = complete c
    ∧ validateMasters (Masters config) = None ∧ validateIPSources (IPSources config) = None.
Proof.
  unfold SetConfig. destruct (ReadConfig cjson) as [e|[c|]]; [done| |done]. intros Hc%Ret_inj.
  destruct (validateMasters (Masters c)) eqn:Em; [done|].
  destruct (validateIPSources (IPSources c)) eqn:Es; [done|]. injection Hc as <-. by exists c.
Qed.
End environment.

(** ** Properties of the validation *)

Lemma unique_inv ss set out :
  (∀ s, s ∈ set ↔ s ∈ out) → NoDup out →
  let r := foldl (λ '(set, out) s,
      if bool_decide (s ∈ set) then (set, out) else ({[s]} ∪ set, out ++ [s]))
    ((set : gset string), out) ss in
  (∀ s, s ∈ r.2 ↔ s ∈ out ∨ s ∈ ss) ∧ NoDup r.2 ∧ (length r.2 ≤ length out + length ss)%nat
  ∧ (NoDup (out ++ ss) ↔ length r.2 = (length out + length ss)%nat).
Proof.
  revert set out; induction ss as [|s ss IH]; intros set out Hset Hnd; cbn [foldl].
  - cbn. rewrite app_nil_r. split_and!; [set_solver|done|lia|split; [lia|done]].
  - case_bool_decide as Hs.
    + destruct (IH set out Hset Hnd) as (H1 & H2 & H3 & H4). split_and!; [|done|cbn; lia|].
      * intros t. rewrite H1, elem_of_cons. set_solver.
      * split; [|cbn; lia]. intros Hd. apply NoDup_app in Hd as (_ & Hd & _). set_solver.
    + destruct (IH ({[s]} ∪ set) (out ++ [s])) as (H1 & H2 & H3 & H4);
        [set_solver|apply NoDup_app; split_and!; [done|set_solver|apply NoDup_singleton]|].
      rewrite length_app in H3, H4. cbn [length] in *. split_and!; [|done|lia|].
      * intros t. rewrite H1. set_solver.
      * rewrite <-app_assoc in H4. cbn in H4. rewrite H4. lia.
Qed.

(** [validateIPSources] accepts exactly the non-empty lists of distinct
    sources that all start with one of the five known names. *)
Theorem validateIPSources_ok srcs :
  validateIPSources srcs = None ↔
  srcs ≠ [] ∧ NoDup srcs ∧ Forall (λ s, known_source s = true) srcs.
Proof.
  assert (validateIPSources_loop srcs = None ↔ Forall (λ s, known_source s = true) srcs) as Hloop.
  { induction srcs as [|s srcs IH]; cbn; [by split; [constructor|]|].
    rewrite Forall_cons. destruct (known_source s); [rewrite <-IH; naive_solver|naive_solver]. }
  unfold validateIPSources. destruct srcs as [|s srcs]; [naive_solver|].
  change (length (s :: srcs) =? 0)%nat with false. cbv iota.
  pose proof (unique_inv (s :: srcs) ∅ [] ltac:(set_solver) (NoDup_nil_2)) as (_ & _ & _ & Hu).
  fold (unique (s :: srcs)) in Hu. cbn [app length Nat.add] in Hu.
  destruct (Nat.eqb_spec (length (s :: srcs)) (length (unique (s :: srcs)))) as [E|E];
    cbn [negb]; cbn [length] in E.
  - rewrite Hloop, Hu. naive_solver.
  - rewrite Hu. split; [done|]. intros (_ & ? & _). congruence.
Qed.

Definition master_keys (ms : list string) : list string :=
  (λ m, let '(h, p, _) := SplitHostPort m in master_key m h p) <$> ms.

(** [validateMasters] accepts exactly the lists whose every master splits
    into host and port and in which no two masters have the same normalized
    address. *)
Theorem validateMasters_ok ms :
  validateMasters ms = None ↔
  Forall (λ m, (SplitHostPort m).2 = None) ms ∧ NoDup (master_keys ms).
Proof.
  unfold validateMasters.
  assert (∀ valid, validateMasters_loop ms valid = None ↔
    Forall (λ m, (SplitHostPort m).2 = None) ms ∧ NoDup (master_keys ms)
    ∧ ∀ k, k ∈ master_keys ms → k ∉ valid) as H.
  { induction ms as [|m ms IH]; intros valid; cbn [validateMasters_loop].
    - split; [|done]. intros _. split_and!; [constructor|constructor|intros k Hk; by apply elem_of_nil in Hk].
    - unfold master_keys. rewrite fmap_cons. fold (master_keys ms).
      rewrite Forall_cons, NoDup_cons. destruct (SplitHostPort m) as [[h p] err]. cbn [snd].
      destruct err as [e|]; [naive_solver|]. case_bool_decide as Hk.
      + split; [done|]. intros (_ & _ & Hn). by destruct (Hn (master_key m h p)); [left|].
      + rewrite IH. set_solver. }
  rewrite H. set_solver.
Qed.
