(* ===== verification/Store.v ===== *)
(** * The record stores (src/records/generator.go: rrs, RecordGenerator)

    The A and SRV stores of a record generator, the enumeration kept beside
    them, and the insertions that every record goes through.  A nil map is
    [None]: inserting into it does nothing, reading from it finds nothing.

    [Config] is shared: the generator holds a pointer to the configuration
    that the main loop also writes, so operations that use it take it as an
    argument and return it when they write it. *)

From S2P Require Import Prelude GoStrings State.

(** ** Record sets *)

Abbreviation rrs := (gmap string (gset string)).

(** [r.add(name, host)]: the result and the store after it. *)
Definition rrs_add (r : rrs) (name host : string) : bool * rrs :=
  if bool_decide (host = "") then (false, r)
  else
    match r !! name with
    | None => (true, <[name := {[host]}]> r)
    | Some v =>
        if bool_decide (host ∈ v) then (false, r)
        else (true, <[name := {[host]} ∪ v]> r)
    end.

(** [range] over a map visits every entry once, in an order that Go leaves
    open and that differs from loop to loop: [order loop] is the order of one
    loop, the loops of a request having different names. *)
Class MapOrder := {
  order : string → gset string → list string;
  order_perm (loop : string) (s : gset string) : order loop s ≡ₚ elements s }.

Definition First `{MapOrder} (loop : string) (r : rrs) (name : string) : string * bool :=
  match r !! name with
  | Some v => match order loop v with host :: _ => (host, true) | [] => ("", false) end
  | None => ("", false)
  end.

Definition ToAXFRResourceRecordSet `{MapOrder} (loop : string) (r : rrs) :
    gmap string (list string) :=
  map_imap (λ host values, Some (order (loop +:+ host) values)) r.

(** ** The generator *)

Inductive rrsKind := A | SRV | OtherKind (s : string).

#[export] Instance rrsKind_eq_dec : EqDecision rrsKind.
Proof. solve_decision. Defined.

(** [string(kind)] *)
Definition kind_string (k : rrsKind) : string :=
  match k with A => "A" | SRV => "SRV" | OtherKind s => s end.

Record EnumerableRecord := {
  ERecord_Name : string; ERecord_Host : string; ERecord_Rtype : string }.

Record EnumerableTask := {
  ETask_Name : string; ETask_ID : string; ETask_Records : list EnumerableRecord }.

Record EnumerableFramework := {
  EFramework_Tasks : list EnumerableTask; EFramework_Name : string }.

Definition EnumerationData : Type := list EnumerableFramework.

Record RecordGenerator := {
  As : option rrs;
  SRVs : option rrs;
  rg_State : State;
  SlaveIPs : option (gmap string string);
  EnumData : EnumerationData }.

(** A generator before its first [ParseState]: nil stores. *)
Definition NewRecordGenerator : RecordGenerator :=
  {| As := None; SRVs := None; rg_State := State0; SlaveIPs := None; EnumData := [] |}.

(** [kind.rrs(rg)]; [set_kind] is the store that an insertion updates in
    place. *)
Definition kind_rrs (k : rrsKind) (rg : RecordGenerator) : option rrs :=
  match k with A => As rg | SRV => SRVs rg | OtherKind _ => None end.

Definition set_kind (k : rrsKind) (r : rrs) (rg : RecordGenerator) : RecordGenerator :=
  match k with
  | A => {| As := Some r; SRVs := SRVs rg; rg_State := rg_State rg;
            SlaveIPs := SlaveIPs rg; EnumData := EnumData rg |}
  | SRV => {| As := As rg; SRVs := Some r; rg_State := rg_State rg;
              SlaveIPs := SlaveIPs rg; EnumData := EnumData rg |}
  | OtherKind _ => rg
  end.

Definition insertRR (name host : string) (k : rrsKind) (rg : RecordGenerator) :
    bool * RecordGenerator :=
  match kind_rrs k rg with
  | Some r => let '(added, r) := rrs_add r name host in (added, set_kind k r rg)
  | None => (false, rg)
  end.

(** The insertion whose result is ignored. *)
Definition insertRR_ (name host : string) (k : rrsKind) (rg : RecordGenerator) :
    RecordGenerator := (insertRR name host k rg).2.

Definition add_record (t : EnumerableTask) (r : EnumerableRecord) : EnumerableTask :=
  {| ETask_Name := ETask_Name t; ETask_ID := ETask_ID t; ETask_Records := ETask_Records t ++ [r] |}.

Definition insertTaskRR (name host : string) (k : rrsKind)
    (st : RecordGenerator * EnumerableTask) : RecordGenerator * EnumerableTask :=
  let '(rg, enumTask) := st in
  let '(added, rg) := insertRR name host k rg in
  if added
  then (rg, add_record enumTask {| ERecord_Name := name; ERecord_Host := host;
                                   ERecord_Rtype := kind_string k |})
  else (rg, enumTask).

(** ** What the stores hold

    [has rg k n h]: the store of kind [k] maps [n] to a set with [h]. *)

Definition in_rrs (r : rrs) (n h : string) : Prop := ∃ v, r !! n = Some v ∧ h ∈ v.

#[export] Instance in_rrs_dec r n h : Decision (in_rrs r n h).
Proof.
  unfold in_rrs. destruct (r !! n) as [v|] eqn:E.
  - destruct (decide (h ∈ v)); [left; eauto | right; naive_solver].
  - right. naive_solver.
Defined.

Definition has (rg : RecordGenerator) (k : rrsKind) (n h : string) : Prop :=
  ∃ r, kind_rrs k rg = Some r ∧ in_rrs r n h.

#[export] Instance has_dec rg k n h : Decision (has rg k n h).
Proof.
  unfold has. destruct (kind_rrs k rg) as [r|].
  - destruct (decide (in_rrs r n h)); [left; eauto | right; naive_solver].
  - right. naive_solver.
Defined.

(** A store without empty sets and empty hosts. *)
Definition wf_rrs (r : rrs) : Prop := ∀ n v, r !! n = Some v → v ≠ ∅ ∧ "" ∉ v.

Definition wf_rg (rg : RecordGenerator) : Prop :=
  ∀ k r, kind_rrs k rg = Some r → wf_rrs r.

(** Both stores exist. *)
Definition ready (rg : RecordGenerator) : Prop := is_Some (As rg) ∧ is_Some (SRVs rg).

Definition is_store (k : rrsKind) : bool := match k with OtherKind _ => false | _ => true end.

Lemma rrs_add_in r n h m x :
  in_rrs (rrs_add r n h).2 m x ↔ in_rrs r m x ∨ (m = n ∧ x = h ∧ h ≠ "").
Proof.
  unfold rrs_add, in_rrs. case_bool_decide as Hh; cbn [snd]; [naive_solver|].
  destruct (r !! n) as [v|] eqn:E; [case_bool_decide as Hv; cbn [snd]|cbn [snd]].
  - naive_solver.
  - destruct (decide (m = n)) as [->|Hne].
    + rewrite lookup_insert_eq, E. naive_solver set_solver.
    + rewrite lookup_insert_ne by done. naive_solver.
  - destruct (decide (m = n)) as [->|Hne].
    + rewrite lookup_insert_eq, E. naive_solver set_solver.
    + rewrite lookup_insert_ne by done. naive_solver.
Qed.

Lemma rrs_add_added r n h : (rrs_add r n h).1 = true ↔ h ≠ "" ∧ ¬ in_rrs r n h.
Proof.
  unfold rrs_add, in_rrs. case_bool_decide; cbn [fst]; [naive_solver|].
  destruct (r !! n) as [v|] eqn:E; [case_bool_decide; cbn [fst]|cbn [fst]]; naive_solver.
Qed.

Lemma rrs_add_wf r n h : wf_rrs r → wf_rrs (rrs_add r n h).2.
Proof.
  unfold rrs_add, wf_rrs. intros Hwf m v. case_bool_decide as Hh; [apply Hwf|].
  destruct (r !! n) as [w|] eqn:E; [case_bool_decide; [apply Hwf|]|]; cbn [snd];
    (destruct (decide (m = n)) as [->|Hne];
      [rewrite lookup_insert_eq; intros [= <-]|rewrite lookup_insert_ne by done; apply Hwf]).
  - destruct (Hwf n w E). set_solver.
  - set_solver.
Qed.

(** [rrs.add] inserts exactly the pair it is given, unless the host is
    empty; it reports [true] exactly when the pair was missing and is there
    afterwards, and it never leaves an empty set or an empty host behind. *)
Theorem rrs_add_spec r n h :
  let '(added, r') := rrs_add r n h in
  (∀ m x, in_rrs r' m x ↔ in_rrs r m x ∨ (m = n ∧ x = h ∧ h ≠ ""))
  ∧ (added = true ↔ in_rrs r' n h ∧ ¬ in_rrs r n h)
  ∧ (added = false → r' = r)
  ∧ (wf_rrs r → wf_rrs r').
Proof.
  pose proof (rrs_add_in r n h) as Hin. pose proof (rrs_add_added r n h) as Ha.
  pose proof (rrs_add_wf r n h) as Hwf.
  assert ((rrs_add r n h).1 = false → (rrs_add r n h).2 = r) as Hf.
  { unfold rrs_add. repeat (case_bool_decide || case_match); naive_solver. }
  destruct (rrs_add r n h) as [added r']. cbn [fst snd] in *.
  split_and!; [done| |done|done]. rewrite Ha, Hin. naive_solver.
Qed.

(** ** Insertions into a generator *)

Lemma insertRR_has n h k rg k' m x :
  ready rg →
  has (insertRR_ n h k rg) k' m x
  ↔ has rg k' m x ∨ (is_store k = true ∧ k' = k ∧ m = n ∧ x = h ∧ h ≠ "").
Proof.
  intros [[ra Ha] [rs Hs]]. unfold insertRR_, insertRR, has.
  destruct k, k'; cbn [kind_rrs]; rewrite ?Ha, ?Hs;
    try (destruct (rrs_add _ n h) as [b r'] eqn:E;
         pose proof (rrs_add_in ra n h m x); pose proof (rrs_add_in rs n h m x));
    cbn [snd kind_rrs set_kind As SRVs is_store] in *; rewrite ?Ha, ?Hs;
    rewrite ?E in *; cbn [snd] in *; naive_solver.
Qed.

Lemma insertRR_added n h k rg :
  ready rg → is_store k = true →
  (insertRR n h k rg).1 = true ↔ h ≠ "" ∧ ¬ has rg k n h.
Proof.
  intros [[ra Ha] [rs Hs]] Hk. unfold insertRR, has.
  destruct k; [..|done]; cbn [kind_rrs]; rewrite ?Ha, ?Hs.
  - pose proof (rrs_add_added ra n h). destruct (rrs_add ra n h). naive_solver.
  - pose proof (rrs_add_added rs n h). destruct (rrs_add rs n h). naive_solver.
Qed.

Lemma insertRR_ready n h k rg : ready rg → ready (insertRR_ n h k rg).
Proof.
  unfold ready, insertRR_, insertRR. intros [[ra Ha] [rs Hs]].
  destruct k; cbn [kind_rrs]; rewrite ?Ha, ?Hs; try destruct (rrs_add _ n h);
    cbn; rewrite ?Ha, ?Hs; split; eauto.
Qed.

Lemma insertRR_wf n h k rg : wf_rg rg → wf_rg (insertRR_ n h k rg).
Proof.
  unfold insertRR_, insertRR. intros Hwf.
  destruct (kind_rrs k rg) as [r|] eqn:E; [|done].
  pose proof (rrs_add_wf r n h (Hwf k r E)) as Hr.
  destruct (rrs_add r n h) as [b r']. cbn [snd] in *.
  intros k' x. destruct k, k'; cbn; try done; try (intros [= <-]; done);
    intros Hx; eapply Hwf; first [exact Hx | by instantiate (1 := A) | by instantiate (1 := SRV)].
Qed.

(** The rest of the generator is not touched. *)
Lemma insertRR_frame n h k rg :
  SlaveIPs (insertRR_ n h k rg) = SlaveIPs rg ∧ EnumData (insertRR_ n h k rg) = EnumData rg
  ∧ rg_State (insertRR_ n h k rg) = rg_State rg.
Proof.
  unfold insertRR_, insertRR. destruct (kind_rrs k rg); [|done].
  destruct (rrs_add _ _ _). by destruct k.
Qed.

#[export] Hint Resolve insertRR_ready insertRR_wf : mdns.
