(* ===== verification/Generator.v ===== *)
(** * Record generation (src/records/generator.go)

    From the state of a cluster to the A and SRV records of its frameworks,
    slaves, masters and tasks.

    [net.ResolveIPAddr] is the argument [resolve] (the address, [Some []]
    standing for a nil [IP]; [None] is an error); its answers are taken to be
    stable while one state is inserted.  [net.Interfaces] is the argument of
    [setFromLocal].  Pointers to the enumerated frameworks and tasks are held
    by one owner at a time, so they are modelled by the values they point
    to. *)

From S2P Require Import Prelude GoStrings GoNet Labels Chains State Hash Config Store.

(** ** Names *)

Definition leaderIP (leader : string) : go string :=
  pair ← index (Split leader "@") 1;
  index (Split pair ":") 0.

Definition slaveIDTail `{UnicodeTables} (slaveID : string) : go string :=
  let fields := Split slaveID "-" in
  f ← index fields (length fields - 1);
  Ret (ToLower f).

(** Host, port and error. *)
Definition getProto (pair : string) : string * string * error :=
  match SplitN2 pair ":" with
  | [h; p] => (h, p, None)
  | _ => ("", "", Some ("unable to parse proto from " +:+ pair))
  end.

(** An interface address: [net.IPNet] or [net.IPAddr] with its IP, or another
    implementation of [net.Addr]. *)
Inductive addr := IPNet (ip : IP) | IPAddr (ip : IP) | OtherAddr.

Definition addr_ip (a : addr) : IP :=
  match a with IPNet ip | IPAddr ip => ip | OtherAddr => [] end.

(** [ip.IsLoopback()] *)
Definition IsLoopback (ip : IP) : bool :=
  match To4 ip with
  | b :: _ => (b =? 127)%Z
  | [] => bool_decide (ip = replicate 15 0%Z ++ [1%Z])
  end.

(** The interfaces, each with the addresses that [Addrs] returns (none when
    it fails). *)
Definition setFromLocal (ifaces : list (list addr)) (ns : string)
    (rg : RecordGenerator) : RecordGenerator :=
  foldl (λ rg addrs,
      foldl (λ rg a,
          let ip := addr_ip a in
          if bool_decide (ip = []) || IsLoopback ip then rg
          else match To4 ip with
               | [] => rg
               | ip4 => insertRR_ ns (IP_String ip4) A rg
               end)
        rg addrs)
    rg ifaces.

Definition listenerRecord (ifaces : list (list addr)) (listener ns : string)
    (rg : RecordGenerator) : RecordGenerator :=
  if bool_decide (listener = "0.0.0.0") then setFromLocal ifaces ns rg
  else if bool_decide (listener = "127.0.0.1") then insertRR_ ns "127.0.0.1" A rg
  else insertRR_ ns listener A rg.

(** ** Masters *)

Definition masterN (idx : nat) (domain : string) : string :=
  "master" +:+ Itoa (Z.of_nat idx) +:+ "." +:+ domain +:+ ".".

(** One iteration of the loop over the masters: the generator, [idx] and
    [addedLeaderMasterN]. *)
Definition master_step (domain leaderAddress : string)
    (st : RecordGenerator * nat * bool) (master : string) : RecordGenerator * nat * bool :=
  let '(rg, idx, addedLeaderMasterN) := st in
  let '(masterIP, _, err) := getProto master in
  match err with
  | Some _ => st
  | None =>
      let isLeader := bool_decide (master = leaderAddress) in
      let '(added, rg) :=
        if isLeader then (true, rg)
        else insertRR ("master." +:+ domain +:+ ".") masterIP A rg in
      if negb added then (rg, idx, addedLeaderMasterN)
      else if isLeader && addedLeaderMasterN then (rg, idx, addedLeaderMasterN)
      else (insertRR_ (masterN idx domain) masterIP A rg, S idx,
            isLeader || addedLeaderMasterN)
  end.

Definition masterRecord (domain : string) (masters : list string) (leader : string)
    (rg : RecordGenerator) : RecordGenerator :=
  match Split leader "@" with
  | _ :: leaderAddress :: _ =>
      let '(ip, port, err) := getProto leaderAddress in
      match err with
      | Some _ => rg
      | None =>
          let rg := insertRR_ ("leader." +:+ domain +:+ ".") ip A rg in
          let rg := insertRR_ ("master." +:+ domain +:+ ".") ip A rg in
          let host := "leader." +:+ domain +:+ "." +:+ ":" +:+ port in
          let rg := insertRR_ ("_leader._tcp." +:+ domain +:+ ".") host SRV rg in
          let rg := insertRR_ ("_leader._udp." +:+ domain +:+ ".") host SRV rg in
          let '(rg, idx, addedLeaderMasterN) :=
            foldl (master_step domain leaderAddress) (rg, 0%nat, false) masters in
          if addedLeaderMasterN then rg
          else insertRR_ (masterN idx domain) ip A rg
      end
  | _ => rg
  end.

(** ** Tasks *)

Record context := {
  ctx_taskName : string; ctx_taskID : string; ctx_slaveID : string;
  ctx_taskIP : string; ctx_slaveIP : string }.

(** [ctx.taskName = name] *)
Definition set_taskName (ctx : context) (name : string) : context :=
  {| ctx_taskName := name; ctx_taskID := ctx_taskID ctx; ctx_slaveID := ctx_slaveID ctx;
     ctx_taskIP := ctx_taskIP ctx; ctx_slaveIP := ctx_slaveIP ctx |}.

Definition task_state : Type := RecordGenerator * EnumerableTask.

(** The last link of every chain of a task. *)
Definition asSRV (tail target : string) : chain task_state :=
  each (λ st r, Ret (insertTaskRR (r +:+ tail) target SRV st)).

Definition canonical_name (ctx : context) (fname : string) : string :=
  ctx_taskName ctx +:+ "-" +:+ ctx_taskID ctx +:+ "-" +:+ ctx_slaveID ctx +:+ "." +:+ fname.

Definition taskContextRecord (ctx : context) (task : Task) (f : Framework)
    (domain : string) (spec : Func) (st : task_state) : go task_state :=
  fname ← DomainFrag (Framework_Name f) Sep spec;
  let tail := "." +:+ domain +:+ "." in
  let canonical := canonical_name ctx fname in
  let arec := ctx_taskName ctx +:+ "." +:+ fname in
  let st := insertTaskRR (arec +:+ tail) (ctx_taskIP ctx) A st in
  let st := insertTaskRR (canonical +:+ tail) (ctx_taskIP ctx) A st in
  let st := insertTaskRR (arec +:+ ".slave" +:+ tail) (ctx_slaveIP ctx) A st in
  let st := insertTaskRR (canonical +:+ ".slave" +:+ tail) (ctx_slaveIP ctx) A st in
  let recordName (gen : chain task_state) := gen ["_" +:+ ctx_taskName ctx] in
  let subdomains := if HasDiscoveryInfo task then ["slave"] else ["slave"; domainNone] in
  let slaveHost := canonical +:+ ".slave" +:+ tail in
  ports ← Ports (Task_Resources task);
  st ← foldM (λ st port,
      recordName (withProtocol protocolNone fname spec
        (withSubdomains subdomains (asSRV tail (slaveHost +:+ ":" +:+ port)))) st)
    ports st;
  if negb (HasDiscoveryInfo task) then Ret st
  else
    foldM (λ st port,
        let target := canonical +:+ tail +:+ ":" +:+ Itoa (DiscoveryPort_Number port) in
        gen ← withNamedPort (DiscoveryPort_Name port) spec (asSRV tail target);
        recordName (withProtocol (DiscoveryPort_Protocol port) fname spec gen) st)
      (DiscoveryPorts (Task_DiscoveryInfo task)) st.

Definition add_task (fw : EnumerableFramework) (t : EnumerableTask) : EnumerableFramework :=
  {| EFramework_Tasks := EFramework_Tasks fw ++ [t]; EFramework_Name := EFramework_Name fw |}.

Section generate.
Context `{UnicodeTables} (resolve : string → option IP).
Context (domain : string) (spec : Func).

Definition taskRecord (task : Task) (f : Framework) (ipSources : list string)
    (st : RecordGenerator * EnumerableFramework) :
    go (RecordGenerator * EnumerableFramework) :=
  let '(rg, enumFW) := st in
  let newTask := {| ETask_Name := Task_Name task; ETask_ID := Task_ID task;
                    ETask_Records := [] |} in
  taskName ← spec (Task_Name task);
  slaveID ← slaveIDTail (SlaveID task);
  let ctx := {| ctx_taskName := taskName; ctx_taskID := hashString (Task_ID task);
                ctx_slaveID := slaveID; ctx_taskIP := Task_IP task ipSources;
                ctx_slaveIP := SlaveIP task |} in
  '(rg, newTask) ←
    (if HasDiscoveryInfo task then
       let dname := DiscoveryInfo_Name (Task_DiscoveryInfo task) in
       st ← taskContextRecord (set_taskName ctx dname) task f domain spec (rg, newTask);
       dlabel ← spec dname;
       taskContextRecord (set_taskName ctx dlabel) task f domain spec st
     else taskContextRecord ctx task f domain spec (rg, newTask));
  Ret (rg, add_task enumFW newTask).

(** The body of the loop over the tasks of a framework. *)
Definition task_step (f : Framework) (ipSources : list string)
    (st : RecordGenerator * EnumerableFramework) (task : Task) :
    go (RecordGenerator * EnumerableFramework) :=
  match default ∅ (SlaveIPs st.1) !! SlaveID task with
  | Some ip =>
      let task := set_SlaveIP task ip in
      if bool_decide (Task_State task = "TASK_RUNNING")
      then taskRecord task f ipSources st else Ret st
  | None => Ret st
  end.

Definition add_framework (rg : RecordGenerator) (fw : EnumerableFramework) : RecordGenerator :=
  {| As := As rg; SRVs := SRVs rg; rg_State := rg_State rg; SlaveIPs := SlaveIPs rg;
     EnumData := EnumData rg ++ [fw] |}.

Definition taskRecords (sj : State) (ipSources : list string) (rg : RecordGenerator) :
    go RecordGenerator :=
  foldM (λ rg f,
      let fw := {| EFramework_Tasks := []; EFramework_Name := Framework_Name f |} in
      '(rg, fw) ← foldM (task_step f ipSources) (Tasks f) (rg, fw);
      Ret (add_framework rg fw))
    (Frameworks sj) rg.

(** ** Frameworks and slaves *)

Definition hostToIP4 (hostname : string) : string * bool :=
  match ParseIP hostname with
  | [] =>
      match resolve hostname with
      | None => (hostname, false)
      | Some ip => (IP_String ip, true)
      end
  | ip => (IP_String ip, true)
  end.

Definition framework_step (rg : RecordGenerator) (f : Framework) : go RecordGenerator :=
  fname ← DomainFrag (Framework_Name f) Sep spec;
  let '(host, port) := HostPort f in
  let '(address, ok) := hostToIP4 host in
  if ok then
    let a := fname +:+ "." +:+ domain +:+ "." in
    let rg := insertRR_ a address A rg in
    Ret (if bool_decide (port = "") then rg
         else insertRR_ ("_framework._tcp." +:+ a) (JoinHostPort a port) SRV rg)
  else Ret rg.

Definition frameworkRecords (sj : State) (rg : RecordGenerator) : go RecordGenerator :=
  foldM framework_step (Frameworks sj) rg.

(** [rg.SlaveIPs[id] = address] *)
Definition set_SlaveIPs (rg : RecordGenerator) (m : gmap string string) : RecordGenerator :=
  {| As := As rg; SRVs := SRVs rg; rg_State := rg_State rg; SlaveIPs := Some m;
     EnumData := EnumData rg |}.

Definition slave_step (rg : RecordGenerator) (slave : Slave) : go RecordGenerator :=
  host ← PID_Host (Slave_PID slave);
  let '(address, ok) := hostToIP4 host in
  '(address, rg) ←
    (if ok then
       let a := "slave." +:+ domain +:+ "." in
       let rg := insertRR_ a address A rg in
       port ← PID_Port (Slave_PID slave);
       Ret (address, insertRR_ ("_slave._tcp." +:+ domain +:+ ".") (JoinHostPort a port) SRV rg)
     else
       address ← DomainFrag address Sep spec; Ret (address, rg));
  Ret (set_SlaveIPs rg (<[Slave_ID slave := address]> (default ∅ (SlaveIPs rg)))).

Definition slaveRecords (sj : State) (rg : RecordGenerator) : go RecordGenerator :=
  foldM slave_step (Slaves sj) rg.

(** ** InsertState *)

(** The three maps are made anew; the enumeration is not. *)
Definition reset (rg : RecordGenerator) : RecordGenerator :=
  {| As := Some ∅; SRVs := Some ∅; rg_State := rg_State rg; SlaveIPs := Some ∅;
     EnumData := EnumData rg |}.

Definition set_State (rg : RecordGenerator) (sj : State) : RecordGenerator :=
  {| As := As rg; SRVs := SRVs rg; rg_State := sj; SlaveIPs := SlaveIPs rg;
     EnumData := EnumData rg |}.

(** [now] is the Unix time at the end; the serial is written through the
    shared configuration. *)
Definition InsertState (sj : State) (masters ipSources : list string) (now : Z)
    (rg : RecordGenerator) (config : Config) : go (RecordGenerator * Config * error) :=
  rg ← frameworkRecords sj (reset rg);
  rg ← slaveRecords sj rg;
  let rg := masterRecord domain masters (Leader sj) rg in
  rg ← taskRecords sj ipSources rg;
  Ret (set_State rg sj, set_SOASerial config (uint32 now), None).
End generate.
