(* ===== verification/GeneratorSpec.v ===== *)
(** * Specification of the generator

    The records that a state calls for, written as lists without any store
    ([framework_spec], [slave_spec], [task_spec]), and the refinement: the
    operations of Generator.v insert exactly these, whatever the stores held
    before.  The theorems on record generation are proved against the
    specification. *)

From S2P Require Import Prelude GoStrings GoNet Labels Chains State Hash Config Store Generator.

(** A record: its kind, its name and its host. *)
Abbreviation rec := (rrsKind * string * string)%type.

(** ** Records inserted in bulk *)

Definition insert_recs (l : list rec) (rg : RecordGenerator) : RecordGenerator :=
  foldl (λ rg '(k, n, h), insertRR_ n h k rg) rg l.

Definition insert_task_recs (l : list rec) (st : task_state) : task_state :=
  foldl (λ st '(k, n, h), insertTaskRR n h k st) st l.

(** A record that a store accepts. *)
Definition storable (r : rec) : Prop := r.2 ≠ "" ∧ is_store r.1.1 = true.

#[export] Instance storable_dec r : Decision (storable r).
Proof. unfold storable. apply _. Defined.

Lemma insert_recs_app l1 l2 rg : insert_recs (l1 ++ l2) rg = insert_recs l2 (insert_recs l1 rg).
Proof. apply foldl_app. Qed.

Lemma insert_task_recs_app l1 l2 st :
  insert_task_recs (l1 ++ l2) st = insert_task_recs l2 (insert_task_recs l1 st).
Proof. apply foldl_app. Qed.

Lemma insertTaskRR_fst n h k st : (insertTaskRR n h k st).1 = insertRR_ n h k st.1.
Proof.
  destruct st as [rg t]. unfold insertTaskRR, insertRR_. cbn [fst].
  by destruct (insertRR n h k rg) as [[] ?].
Qed.

Lemma insert_task_recs_fst l st : (insert_task_recs l st).1 = insert_recs l st.1.
Proof.
  revert st; induction l as [|[[k n] h] l IH]; intros st; [done|].
  change (insert_task_recs ((k, n, h) :: l) st)
    with (insert_task_recs l (insertTaskRR n h k st)).
  by rewrite IH, insertTaskRR_fst.
Qed.

Lemma insert_recs_ready l rg : ready rg → ready (insert_recs l rg).
Proof.
  revert rg; induction l as [|[[k n] h] l IH]; intros rg Hrg; [done|].
  apply IH. auto with mdns.
Qed.

Lemma insert_recs_wf l rg : wf_rg rg → wf_rg (insert_recs l rg).
Proof.
  revert rg; induction l as [|[[k n] h] l IH]; intros rg Hrg; [done|].
  apply IH. auto with mdns.
Qed.

Lemma insert_recs_frame l rg :
  SlaveIPs (insert_recs l rg) = SlaveIPs rg ∧ EnumData (insert_recs l rg) = EnumData rg
  ∧ rg_State (insert_recs l rg) = rg_State rg.
Proof.
  revert rg; induction l as [|[[k n] h] l IH]; intros rg; [done|].
  change (insert_recs ((k, n, h) :: l) rg) with (insert_recs l (insertRR_ n h k rg)).
  destruct (IH (insertRR_ n h k rg)) as (-> & -> & ->). apply insertRR_frame.
Qed.

Lemma insert_recs_has l rg k n h :
  ready rg → has (insert_recs l rg) k n h ↔ has rg k n h ∨ (storable (k, n, h) ∧ (k, n, h) ∈ l).
Proof.
  revert rg; induction l as [|[[k' n'] h'] l IH]; intros rg Hrg; cbn [insert_recs foldl].
  - set_solver.
  - fold (insert_recs l (insertRR_ n' h' k' rg)).
    rewrite IH by auto with mdns. rewrite insertRR_has by done. unfold storable. cbn.
    rewrite elem_of_cons. naive_solver.
Qed.

#[export] Hint Resolve insert_recs_ready insert_recs_wf : mdns.

(** ** Enumeration

    [enumerates rg l rg']: from [rg] to [rg'] the stores gained exactly the
    records [l], each of which was missing, and [l] has no duplicates. *)

Definition erec (r : rec) : EnumerableRecord :=
  {| ERecord_Name := r.1.2; ERecord_Host := r.2; ERecord_Rtype := kind_string r.1.1 |}.

Definition has_rec (rg : RecordGenerator) (r : rec) : Prop := has rg r.1.1 r.1.2 r.2.

Record enumerates (rg : RecordGenerator) (l : list rec) (rg' : RecordGenerator) : Prop := {
  enum_nodup : NoDup l;
  enum_store : Forall (λ r, is_store r.1.1 = true) l;
  enum_new : ∀ r, r ∈ l → ¬ has_rec rg r;
  enum_exact : ∀ r, has_rec rg' r ↔ has_rec rg r ∨ r ∈ l }.

Lemma enumerates_refl rg : enumerates rg [] rg.
Proof. split; [constructor|constructor|set_solver|set_solver]. Qed.

Lemma enumerates_trans rg1 rg2 rg3 l1 l2 :
  enumerates rg1 l1 rg2 → enumerates rg2 l2 rg3 → enumerates rg1 (l1 ++ l2) rg3.
Proof.
  intros [N1 S1 F1 E1] [N2 S2 F2 E2]. split.
  - apply NoDup_app. split_and!; [done| |done]. intros r H1 H2. apply (F2 r H2), E1. by right.
  - by apply Forall_app.
  - intros r [H|H]%elem_of_app; [by apply F1|]. intros Hr. apply (F2 r H), E1. by left.
  - intros r. rewrite E2, E1, elem_of_app. tauto.
Qed.

(** One insertion is enumerated when it adds its record. *)
Lemma insertTaskRR_enum n h k rg t :
  ready rg → is_store k = true →
  ∃ l, enumerates rg l (insertTaskRR n h k (rg, t)).1
    ∧ ETask_Records (insertTaskRR n h k (rg, t)).2 = ETask_Records t ++ (erec <$> l).
Proof.
  intros Hrg Hk. rewrite insertTaskRR_fst. unfold insertTaskRR. cbn [fst].
  pose proof (insertRR_added n h k rg Hrg Hk) as Ha.
  pose proof (λ k' m x, insertRR_has n h k rg k' m x Hrg) as Hin.
  unfold insertRR_ in *. destruct (insertRR n h k rg) as [[] rg'] eqn:E; cbn [fst snd] in *.
  - exists [(k, n, h)]. split; [|done]. destruct (proj1 Ha eq_refl) as [Hh Hno].
    split; [apply NoDup_singleton|by constructor|set_solver|].
    intros [[k' m] x]. unfold has_rec; cbn. rewrite Hin, list_elem_of_singleton. naive_solver.
  - exists []. rewrite app_nil_r. split; [|done].
    split; [constructor|constructor|set_solver|].
    intros [[k' m] x]. unfold has_rec; cbn. rewrite Hin. split; [|set_solver].
    intros [?|(_ & -> & -> & -> & Hh)]; [by left|left].
    destruct (decide (has rg k n h)) as [|Hno]; [done|]. naive_solver.
Qed.

Lemma insert_task_recs_enum l rg t :
  ready rg → Forall (λ r : rec, is_store r.1.1 = true) l →
  ∃ new, enumerates rg new (insert_task_recs l (rg, t)).1
    ∧ ETask_Records (insert_task_recs l (rg, t)).2 = ETask_Records t ++ (erec <$> new).
Proof.
  revert rg t; induction l as [|[[k n] h] l IH]; intros rg t Hrg Hl.
  - exists []. cbn. rewrite app_nil_r. split; [apply enumerates_refl|done].
  - apply Forall_cons in Hl as [Hk Hl]. cbn [insert_task_recs foldl].
    destruct (insertTaskRR_enum n h k rg t Hrg Hk) as (l1 & H1 & T1).
    pose proof (insertTaskRR_fst n h k (rg, t)) as Hf.
    destruct (insertTaskRR n h k (rg, t)) as [rg1 t1]. cbn [fst snd] in *.
    destruct (IH rg1 t1) as (l2 & H2 & T2); [subst; auto with mdns|done|].
    exists (l1 ++ l2). fold (insert_task_recs l (rg1, t1)). split.
    + by eapply enumerates_trans.
    + rewrite T2, T1, fmap_app. by rewrite (assoc_L (++)).
Qed.

(** ** The records of a task *)

(** SRV records with one target under a list of names. *)
Definition srv_recs (tail target : string) (names : list string) : list rec :=
  (λ n, (SRV, n +:+ tail, target)) <$> names.

Definition tail_of (domain : string) : string := "." +:+ domain +:+ ".".

(** The four A records. *)
Definition a_recs (ctx : context) (fname domain : string) : list rec :=
  let tail := tail_of domain in
  let canonical := canonical_name ctx fname in
  let arec := ctx_taskName ctx +:+ "." +:+ fname in
  [(A, arec +:+ tail, ctx_taskIP ctx);
   (A, canonical +:+ tail, ctx_taskIP ctx);
   (A, arec +:+ ".slave" +:+ tail, ctx_slaveIP ctx);
   (A, canonical +:+ ".slave" +:+ tail, ctx_slaveIP ctx)].

(** The targets of the SRV records: the slave name for a resource port, the
    canonical name for a discovery port. *)
Definition slave_target (ctx : context) (fname domain : string) : string :=
  canonical_name ctx fname +:+ ".slave" +:+ tail_of domain.
Definition task_target (ctx : context) (fname domain : string) : string :=
  canonical_name ctx fname +:+ tail_of domain.

Definition port_recs (ctx : context) (task : Task) (fname domain : string) (spec : Func)
    (port : string) : go (list rec) :=
  p ← spec protocolNone;
  Ret (srv_recs (tail_of domain) (slave_target ctx fname domain +:+ ":" +:+ port)
         (names_subdomains (if HasDiscoveryInfo task then ["slave"] else ["slave"; ""])
            (names_protocol p fname ["_" +:+ ctx_taskName ctx]))).

Definition discovery_recs (ctx : context) (fname domain : string) (spec : Func)
    (port : DiscoveryPort) : go (list rec) :=
  n ← spec (DiscoveryPort_Name port);
  p ← spec (DiscoveryPort_Protocol port);
  Ret (srv_recs (tail_of domain)
         (task_target ctx fname domain +:+ ":" +:+ Itoa (DiscoveryPort_Number port))
         (names_port n (names_protocol p fname ["_" +:+ ctx_taskName ctx]))).

Definition context_spec (ctx : context) (task : Task) (f : Framework) (domain : string)
    (spec : Func) : go (list rec) :=
  fname ← DomainFrag (Framework_Name f) Sep spec;
  ports ← Ports (Task_Resources task);
  srvs ← mapM_go (port_recs ctx task fname domain spec) ports;
  dsrvs ← (if HasDiscoveryInfo task
           then mapM_go (discovery_recs ctx fname domain spec)
                  (DiscoveryPorts (Task_DiscoveryInfo task))
           else Ret []);
  Ret (a_recs ctx fname domain ++ concat srvs ++ concat dsrvs).

(** A loop that first computes records and then inserts them. *)
Lemma foldM_insert {B} (step : task_state → B → go task_state) (recs : B → go (list rec)) l st :
  (∀ st x, step st x = r ← recs x; Ret (insert_task_recs r st)) →
  foldM step l st = rs ← mapM_go recs l; Ret (insert_task_recs (concat rs) st).
Proof.
  intros Hstep. revert st; induction l as [|x l IH]; intros st; [done|].
  cbn [foldM mapM_go]. rewrite Hstep. destruct (recs x) as [r|c]; [|done]. cbn [mbind go_bind].
  rewrite IH. destruct (mapM_go recs l) as [rs|c]; [|done]. cbn [mbind go_bind concat].
  by rewrite insert_task_recs_app.
Qed.

Lemma foldM_asSRV tail target names st :
  foldM (λ st r, Ret (insertTaskRR (r +:+ tail) target SRV st)) names st
  = Ret (insert_task_recs (srv_recs tail target names) st).
Proof. revert st; induction names as [|n names IH]; intros st; [done|]. apply IH. Qed.

(** [taskContextRecord] refines [context_spec]. *)
Lemma taskContextRecord_spec ctx task f domain spec st :
  taskContextRecord ctx task f domain spec st
  = recs ← context_spec ctx task f domain spec; Ret (insert_task_recs recs st).
Proof.
  unfold taskContextRecord, context_spec.
  destruct (DomainFrag _ _ _) as [fname|c]; [|done]. cbn [mbind go_bind]. cbv zeta.
  destruct (Ports _) as [ports|c]; [|done]. cbn [mbind go_bind].
  erewrite (foldM_insert _ (port_recs ctx task fname domain spec)).
  2:{ intros st' port. unfold asSRV, port_recs. rewrite withProtocol_subdomains.
      destruct (spec protocolNone); [|done]. cbn [mbind go_bind].
      rewrite foldM_asSRV. unfold slave_target, tail_of. by rewrite !app_string_assoc. }
  destruct (mapM_go _ ports) as [srvs|c]; [|done]. cbn [mbind go_bind].
  destruct (HasDiscoveryInfo task); cbn [negb]; cbn [mbind go_bind].
  - erewrite (foldM_insert _ (discovery_recs ctx fname domain spec)).
    2:{ intros st' port. unfold asSRV, discovery_recs. rewrite withProtocol_namedPort.
        destruct (spec (DiscoveryPort_Name port)); [|done]. cbn [mbind go_bind].
        destruct (spec (DiscoveryPort_Protocol port)); [|done]. cbn [mbind go_bind].
        rewrite foldM_asSRV. unfold task_target, tail_of. by rewrite !app_string_assoc. }
    destruct (mapM_go _ (DiscoveryPorts _)) as [dsrvs|c]; [|done]. cbn [mbind go_bind].
    by rewrite !insert_task_recs_app.
  - cbn [concat]. by rewrite app_nil_r, insert_task_recs_app.
Qed.

Lemma a_recs_store ctx fname domain : Forall (λ r : rec, is_store r.1.1 = true) (a_recs ctx fname domain).
Proof. by repeat constructor. Qed.

Lemma srv_recs_kind tail target names :
  Forall (λ r : rec, r.1.1 = SRV ∧ r.2 = target) (srv_recs tail target names).
Proof. apply Forall_fmap, Forall_true. done. Qed.

Lemma mapM_go_ret {X Y} (f : X → go Y) l ys :
  mapM_go f l = Ret ys ↔ Forall2 (λ x y, f x = Ret y) l ys.
Proof.
  revert ys; induction l as [|x l IH]; intros ys; cbn [mapM_go].
  - split; [intros [= <-]; constructor | by inversion 1].
  - split.
    + intros H. go_inv H. injection H as <-. constructor; [done|]. by apply IH.
    + inversion 1 as [|?? ?? Hx Hl]; subst. rewrite Hx. cbn. apply IH in Hl. by rewrite Hl.
Qed.

Lemma mapM_go_concat {X} (f : X → go (list rec)) l rs r :
  mapM_go f l = Ret rs → r ∈ concat rs → ∃ x y, x ∈ l ∧ f x = Ret y ∧ r ∈ y.
Proof.
  intros H%mapM_go_ret Hr. apply list_elem_of_In, in_concat in Hr as (y & Hy & Hr).
  apply list_elem_of_In in Hy, Hr. apply list_elem_of_lookup in Hy as (i & Hi).
  destruct (Forall2_lookup_r _ _ _ _ _ H Hi) as (x & Hx & Hf).
  exists x, y. split_and!; [by eapply list_elem_of_lookup_2|done|done].
Qed.

(** The other way: the records of every element are there. *)
Lemma mapM_go_elem {X Y} (f : X → go Y) l ys x :
  mapM_go f l = Ret ys → x ∈ l → ∃ y, f x = Ret y ∧ y ∈ ys.
Proof.
  intros H%mapM_go_ret (i & Hi)%list_elem_of_lookup.
  destruct (Forall2_lookup_l _ _ _ _ _ H Hi) as (y & Hy & Hf).
  exists y. split; [done|by eapply list_elem_of_lookup_2].
Qed.

Lemma elem_of_concat {X} (x : X) l ls : x ∈ l → l ∈ ls → x ∈ concat ls.
Proof. rewrite !list_elem_of_In. intros. apply in_concat. eauto. Qed.

Lemma context_spec_store ctx task f domain spec recs :
  context_spec ctx task f domain spec = Ret recs → Forall (λ r : rec, is_store r.1.1 = true) recs.
Proof.
  unfold context_spec. intros H. go_inv H. apply Ret_inj in H as <-.
  apply Forall_app; split; [apply a_recs_store|]. apply Forall_forall. intros rc.
  rewrite elem_of_app. intros [Hr|Hr].
  - eapply mapM_go_concat in Hr as (x & y & _ & Hy & Hr); [|exact E1].
    unfold port_recs in Hy. go_inv Hy. apply Ret_inj in Hy as <-.
    eapply Forall_forall in Hr; [|apply srv_recs_kind]. by destruct Hr as [-> _].
  - destruct (HasDiscoveryInfo task); [|by injection E2 as <-; apply elem_of_nil in Hr].
    eapply mapM_go_concat in Hr as (x & y & _ & Hy & Hr); [|exact E2].
    unfold discovery_recs in Hy. go_inv Hy. apply Ret_inj in Hy as <-.
    eapply Forall_forall in Hr; [|apply srv_recs_kind]. by destruct Hr as [-> _].
Qed.

Section tasks.
Context `{UnicodeTables} (domain : string) (spec : Func) (ipSources : list string).

Definition task_context (task : Task) : go context :=
  taskName ← spec (Task_Name task);
  slaveID ← slaveIDTail (SlaveID task);
  Ret {| ctx_taskName := taskName; ctx_taskID := hashString (Task_ID task);
         ctx_slaveID := slaveID; ctx_taskIP := Task_IP task ipSources;
         ctx_slaveIP := SlaveIP task |}.

(** A task with a discovery name has its records twice: under the name as
    it is and under its label. *)
Definition task_spec (f : Framework) (task : Task) : go (list rec) :=
  ctx ← task_context task;
  if HasDiscoveryInfo task then
    let dname := DiscoveryInfo_Name (Task_DiscoveryInfo task) in
    r1 ← context_spec (set_taskName ctx dname) task f domain spec;
    dlabel ← spec dname;
    r2 ← context_spec (set_taskName ctx dlabel) task f domain spec;
    Ret (r1 ++ r2)
  else context_spec ctx task f domain spec.

(** A task that is running on a known slave, with the address of the slave
    filled in. *)
Definition live (ips : gmap string string) (task : Task) : option Task :=
  match ips !! SlaveID task with
  | Some ip => if bool_decide (Task_State task = "TASK_RUNNING")
               then Some (set_SlaveIP task ip) else None
  | None => None
  end.

Definition new_task (task : Task) : EnumerableTask :=
  {| ETask_Name := Task_Name task; ETask_ID := Task_ID task; ETask_Records := [] |}.

Definition insert_fw (l : list (Task * list rec))
    (st : RecordGenerator * EnumerableFramework) : RecordGenerator * EnumerableFramework :=
  foldl (λ '(rg, fw) '(t, recs),
      let '(rg, t) := insert_task_recs recs (rg, new_task t) in (rg, add_task fw t)) st l.

Lemma taskRecord_spec task f st :
  taskRecord domain spec task f ipSources st
  = recs ← task_spec f task; Ret (insert_fw [(task, recs)] st).
Proof.
  destruct st as [rg fw]. unfold taskRecord, task_spec, task_context.
  destruct (spec (Task_Name task)) as [tn|c]; [|done]. cbn [mbind go_bind].
  destruct (slaveIDTail (SlaveID task)) as [sid|c]; [|done]. cbn [mbind go_bind].
  cbv zeta. destruct (HasDiscoveryInfo task).
  - rewrite taskContextRecord_spec.
    destruct (context_spec _ _ _ _ _) as [r1|c]; [|done]. cbn [mbind go_bind].
    destruct (spec (DiscoveryInfo_Name _)) as [dl|c]; [|done]. cbn [mbind go_bind].
    rewrite taskContextRecord_spec.
    destruct (context_spec _ _ _ _ _) as [r2|c]; [|done]. cbn [mbind go_bind].
    rewrite <-insert_task_recs_app. cbn. fold (new_task task).
    by destruct (insert_task_recs _ _).
  - rewrite taskContextRecord_spec.
    destruct (context_spec _ _ _ _ _) as [r1|c]; [|done]. cbn [mbind go_bind].
    cbn. fold (new_task task). by destruct (insert_task_recs _ _).
Qed.

Lemma insert_fw_fst l st : (insert_fw l st).1 = insert_recs (concat l.*2) st.1.
Proof.
  revert st; induction l as [|[t recs] l IH]; intros [rg fw]; [done|].
  cbn [fmap list_fmap concat snd]. rewrite insert_recs_app.
  pose proof (insert_task_recs_fst recs (rg, new_task t)) as Hf.
  cbn [insert_fw foldl]. destruct (insert_task_recs recs (rg, new_task t)) as [rg1 t1].
  cbn [fst] in *. subst. apply (IH (_, _)).
Qed.

Lemma insert_fw_cons t recs l st :
  insert_fw ((t, recs) :: l) st = insert_fw l (insert_fw [(t, recs)] st).
Proof. done. Qed.

Lemma task_step_live f st t :
  task_step domain spec f ipSources st t
  = match live (default ∅ (SlaveIPs st.1)) t with
    | Some t' => taskRecord domain spec t' f ipSources st
    | None => Ret st
    end.
Proof.
  unfold task_step, live. destruct (_ !! _) as [ip|]; [|done].
  change (Task_State (set_SlaveIP t ip)) with (Task_State t). by case_bool_decide.
Qed.

(** The loop over the tasks of a framework. *)
Lemma task_loop_spec f ts st :
  foldM (task_step domain spec f ipSources) ts st
  = let lts := omap (live (default ∅ (SlaveIPs st.1))) ts in
    rs ← mapM_go (task_spec f) lts; Ret (insert_fw (zip lts rs) st).
Proof.
  revert st; induction ts as [|t ts IH]; intros st; [done|].
  cbn [foldM omap list_omap]. rewrite task_step_live.
  destruct (live _ t) as [t'|]; [|apply IH].
  cbv zeta. rewrite taskRecord_spec. cbn [mapM_go].
  destruct (task_spec f t') as [recs|c]; [|done]. cbn [mbind go_bind].
  rewrite IH. cbv zeta. rewrite insert_fw_fst.
  destruct (insert_recs_frame (concat [(t', recs)].*2) st.1) as (-> & _ & _).
  destruct (mapM_go _ _) as [rs|c]; [|done]. cbn [mbind go_bind zip zip_with].
  by rewrite (insert_fw_cons _ recs).
Qed.

Definition live_tasks (ips : gmap string string) (f : Framework) : list Task :=
  omap (live ips) (Tasks f).

(** The records of the tasks, framework by framework and task by task. *)
Definition tasks_spec (ips : gmap string string) (sj : State) :
    go (list (list (list rec))) :=
  mapM_go (λ f, mapM_go (task_spec f) (live_tasks ips f)) (Frameworks sj).

Definition new_framework (f : Framework) : EnumerableFramework :=
  {| EFramework_Tasks := []; EFramework_Name := Framework_Name f |}.

Definition insert_fws (ips : gmap string string) (l : list (Framework * list (list rec)))
    (rg : RecordGenerator) : RecordGenerator :=
  foldl (λ rg '(f, rs),
      let '(rg, fw) := insert_fw (zip (live_tasks ips f) rs) (rg, new_framework f) in
      add_framework rg fw) rg l.

(** [taskRecords] refines [tasks_spec]. *)
Lemma taskRecords_spec sj rg :
  taskRecords domain spec sj ipSources rg
  = let ips := default ∅ (SlaveIPs rg) in
    rss ← tasks_spec ips sj; Ret (insert_fws ips (zip (Frameworks sj) rss) rg).
Proof.
  unfold taskRecords, tasks_spec. cbv zeta.
  revert rg; induction (Frameworks sj) as [|f fs IH]; intros rg; [done|].
  cbn [foldM mapM_go]. cbv zeta. rewrite task_loop_spec. cbv zeta. cbn [fst].
  fold (live_tasks (default ∅ (SlaveIPs rg)) f).
  destruct (mapM_go (task_spec f) _) as [rs|c]; [|done]. cbn [mbind go_bind].
  pose proof (insert_fw_fst (zip (live_tasks (default ∅ (SlaveIPs rg)) f) rs)
    (rg, new_framework f)) as Hf.
  destruct (mapM_go _ fs) as [rss|c] eqn:Em;
    cbn [mbind go_bind zip zip_with insert_fws foldl]; fold (new_framework f);
    destruct (insert_fw _ (rg, new_framework f)) as [rg1 fw1]; cbn [fst mbind go_bind] in *;
    rewrite IH; change (SlaveIPs (add_framework rg1 fw1)) with (SlaveIPs rg1);
    rewrite Hf;
    destruct (insert_recs_frame (concat (zip (live_tasks (default ∅ (SlaveIPs rg)) f) rs).*2) rg)
      as (-> & _ & _); by rewrite Em.
Qed.
End tasks.

(** ** Generators with the same stores *)

Definition same_stores (rg rg' : RecordGenerator) : Prop := As rg = As rg' ∧ SRVs rg = SRVs rg'.

#[export] Instance same_stores_equiv : Equivalence same_stores.
Proof.
  split.
  - by intros rg.
  - intros rg rg' [??]. by split.
  - intros a b c [??] [??]. split; congruence.
Qed.

Lemma same_stores_kind rg rg' k : same_stores rg rg' → kind_rrs k rg = kind_rrs k rg'.
Proof. intros [??]. by destruct k. Qed.

#[export] Instance has_proper : Proper (same_stores ==> (=) ==> (=) ==> (=) ==> iff) has.
Proof.
  intros rg rg' Hs ? k -> ? n -> ? h ->. unfold has. by rewrite (same_stores_kind _ _ k Hs).
Qed.

#[export] Instance has_rec_proper : Proper (same_stores ==> (=) ==> iff) has_rec.
Proof. intros rg rg' Hs ? r ->. unfold has_rec. by rewrite Hs. Qed.

#[export] Instance ready_proper : Proper (same_stores ==> iff) ready.
Proof. intros rg rg' [H1 H2]. unfold ready. by rewrite H1, H2. Qed.

#[export] Instance wf_rg_proper : Proper (same_stores ==> iff) wf_rg.
Proof.
  intros rg rg' Hs. unfold wf_rg. split; intros Hwf k r; [|rewrite (same_stores_kind _ _ k Hs); apply Hwf].
  rewrite <-(same_stores_kind _ _ k Hs). apply Hwf.
Qed.

#[export] Instance insertRR_proper n h k : Proper (same_stores ==> same_stores) (insertRR_ n h k).
Proof.
  intros rg rg' Hs. unfold insertRR_, insertRR. rewrite (same_stores_kind _ _ k Hs).
  destruct Hs as [H1 H2]. destruct (kind_rrs k rg'); [|by split].
  destruct (rrs_add _ _ _). by destruct k; split.
Qed.

#[export] Instance insert_recs_proper l : Proper (same_stores ==> same_stores) (insert_recs l).
Proof.
  induction l as [|[[k n] h] l IH]; intros rg rg' Hs; [done|]. by apply IH, insertRR_proper.
Qed.

#[export] Instance enumerates_proper :
  Proper (same_stores ==> (=) ==> same_stores ==> iff) enumerates.
Proof.
  intros a a' Ha ? l -> b b' Hb. split; intros [N S F E]; split; try done; intros r.
  - intros Hr. rewrite <-Ha. by apply F.
  - rewrite <-Ha, <-Hb. apply E.
  - intros Hr. rewrite Ha. by apply F.
  - rewrite Ha, Hb. apply E.
Qed.

Lemma add_framework_same rg fw : same_stores (add_framework rg fw) rg.
Proof. by split. Qed.

Lemma insert_fws_stores ips l rg :
  Forall (λ '(f, rs), length rs = length (live_tasks ips f)) l →
  same_stores (insert_fws ips l rg) (insert_recs (concat (@concat rec <$> l.*2)) rg).
Proof.
  intros Hl. revert rg; induction Hl as [|[f rs] l Hrs Hl IH]; intros rg; [done|].
  cbn [insert_fws foldl fmap list_fmap concat snd]. rewrite insert_recs_app.
  pose proof (insert_fw_fst (zip (live_tasks ips f) rs) (rg, new_framework f)) as Hf.
  destruct (insert_fw _ _) as [rg1 fw1]. cbn [fst] in Hf.
  fold (insert_fws ips l (add_framework rg1 fw1)). rewrite IH. subst rg1.
  rewrite snd_zip by lia. apply insert_recs_proper, add_framework_same.
Qed.

Lemma tasks_spec_lengths `{UnicodeTables} domain spec srcs ips sj rss :
  tasks_spec domain spec srcs ips sj = Ret rss →
  Forall (λ '(f, rs), length rs = length (live_tasks ips f)) (zip (Frameworks sj) rss)
  ∧ length rss = length (Frameworks sj).
Proof.
  intros Hs%mapM_go_ret. split; [|symmetry; by eapply Forall2_length].
  induction Hs as [|f rs fs rss Hf Hs IH]; constructor; [|done].
  apply mapM_go_ret in Hf. symmetry. by eapply Forall2_length.
Qed.

(** ** Enumeration of the task records *)

Definition fw_records (fw : EnumerableFramework) : list EnumerableRecord :=
  EFramework_Tasks fw ≫= ETask_Records.
Definition enum_records (d : EnumerationData) : list EnumerableRecord := d ≫= fw_records.

(** The tasks and frameworks an enumeration lists, without their records. *)
Definition enum_task_ids (fw : EnumerableFramework) : list (string * string) :=
  (λ t, (ETask_Name t, ETask_ID t)) <$> EFramework_Tasks fw.
Definition task_ids (t : Task) : string * string := (Task_Name t, Task_ID t).

Lemma insert_task_recs_ids l st :
  ETask_Name (insert_task_recs l st).2 = ETask_Name st.2
  ∧ ETask_ID (insert_task_recs l st).2 = ETask_ID st.2.
Proof.
  revert st; induction l as [|[[k n] h] l IH]; intros st; [done|].
  change (insert_task_recs ((k, n, h) :: l) st)
    with (insert_task_recs l (insertTaskRR n h k st)).
  destruct (IH (insertTaskRR n h k st)) as [-> ->]. destruct st as [rg t].
  unfold insertTaskRR. by destruct (insertRR n h k rg) as [[] ?].
Qed.

Definition stores (recs : list rec) : Prop := Forall (λ r, is_store r.1.1 = true) recs.

Lemma insert_fw_enum l rg fw :
  ready rg → Forall (λ p : Task * list rec, stores p.2) l →
  let st' := insert_fw l (rg, fw) in
  ∃ new, enumerates rg new st'.1
    ∧ EFramework_Name st'.2 = EFramework_Name fw
    ∧ enum_task_ids st'.2 = enum_task_ids fw ++ (task_ids <$> l.*1)
    ∧ fw_records st'.2 = fw_records fw ++ (erec <$> new).
Proof.
  cbv zeta. revert rg fw; induction l as [|[t recs] l IH]; intros rg fw Hrg Hl.
  - exists []. cbn [insert_fw foldl fst snd fmap list_fmap]. rewrite !app_nil_r.
    split_and!; [apply enumerates_refl|done..].
  - apply Forall_cons in Hl as [Hr Hl]. cbn [snd] in Hr.
    destruct (insert_task_recs_enum recs rg (new_task t) Hrg Hr) as (n1 & E1 & R1).
    destruct (insert_task_recs_ids recs (rg, new_task t)) as [I1 I2].
    pose proof (insert_task_recs_fst recs (rg, new_task t)) as Hf.
    cbn [insert_fw foldl]. destruct (insert_task_recs recs (rg, new_task t)) as [rg1 t1].
    cbn [fst snd] in *. destruct (IH rg1 (add_task fw t1)) as (n2 & E2 & N2 & D2 & R2);
      [subst; auto with mdns|done|].
    exists (n1 ++ n2). split_and!; [by eapply enumerates_trans|done| |].
    + fold (insert_fw l (rg1, add_task fw t1)). rewrite D2. unfold enum_task_ids, add_task.
      cbn [EFramework_Tasks fmap list_fmap]. rewrite fmap_app, <-app_assoc. cbn.
      by rewrite I1, I2.
    + fold (insert_fw l (rg1, add_task fw t1)). rewrite R2. unfold fw_records, add_task.
      cbn [EFramework_Tasks]. rewrite bind_app. cbn. rewrite R1, fmap_app, app_nil_r. cbn.
      by rewrite <-app_assoc.
Qed.

Lemma insert_fws_enum ips l rg :
  ready rg →
  Forall (λ '(f, rs), length rs = length (live_tasks ips f)) l →
  Forall (λ p : Framework * list (list rec), Forall stores p.2) l →
  let rg' := insert_fws ips l rg in
  ∃ new fws, enumerates rg new rg'
    ∧ EnumData rg' = EnumData rg ++ fws
    ∧ EFramework_Name <$> fws = Framework_Name <$> l.*1
    ∧ enum_task_ids <$> fws = (λ f, task_ids <$> live_tasks ips f) <$> l.*1
    ∧ enum_records fws = erec <$> new.
Proof.
  cbv zeta. intros Hrg Hlen. revert rg Hrg; induction Hlen as [|[f rs] l Hf Hlen IH]; intros rg Hrg Hl.
  - exists [], []. cbn [insert_fws foldl]. rewrite app_nil_r.
    split_and!; [apply enumerates_refl|done..].
  - apply Forall_cons in Hl as [Hr Hl]. cbn [snd] in Hr.
    destruct (insert_fw_enum (zip (live_tasks ips f) rs) rg (new_framework f) Hrg)
      as (n1 & E1 & N1 & D1 & R1).
    { apply Forall_forall. intros [t recs] Ht%elem_of_zip_r. cbn. by eapply Forall_forall in Hr. }
    pose proof (insert_fw_fst (zip (live_tasks ips f) rs) (rg, new_framework f)) as Hfst.
    cbn [insert_fws foldl]. destruct (insert_fw _ (rg, new_framework f)) as [rg1 fw1].
    cbn [fst snd] in *. rewrite fst_zip in D1 by lia.
    assert (EnumData rg1 = EnumData rg) as HE.
    { subst rg1. apply insert_recs_frame. }
    destruct (IH (add_framework rg1 fw1)) as (n2 & fws & E2 & D2 & N2 & I2 & R2);
      [|done|].
    { rewrite add_framework_same. subst. auto with mdns. }
    apply (enumerates_proper _ _ (add_framework_same rg1 fw1) _ _ eq_refl _ _ (reflexivity _)) in E2.
    exists (n1 ++ n2), (fw1 :: fws). fold (insert_fws ips l (add_framework rg1 fw1)).
    split_and!.
    + by eapply enumerates_trans.
    + rewrite D2. cbn. by rewrite HE, <-app_assoc.
    + cbn. by rewrite N1, N2.
    + rewrite !fmap_cons. by rewrite D1, I2.
    + cbn [enum_records mbind list_bind]. fold (enum_records fws).
      by rewrite R1, R2, fmap_app.
Qed.

Lemma task_spec_store `{UnicodeTables} domain spec srcs f t recs :
  task_spec domain spec srcs f t = Ret recs → stores recs.
Proof.
  unfold task_spec. intros H1. go_inv H1. destruct (HasDiscoveryInfo t).
  - cbv zeta in H1. go_inv H1. apply Ret_inj in H1 as <-.
    apply Forall_app; split; by eapply context_spec_store.
  - by eapply context_spec_store.
Qed.

Lemma tasks_spec_store `{UnicodeTables} domain spec srcs ips sj rss :
  tasks_spec domain spec srcs ips sj = Ret rss →
  Forall (λ p : Framework * list (list rec), Forall stores p.2) (zip (Frameworks sj) rss).
Proof.
  intros Hs%mapM_go_ret. induction Hs as [|f rs fs rss Hf Hs IH]; constructor; [|done].
  apply mapM_go_ret in Hf. cbn [snd]. apply Forall_forall. intros recs Hr.
  apply list_elem_of_lookup in Hr as (i & Hi).
  destruct (Forall2_lookup_r _ _ _ _ _ Hf Hi) as (t & _ & Ht). by eapply task_spec_store.
Qed.

(** [taskRecords]: the stores gain the records of the specification, and the
    enumeration gains exactly the records that were new. *)
Lemma taskRecords_inv `{UnicodeTables} domain spec sj srcs rg rg' :
  ready rg → taskRecords domain spec sj srcs rg = Ret rg' →
  let ips := default ∅ (SlaveIPs rg) in
  ∃ rss, tasks_spec domain spec srcs ips sj = Ret rss
    ∧ same_stores rg' (insert_recs (concat (@concat rec <$> rss)) rg)
    ∧ ∃ new fws, enumerates rg new rg'
      ∧ EnumData rg' = EnumData rg ++ fws
      ∧ EFramework_Name <$> fws = Framework_Name <$> Frameworks sj
      ∧ enum_task_ids <$> fws = (λ f, task_ids <$> live_tasks ips f) <$> Frameworks sj
      ∧ enum_records fws = erec <$> new.
Proof.
  intros Hrg Hr. rewrite taskRecords_spec in Hr. cbv zeta in *.
  set (ips := default ∅ (SlaveIPs rg)) in *. go_inv Hr. apply Ret_inj in Hr as <-.
  exists r. split; [done|].
  destruct (tasks_spec_lengths _ _ _ _ _ _ E) as [Hlen Hl].
  pose proof (insert_fws_stores ips _ rg Hlen) as Hst. rewrite snd_zip in Hst by lia.
  split; [exact Hst|].
  pose proof (insert_fws_enum ips _ rg Hrg Hlen (tasks_spec_store _ _ _ _ _ _ E)) as Hen.
  cbv zeta in Hen. by rewrite fst_zip in Hen by lia.
Qed.

(** ** The records of frameworks and slaves *)

Section cluster.
Context `{UnicodeTables} (resolve : string → option IP) (domain : string) (spec : Func).

Definition framework_recs (f : Framework) : go (list rec) :=
  fname ← DomainFrag (Framework_Name f) Sep spec;
  let '(host, port) := HostPort f in
  let '(address, ok) := hostToIP4 resolve host in
  let a := fname +:+ "." +:+ domain +:+ "." in
  Ret (if ok then
         (A, a, address)
         :: (if bool_decide (port = "") then []
             else [(SRV, "_framework._tcp." +:+ a, JoinHostPort a port)])
       else []).

(** The address kept for the slave and its records. *)
Definition slave_recs (s : Slave) : go (string * list rec) :=
  host ← PID_Host (Slave_PID s);
  let '(address, ok) := hostToIP4 resolve host in
  if ok then
    port ← PID_Port (Slave_PID s);
    let a := "slave." +:+ domain +:+ "." in
    Ret (address, [(A, a, address);
                   (SRV, "_slave._tcp." +:+ domain +:+ ".", JoinHostPort a port)])
  else
    address ← DomainFrag address Sep spec; Ret (address, []).

Definition add_slave (ips : gmap string string) (p : Slave * (string * list rec)) :
    gmap string string := <[Slave_ID p.1 := p.2.1]> ips.

Definition slave_ips (sj : State) (rs : list (string * list rec)) : gmap string string :=
  foldl add_slave ∅ (zip (Slaves sj) rs).

Lemma framework_step_spec rg f :
  framework_step resolve domain spec rg f
  = r ← framework_recs f; Ret (insert_recs r rg).
Proof.
  unfold framework_step, framework_recs.
  destruct (DomainFrag _ _ _) as [fname|c]; [|done]. cbn [mbind go_bind].
  destruct (HostPort f) as [host port], (hostToIP4 resolve host) as [address []]; [|done].
  by case_bool_decide.
Qed.

Lemma frameworkRecords_spec sj rg :
  frameworkRecords resolve domain spec sj rg
  = rs ← mapM_go framework_recs (Frameworks sj); Ret (insert_recs (concat rs) rg).
Proof.
  unfold frameworkRecords. revert rg; induction (Frameworks sj) as [|f fs IH]; intros rg; [done|].
  cbn [foldM mapM_go]. rewrite framework_step_spec.
  destruct (framework_recs f) as [r|c]; [|done]. cbn [mbind go_bind]. rewrite IH.
  destruct (mapM_go _ fs) as [rs|c]; [|done]. cbn [mbind go_bind concat].
  by rewrite insert_recs_app.
Qed.

Lemma slave_step_spec rg s :
  slave_step resolve domain spec rg s
  = p ← slave_recs s;
    Ret (set_SlaveIPs (insert_recs p.2 rg) (add_slave (default ∅ (SlaveIPs rg)) (s, p))).
Proof.
  unfold slave_step, slave_recs.
  destruct (PID_Host _) as [host|c]; [|done]. cbn [mbind go_bind].
  destruct (hostToIP4 resolve host) as [address []].
  - destruct (PID_Port _) as [port|c]; [|done]. cbn [mbind go_bind snd].
    by destruct (insert_recs_frame [(A, "slave." +:+ domain +:+ ".", address);
      (SRV, "_slave._tcp." +:+ domain +:+ ".", JoinHostPort ("slave." +:+ domain +:+ ".") port)] rg)
      as (<- & _ & _).
  - by destruct (DomainFrag address Sep spec).
Qed.

Lemma slaveRecords_spec sj rg rg' :
  SlaveIPs rg = Some ∅ → slaveRecords resolve domain spec sj rg = Ret rg' →
  ∃ rs, mapM_go slave_recs (Slaves sj) = Ret rs
    ∧ same_stores rg' (insert_recs (concat rs.*2) rg)
    ∧ SlaveIPs rg' = Some (slave_ips sj rs)
    ∧ EnumData rg' = EnumData rg.
Proof.
  unfold slaveRecords, slave_ips. generalize (∅ : gmap string string) as m.
  revert rg; induction (Slaves sj) as [|s ss IH]; intros rg m Hm Hr.
  - apply Ret_inj in Hr as <-. by exists [].
  - cbn [foldM] in Hr. rewrite slave_step_spec, Hm in Hr. go_inv Hr.
    apply go_bind_ret in E as (p & Ep & [= <-]).
    destruct (insert_recs_frame p.2 rg) as (_ & HE & _).
    eapply IH in Hr as (rs & Ers & Hs & Hi & He); [|done].
    exists (p :: rs). cbn [mapM_go]. rewrite Ep. cbn [mbind go_bind]. rewrite Ers.
    split_and!; [done| |done|by rewrite He].
    cbn [fmap list_fmap concat]. rewrite insert_recs_app, Hs. by apply insert_recs_proper.
Qed.

Lemma slaveRecords_returns sj rg rs :
  mapM_go slave_recs (Slaves sj) = Ret rs → returns (slaveRecords resolve domain spec sj rg).
Proof.
  unfold slaveRecords. revert rg rs; induction (Slaves sj) as [|s ss IH]; intros rg rs Hr; [by eexists|].
  cbn [mapM_go] in Hr. cbn [foldM]. rewrite slave_step_spec. go_inv Hr. rewrite E.
  cbn [mbind go_bind]. by eapply IH.
Qed.
End cluster.

(** ** The masters

    The loop over the masters depends on what it has inserted; it is
    described by the records it adds to the stores. *)

Lemma insertRR_frame' n h k rg :
  SlaveIPs (insertRR n h k rg).2 = SlaveIPs rg ∧ EnumData (insertRR n h k rg).2 = EnumData rg.
Proof. destruct (insertRR_frame n h k rg) as (? & ? & _). by split. Qed.

(** The loop over the masters is made of insertions of A records. *)
Lemma master_loop_ind (P : RecordGenerator → Prop) domain la masters rg idx b :
  P rg → (∀ n h rg, P rg → P (insertRR_ n h A rg)) →
  P (foldl (master_step domain la) (rg, idx, b) masters).1.1.
Proof.
  intros Hrg Hins. revert rg idx b Hrg. induction masters as [|m ms IH]; intros rg idx b H0; [done|].
  cbn [foldl]. unfold master_step at 2. destruct (getProto m) as [[mip mp] [e|]]; [by apply IH|].
  case_bool_decide.
  - cbn [negb]. destruct b; cbn [andb]; apply IH; auto.
  - pose proof (Hins ("master." +:+ domain +:+ ".") mip rg H0) as H1.
    unfold insertRR_ in H1. destruct (insertRR _ mip A rg) as [[] rg1];
      cbn [negb andb]; apply IH; auto.
Qed.

(** [masterRecord] is made of insertions. *)
Lemma masterRecord_ind (P : RecordGenerator → Prop) domain masters leader rg :
  P rg → (∀ n h k rg, P rg → P (insertRR_ n h k rg)) → P (masterRecord domain masters leader rg).
Proof.
  intros Hrg Hins. unfold masterRecord.
  destruct (Split leader "@") as [|? [|la ?]]; try done.
  destruct (getProto la) as [[ip port] [e|]]; [done|]. cbv zeta.
  set (rg0 := insertRR_ _ _ SRV _).
  assert (P (foldl (master_step domain la) (rg0, 0%nat, false) masters).1.1) as H1
    by (apply master_loop_ind; subst rg0; auto).
  destruct (foldl _ _ _) as [[rg1 idx] b]. cbn in H1. destruct b; auto.
Qed.
