(* ===== verification/GeneratorMasters.v ===== *)
(** * The master records

    What [masterRecord] (src/records/generator.go) leaves in the stores: the
    leader's names, and an enumeration of the masters without gaps and
    without duplicates. *)

From S2P Require Import Prelude GoStrings GoNet Labels Chains State Config Store Generator GeneratorSpec.

Definition master_name (domain : string) : string := "master." +:+ domain +:+ ".".
Definition leader_name (domain : string) : string := "leader." +:+ domain +:+ ".".

(** The address and port of a leader written [id@host:port]. *)
Definition leader_addr (leader : string) : option (string * string * string) :=
  match Split leader "@" with
  | _ :: la :: _ => let '(ip, port, err) := getProto la in
                    match err with None => Some (la, ip, port) | Some _ => None end
  | _ => None
  end.

(** The addresses a list of masters names. *)
Definition master_ip (master : string) : option string :=
  let '(ip, _, err) := getProto master in
  match err with None => if bool_decide (ip = "") then None else Some ip | Some _ => None end.

(** ** The names are different *)

Definition int_index (i : nat) : Prop := (Z.of_nat i ≤ maxInt64)%Z.

Lemma masterN_inj domain i j :
  int_index i → int_index j → masterN i domain = masterN j domain → i = j.
Proof.
  unfold masterN, int_index. intros Hi Hj H.
  apply (f_equal bytes) in H. rewrite !bytes_app in H.
  apply (inj (app (bytes "master"))) in H. rewrite !(assoc_L (++)) in H.
  apply (inj (.++ bytes ".")) in H. apply (inj (.++ bytes domain)) in H.
  apply (inj (.++ bytes ".")) in H. apply (inj bytes) in H.
  apply (f_equal Atoi) in H. rewrite !Atoi_Itoa in H by (unfold minInt64; lia).
  injection H. lia.
Qed.

Lemma masterN_not_master domain i : masterN i domain ≠ master_name domain.
Proof.
  unfold masterN, master_name. intros H. apply (f_equal String.length) in H.
  rewrite !length_app_string in H.
  assert (String.length (Itoa (Z.of_nat i)) ≠ 0%nat) as Hn.
  { unfold Itoa. rewrite (proj2 (Z.ltb_ge _ _)) by lia.
    rewrite <-length_bytes. intros E%nil_length_inv. by apply utoa_nonempty in E. }
  cbn in H. lia.
Qed.

Lemma masterN_not_leader domain i : masterN i domain ≠ leader_name domain.
Proof. unfold masterN, leader_name. intros H. discriminate (f_equal (String.get 0) H). Qed.

Lemma master_not_leader domain : master_name domain ≠ leader_name domain.
Proof. unfold master_name, leader_name. intros H. discriminate (f_equal (String.get 0) H). Qed.

(** ** The loop *)

(** After the masters [done]: the indices [0 .. idx-1] name the addresses
    [ips], which with the leader's are those of [master.domain.]. *)
Record master_inv (domain ip : string) (done : list string)
    (rg : RecordGenerator) (idx : nat) (b : bool) (ips : list string) : Prop := {
  mi_ready : ready rg;
  mi_len : length ips = idx;
  mi_bound : (idx ≤ length done)%nat;
  mi_nodup : NoDup ips;
  mi_leader : b = true ↔ ip ∈ ips;
  mi_master : ∀ x, has rg A (master_name domain) x ↔ x ∈ ips ∨ x = ip;
  mi_index : ∀ i x, int_index i → has rg A (masterN i domain) x ↔ ips !! i = Some x;
  mi_from : ∀ x, x ∈ ips ∨ x = ip ↔ x ∈ omap master_ip done ∨ x = ip }.

Lemma master_inv_skip domain ip done m rg idx b ips :
  master_inv domain ip done rg idx b ips →
  (∀ x, master_ip m = Some x → x ∈ ips ∨ x = ip) →
  master_inv domain ip (done ++ [m]) rg idx b ips.
Proof.
  intros [R L B N Le M I F] Hm. split; try done.
  - rewrite length_app. lia.
  - intros x. rewrite omap_app, elem_of_app, F. cbn.
    destruct (master_ip m) as [y|] eqn:E; [|set_solver]. specialize (Hm y eq_refl).
    rewrite F in Hm. set_solver.
Qed.

Lemma master_inv_add domain ip done m rg rg' idx b b' ips mip :
  master_inv domain ip done rg idx b ips →
  master_ip m = Some mip → mip ∉ ips → mip ≠ "" → int_index idx →
  (b' = true ↔ b = true ∨ mip = ip) →
  ready rg' →
  (∀ n x, has rg' A n x ↔ has rg A n x ∨ (n = master_name domain ∧ x = mip)
                          ∨ (n = masterN idx domain ∧ x = mip)) →
  master_inv domain ip (done ++ [m]) rg' (S idx) b' (ips ++ [mip]).
Proof.
  intros [R L B N Le M I F] Hm Hnew Hne Hidx Hb R' H. split; try done.
  - rewrite length_app. cbn. lia.
  - rewrite length_app. cbn. lia.
  - apply NoDup_app. split_and!; [done|set_solver|apply NoDup_singleton].
  - rewrite Hb, Le. set_solver.
  - intros x. rewrite H, M, elem_of_app, list_elem_of_singleton.
    pose proof (masterN_not_master domain idx). naive_solver.
  - intros i x Hi. rewrite H, I by done. split.
    + intros [Hx|[[Hn _]|[Hn ->]]].
      * by apply lookup_app_l_Some.
      * by apply masterN_not_master in Hn.
      * apply masterN_inj in Hn as ->; [|done..]. subst idx.
        by rewrite lookup_app_r, Nat.sub_diag by lia.
    + intros Hx. apply lookup_app_Some in Hx as [Hx|[Hge Hx]]; [by left|right; right].
      apply list_lookup_singleton_Some in Hx as [Hi0 ->].
      split; [|done]. f_equal. lia.
  - intros x. rewrite omap_app, !elem_of_app. cbn. rewrite Hm.
    specialize (F x). rewrite list_elem_of_singleton. clear -F. tauto.
Qed.

Lemma master_step_inv domain la ip port done m rg idx b ips :
  getProto la = (ip, port, None) → ip ≠ "" → int_index (length done) →
  master_inv domain ip done rg idx b ips →
  let st := master_step domain la (rg, idx, b) m in
  ∃ ips', master_inv domain ip (done ++ [m]) st.1.1 st.1.2 st.2 ips'.
Proof.
  intros Hla Hip Hlen Hinv. unfold master_step.
  assert (int_index idx) as Hidx.
  { pose proof (mi_bound _ _ _ _ _ _ _ Hinv). unfold int_index in *. lia. }
  destruct (getProto m) as [[mip mp] err] eqn:Em.
  assert (Hmip : master_ip m = match err with
    None => if bool_decide (mip = "") then None else Some mip | Some _ => None end).
  { unfold master_ip. by rewrite Em. }
  destruct err as [e|]; [exists ips; apply master_inv_skip; [done|congruence]|].
  pose proof Hinv as [R L B N Le M I F].
  destruct (decide (m = la)) as [Hl|Hl]; cbv zeta;
    [rewrite (bool_decide_true (m = la)) by done|rewrite (bool_decide_false (m = la)) by done].
  - subst m. assert (mip = ip) as -> by congruence. rewrite bool_decide_false in Hmip by done.
    cbn [negb]. destruct b; cbn [andb orb fst snd].
    + exists ips. apply master_inv_skip; [done|]. naive_solver.
    + exists (ips ++ [ip]). eapply master_inv_add; eauto with mdns.
      * rewrite <-Le. done.
      * naive_solver.
      * intros n x. rewrite insertRR_has by done. cbn. pose proof (M ip). naive_solver.
  - pose proof (insertRR_added (master_name domain) mip A rg R eq_refl) as Ha.
    pose proof (λ n x, insertRR_has (master_name domain) mip A rg A n x R) as Hh.
    pose proof (insertRR_ready (master_name domain) mip A rg R) as Hr.
    fold (master_name domain). unfold insertRR_ in Hh, Hr.
    destruct (insertRR (master_name domain) mip A rg) as [[] rg1]; cbn [fst snd negb andb] in *.
    + destruct (proj1 Ha eq_refl) as [Hne Hno]. rewrite M in Hno.
      rewrite bool_decide_false in Hmip by done.
      exists (ips ++ [mip]). eapply master_inv_add; eauto with mdns.
      * clear -Hno; tauto.
      * intros n x. rewrite insertRR_has by done. rewrite Hh. cbn. clear -Hne; tauto.
    + assert (¬ (mip ≠ "" ∧ ¬ has rg A (master_name domain) mip)) as Hno.
      { intros Hx. by apply Ha in Hx. }
      exists ips. apply master_inv_skip.
      * split; try done.
        -- intros x. rewrite Hh, M. cbn. split; [|by left].
           intros [?|(_ & _ & _ & -> & Hne)]; [done|].
           destruct (decide (has rg A (master_name domain) mip)) as [Hx|Hx]; [by apply M|].
           by destruct Hno.
        -- intros i x Hi. rewrite Hh, I by done. cbn. pose proof (masterN_not_master domain i).
           clear -H; naive_solver.
      * intros x Hx. case_bool_decide; [congruence|].
        assert (x = mip) as -> by congruence. apply M.
        destruct (decide (has rg A (master_name domain) mip)); [done|by destruct Hno].
Qed.

Lemma master_loop_inv domain la ip port ms done rg idx b ips :
  getProto la = (ip, port, None) → ip ≠ "" → int_index (length done + length ms) →
  master_inv domain ip done rg idx b ips →
  let st := foldl (master_step domain la) (rg, idx, b) ms in
  ∃ ips', master_inv domain ip (done ++ ms) st.1.1 st.1.2 st.2 ips'.
Proof.
  intros Hla Hip. revert done rg idx b ips.
  induction ms as [|m ms IH]; intros dn rg idx b ips Hlen Hinv; cbn [foldl].
  - exists ips. by rewrite app_nil_r.
  - destruct (master_step_inv domain la ip port dn m rg idx b ips Hla Hip) as [ips' H'];
      [unfold int_index in *; lia|done|].
    destruct (master_step domain la (rg, idx, b) m) as [[rg' idx'] b']. cbn [fst snd] in H'.
    destruct (IH (dn ++ [m]) rg' idx' b' ips') as [ips'' H'']; [|done|].
    + rewrite length_app. unfold int_index in *. cbn in *. lia.
    + exists ips''. by rewrite <-app_assoc in H''.
Qed.

(** ** The leader *)

Definition leader_srv (domain n : string) : Prop :=
  n = "_leader._tcp." +:+ domain +:+ "." ∨ n = "_leader._udp." +:+ domain +:+ ".".

(** With a leader address that parses, the records are those of the leader
    and A records; what was there stays. *)
Lemma masterRecord_leader domain masters leader rg la ip port :
  ready rg → leader_addr leader = Some (la, ip, port) →
  let rg' := masterRecord domain masters leader rg in
  (∀ k n h, has rg k n h → has rg' k n h)
  ∧ (∀ n h, has rg' SRV n h ↔ has rg SRV n h ∨ leader_srv domain n ∧ h = leader_name domain +:+ ":" +:+ port)
  ∧ (ip ≠ "" → has rg' A (leader_name domain) ip).
Proof.
  intros R Hl. cbv zeta. unfold leader_addr in Hl.
  destruct (Split leader "@") as [|s0 [|la' ss]] eqn:Es; [done..|].
  destruct (getProto la') as [[ip' port'] [e|]] eqn:Ela; [done|]. injection Hl as -> -> ->.
  unfold masterRecord. rewrite Es, Ela. cbv zeta.
  assert ("leader." +:+ domain +:+ "." +:+ ":" +:+ port = leader_name domain +:+ ":" +:+ port) as ->
    by (unfold leader_name; by rewrite <-!app_string_assoc).
  set (host := leader_name domain +:+ ":" +:+ port). assert (host ≠ "") as Hh by done.
  set (rg0 := insertRR_ _ host SRV _).
  set (P rg' := ready rg' ∧ (∀ k n h, has rg0 k n h → has rg' k n h)
                ∧ ∀ n h, has rg' SRV n h ↔ has rg0 SRV n h).
  assert (∀ n h rg, P rg → P (insertRR_ n h A rg)) as HP.
  { intros n h rg' (R' & H1 & H2). split_and!; [auto with mdns| |].
    - intros k m x Hx. apply insertRR_has; [done|]. left. auto.
    - intros m x. rewrite insertRR_has, H2 by done. naive_solver. }
  assert (P rg0) as H0 by (split_and!; [subst rg0; auto with mdns|done|done]).
  pose proof (master_loop_ind P domain la masters rg0 0 false H0 HP) as H1.
  destruct (foldl _ _ _) as [[rg1 idx] b]. cbn [fst] in H1.
  assert (P (if b then rg1 else insertRR_ (masterN idx domain) ip A rg1)) as (_ & Hk & Hs)
    by (destruct b; auto).
  assert (∀ k n h, has rg0 k n h ↔ has rg k n h
    ∨ (k = A ∧ ip ≠ "" ∧ h = ip ∧ (n = leader_name domain ∨ n = master_name domain))
    ∨ (k = SRV ∧ h = host ∧ leader_srv domain n)) as Hrg0.
  { intros k n h. subst rg0. rewrite !insertRR_has by auto with mdns. cbn. unfold leader_srv.
    fold (leader_name domain) (master_name domain). clear -Hh. naive_solver. }
  split_and!.
  - intros k n h Hx. apply Hk, Hrg0. by left.
  - intros n h. rewrite Hs, Hrg0. naive_solver.
  - intros Hip. apply Hk, Hrg0. naive_solver.
Qed.

Lemma masterRecord_no_leader domain masters leader rg :
  leader_addr leader = None → masterRecord domain masters leader rg = rg.
Proof.
  unfold leader_addr, masterRecord. destruct (Split leader "@") as [|s0 [|la ss]]; try done.
  by destruct (getProto la) as [[ip port] [e|]].
Qed.

(** C9: [masterRecord] numbers the masters without gaps: there is a list of
    distinct addresses, those of the leader and of the well-formed masters, such
    that [masterN.domain.] has exactly the N-th of them and [master.domain.]
    has all of them; [leader.domain.] has the leader's.  (The stores hold no
    such names before, and indices are those of an [int].) *)
Theorem masterRecord_numbering domain masters leader rg la ip port :
  ready rg → leader_addr leader = Some (la, ip, port) → ip ≠ "" →
  int_index (length masters) →
  (∀ x, ¬ has rg A (master_name domain) x) →
  (∀ i x, int_index i → ¬ has rg A (masterN i domain) x) →
  let rg' := masterRecord domain masters leader rg in
  ∃ ips, NoDup ips
    ∧ (∀ x, x ∈ ips ↔ x = ip ∨ x ∈ omap master_ip masters)
    ∧ (∀ x, has rg' A (master_name domain) x ↔ x ∈ ips)
    ∧ (∀ i x, int_index i → has rg' A (masterN i domain) x ↔ ips !! i = Some x)
    ∧ has rg' A (leader_name domain) ip.
Proof.
  intros R Hl Hip Hlen Hfm Hfn. cbv zeta.
  destruct (masterRecord_leader domain masters leader rg la ip port R Hl) as (_ & _ & Hleader).
  specialize (Hleader Hip). revert Hleader. unfold leader_addr in Hl.
  destruct (Split leader "@") as [|s0 [|la' ss]] eqn:Es; [done..|].
  destruct (getProto la') as [[ip' port'] [e|]] eqn:Ela; [done|]. injection Hl as -> -> ->.
  unfold masterRecord. rewrite Es, Ela. cbv zeta. fold (leader_name domain) (master_name domain).
  set (rg0 := insertRR_ _ _ SRV _).
  assert (ready rg0) as R0 by (subst rg0; auto with mdns).
  assert (∀ n x, has rg0 A n x ↔ has rg A n x ∨ x = ip ∧ (n = leader_name domain ∨ n = master_name domain)) as H0.
  { intros n x. subst rg0. rewrite !insertRR_has by auto with mdns. cbn. clear -Hip. naive_solver. }
  destruct (master_loop_inv domain la ip port masters [] rg0 0 false []) as [ips Hinv];
    [done|done|done| |].
  { pose proof (master_not_leader domain). split; try done.
    - constructor.
    - split; [done|set_solver].
    - intros x. rewrite H0. specialize (Hfm x). set_solver.
    - intros i x Hi. rewrite H0. specialize (Hfn i x Hi).
      pose proof (masterN_not_master domain i). pose proof (masterN_not_leader domain i).
      rewrite lookup_nil. naive_solver. }
  destruct (foldl _ _ _) as [[rg1 idx] b]. cbn [fst snd app] in Hinv.
  destruct Hinv as [R1 L B N Le M I F].
  destruct b; intros Hleader.
  - exists ips. assert (ip ∈ ips) as Hin by (by apply Le). split_and!; [done| | |done|done]; intros x.
    + specialize (F x). clear -F Hin. naive_solver.
    + rewrite M. clear -Hin. naive_solver.
  - assert (ip ∉ ips) as Hno by (rewrite <-Le; done).
    assert (int_index idx) as Hidx by (unfold int_index in *; lia).
    exists (ips ++ [ip]). split_and!.
    + apply NoDup_app. split_and!; [done|set_solver|apply NoDup_singleton].
    + intros x. rewrite elem_of_app, list_elem_of_singleton, F. tauto.
    + intros x. rewrite insertRR_has, M, elem_of_app, list_elem_of_singleton by done.
      pose proof (masterN_not_master domain idx). naive_solver.
    + intros i x Hi. rewrite insertRR_has, I by done. rewrite lookup_app_Some. split.
      * intros [?|(_ & _ & Hn & -> & _)]; [by left|]. right.
        apply masterN_inj in Hn as ->; [|done..]. subst idx. by rewrite Nat.sub_diag.
      * intros [?|[Hge [Hi0 ->]%list_lookup_singleton_Some]]; [by left|right].
        split_and!; [done|done| |done|done]. f_equal. lia.
    + done.
Qed.

Lemma reset_empty rg k n h : ¬ has (reset rg) k n h.
Proof. intros (r & Hr & v & Hv & _). destruct k; cbn in Hr; simplify_map_eq. Qed.

Lemma reset_ready rg : ready (reset rg).
Proof. split; by eexists. Qed.

Lemma masterRecord_numbering_witness :
  let rg' := masterRecord "mesos" ["10.0.0.1:5050"; "10.0.0.2:5050"] "master@10.0.0.2:5050"
               (reset NewRecordGenerator) in
  ∃ ips, NoDup ips
    ∧ (∀ x, x ∈ ips ↔ x = "10.0.0.2" ∨ x ∈ omap master_ip ["10.0.0.1:5050"; "10.0.0.2:5050"])
    ∧ (∀ x, has rg' A (master_name "mesos") x ↔ x ∈ ips)
    ∧ (∀ i x, int_index i → has rg' A (masterN i "mesos") x ↔ ips !! i = Some x)
    ∧ has rg' A (leader_name "mesos") "10.0.0.2".
Proof.
  apply (masterRecord_numbering "mesos" ["10.0.0.1:5050"; "10.0.0.2:5050"] "master@10.0.0.2:5050"
    (reset NewRecordGenerator) "10.0.0.2:5050" "10.0.0.2" "5050").
  - apply reset_ready.
  - reflexivity.
  - done.
  - by vm_compute.
  - intros x. apply reset_empty.
  - intros i x _. apply reset_empty.
Defined.
