(* ===== verification/GeneratorProps.v ===== *)
(** * What a generation produces

    Theorems on [InsertState] (src/records/generator.go): the shape of the
    stores, the enumeration, the records of running tasks, targets of SRV
    records, and when it returns. *)

From S2P Require Import Prelude GoStrings GoNet Labels Chains State Hash Config Store.
From S2P Require Import Generator GeneratorSpec GeneratorMasters.

Lemma insert_fws_SlaveIPs ips l rg : SlaveIPs (insert_fws ips l rg) = SlaveIPs rg.
Proof.
  revert rg; induction l as [|[f rs] l IH]; intros rg; [done|]. cbn [insert_fws foldl].
  pose proof (insert_fw_fst (zip (live_tasks ips f) rs) (rg, new_framework f)) as Hf.
  destruct (insert_fw _ _) as [rg1 fw1]. cbn [fst] in Hf.
  fold (insert_fws ips l (add_framework rg1 fw1)). rewrite IH. cbn. subst rg1.
  apply insert_recs_frame.
Qed.

(** ** Targets of SRV records *)

(** Every SRV record of a task points at a name that has an A record of the
    same task. *)
Lemma context_spec_target ctx task f domain spec recs r :
  context_spec ctx task f domain spec = Ret recs → r ∈ recs → r.1.1 = SRV →
  ∃ target port, r.2 = target +:+ ":" +:+ port
    ∧ ((A, target, ctx_slaveIP ctx) ∈ recs ∨ (A, target, ctx_taskIP ctx) ∈ recs).
Proof.
  unfold context_spec. intros Hc. go_inv Hc. apply Ret_inj in Hc as <-.
  rewrite !elem_of_app. intros [Hr|[Hr|Hr]] Hk.
  - unfold a_recs in Hr. set_solver.
  - eapply mapM_go_concat in Hr as (port & l & _ & Hl & Hr); [|exact E1].
    unfold port_recs in Hl. go_inv Hl. apply Ret_inj in Hl as <-.
    eapply Forall_forall in Hr; [|apply srv_recs_kind]. destruct Hr as [_ Ht].
    exists (slave_target ctx r0 domain), port. split; [done|]. left.
    apply elem_of_app. left. unfold a_recs, slave_target. set_solver.
  - destruct (HasDiscoveryInfo task); [|injection E2 as <-; set_solver].
    eapply mapM_go_concat in Hr as (port & l & _ & Hl & Hr); [|exact E2].
    unfold discovery_recs in Hl. go_inv Hl. apply Ret_inj in Hl as <-.
    eapply Forall_forall in Hr; [|apply srv_recs_kind]. destruct Hr as [_ Ht].
    exists (task_target ctx r0 domain), (Itoa (DiscoveryPort_Number port)). split; [done|].
    right. apply elem_of_app. left. unfold a_recs, task_target. set_solver.
Qed.

Lemma task_spec_target `{UnicodeTables} domain spec srcs f t recs r :
  task_spec domain spec srcs f t = Ret recs → r ∈ recs → r.1.1 = SRV →
  ∃ target port, r.2 = target +:+ ":" +:+ port
    ∧ ((A, target, SlaveIP t) ∈ recs ∨ (A, target, Task_IP t srcs) ∈ recs).
Proof.
  unfold task_spec, task_context. intros Ht Hr Hk. go_inv Ht.
  go_inv E. apply Ret_inj in E as <-. destruct (HasDiscoveryInfo t); cbv zeta in Ht.
  - go_inv Ht. apply Ret_inj in Ht as <-. apply elem_of_app in Hr as [Hr|Hr];
      (eapply context_spec_target in Hr as (target & port & ? & Hx); [|done|done]);
      exists target, port; cbn in Hx; set_solver.
  - exact (context_spec_target _ _ _ _ _ _ _ Ht Hr Hk).
Qed.

Lemma hostToIP4_ok resolve host a : hostToIP4 resolve host = (a, true) → a ≠ "".
Proof.
  unfold hostToIP4. intros E. assert (∃ ip, a = IP_String ip) as [ip ->]; [|apply IP_String_nonempty].
  destruct (ParseIP host) as [|b ip]; [destruct (resolve host) as [ip|]; [exists ip|done]|exists (b :: ip)];
    congruence.
Qed.

(** Every framework or slave SRV record has the A record of its target
    beside it. *)
Lemma framework_recs_target resolve domain spec f l (r : rec) :
  framework_recs resolve domain spec f = Ret l → r ∈ l → r.1.1 = SRV →
  ∃ target port ip, r.2 = JoinHostPort target port ∧ (A, target, ip) ∈ l ∧ ip ≠ "".
Proof.
  unfold framework_recs. intros Hl Hr Hk. go_inv Hl. destruct (HostPort f) as [host port].
  destruct (hostToIP4 resolve host) as [address []] eqn:Eh; apply Ret_inj in Hl as <-; [|set_solver].
  apply hostToIP4_ok in Eh. case_bool_decide; [set_solver|].
  exists (r0 +:+ "." +:+ domain +:+ "."), port, address. set_solver.
Qed.

Lemma slave_recs_target resolve domain spec s a l (r : rec) :
  slave_recs resolve domain spec s = Ret (a, l) → r ∈ l → r.1.1 = SRV →
  ∃ target port ip, r.2 = JoinHostPort target port ∧ (A, target, ip) ∈ l ∧ ip ≠ "".
Proof.
  unfold slave_recs. intros Hl Hr Hk. go_inv Hl.
  destruct (hostToIP4 resolve r0) as [address []] eqn:Eh; go_inv Hl; injection Hl as <- <-; [|set_solver].
  apply hostToIP4_ok in Eh. exists ("slave." +:+ domain +:+ "."), r1, address. set_solver.
Qed.

(** [h] is [target:port], in the form of a task or of [JoinHostPort]. *)
Definition points_to (h target : string) : Prop :=
  ∃ port, h = target +:+ ":" +:+ port ∨ h = JoinHostPort target port.

Section insert_state.
Context `{UnicodeTables} (resolve : string → option IP) (domain : string) (spec : Func).
Context (sj : State) (masters ipSources : list string) (now : Z).

Abbreviation insert := (InsertState resolve domain spec sj masters ipSources now).

(** The stages of a generation: the records of frameworks and slaves, the
    masters on top of them, and the tasks. *)
Record stages (rg : RecordGenerator) (rg' : RecordGenerator) : Type := {
  st_fr : list (list rec);
  st_sr : list (string * list rec);
  st_rss : list (list (list rec));
  st_rg2 : RecordGenerator;
  st_frameworks : mapM_go (framework_recs resolve domain spec) (Frameworks sj) = Ret st_fr;
  st_slaves : mapM_go (slave_recs resolve domain spec) (Slaves sj) = Ret st_sr;
  st_base : ∀ k n h, has st_rg2 k n h ↔
              storable (k, n, h) ∧ (k, n, h) ∈ concat st_fr ++ concat st_sr.*2;
  st_base_ready : ready st_rg2;
  st_base_wf : wf_rg st_rg2;
  st_rg3 := masterRecord domain masters (Leader sj) st_rg2;
  st_ready : ready st_rg3;
  st_wf : wf_rg st_rg3;
  st_ips : SlaveIPs rg' = Some (slave_ips sj st_sr);
  st_tasks : tasks_spec domain spec ipSources (slave_ips sj st_sr) sj = Ret st_rss;
  st_stores : same_stores rg' (insert_recs (concat (@concat rec <$> st_rss)) st_rg3);
  st_state : rg_State rg' = sj;
  st_enum : ∃ new fws, enumerates st_rg3 new rg'
    ∧ EnumData rg' = EnumData rg ++ fws
    ∧ EFramework_Name <$> fws = Framework_Name <$> Frameworks sj
    ∧ enum_task_ids <$> fws
      = (λ f, task_ids <$> live_tasks (slave_ips sj st_sr) f) <$> Frameworks sj
    ∧ enum_records fws = erec <$> new }.

Lemma reset_wf rg : wf_rg (reset rg).
Proof. intros k r Hr n v Hv. destruct k; cbn in Hr; simplify_map_eq. Qed.

(** Every [InsertState] that returns goes through the stages. *)
Lemma InsertState_stages rg c rg' c' e :
  insert rg c = Ret (rg', c', e) →
  inhabited (stages rg rg') ∧ c' = set_SOASerial c (uint32 now) ∧ e = None.
Proof.
  unfold InsertState. intros Hi. go_inv Hi. injection Hi as <- <- <-. split; [|done].
  rewrite frameworkRecords_spec in E. go_inv E. apply Ret_inj in E as <-.
  destruct (insert_recs_frame (concat r2) (reset rg)) as (Hips & Henum & _).
  eapply slaveRecords_spec in E0 as (sr & Hsr & Hs & Hi & He); [|by rewrite Hips].
  rewrite Henum in He. cbn in He.
  assert (ready r0) as Rr0.
  { rewrite Hs. apply insert_recs_ready, insert_recs_ready, reset_ready. }
  assert (wf_rg r0) as Wr0.
  { rewrite Hs. apply insert_recs_wf, insert_recs_wf, reset_wf. }
  assert (ready (masterRecord domain masters (Leader sj) r0)) as R3
    by (apply masterRecord_ind; auto with mdns).
  assert (wf_rg (masterRecord domain masters (Leader sj) r0)) as W3
    by (apply masterRecord_ind; auto with mdns).
  assert (SlaveIPs (masterRecord domain masters (Leader sj) r0) = SlaveIPs r0
    ∧ EnumData (masterRecord domain masters (Leader sj) r0) = EnumData r0) as [F1 F2].
  { apply masterRecord_ind; [done|]. intros n h k rgx [<- <-].
    destruct (insertRR_frame n h k rgx) as (? & ? & _). by split. }
  assert (SlaveIPs r1 = SlaveIPs r0) as F3.
  { rewrite taskRecords_spec in E1. cbv zeta in E1. go_inv E1. apply Ret_inj in E1 as <-.
    by rewrite insert_fws_SlaveIPs, F1. }
  apply taskRecords_inv in E1 as (rss & Hrss & Hst & Hen); [|done].
  cbv zeta in *. rewrite F1, Hi in Hrss, Hen. cbn [default] in Hrss, Hen.
  rewrite F2, He in Hen. constructor.
  apply (Build_stages rg _ r2 sr rss r0); try done.
  - intros k n h. rewrite Hs, insert_recs_has by auto using insert_recs_ready, reset_ready.
    rewrite insert_recs_has by apply reset_ready. rewrite elem_of_app.
    pose proof (reset_empty rg k n h). tauto.
  - cbn. by rewrite F3, Hi.
  - destruct Hen as (new & fws & H1 & H2). exists new, fws. split; [|done].
    by apply (enumerates_proper _ _ (reflexivity _) _ _ eq_refl r1 (set_State r1 sj)).
Qed.

(** The records below the masters are those of frameworks and slaves. *)
Lemma base_records rg rg' (st : stages rg rg') (r : rec) :
  r ∈ concat (st_fr _ _ st) ++ concat (st_sr _ _ st).*2 ↔ ∃ l, r ∈ l ∧
    ((∃ f, f ∈ Frameworks sj ∧ framework_recs resolve domain spec f = Ret l)
     ∨ ∃ s a, s ∈ Slaves sj ∧ slave_recs resolve domain spec s = Ret (a, l)).
Proof.
  pose proof (st_frameworks _ _ st) as Hf. pose proof (st_slaves _ _ st) as Hs.
  rewrite elem_of_app. split.
  - intros [Hr|Hr].
    + eapply mapM_go_concat in Hr as (f & l & Hf' & Hl & Hr); [|done]. eauto 10.
    + apply list_elem_of_In, in_concat in Hr as (l & Hl & Hr).
      apply list_elem_of_In, list_elem_of_fmap in Hl as ([a l'] & -> & Hl).
      apply mapM_go_ret in Hs. apply list_elem_of_lookup in Hl as (i & Hi).
      destruct (Forall2_lookup_r _ _ _ _ _ Hs Hi) as (s & Hs' & Hsr).
      exists l'. split; [by apply list_elem_of_In|]. right. exists s, a.
      split; [by eapply list_elem_of_lookup_2|done].
  - intros (l & Hr & [(f & Hf' & Hl)|(s & a & Hs' & Hl)]).
    + left. destruct (mapM_go_elem _ _ _ _ Hf Hf') as (y & Hy & Hin).
      eapply elem_of_concat; [done|]. congruence.
    + right. destruct (mapM_go_elem _ _ _ _ Hs Hs') as (y & Hy & Hin).
      eapply elem_of_concat; [done|]. apply list_elem_of_fmap. exists y.
      split; [|done]. rewrite Hl in Hy. by injection Hy as <-.
Qed.

Lemma InsertState_props rg c rg' c' e :
  insert rg c = Ret (rg', c', e) →
  ready rg' ∧ wf_rg rg' ∧ rg_State rg' = sj
  ∧ SOASerial c' = (now mod 2 ^ 32)%Z ∧ e = None.
Proof.
  intros ([st] & -> & ->)%InsertState_stages. 
  split_and!; [rewrite (st_stores _ _ st); apply insert_recs_ready, st
              |rewrite (st_stores _ _ st); apply insert_recs_wf, st|apply st|done|done].
Qed.

(** C8: after [InsertState] both stores exist and are well formed: no name
    has an empty set of hosts and no host is empty.  The serial of the zone is
    the time of the generation as a 32-bit number, and there is no error. *)
Theorem InsertState_wf rg c rg' c' e :
  insert rg c = Ret (rg', c', e) →
  ready rg' ∧ wf_rg rg' ∧ rg_State rg' = sj
  ∧ SOASerial c' = (now mod 2 ^ 32)%Z ∧ e = None.
Proof. apply InsertState_props. Qed.

(** C5: the enumeration is exact.  A generation appends to [EnumData] one
    framework per framework of the state, listing its running tasks on known
    slaves, and the records listed are, each exactly once, the records in the
    stores that are not records of frameworks, slaves or masters. *)
Theorem InsertState_enumeration rg c rg' c' e :
  insert rg c = Ret (rg', c', e) →
  ∃ fws new base,
    EnumData rg' = EnumData rg ++ fws
    ∧ EFramework_Name <$> fws = Framework_Name <$> Frameworks sj
    ∧ enum_task_ids <$> fws
      = (λ f, task_ids <$> live_tasks (default ∅ (SlaveIPs rg')) f) <$> Frameworks sj
    ∧ enum_records fws = erec <$> new ∧ NoDup (enum_records fws)
    ∧ (∀ r, r ∈ new ↔ has_rec rg' r ∧ ¬ has_rec (masterRecord domain masters (Leader sj) base) r)
    ∧ (∀ r, has_rec base r ↔ storable r ∧ ∃ l, r ∈ l ∧
         ((∃ f, f ∈ Frameworks sj ∧ framework_recs resolve domain spec f = Ret l)
          ∨ ∃ s a, s ∈ Slaves sj ∧ slave_recs resolve domain spec s = Ret (a, l))).
Proof.
  intros ([st] & _ & _)%InsertState_stages.
  destruct (st_enum _ _ st) as (new & fws & [N S F X] & H1 & H2 & H3 & H4).
  exists fws, new, (st_rg2 _ _ st). rewrite (st_ips _ _ st). split_and!; try done.
  - rewrite H4. apply NoDup_fmap_2_strong; [|done].
    intros [[k n] h] [[k' n'] h'] Hk Hk' [= -> -> Hks].
    rewrite Forall_forall in S. apply S in Hk, Hk'. by destruct k, k'.
  - intros r. rewrite X. specialize (F r). destruct (decide (has_rec (st_rg3 _ _ st) r)); [|tauto].
    unfold st_rg3 in *. tauto.
  - intros [[k n] h]. unfold has_rec. cbn [fst snd]. rewrite (st_base _ _ st).
    apply and_iff_compat_l. apply (base_records _ _ st).
Qed.

(** The records of the tasks, seen from one task. *)
Lemma task_records rg rg' (st : stages rg rg') (r : rec) :
  r ∈ concat (@concat rec <$> st_rss _ _ st) ↔
  ∃ f t recs, f ∈ Frameworks sj ∧ t ∈ live_tasks (slave_ips sj (st_sr _ _ st)) f
    ∧ task_spec domain spec ipSources f t = Ret recs ∧ r ∈ recs.
Proof.
  pose proof (st_tasks _ _ st) as Ht. unfold tasks_spec in Ht. split.
  - intros Hr. apply list_elem_of_In, in_concat in Hr as (l & Hl & Hr).
    apply list_elem_of_In, list_elem_of_fmap in Hl as (rs & -> & Hrs).
    apply mapM_go_ret in Ht. apply list_elem_of_lookup in Hrs as (i & Hi).
    destruct (Forall2_lookup_r _ _ _ _ _ Ht Hi) as (f & Hf & Hfr).
    apply list_elem_of_In in Hr. eapply mapM_go_concat in Hr as (t & recs & Hin & Hts & Hr); [|done].
    exists f, t, recs. split_and!; [by eapply list_elem_of_lookup_2|done..].
  - intros (f & t & recs & Hf & Hlt & Hts & Hr).
    destruct (mapM_go_elem _ _ _ _ Ht Hf) as (rs & Hrs & Hin).
    destruct (mapM_go_elem _ _ _ _ Hrs Hlt) as (recs' & Hrecs & Hin').
    rewrite Hts in Hrecs. injection Hrecs as <-.
    eapply elem_of_concat; [eapply elem_of_concat; [exact Hr|exact Hin']|].
    by apply list_elem_of_fmap_2.
Qed.

Lemma has_iff rg rg' (st : stages rg rg') (r : rec) :
  has_rec rg' r ↔ has_rec (st_rg3 _ _ st) r
    ∨ storable r ∧ r ∈ concat (@concat rec <$> st_rss _ _ st).
Proof.
  etransitivity; [apply has_rec_proper; [apply (st_stores _ _ st)|reflexivity]|].
  destruct r as [[k n] h]. unfold has_rec. cbn [fst snd].
  by rewrite insert_recs_has by apply st.
Qed.

(** C3: no SRV record dangles.  When the leader's address is not empty and
    every running task on a known slave has an address and a slave address,
    the target of every SRV record has an A record in the same generation. *)
Theorem SRV_targets_resolve rg c rg' c' e n h :
  insert rg c = Ret (rg', c', e) →
  (∀ la ip port, leader_addr (Leader sj) = Some (la, ip, port) → ip ≠ "") →
  (∀ f t, f ∈ Frameworks sj → t ∈ live_tasks (default ∅ (SlaveIPs rg')) f →
     SlaveIP t ≠ "" ∧ Task_IP t ipSources ≠ "") →
  has rg' SRV n h →
  ∃ target ip, points_to h target ∧ has rg' A target ip.
Proof.
  intros ([st] & _ & _)%InsertState_stages Hleader Htasks Hh.
  pose proof (has_iff _ _ st) as Hhas. rewrite (st_ips _ _ st) in Htasks.
  apply (Hhas (SRV, n, h)) in Hh as [Hh|[_ Hh]].
  - assert (∀ n h, has (st_rg2 _ _ st) SRV n h →
      ∃ target ip, points_to h target ∧ has (st_rg2 _ _ st) A target ip) as Hbase.
    { intros n' h' Hn. apply (st_base _ _ st) in Hn as [_ Hn].
      apply base_records in Hn as (l & Hin & Hl).
      assert (∃ target port ip, h' = JoinHostPort target port ∧ (A, target, ip) ∈ l ∧ ip ≠ "")
        as (target & port & ip & -> & Ha & Hip).
      { destruct Hl as [(f & _ & Hl)|(s & a & _ & Hl)].
        - by eapply framework_recs_target in Hin.
        - by eapply slave_recs_target in Hin. }
      exists target, ip. split; [by exists port; right|]. apply (st_base _ _ st).
      split; [done|]. apply base_records. eauto. }
    pose proof (λ k n h, proj2 (Hhas (k, n, h))) as Hup. unfold has_rec in *. cbn [fst snd] in *.
    unfold st_rg3 in *. destruct (leader_addr (Leader sj)) as [[[la ip] port]|] eqn:El.
    + destruct (masterRecord_leader domain masters (Leader sj) (st_rg2 _ _ st) la ip port)
        as (Hk & Hs & Hl); [apply st|done|].
      apply Hs in Hh as [Hh|[_ ->]].
      * apply Hbase in Hh as (target & ip' & ? & Ha). exists target, ip'. auto.
      * exists (leader_name domain), ip. split; [by exists port; left|]. eauto.
    + rewrite masterRecord_no_leader in Hh, Hup by done.
      apply Hbase in Hh as (target & ip' & ? & Ha). exists target, ip'. auto.
  - apply task_records in Hh as (f & t & recs & Hf & Ht & Hts & Hr).
    destruct (Htasks f t Hf Ht) as [H1 H2].
    destruct (task_spec_target _ _ _ _ _ _ _ Hts Hr eq_refl) as (target & port & Hp & Ha).
    assert (∃ ip, ip ≠ "" ∧ (A, target, ip) ∈ recs) as (ip & Hip & Hin) by naive_solver.
    exists target, ip. split; [by exists port; left|].
    apply (Hhas (A, target, ip)). right. split; [done|]. apply task_records. eauto 10.
Qed.

(** ** Records of a running task *)

Lemma live_task ips f t ip :
  t ∈ Tasks f → ips !! SlaveID t = Some ip → Task_State t = "TASK_RUNNING" →
  set_SlaveIP t ip ∈ live_tasks ips f.
Proof.
  intros Ht Hip Hrun. apply list_elem_of_omap. exists t. split; [done|].
  unfold live. rewrite Hip. by rewrite bool_decide_true.
Qed.

(** The name under which a task is published, and its context. *)
Definition published_name (t : Task) : string :=
  if HasDiscoveryInfo t then DiscoveryInfo_Name (Task_DiscoveryInfo t) else Task_Name t.

Record published (t : Task) (ip : string) (ctx : context) : Prop := {
  pub_name : spec (published_name t) = Ret (ctx_taskName ctx);
  pub_id : ctx_taskID ctx = hashString (Task_ID t);
  pub_slave : slaveIDTail (SlaveID t) = Ret (ctx_slaveID ctx);
  pub_taskIP : ctx_taskIP ctx = Task_IP (set_SlaveIP t ip) ipSources;
  pub_slaveIP : ctx_slaveIP ctx = ip }.

Lemma task_spec_published f t ip recs :
  task_spec domain spec ipSources f (set_SlaveIP t ip) = Ret recs →
  ∃ ctx recs', published t ip ctx
    ∧ context_spec ctx (set_SlaveIP t ip) f domain spec = Ret recs' ∧ recs' ⊆ recs.
Proof.
  unfold task_spec, task_context. intros Ht. go_inv Ht. go_inv E. apply Ret_inj in E as <-.
  change (HasDiscoveryInfo (set_SlaveIP t ip)) with (HasDiscoveryInfo t) in Ht.
  destruct (HasDiscoveryInfo t) eqn:Ed; cbv zeta in Ht.
  - go_inv Ht. apply Ret_inj in Ht as <-.
    eexists _, _. split_and!; [|exact E3|set_solver].
    split; cbn; [unfold published_name; by rewrite Ed|done..].
  - eexists _, _. split_and!; [|exact Ht|done].
    split; cbn; [unfold published_name; by rewrite Ed|done..].
Qed.

(** The records of a running task. *)
Lemma running_task_props rg c rg' c' e f t ip :
  insert rg c = Ret (rg', c', e) → spec "" = Ret "" →
  f ∈ Frameworks sj → t ∈ Tasks f → Task_State t = "TASK_RUNNING" →
  default ∅ (SlaveIPs rg') !! SlaveID t = Some ip →
  ∃ ctx fname ports, published t ip ctx
    ∧ DomainFrag (Framework_Name f) Sep spec = Ret fname
    ∧ Ports (Task_Resources t) = Ret ports
    ∧ (∀ k n h, (k, n, h) ∈ a_recs ctx fname domain → h ≠ "" → has rg' k n h)
    ∧ (∀ port proto, port ∈ ports → proto ∈ ["tcp"; "udp"] →
         let srv := "_" +:+ ctx_taskName ctx +:+ "._" +:+ proto +:+ "." +:+ fname in
         let target := canonical_name ctx fname +:+ ".slave." +:+ domain +:+ ".:" +:+ port in
         has rg' SRV (srv +:+ ".slave." +:+ domain +:+ ".") target
         ∧ (HasDiscoveryInfo t = false → has rg' SRV (srv +:+ "." +:+ domain +:+ ".") target)).
Proof.
  intros ([st] & _ & _)%InsertState_stages Hs Hf Ht Hrun Hip. rewrite (st_ips _ _ st) in Hip.
  pose proof (live_task _ _ _ _ Ht Hip Hrun) as Hlive.
  destruct (mapM_go_elem _ _ _ _ (st_tasks _ _ st) Hf) as (rs & Hrs & _).
  destruct (mapM_go_elem _ _ _ _ Hrs Hlive) as (recs & Hrecs & _).
  assert (∀ r, r ∈ recs → storable r → has_rec rg' r) as Hin.
  { intros r Hr Hst. apply (has_iff _ _ st). right. split; [done|]. apply task_records. eauto 10. }
  destruct (task_spec_published _ _ _ _ Hrecs) as (ctx & recs' & Hpub & Hc & Hsub).
  unfold context_spec in Hc. go_inv Hc. apply Ret_inj in Hc as <-.
  exists ctx, r, r0. split_and!; [done..| |].
  - intros k n h Hr Hh. apply (Hin (k, n, h)); [apply Hsub, elem_of_app; by left|].
    split; [done|]. pose proof (a_recs_store ctx r domain) as Ha.
    rewrite Forall_forall in Ha. by apply (Ha (k, n, h)).
  - intros port proto Hport Hproto. cbv zeta.
    destruct (mapM_go_elem _ _ _ _ E1 Hport) as (l & Hl & Hll).
    unfold port_recs, protocolNone in Hl. rewrite Hs in Hl. apply Ret_inj in Hl as <-.
    set (tail := tail_of domain) in *.
    set (target := slave_target ctx r domain +:+ ":" +:+ port) in *.
    assert (∀ n, n ∈ names_subdomains (if HasDiscoveryInfo t then ["slave"] else ["slave"; ""])
      (names_protocol "" r ["_" +:+ ctx_taskName ctx]) → has rg' SRV (n +:+ tail) target) as Hn.
    { intros n Hn. apply (Hin (SRV, n +:+ tail, target)).
      - apply Hsub, elem_of_app. right. apply elem_of_app. left.
        eapply elem_of_concat; [|exact Hll]. by apply (list_elem_of_fmap_2 (λ n, (SRV, n +:+ tail, target))).
      - split; [|done]. cbn. unfold target. by apply app_string_nonempty_r. }
    assert (∀ n m, n ∈ names_subdomains (if HasDiscoveryInfo t then ["slave"] else ["slave"; ""])
      (names_protocol "" r ["_" +:+ ctx_taskName ctx]) → n +:+ tail = m → has rg' SRV m target)
      as Hn' by (intros n ? ? <-; auto).
    replace (canonical_name ctx r +:+ ".slave." +:+ domain +:+ ".:" +:+ port) with target.
    2:{ unfold target, slave_target, tail_of. rewrite <-!app_string_assoc. done. }
    pose proof (elem_names_protocol proto r ("_" +:+ ctx_taskName ctx) Hproto) as Hx.
    split; [|intros Hd].
    + eapply Hn'; [apply (elem_names_subdomains _ "slave"); [|exact Hx]; by destruct (HasDiscoveryInfo t); left|].
      rewrite bool_decide_false by done. unfold tail, tail_of. by rewrite <-!app_string_assoc.
    + eapply Hn'; [apply (elem_names_subdomains _ ""); [|exact Hx]; rewrite Hd; right; left|].
      rewrite bool_decide_true by done. unfold tail, tail_of. by rewrite <-!app_string_assoc.
Qed.

(** C4: a running task on a known slave is resolvable under every name that
    the naming scheme promises: its A records (plain and canonical, and the
    [.slave] ones) and, for every resource port, the tcp and udp SRV records
    that lead to the canonical [.slave] name and that port. *)
Theorem running_task_records rg c rg' c' e f t ip :
  insert rg c = Ret (rg', c', e) → spec "" = Ret "" →
  f ∈ Frameworks sj → t ∈ Tasks f → Task_State t = "TASK_RUNNING" →
  default ∅ (SlaveIPs rg') !! SlaveID t = Some ip →
  ∃ ctx fname ports, published t ip ctx
    ∧ DomainFrag (Framework_Name f) Sep spec = Ret fname
    ∧ Ports (Task_Resources t) = Ret ports
    ∧ (∀ k n h, (k, n, h) ∈ a_recs ctx fname domain → h ≠ "" → has rg' k n h)
    ∧ (∀ port proto, port ∈ ports → proto ∈ ["tcp"; "udp"] →
         let srv := "_" +:+ ctx_taskName ctx +:+ "._" +:+ proto +:+ "." +:+ fname in
         let target := canonical_name ctx fname +:+ ".slave." +:+ domain +:+ ".:" +:+ port in
         has rg' SRV (srv +:+ ".slave." +:+ domain +:+ ".") target
         ∧ (HasDiscoveryInfo t = false → has rg' SRV (srv +:+ "." +:+ domain +:+ ".") target)).
Proof. apply running_task_props. Qed.
End insert_state.

(** ** Tasks that are not published *)

(** The state without the tasks that are not running on a known slave. *)
Definition prune_framework (ips : gmap string string) (f : Framework) : Framework :=
  {| Tasks := filter (λ t, is_Some (live ips t)) (Tasks f); Framework_PID := Framework_PID f;
     Framework_Name := Framework_Name f; Framework_Hostname := Framework_Hostname f;
     Framework_Active := Framework_Active f |}.

Definition prune (ips : gmap string string) (sj : State) : State :=
  {| Frameworks := prune_framework ips <$> Frameworks sj; Slaves := Slaves sj; Leader := Leader sj |}.

Lemma live_tasks_prune ips f : live_tasks ips (prune_framework ips f) = live_tasks ips f.
Proof.
  unfold live_tasks. cbn [prune_framework Tasks]. induction (Tasks f) as [|t ts IH]; [done|].
  cbn [omap list_omap]. destruct (live ips t) as [t'|] eqn:E.
  - rewrite filter_cons_True by (rewrite E; by eexists). cbn [omap list_omap]. by rewrite E, IH.
  - rewrite filter_cons_False by (rewrite E; by intros [??]). done.
Qed.

Lemma task_spec_prune `{UnicodeTables} domain spec srcs ips f t :
  task_spec domain spec srcs (prune_framework ips f) t = task_spec domain spec srcs f t.
Proof. done. Qed.

Lemma mapM_go_fmap {X Y Z} (g : X → Y) (f : Y → go Z) l :
  mapM_go f (g <$> l) = mapM_go (λ x, f (g x)) l.
Proof. induction l as [|x l IH]; [done|]. cbn [fmap list_fmap mapM_go]. by rewrite IH. Qed.

Lemma mapM_go_ext {X Y} (f g : X → go Y) l : (∀ x, f x = g x) → mapM_go f l = mapM_go g l.
Proof. intros H. induction l as [|x l IH]; [done|]. cbn [mapM_go]. by rewrite H, IH. Qed.

Lemma insert_fws_prune ips fs rss rg :
  insert_fws ips (zip (prune_framework ips <$> fs) rss) rg = insert_fws ips (zip fs rss) rg.
Proof.
  revert rss rg; induction fs as [|f fs IH]; intros [|rs rss] rg; try done.
  cbn [fmap list_fmap zip zip_with insert_fws foldl]. rewrite live_tasks_prune.
  change (new_framework (prune_framework ips f)) with (new_framework f).
  destruct (insert_fw _ _). apply IH.
Qed.

Lemma taskRecords_prune `{UnicodeTables} domain spec sj srcs rg :
  let ips := default ∅ (SlaveIPs rg) in
  taskRecords domain spec (prune ips sj) srcs rg = taskRecords domain spec sj srcs rg.
Proof.
  cbv zeta. rewrite !taskRecords_spec. cbv zeta. set (ips := default ∅ (SlaveIPs rg)).
  assert (tasks_spec domain spec srcs ips (prune ips sj) = tasks_spec domain spec srcs ips sj) as ->.
  { unfold tasks_spec. cbn [prune Frameworks]. rewrite mapM_go_fmap. apply mapM_go_ext.
    intros f. by rewrite live_tasks_prune. }
  destruct (tasks_spec _ _ _ _ _); [|done]. cbn [mbind go_bind prune Frameworks].
  by rewrite insert_fws_prune.
Qed.

(** C6: tasks that are not running, or whose slave is unknown, leave no trace:
    dropping them from the state gives the same records, the same slave
    addresses and the same enumeration. *)
Theorem InsertState_prune `{UnicodeTables} resolve domain spec sj masters srcs now rg c rg' c' e :
  InsertState resolve domain spec sj masters srcs now rg c = Ret (rg', c', e) →
  let ips := default ∅ (SlaveIPs rg') in
  InsertState resolve domain spec (prune ips sj) masters srcs now rg c
  = Ret (set_State rg' (prune ips sj), c', e).
Proof.
  intros Hi. pose proof Hi as Hi'. cbv zeta.
  apply InsertState_stages in Hi' as ([st] & _ & _). rewrite (st_ips _ _ _ _ _ _ _ _ st). cbn [default id].
  set (ips := slave_ips _ _). unfold InsertState in *. go_inv Hi.
  pose proof E as Ef. rewrite frameworkRecords_spec in E. rewrite frameworkRecords_spec.
  change (Frameworks (prune ips sj)) with (prune_framework ips <$> Frameworks sj).
  rewrite mapM_go_fmap.
  rewrite (mapM_go_ext _ (framework_recs resolve domain spec)) by done.
  rewrite E. cbn [mbind go_bind].
  change (slaveRecords resolve domain spec (prune ips sj)) with (slaveRecords resolve domain spec sj).
  rewrite E0. cbn [mbind go_bind]. cbv zeta in *.
  change (Leader (prune ips sj)) with (Leader sj).
  set (rg3 := masterRecord domain masters (Leader sj) r0) in *.
  assert (default ∅ (SlaveIPs rg3) = ips) as Hips.
  { assert (SlaveIPs rg3 = SlaveIPs r0) as ->.
    { apply masterRecord_ind; [done|]. intros n h k rgx <-. apply insertRR_frame. }
    rewrite frameworkRecords_spec in Ef. apply go_bind_ret in Ef as (fr & _ & [= <-]).
    eapply slaveRecords_spec in E0 as (sr & Hsr & _ & -> & _);
      [|by destruct (insert_recs_frame (concat fr) (reset rg)) as (-> & _ & _)].
    pose proof (st_slaves _ _ _ _ _ _ _ _ st) as Hs. rewrite Hsr in Hs. by injection Hs as ->. }
  rewrite <-Hips, taskRecords_prune, Hips, E1. by injection Hi as <- <- <-.
Qed.

(** ** When a generation returns *)

Lemma mapM_go_returns {X Y} (f : X → go Y) l : (∀ x, x ∈ l → returns (f x)) → returns (mapM_go f l).
Proof.
  intros H. destruct (mapM_go_Forall f (λ _, True) l) as (ys & Hys & _); [|by exists ys].
  apply Forall_forall. intros x Hx. destruct (H x Hx) as [y Hy]. eauto.
Qed.

Lemma DomainFrag_returns name sep label :
  (∀ part, part ∈ Split name sep → returns (label part)) → returns (DomainFrag name sep label).
Proof.
  intros [labs Hl]%mapM_go_returns. rewrite DomainFrag_eq, Hl. by eexists.
Qed.

Lemma slaveIDTail_returns `{UnicodeTables} id : returns (slaveIDTail id).
Proof.
  unfold slaveIDTail, index. pose proof (split_fuel_nonempty (String.length id) "-" id) as Hne.
  fold (Split id "-") in Hne.
  destruct (lookup_lt_is_Some_2 (Split id "-") (length (Split id "-") - 1)) as [x Hx].
  { destruct (Split id "-"); [done|]. cbn. lia. }
  rewrite Hx. by eexists.
Qed.

(** What a state must provide for its records to be generated: labels that
    can be cut, port ranges that can be read, and a PID for every slave. *)
Record insertable (resolve : string → option IP) (spec : Func) (sj : State) : Prop := {
  in_empty : returns (spec "");
  in_framework : ∀ f part, f ∈ Frameworks sj → part ∈ Split (Framework_Name f) Sep →
    returns (spec part);
  in_slave : ∀ s, s ∈ Slaves sj → ∃ u, Slave_PID s = Some u
    ∧ ((hostToIP4 resolve (UPID_Host u)).2 = false →
       ∀ part, part ∈ Split (UPID_Host u) Sep → returns (spec part));
  in_task : ∀ f t, f ∈ Frameworks sj → t ∈ Tasks f → Task_State t = "TASK_RUNNING" →
    returns (spec (Task_Name t)) ∧ returns (Ports (Task_Resources t))
    ∧ returns (spec (DiscoveryInfo_Name (Task_DiscoveryInfo t)))
    ∧ ∀ p, p ∈ DiscoveryPorts (Task_DiscoveryInfo t) →
        returns (spec (DiscoveryPort_Name p)) ∧ returns (spec (DiscoveryPort_Protocol p)) }.

Ltac ret_step H := destruct H as [? ->]; cbn [mbind go_bind].

Section returns.
Context `{UnicodeTables} (resolve : string → option IP) (domain : string) (spec : Func).
Context (sj : State) (Hok : insertable resolve spec sj).

Lemma framework_recs_returns f :
  f ∈ Frameworks sj → returns (framework_recs resolve domain spec f).
Proof using Hok.
  intros Hf. unfold framework_recs.
  ret_step (DomainFrag_returns (Framework_Name f) Sep spec (λ part, in_framework _ _ _ Hok f part Hf)).
  destruct (HostPort f) as [host port]. destruct (hostToIP4 _ _) as [? []]; by eexists.
Qed.

Lemma slave_recs_returns s : s ∈ Slaves sj → returns (slave_recs resolve domain spec s).
Proof using Hok.
  intros Hs. unfold slave_recs. destruct (in_slave _ _ _ Hok s Hs) as (u & -> & Hu).
  cbn [PID_Host PID_Port mbind go_bind].
  destruct (hostToIP4 resolve (UPID_Host u)) as [a []] eqn:E; [by eexists|].
  assert (a = UPID_Host u) as ->.
  { unfold hostToIP4 in E. destruct (ParseIP _); [destruct (resolve _)|]; congruence. }
  ret_step (DomainFrag_returns (UPID_Host u) Sep spec (Hu eq_refl)). by eexists.
Qed.

Lemma context_spec_returns ctx f t ip :
  f ∈ Frameworks sj → t ∈ Tasks f → Task_State t = "TASK_RUNNING" →
  returns (context_spec ctx (set_SlaveIP t ip) f domain spec).
Proof using Hok.
  intros Hf Ht Hrun. unfold context_spec.
  destruct (in_task _ _ _ Hok f t Hf Ht Hrun) as (_ & Hports & _ & Hd).
  ret_step (DomainFrag_returns (Framework_Name f) Sep spec (λ part, in_framework _ _ _ Hok f part Hf)).
  cbn [Task_Resources set_SlaveIP Task_DiscoveryInfo]. ret_step Hports.
  edestruct (mapM_go_returns (port_recs ctx (set_SlaveIP t ip) x domain spec)) as [? ->].
  { intros p _. unfold port_recs, protocolNone. ret_step (in_empty _ _ _ Hok). by eexists. }
  cbn [mbind go_bind].
  edestruct (mapM_go_returns (discovery_recs ctx x domain spec)) as [? Hds].
  { intros p Hp. unfold discovery_recs. destruct (Hd p Hp) as [H1 H2].
    ret_step H1. ret_step H2. by eexists. }
  destruct (HasDiscoveryInfo _); [rewrite Hds|]; by eexists.
Qed.

Lemma task_spec_returns srcs ips f t :
  f ∈ Frameworks sj → t ∈ live_tasks ips f → returns (task_spec domain spec srcs f t).
Proof using Hok.
  intros Hf Ht. apply list_elem_of_omap in Ht as (t0 & Ht0 & Hl).
  unfold live in Hl. destruct (ips !! _) as [ip|]; [|done]. case_bool_decide as Hrun; [|done].
  injection Hl as <-. destruct (in_task _ _ _ Hok f t0 Hf Ht0 Hrun) as (Hn & _ & Hdn & _).
  unfold task_spec, task_context. cbn [Task_Name SlaveID set_SlaveIP Task_DiscoveryInfo].
  ret_step Hn. ret_step (slaveIDTail_returns (SlaveID t0)). cbv zeta.
  destruct (HasDiscoveryInfo _); [|by apply context_spec_returns].
  match goal with |- context [context_spec ?c] => ret_step (context_spec_returns c f t0 ip Hf Ht0 Hrun) end.
  ret_step Hdn.
  match goal with |- context [context_spec ?c] => ret_step (context_spec_returns c f t0 ip Hf Ht0 Hrun) end.
  by eexists.
Qed.
End returns.

(** C7: generation is total on well-formed states: when every label can be
    cut, the port ranges of running tasks can be read and every slave has a PID,
    [InsertState] returns, whatever the generator held and whatever the resolver
    answers. *)
Theorem InsertState_returns `{UnicodeTables} resolve domain spec sj masters srcs now rg c :
  insertable resolve spec sj →
  returns (InsertState resolve domain spec sj masters srcs now rg c).
Proof.
  intros Hok. unfold InsertState. rewrite frameworkRecords_spec.
  ret_step (mapM_go_returns _ _ (framework_recs_returns resolve domain spec sj Hok)).
  destruct (mapM_go_returns _ _ (slave_recs_returns resolve domain spec sj Hok)) as [sr Hsr].
  ret_step (slaveRecords_returns resolve domain spec sj (insert_recs (concat x) (reset rg)) sr Hsr).
  cbv zeta. rewrite taskRecords_spec. cbv zeta. unfold tasks_spec.
  edestruct (mapM_go_returns (λ f, mapM_go (task_spec domain spec srcs f)
    (live_tasks (default ∅ (SlaveIPs (masterRecord domain masters (Leader sj) x0))) f))
    (Frameworks sj)) as [rss ->]; [|by eexists].
  intros f Hf. apply mapM_go_returns. intros t Ht. by eapply task_spec_returns.
Qed.

(** ** A small cluster

    One framework with a running and a finished task, one slave, two masters;
    the theorems above apply to it. *)

#[local] Instance ascii_tables : UnicodeTables := {| unicode_ToLower := λ s, s |}.

Definition demo_task (id state : string) : Task :=
  {| FrameworkID := "fw-1"; Task_ID := id; Task_Name := "nginx"; SlaveID := "20140827-slave-S0";
     Task_State := state; Statuses := []; Task_Resources := {| PortRanges := "[31000-31001]" |};
     Task_DiscoveryInfo := {| Visibilty := ""; DiscoveryInfo_Version := ""; DiscoveryInfo_Name := "";
       Location := ""; Environment := ""; DiscoveryInfo_Labels := []; DiscoveryPorts := [] |};
     SlaveIP := ""; Task_Labels := [] |}.

Definition demo_framework : Framework :=
  {| Tasks := [demo_task "nginx.1" "TASK_RUNNING"; demo_task "nginx.0" "TASK_FINISHED"];
     Framework_PID := Some {| UPID_ID := "scheduler"; UPID_Host := "10.0.0.9"; UPID_Port := "8080" |};
     Framework_Name := "Marathon"; Framework_Hostname := "m.example.com"; Framework_Active := true |}.

Definition demo_state : State :=
  {| Frameworks := [demo_framework];
     Slaves := [{| Slave_ID := "20140827-slave-S0"; Slave_Hostname := "s0";
                   Slave_PID := Some {| UPID_ID := "slave(1)"; UPID_Host := "10.0.0.5"; UPID_Port := "5051" |};
                   Attrs := {| DC := ""; Master := ""; Rack := "" |}; Slave_Active := true |}];
     Leader := "master@10.0.0.2:5050" |}.

Definition demo_insert : go (RecordGenerator * Config * error) :=
  InsertState (λ _, None) "mesos" RFC1123 demo_state ["10.0.0.1:5050"; "10.0.0.2:5050"]
    ["netinfo"; "host"] 1400000000 NewRecordGenerator (NewConfig 0).

Definition demo_rg : RecordGenerator := Eval vm_compute in
  match demo_insert with Ret (rg, _, _) => rg | Panic _ => NewRecordGenerator end.
Definition demo_config : Config := Eval vm_compute in set_SOASerial (NewConfig 0) 1400000000.

Lemma demo_eq :
  InsertState (λ _, None) "mesos" RFC1123 demo_state ["10.0.0.1:5050"; "10.0.0.2:5050"]
    ["netinfo"; "host"] 1400000000 NewRecordGenerator (NewConfig 0)
  = Ret (demo_rg, demo_config, None).
Proof. vm_compute. reflexivity. Qed.

Lemma InsertState_wf_witness : ready demo_rg ∧ wf_rg demo_rg.
Proof.
  destruct (InsertState_wf _ _ _ _ _ _ _ _ _ _ _ _ demo_eq) as (H1 & H2 & _). exact (conj H1 H2).
Defined.

Lemma InsertState_enumeration_witness :
  ∃ fws new, EnumData demo_rg = fws ∧ enum_records fws = erec <$> new ∧ NoDup (enum_records fws)
    ∧ enum_task_ids <$> fws = [[("nginx", "nginx.1")]].
Proof.
  destruct (InsertState_enumeration _ _ _ _ _ _ _ _ _ _ _ _ demo_eq)
    as (fws & new & base & H1 & _ & H3 & H4 & H5 & _).
  exists fws, new. split_and!; [exact H1|exact H4|exact H5|].
  rewrite H3. vm_compute. reflexivity.
Defined.

Lemma SRV_targets_resolve_witness :
  ∃ target ip,
    points_to "nginx-yftu6-s0.marathon.slave.mesos.:31000" target ∧ has demo_rg A target ip.
Proof.
  apply (SRV_targets_resolve _ _ _ _ _ _ _ _ _ _ _ _
    "_nginx._tcp.marathon.mesos." "nginx-yftu6-s0.marathon.slave.mesos.:31000" demo_eq).
  - intros la ip port E. vm_compute in E. by injection E as <- <- <-.
  - intros f t Hf Ht. apply list_elem_of_singleton in Hf as ->.
    assert (live_tasks (default ∅ (SlaveIPs demo_rg)) demo_framework
      = [set_SlaveIP (demo_task "nginx.1" "TASK_RUNNING") "10.0.0.5"]) as E
      by (vm_compute; reflexivity).
    rewrite E in Ht. apply list_elem_of_singleton in Ht as ->. split; vm_compute; discriminate.
  - apply (bool_decide_unpack _). vm_compute. exact I.
Defined.

Lemma running_task_records_witness :
  ∃ ctx fname ports, DomainFrag "Marathon" Sep RFC1123 = Ret fname
    ∧ Ports {| PortRanges := "[31000-31001]" |} = Ret ports
    ∧ ctx_taskIP ctx = "10.0.0.5"
    ∧ (∀ k n h, (k, n, h) ∈ a_recs ctx fname "mesos" → h ≠ "" → has demo_rg k n h).
Proof.
  destruct (running_task_records _ _ _ _ _ _ _ _ _ _ _ _ demo_framework
    (demo_task "nginx.1" "TASK_RUNNING") "10.0.0.5" demo_eq) as (ctx & fname & ports & Hp & H1 & H2 & H3 & _).
  - vm_compute. reflexivity.
  - apply list_elem_of_singleton. reflexivity.
  - left.
  - reflexivity.
  - vm_compute. reflexivity.
  - exists ctx, fname, ports. split_and!; [exact H1|exact H2| |exact H3].
    rewrite (pub_taskIP _ _ _ _ _ Hp). vm_compute. reflexivity.
Defined.

Lemma InsertState_prune_witness :
  InsertState (λ _, None) "mesos" RFC1123
    (prune {["20140827-slave-S0" := "10.0.0.5"]} demo_state) ["10.0.0.1:5050"; "10.0.0.2:5050"]
    ["netinfo"; "host"] 1400000000 NewRecordGenerator (NewConfig 0)
  = Ret (set_State demo_rg (prune {["20140827-slave-S0" := "10.0.0.5"]} demo_state), demo_config, None).
Proof.
  assert (default ∅ (SlaveIPs demo_rg) = {["20140827-slave-S0" := "10.0.0.5"]}) as <-
    by (vm_compute; reflexivity).
  exact (InsertState_prune _ _ _ _ _ _ _ _ _ _ _ _ demo_eq).
Defined.

Lemma InsertState_returns_witness :
  returns (InsertState (λ _, None) "mesos" RFC952 demo_state [] ["host"] 0
             NewRecordGenerator (NewConfig 0)).
Proof.
  apply InsertState_returns. split.
  - eexists; vm_compute; reflexivity.
  - intros f part Hf Hp. apply list_elem_of_singleton in Hf as ->.
    change (Split (Framework_Name demo_framework) Sep) with ["Marathon"] in Hp.
    apply list_elem_of_singleton in Hp as ->. eexists; vm_compute; reflexivity.
  - intros s Hs. apply list_elem_of_singleton in Hs as ->. eexists. split; [reflexivity|].
    intros Hf. vm_compute in Hf. discriminate.
  - intros f t Hf Ht _. apply list_elem_of_singleton in Hf as ->.
    assert (Task_Name t = "nginx" ∧ Task_Resources t = {| PortRanges := "[31000-31001]" |}
      ∧ DiscoveryInfo_Name (Task_DiscoveryInfo t) = "" ∧ DiscoveryPorts (Task_DiscoveryInfo t) = [])
      as (-> & -> & -> & ->).
    { apply elem_of_cons in Ht as [->|Ht]; [done|]. by apply list_elem_of_singleton in Ht as ->. }
    split_and!; [eexists; vm_compute; reflexivity..|]. intros p Hp. by apply elem_of_nil in Hp.
Defined.

(** A running task without an address that announces a port: no source of
    addresses is configured that it has one from. *)
Definition homeless_task : Task :=
  {| FrameworkID := "fw-1"; Task_ID := "nginx.1"; Task_Name := "nginx"; SlaveID := "20140827-slave-S0";
     Task_State := "TASK_RUNNING"; Statuses := []; Task_Resources := {| PortRanges := "" |};
     Task_DiscoveryInfo := {| Visibilty := ""; DiscoveryInfo_Version := ""; DiscoveryInfo_Name := "nginx";
       Location := ""; Environment := ""; DiscoveryInfo_Labels := [];
       DiscoveryPorts := [{| DiscoveryPort_Protocol := "tcp"; DiscoveryPort_Number := 80;
                             DiscoveryPort_Name := "" |}] |};
     SlaveIP := ""; Task_Labels := [] |}.

Definition homeless_state : State :=
  {| Frameworks := [{| Tasks := [homeless_task]; Framework_PID := None; Framework_Name := "Marathon";
                       Framework_Hostname := ""; Framework_Active := true |}];
     Slaves := Slaves demo_state; Leader := Leader demo_state |}.

Definition homeless_rg : RecordGenerator := Eval vm_compute in
  match InsertState (λ _, None) "mesos" RFC1123 homeless_state [] ["netinfo"] 1400000000
          NewRecordGenerator (NewConfig 0) with
  | Ret (rg, _, _) => rg | Panic _ => NewRecordGenerator end.

(** Its SRV record points at a name that has no A record. *)
Theorem SRV_dangles :
  InsertState (λ _, None) "mesos" RFC1123 homeless_state [] ["netinfo"] 1400000000
    NewRecordGenerator (NewConfig 0) = Ret (homeless_rg, demo_config, None)
  ∧ has homeless_rg SRV "_nginx._tcp.marathon.mesos." "nginx-yftu6-s0.marathon.mesos.:80"
  ∧ ∀ ip, ¬ has homeless_rg A "nginx-yftu6-s0.marathon.mesos." ip.
Proof.
  split_and!.
  - vm_compute. reflexivity.
  - apply (bool_decide_unpack _). vm_compute. exact I.
  - intros ip (r & Hr & v & Hv & _).
    assert (default ∅ (kind_rrs A homeless_rg) !! "nginx-yftu6-s0.marathon.mesos." = None) as E
      by (vm_compute; reflexivity).
    rewrite Hr in E. cbn in E. congruence.
Qed.
