(* ===== verification/Loader.v ===== *)
(** * Loading the state (src/records/generator.go: ParseState, findMaster,
    loadWrap, loadFromMaster)

    The HTTP request and the reading of its body are the argument [get],
    which acts on a world [W] (so that two requests may have different
    answers); the JSON decoder is [unmarshal].  Three of the four error
    returns of [loadFromMaster] (building the request, sending it, reading
    the body) give the same result and are one error of [get]. *)

From S2P Require Import Prelude GoStrings GoNet Labels State Config Store Generator.

Record URL := { Scheme : string; Host : string; Path : string }.

Definition no_master : error := Some "no master".
Definition empty_master : error := Some "empty master".

Section load.
Context `{UnicodeTables} {W : Type}.
Context (get : URL → W → (list ascii + string) * W) (unmarshal : list ascii → State + string).

Definition loadFromMaster (ip port : string) (w : W) : State * error * W :=
  let u := {| Scheme := "http"; Host := JoinHostPort ip port; Path := "/master/state.json" |} in
  let '(r, w) := get u w in
  match r with
  | inr e => (State0, Some e, w)
  | inl body =>
      match unmarshal body with
      | inr e => (State0, Some e, w)
      | inl sj => (sj, None, w)
      end
  end.

Definition loadWrap (ip port : string) (w : W) : go (State * error * W) :=
  let '(sj, err, w) := loadFromMaster ip port w in
  match err with
  | Some e => Ret (State0, Some e, w)
  | None =>
      rip ← leaderIP (Leader sj);
      Ret (if bool_decide (rip = ip) then (sj, None, w) else loadFromMaster rip port w)
  end.

(** The loop over the listed masters; [getProto]'s error is only logged. *)
Fixpoint try_masters (masters : list string) (sj : State) (w : W) : go (State * error * W) :=
  match masters with
  | [] => Ret (sj, no_master, w)
  | master :: masters =>
      let '(ip, port, _) := getProto master in
      '(sj, err, w) ← loadWrap ip port w;
      if bool_decide (err = None) && bool_decide (Leader sj = "") then
        match masters with
        | [] => Ret (sj, no_master, w)
        | _ => try_masters masters sj w
        end
      else Ret (sj, None, w)
  end.

Definition findMaster (masters : list string) (w : W) : go (State * error * W) :=
  let '(leader, masters) := match masters with [] => ("", []) | m :: ms => (m, ms) end in
  if bool_decide (leader = "") then try_masters masters State0 w
  else
    let '(ip, port, _) := getProto leader in
    '(sj, err, w) ← loadWrap ip port w;
    if bool_decide (err = None) && negb (bool_decide (Leader sj = "")) then Ret (sj, None, w)
    else
      match masters with
      | [] => Ret (sj, no_master, w)
      | _ => try_masters masters sj w
      end.

Context (resolve : string → option IP).

(** The label function that the configuration asks for. *)
Definition hostSpec (config : Config) : Func :=
  if EnforceRFC952 config then RFC952 else RFC1123.

Definition ParseState (now : Z) (rg : RecordGenerator) (config : Config) (w : W) :
    go (RecordGenerator * Config * error * W) :=
  '(sj, err, w) ← findMaster (Masters config) w;
  match err with
  | Some e => Ret (rg, config, Some e, w)
  | None =>
      if bool_decide (Leader sj = "") then Ret (rg, config, empty_master, w)
      else
        '(rg, config, err) ←
          InsertState resolve (Domain config) (hostSpec config) sj (Masters config)
            (IPSources config) now rg config;
        Ret (rg, config, err, w)
  end.

(** ** Properties *)

(** [sj] is an answer of some master. *)
Definition loaded (sj : State) : Prop :=
  ∃ ip port w w', loadFromMaster ip port w = (sj, None, w').

Lemma loadWrap_loaded ip port w sj w' : loadWrap ip port w = Ret (sj, None, w') → loaded sj.
Proof.
  unfold loadWrap. destruct (loadFromMaster ip port w) as [[sj0 err] w0] eqn:E.
  destruct err; [done|]. intros Hl. go_inv Hl. apply Ret_inj in Hl.
  case_bool_decide; [injection Hl as <- <-|]; repeat eexists; eauto.
Qed.

Lemma try_masters_loaded masters sj0 w sj w' :
  try_masters masters sj0 w = Ret (sj, None, w') → Leader sj = "" ∨ loaded sj.
Proof.
  revert sj0 w. induction masters as [|m ms IH]; intros sj0 w; cbn [try_masters]; [done|].
  destruct (getProto m) as [[ip port] e]. intros Hl. go_inv Hl. destruct r as [[sj1 err1] w1].
  case_bool_decide as He; cbn [andb] in Hl.
  - subst err1. case_bool_decide as Hsj; [destruct ms; [done|by eapply IH]|].
    injection Hl as <- <-. right. by eapply loadWrap_loaded.
  - injection Hl as <- <-. unfold loadWrap in E.
    destruct (loadFromMaster ip port w) as [[sj2 err2] w2]. destruct err2 as [e2|].
    + injection E as <- <- <-. by left.
    + go_inv E. apply Ret_inj in E. case_bool_decide; [congruence|].
      unfold loadFromMaster in E. destruct (get _ w2) as [[body|e3] w3].
      * destruct (unmarshal body); injection E as <- <- <-; [done|by left].
      * injection E as <- <- <-. by left.
Qed.

Lemma findMaster_loaded masters w sj w' :
  findMaster masters w = Ret (sj, None, w') → Leader sj = "" ∨ loaded sj.
Proof.
  unfold findMaster. destruct masters as [|m ms].
  { rewrite bool_decide_true by done. apply try_masters_loaded. }
  case_bool_decide; [apply try_masters_loaded|]. destruct (getProto m) as [[ip port] e].
  intros Hl. go_inv Hl. destruct r as [[sj1 err1] w1].
  case_bool_decide as He; cbn [andb] in Hl.
  - subst err1. case_bool_decide; cbn [negb] in Hl.
    + destruct ms; [done|]. by apply try_masters_loaded in Hl.
    + injection Hl as <- <-. right. by eapply loadWrap_loaded.
  - destruct ms; [done|]. by apply try_masters_loaded in Hl.
Qed.

Lemma ParseState_props now rg config w rg' config' err w' :
  ParseState now rg config w = Ret (rg', config', err, w') →
  (is_Some err ∧ rg' = rg ∧ config' = config)
  ∨ (err = None ∧ ∃ sj, loaded sj ∧ Leader sj ≠ ""
     ∧ InsertState resolve (Domain config) (hostSpec config) sj (Masters config)
         (IPSources config) now rg config = Ret (rg', config', None)).
Proof.
  unfold ParseState. intros Hp. go_inv Hp. destruct r as [[sj err1] w1].
  destruct err1 as [e|]; [injection Hp as <- <- <- <-; left; eauto|].
  case_bool_decide as Hl; [injection Hp as <- <- <- <-; left; eauto|].
  go_inv Hp. destruct r as [[rg2 c2] err2]. injection Hp as <- <- <- <-.
  assert (err2 = None) as ->.
  { unfold InsertState in E0. go_inv E0. by injection E0 as _ _ <-. }
  right. split; [done|]. exists sj. apply findMaster_loaded in E as [?|?]; [done|].
  split_and!; done.
Qed.

(** C30: [ParseState] either reports an error and leaves the generator and
    the configuration as they were, or its generator holds the records of a
    state with a leader that one of the masters answered with. *)
Theorem ParseState_outcome now rg config w rg' config' err w' :
  ParseState now rg config w = Ret (rg', config', err, w') →
  (is_Some err ∧ rg' = rg ∧ config' = config)
  ∨ (err = None ∧ ∃ sj, loaded sj ∧ Leader sj ≠ ""
     ∧ InsertState resolve (Domain config) (hostSpec config) sj (Masters config)
         (IPSources config) now rg config = Ret (rg', config', None)).
Proof. apply ParseState_props. Qed.

(** When the first master is the leader and answers, its state is used:
    no other request is made. *)
Theorem findMaster_leader leader masters ip port sj w w' :
  getProto leader = (ip, port, None) → leader ≠ "" →
  loadFromMaster ip port w = (sj, None, w') →
  leaderIP (Leader sj) = Ret ip →
  findMaster (leader :: masters) w = Ret (sj, None, w').
Proof.
  intros Hp Hl Hld Hip. unfold findMaster. rewrite bool_decide_false by done.
  rewrite Hp. unfold loadWrap. rewrite Hld, Hip. cbn [mbind go_bind].
  rewrite (bool_decide_true (ip = ip)) by done. cbn [mbind go_bind].
  assert (Leader sj ≠ "") as Hne by (intros E; by rewrite E in Hip).
  by rewrite bool_decide_true, bool_decide_false by done.
Qed.

(** A listed master that cannot be reached ends the search.  When the
    first master's request fails and the second's fails too, [findMaster]
    reports no error and the empty state, whatever masters follow, and
    [ParseState] fails with [empty master]. *)
Theorem findMaster_error_stops now rg config leader m masters w w1 w2 e1 e2 :
  Masters config = leader :: m :: masters → leader ≠ "" →
  (let '(ip, port, _) := getProto leader in loadFromMaster ip port w = (State0, Some e1, w1)) →
  (let '(ip, port, _) := getProto m in loadFromMaster ip port w1 = (State0, Some e2, w2)) →
  findMaster (leader :: m :: masters) w = Ret (State0, None, w2)
  ∧ ParseState now rg config w = Ret (rg, config, empty_master, w2).
Proof.
  intros Hm Hl H1 H2.
  assert (findMaster (leader :: m :: masters) w = Ret (State0, None, w2)) as Hf.
  { unfold findMaster. rewrite bool_decide_false by done.
    destruct (getProto leader) as [[ip port] e]. unfold loadWrap at 1. rewrite H1.
    cbn [mbind go_bind andb try_masters].
    destruct (getProto m) as [[ip' port'] e']. unfold loadWrap at 1. by rewrite H2. }
  split; [done|]. unfold ParseState. rewrite Hm, Hf. done.
Qed.

(** A master that answers without a leader crashes the process: the
    address of the leader is taken from a split that has one field. *)
Theorem loadWrap_no_leader_panics ip port sj w w' :
  loadFromMaster ip port w = (sj, None, w') → "@"%char ∉ bytes (Leader sj) →
  loadWrap ip port w = Panic IndexOutOfRange.
Proof.
  intros Hl Hat. unfold loadWrap. rewrite Hl. unfold leaderIP.
  by rewrite (Split_nosep "@"%char) by done.
Qed.
End load.

(** ** A master that answers *)

Module Demo.
#[local] Instance ascii_tables : UnicodeTables := {| unicode_ToLower := λ s, s |}.

Definition leading : State := {| Frameworks := []; Slaves := []; Leader := "master@10.0.0.2:5050" |}.

(** Only 10.0.0.2 answers; every body decodes to [leading]. *)
Definition get (u : URL) (w : nat) : (list ascii + string) * nat :=
  (if bool_decide (Host u = "10.0.0.2:5050") then inl [] else inr "connection refused", S w).
Definition unmarshal (_ : list ascii) : State + string := inl leading.
Definition config (masters : list string) : Config := set_Masters (NewConfig 0) masters.

Definition rg : RecordGenerator := Eval vm_compute in
  match ParseState get unmarshal (λ _, None) 7 NewRecordGenerator (config ["10.0.0.2:5050"]) 0%nat with
  | Ret (rg, _, _, _) => rg
  | Panic _ => NewRecordGenerator
  end.

Lemma ParseState_outcome_witness :
  ∃ sj, loaded get unmarshal sj ∧ Leader sj ≠ ""
    ∧ InsertState (λ _, None) "mesos" RFC1123 sj ["10.0.0.2:5050"] ["netinfo"; "mesos"; "host"] 7
        NewRecordGenerator (config ["10.0.0.2:5050"])
      = Ret (rg, set_SOASerial (config ["10.0.0.2:5050"]) 7, None).
Proof.
  destruct (ParseState_outcome get unmarshal (λ _, None) 7 NewRecordGenerator
    (config ["10.0.0.2:5050"]) 0%nat rg (set_SOASerial (config ["10.0.0.2:5050"]) 7) None 1%nat)
    as [[[? [=]] _]|[_ H]].
  - vm_compute. reflexivity.
  - exact H.
Defined.

Lemma findMaster_leader_witness :
  findMaster get unmarshal ["10.0.0.2:5050"; "10.0.0.3:5050"] 0%nat = Ret (leading, None, 1%nat).
Proof.
  apply (findMaster_leader get unmarshal "10.0.0.2:5050" ["10.0.0.3:5050"] "10.0.0.2" "5050").
  - vm_compute. reflexivity.
  - done.
  - vm_compute. reflexivity.
  - vm_compute. reflexivity.
Defined.

(** The third master leads and would answer. *)
Lemma findMaster_error_stops_witness :
  ParseState get unmarshal (λ _, None) 7 NewRecordGenerator
    (config ["10.0.0.1:5050"; "10.0.0.3:5050"; "10.0.0.2:5050"]) 0%nat
  = Ret (NewRecordGenerator, config ["10.0.0.1:5050"; "10.0.0.3:5050"; "10.0.0.2:5050"],
         empty_master, 2%nat).
Proof.
  eapply (findMaster_error_stops get unmarshal (λ _, None) 7 NewRecordGenerator
    (config ["10.0.0.1:5050"; "10.0.0.3:5050"; "10.0.0.2:5050"])
    "10.0.0.1:5050" "10.0.0.3:5050" ["10.0.0.2:5050"] 0%nat 1%nat 2%nat
    "connection refused" "connection refused").
  - reflexivity.
  - done.
  - vm_compute. reflexivity.
  - vm_compute. reflexivity.
Defined.

Lemma loadWrap_no_leader_panics_witness :
  loadWrap (λ _ w, (inl [], w)) (λ _, inl State0) "10.0.0.2" "5050" 0%nat = Panic IndexOutOfRange.
Proof.
  apply (loadWrap_no_leader_panics _ _ "10.0.0.2" "5050" State0 0%nat 0%nat); [reflexivity|].
  apply not_elem_of_nil.
Defined.
End Demo.
