(* ===== verification/Dns.v ===== *)
(** * DNS messages (src/vendor/github.com/miekg/dns)

    The part of the DNS library that the server's replies go through: the
    message type, [SetReply] and [SetRcode], EDNS0 and the length of a
    message with name compression, which decides about truncation. *)

From S2P Require Import Prelude GoStrings GoNet.

(** ** Messages *)

Record RR_Header := {
  Hdr_Name : string; Hdr_Rrtype : Z; Hdr_Class : Z; Hdr_Ttl : Z }.

Definition TypeA : Z := 1.
Definition TypeNS : Z := 2.
Definition TypeSOA : Z := 6.
Definition TypeAAAA : Z := 28.
Definition TypeSRV : Z := 33.
Definition TypeOPT : Z := 41.
Definition TypeANY : Z := 255.
Definition ClassINET : Z := 1.

Definition RcodeSuccess : Z := 0.
Definition RcodeServerFailure : Z := 2.
Definition RcodeNameError : Z := 3.
Definition RcodeRefused : Z := 5.
Definition OpcodeQuery : Z := 0.

Definition MinMsgSize : Z := 512.
Definition MaxMsgSize : Z := 65535.

(** A resource record.  The server makes A, NS, SOA and SRV records; a
    forwarded reply may hold any other type, of which only the length of the
    data ([rdlen]) and the names that take part in compression matter here.
    [OPT] has the lengths of its packed options. *)
Inductive RR :=
| RR_A (h : RR_Header) (ip : IP)
| RR_NS (h : RR_Header) (ns : string)
| RR_SOA (h : RR_Header) (ns mbox : string) (serial refresh retry expire minttl : Z)
| RR_SRV (h : RR_Header) (priority weight port : Z) (target : string)
| RR_OPT (h : RR_Header) (options : list Z)
| RR_Other (h : RR_Header) (rdlen : Z) (names : list string).

Definition Header (r : RR) : RR_Header :=
  match r with
  | RR_A h _ | RR_NS h _ | RR_SOA h _ _ _ _ _ _ _ | RR_SRV h _ _ _ _
  | RR_OPT h _ | RR_Other h _ _ => h
  end.

Record Question := { Q_Name : string; Q_Qtype : Z; Q_Qclass : Z }.

Record Msg := {
  Id : Z; Response : bool; Opcode : Z; Authoritative : bool; Truncated : bool;
  RecursionDesired : bool; RecursionAvailable : bool; Zero : bool;
  AuthenticatedData : bool; CheckingDisabled : bool; Rcode : Z;
  Compress : bool;
  Questions : list Question; Answer : list RR; Ns : list RR; Extra : list RR }.

(** [new(dns.Msg)] *)
Definition Msg0 : Msg :=
  {| Id := 0; Response := false; Opcode := 0; Authoritative := false; Truncated := false;
     RecursionDesired := false; RecursionAvailable := false; Zero := false;
     AuthenticatedData := false; CheckingDisabled := false; Rcode := 0; Compress := false;
     Questions := []; Answer := []; Ns := []; Extra := [] |}.

(** ** Field updates *)

Definition set_header (m : Msg) (aa ra tc : bool) (rcode : Z) (compress : bool) : Msg :=
  {| Id := Id m; Response := Response m; Opcode := Opcode m; Authoritative := aa; Truncated := tc;
     RecursionDesired := RecursionDesired m; RecursionAvailable := ra; Zero := Zero m;
     AuthenticatedData := AuthenticatedData m; CheckingDisabled := CheckingDisabled m;
     Rcode := rcode; Compress := compress;
     Questions := Questions m; Answer := Answer m; Ns := Ns m; Extra := Extra m |}.

Definition set_sections (m : Msg) (an ns ex : list RR) : Msg :=
  {| Id := Id m; Response := Response m; Opcode := Opcode m; Authoritative := Authoritative m;
     Truncated := Truncated m; RecursionDesired := RecursionDesired m;
     RecursionAvailable := RecursionAvailable m; Zero := Zero m;
     AuthenticatedData := AuthenticatedData m; CheckingDisabled := CheckingDisabled m;
     Rcode := Rcode m; Compress := Compress m;
     Questions := Questions m; Answer := an; Ns := ns; Extra := ex |}.

Definition set_Truncated (m : Msg) (b : bool) : Msg :=
  set_header m (Authoritative m) (RecursionAvailable m) b (Rcode m) (Compress m).
Definition set_Rcode (m : Msg) (rc : Z) : Msg :=
  set_header m (Authoritative m) (RecursionAvailable m) (Truncated m) rc (Compress m).
Definition set_Compress (m : Msg) (b : bool) : Msg :=
  set_header m (Authoritative m) (RecursionAvailable m) (Truncated m) (Rcode m) b.
Definition set_Answer (m : Msg) (l : list RR) : Msg := set_sections m l (Ns m) (Extra m).
Definition set_Ns (m : Msg) (l : list RR) : Msg := set_sections m (Answer m) l (Extra m).
Definition set_Extra (m : Msg) (l : list RR) : Msg := set_sections m (Answer m) (Ns m) l.

(** ** Replies *)

Definition SetReply (dns request : Msg) : Msg :=
  {| Id := Id request; Response := true; Opcode := OpcodeQuery;
     Authoritative := Authoritative dns; Truncated := Truncated dns;
     RecursionDesired := RecursionDesired request;
     RecursionAvailable := RecursionAvailable dns; Zero := Zero dns;
     AuthenticatedData := AuthenticatedData dns; CheckingDisabled := CheckingDisabled dns;
     Rcode := RcodeSuccess; Compress := Compress dns;
     Questions := match Questions request with q :: _ => [q] | [] => Questions dns end;
     Answer := Answer dns; Ns := Ns dns; Extra := Extra dns |}.

Definition SetRcode (dns request : Msg) (rcode : Z) : Msg :=
  set_Rcode (SetReply dns request) rcode.

(** The first record of type OPT; the type assertion fails when a record with
    that type is not an [OPT]. *)
Fixpoint find_opt (l : list RR) : go (option RR) :=
  match l with
  | [] => Ret None
  | r :: l =>
      if (Hdr_Rrtype (Header r) =? TypeOPT)%Z
      then match r with RR_OPT _ _ => Ret (Some r) | _ => Panic TypeAssertion end
      else find_opt l
  end.

Definition IsEdns0 (dns : Msg) : go (option RR) := find_opt (Extra dns).

Definition UDPSize (opt : RR) : Z := Hdr_Class (Header opt).

(** ** Labels of a name *)

(** [NextLabel] on the rest of a name: the rest after the next label, and
    whether the end was reached. *)
Fixpoint next_label (quote : bool) (t : string) : string * bool :=
  match t with
  | EmptyString => (EmptyString, true)
  | String c t' =>
      match t' with
      | EmptyString => (EmptyString, true)
      | _ =>
          if bool_decide (c = "\"%char) then next_label (negb quote) t'
          else if bool_decide (c = "."%char) then
            if quote then next_label (negb quote) t' else (t', false)
          else next_label false t'
      end
  end.

Definition NextLabel (t : string) : string * bool := next_label false t.

(** [Split]: the rests of a name from each of its labels. *)
Fixpoint label_rests (fuel : nat) (t : string) : list string :=
  match fuel with
  | 0 => [t]
  | S fuel =>
      let '(r, e) := NextLabel t in
      t :: (if e then [] else label_rests fuel r)
  end.

Definition Split_labels (s : string) : list string :=
  if bool_decide (s = ".") then [] else label_rests (String.length s) s.

(** ** Compressed length

    The compression map: its keys (the value of a key is its length). *)

Definition compressionLenHelper (c : gset string) (s : string) : gset string :=
  foldr (λ pref c, {[pref]} ∪ c) c (Split_labels s).

Fixpoint search_rests (fuel : nat) (c : gset string) (t : string) : option Z :=
  if bool_decide (t ∈ c) then Some (Z.of_nat (String.length t))
  else
    match fuel with
    | 0 => None
    | S fuel =>
        let '(r, e) := NextLabel t in
        if e then
          if bool_decide (r ∈ c) then Some (Z.of_nat (String.length r)) else None
        else search_rests fuel c r
    end.

Definition compressionLenSearch (c : gset string) (s : string) : option Z :=
  if bool_decide (s = "") then None else search_rests (String.length s) c s.

(** The names in the data of a record that take part in compression. *)
Definition compress_names (r : RR) : list string :=
  match r with
  | RR_NS _ ns => [ns]
  | RR_SOA _ ns mbox _ _ _ _ _ => [ns; mbox]
  | RR_Other _ _ names => names
  | _ => []
  end.

Definition compressionLenHelperType (c : gset string) (r : RR) : gset string :=
  foldl compressionLenHelper c (compress_names r).

(** The lengths found are added up; [None] when no name is found. *)
Definition compressionLenSearchType (c : gset string) (r : RR) : option Z :=
  foldl (λ acc n,
      match acc, compressionLenSearch c n with
      | None, k => k
      | Some a, None => Some a
      | Some a, Some k => Some (a + k)%Z
      end) None (compress_names r).

Definition slen (s : string) : Z := Z.of_nat (String.length s).

Definition Hdr_len (h : RR_Header) : Z := (slen (Hdr_Name h) + 1 + 10)%Z.

Definition Question_len (q : Question) : Z := (slen (Q_Name q) + 1 + 4)%Z.

Definition RR_len (r : RR) : Z :=
  match r with
  | RR_A h _ => Hdr_len h + 4
  | RR_NS h ns => Hdr_len h + (slen ns + 1)
  | RR_SOA h ns mbox _ _ _ _ _ => Hdr_len h + (slen ns + 1) + (slen mbox + 1) + 20
  | RR_SRV h _ _ _ target => Hdr_len h + (slen target + 1) + 6
  | RR_OPT h options => Hdr_len h + foldr (λ o l, 4 + o + l)%Z 0%Z options
  | RR_Other h rdlen _ => Hdr_len h + rdlen
  end.

(** [l += 1 - k] when a name was found. *)
Definition saved (k : option Z) : Z := match k with Some k => 1 - k | None => 0 end.

(** One record of a section: the length so far and the compression map. *)
Definition len_step (compress : bool) (st : Z * gset string) (r : RR) : Z * gset string :=
  let '(l, c) := st in
  let l := (l + RR_len r)%Z in
  if compress then
    let name := Hdr_Name (Header r) in
    let l := (l + saved (compressionLenSearch c name))%Z in
    let c := compressionLenHelper c name in
    let l := (l + saved (compressionLenSearchType c r))%Z in
    (l, compressionLenHelperType c r)
  else (l, c).

Definition len_question (compress : bool) (st : Z * gset string) (q : Question) : Z * gset string :=
  let '(l, c) := st in
  ((l + Question_len q)%Z, if compress then compressionLenHelper c (Q_Name q) else c).

Definition Len (m : Msg) : Z :=
  let st := foldl (len_question (Compress m)) (12%Z, ∅) (Questions m) in
  let st := foldl (len_step (Compress m)) st (Answer m) in
  let st := foldl (len_step (Compress m)) st (Ns m) in
  let st := foldl (len_step (Compress m)) st (Extra m) in
  st.1.
