(* ===== verification/Exchanger.v ===== *)
(** * Forwarding (src/exchanger, src/logging)

    The counters of the process and the forwarder of queries that are not
    about Mesos.  An exchanger ([dns.Client] below its decorators) acts on a
    world [W]; the counters it is instrumented with are part of the state it
    acts on. *)

From S2P Require Import Prelude GoStrings GoNet Dns.

(** ** Counters *)

Inductive Counter :=
| MesosRequests | MesosSuccess | MesosNXDomain | MesosFailed
| NonMesosRequests | NonMesosSuccess | NonMesosNXDomain | NonMesosFailed
| NonMesosForwarded.

#[export] Instance Counter_eq_dec : EqDecision Counter.
Proof. solve_decision. Defined.

(** The values of the counters, unsigned 64-bit numbers. *)
Definition LogOut : Type := Counter → Z.

Definition CurLog : LogOut := λ _, 0%Z.

Definition Inc (c : Counter) (l : LogOut) : LogOut :=
  λ d, if decide (d = c) then ((l d + 1) mod 2 ^ 64)%Z else l d.

Definition LogCounter_String (l : LogOut) (c : Counter) : string := utoa (l c).

(** ** Exchangers *)

Section exchanger.
Context {W : Type}.

(** Reply, round-trip time and error. *)
Definition Exchange : Type :=
  Msg → string → LogOut * W → (option Msg * Z * error) * (LogOut * W).

Definition Decorator : Type := Exchange → Exchange.

Definition Decorate (ex : Exchange) (ds : list Decorator) : Exchange :=
  foldl (λ decorated decorate, decorate decorated) ex ds.

(** Logging an error has no effect on the state of the program. *)
Definition ErrorLogging : Decorator := λ ex m a st, ex m a st.

Definition Instrumentation (total success failure : Counter) : Decorator :=
  λ ex m a st,
    let '((r, rtt, err), (l, w)) := ex m a st in
    let l := Inc total l in
    let l := match err with Some _ => Inc failure l | None => Inc success l end in
    ((r, rtt, err), (l, w)).

(** The error of a forwarder is a [ForwardError] or the error of the last
    exchange. *)
Inductive forward_error :=
| ForwardError (addrs : list string) (proto : string)
| ExchangeError (e : string).

Definition Forwarder : Type :=
  Msg → string → LogOut * W → (option Msg * option forward_error) * (LogOut * W).

(** The loop over the addresses, with the named results [r] and [err]. *)
Fixpoint forward_loop (ex : Exchange) (m : Msg) (addrs : list string)
    (r : option Msg) (err : error) (st : LogOut * W) : (option Msg * error) * (LogOut * W) :=
  match addrs with
  | [] => ((r, err), st)
  | a :: addrs =>
      let '((r, _, err), st) := ex m (JoinHostPort a "53") st in
      match err with
      | None => ((r, err), st)
      | Some _ => forward_loop ex m addrs r err st
      end
  end.

Definition NewForwarder (addrs : list string) (exs : gmap string Exchange) : Forwarder :=
  λ m proto st,
    match exs !! proto with
    | Some ex =>
        if (length addrs =? 0)%nat then ((None, Some (ForwardError addrs proto)), st)
        else
          let '((r, err), st) := forward_loop ex m addrs None None st in
          ((r, ExchangeError <$> err), st)
    | None => ((None, Some (ForwardError addrs proto)), st)
    end.

(** The method of a [Forwarder], which is a function. *)
Definition Forward (f : Forwarder) (m : Msg) (proto : string) (st : LogOut * W) :
    (option Msg * option forward_error) * (LogOut * W) := f m proto st.

(** ** Properties *)

(** The state after failing exchanges with [failed], and the last error. *)
Inductive all_fail (ex : Exchange) (m : Msg) : list string → error → LogOut * W → LogOut * W → Prop :=
| fail_nil st : all_fail ex m [] None st st
| fail_snoc addrs a e0 r t e st st' st'' :
    all_fail ex m addrs e0 st st' →
    ex m (JoinHostPort a "53") st' = ((r, t, Some e), st'') →
    all_fail ex m (addrs ++ [a]) (Some e) st st''.

Lemma forward_loop_spec ex m addrs done r0 e0 st0 st :
  all_fail ex m done e0 st0 st →
  let '((r, err), st') := forward_loop ex m addrs r0 e0 st in
  match err with
  | None =>
      (∃ tried a rest t st1, addrs = tried ++ a :: rest
         ∧ (∃ e1, all_fail ex m (done ++ tried) e1 st0 st1)
         ∧ ex m (JoinHostPort a "53") st1 = ((r, t, None), st'))
      ∨ (addrs = [] ∧ e0 = None)
  | Some e => all_fail ex m (done ++ addrs) (Some e) st0 st'
  end.
Proof.
  revert done r0 e0 st. induction addrs as [|a addrs IH]; intros dn r0 e0 st Hf; cbn [forward_loop].
  - destruct e0; [by rewrite app_nil_r|by right].
  - destruct (ex m (JoinHostPort a "53") st) as [[[r t] [e|]] st1] eqn:E.
    + pose proof (fail_snoc ex m dn a e0 r t e st0 st st1 Hf E) as Hf'.
      specialize (IH (dn ++ [a]) r (Some e) st1 Hf').
      destruct (forward_loop ex m addrs r (Some e) st1) as [[r2 [e2|]] st2].
      * by rewrite <-app_assoc in IH.
      * destruct IH as [(tried & b & rest & t2 & s2 & -> & (e1 & Ha) & Hb)|[_ [=]]].
        left. exists (a :: tried), b, rest, t2, s2. split_and!; [done| |done].
        exists e1. by rewrite <-app_assoc in Ha.
    + left. exists [], a, addrs, t, st. split_and!; [done| |done].
      exists e0. by rewrite app_nil_r.
Qed.

(** C39: the forwarder tries the addresses in their order, port 53, and stops
    at the first that answers: a reply without error comes from an address all
    of whose predecessors failed, an exchange error means that every address
    failed and is the error of the last one, and [ForwardError] is returned
    exactly when there is no exchanger for the protocol or no address, without
    any exchange. *)
Theorem NewForwarder_first addrs exs m proto st :
  let '((r, err), st') := NewForwarder addrs exs m proto st in
  match err with
  | None => ∃ ex tried a rest e t st1, exs !! proto = Some ex ∧ addrs = tried ++ a :: rest
      ∧ all_fail ex m tried e st st1 ∧ ex m (JoinHostPort a "53") st1 = ((r, t, None), st')
  | Some (ExchangeError e) => ∃ ex, exs !! proto = Some ex ∧ addrs ≠ []
      ∧ all_fail ex m addrs (Some e) st st'
  | Some (ForwardError addrs' proto') =>
      r = None ∧ st' = st ∧ addrs' = addrs ∧ proto' = proto ∧ (exs !! proto = None ∨ addrs = [])
  end.
Proof.
  unfold NewForwarder. destruct (exs !! proto) as [ex|] eqn:Ex; [|naive_solver].
  destruct addrs as [|a addrs]; [cbn; naive_solver|]. cbn [length Nat.eqb].
  pose proof (forward_loop_spec ex m (a :: addrs) [] None None st st (fail_nil ex m st)) as H.
  destruct (forward_loop ex m (a :: addrs) None None st) as [[r [e|]] st']; cbn [fmap option_fmap option_map].
  - eauto.
  - destruct H as [(tried & b & rest & t & st1 & Ha & (e1 & Hf) & Hb)|[[=] _]].
    exists ex, tried, b, rest, e1, t, st1. split_and!; done.
Qed.

(** An instrumented exchange counts once in the total and once in
    exactly one of success and failure, and leaves the other counters alone. *)
Theorem Instrumentation_counts total success failure ex m a l w :
  total ≠ success → total ≠ failure → success ≠ failure →
  (∀ l, (ex m a (l, w)).2.1 = l) →
  let '((r, t, err), (l', _)) := Decorate ex [ErrorLogging; Instrumentation total success failure] m a (l, w) in
  l' total = ((l total + 1) mod 2 ^ 64)%Z
  ∧ (match err with
     | None => l' success = ((l success + 1) mod 2 ^ 64)%Z ∧ l' failure = l failure
     | Some _ => l' failure = ((l failure + 1) mod 2 ^ 64)%Z ∧ l' success = l success
     end)
  ∧ (∀ c, c ≠ total → c ≠ success → c ≠ failure → l' c = l c).
Proof.
  intros H1 H2 H3 Hl. cbn [Decorate foldl]. unfold Instrumentation, ErrorLogging.
  specialize (Hl l). destruct (ex m a (l, w)) as [[[r t] err] [l1 w1]]. cbn in Hl. subst l1.
  destruct err; unfold Inc; split_and!; intros; repeat case_decide; congruence.
Qed.
End exchanger.

(** The last of two addresses answers. *)
Lemma Instrumentation_counts_witness :
  let ex : Exchange (W := nat) := λ m a '(l, w), ((Some m, 3%Z, None), (l, S w)) in
  let '(_, (l', _)) := Decorate ex [ErrorLogging; Instrumentation NonMesosForwarded NonMesosSuccess NonMesosFailed]
    Msg0 "8.8.8.8:53" (CurLog, 0%nat) in
  l' NonMesosForwarded = 1%Z ∧ l' NonMesosSuccess = 1%Z ∧ l' NonMesosFailed = 0%Z.
Proof.
  pose proof (Instrumentation_counts (W := nat) NonMesosForwarded NonMesosSuccess NonMesosFailed
    (λ m a '(l, w), ((Some m, 3%Z, None), (l, S w))) Msg0 "8.8.8.8:53" CurLog 0%nat) as H.
  cbn in H |- *. destruct H as (H1 & [H2 H3] & _); [done..|].
  split_and!; [exact H1|exact H2|exact H3].
Defined.
