(* ===== verification/Logging.v ===== *)
(** * The loggers (src/logging/logging.go)

    Which of the loggers prints where, for the verbosity that is asked for, and
    what is printed of the counters at a reload. *)

From S2P Require Import Prelude GoStrings GoNet Dns Exchanger.

(** Where a logger writes. *)
Inductive sink := Stdout | Stderr | Discard.

(** [log.New(out, prefix, logopts)] *)
Record Logger := { out : sink; log_prefix : string }.

(** The variables of the package; a logger is nil until [SetupLogs]. *)
Record loggers := {
  VerboseFlag : bool; VeryVerboseFlag : bool;
  Verbose : option Logger; VeryVerbose : option Logger; Error : option Logger }.

Definition loggers0 : loggers :=
  {| VerboseFlag := false; VeryVerboseFlag := false; Verbose := None; VeryVerbose := None;
     Error := None |}.

(** [V n] is [glog.V(n)]. *)
Definition SetupLogs (V : Z → bool) (l : loggers) : loggers :=
  let VeryVerboseFlag := if V 2%Z then true else VeryVerboseFlag l in
  let VerboseFlag := if V 2%Z then VerboseFlag l else if V 1%Z then true else VerboseFlag l in
  let '(verbose, veryVerbose) :=
    if VerboseFlag then
      ({| out := Stdout; log_prefix := "VERBOSE: " |},
       {| out := Discard; log_prefix := "VERY VERBOSE: " |})
    else if VeryVerboseFlag then
      ({| out := Stdout; log_prefix := "VERY VERBOSE: " |},
       {| out := Stdout; log_prefix := "VERY VERBOSE: " |})
    else
      ({| out := Discard; log_prefix := "VERBOSE: " |},
       {| out := Discard; log_prefix := "VERY VERBOSE: " |}) in
  {| VerboseFlag := VerboseFlag; VeryVerboseFlag := VeryVerboseFlag;
     Verbose := Some verbose; VeryVerbose := Some veryVerbose;
     Error := Some {| out := Stderr; log_prefix := "ERROR: " |} |}.

(** The fields of [LogOut], as they are printed. *)
Definition log_fields : list (string * Counter) :=
  [("MesosRequests", MesosRequests); ("MesosSuccess", MesosSuccess);
   ("MesosNXDomain", MesosNXDomain); ("MesosFailed", MesosFailed);
   ("NonMesosRequests", NonMesosRequests); ("NonMesosSuccess", NonMesosSuccess);
   ("NonMesosNXDomain", NonMesosNXDomain); ("NonMesosFailed", NonMesosFailed);
   ("NonMesosForwarded", NonMesosForwarded)].

(** [Printf("%+v\n", CurLog)]: what is written where.  The counters keep their
    values. *)
Definition PrintCurLog (l : loggers) (log : LogOut) : go (sink * string) :=
  match VeryVerbose l with
  | None => Panic NilDeref
  | Some lg =>
      Ret (out lg, log_prefix lg +:+ "{" +:+
        Join ((λ '(name, c), name +:+ ":" +:+ LogCounter_String log c) <$> log_fields) " " +:+ "}")
  end.

(** A logger that is set up prints to [s]. *)
Definition prints (o : option Logger) (s : sink) : Prop := ∃ lg, o = Some lg ∧ out lg = s.

(** Errors always go to the standard error; the other loggers print nothing by
    default, the first of them from level 1 and both from level 2. *)
Lemma SetupLogs_levels V :
  let l := SetupLogs V loggers0 in
  prints (Error l) Stderr
  ∧ prints (Verbose l) (if V 2%Z || V 1%Z then Stdout else Discard)
  ∧ prints (VeryVerbose l) (if V 2%Z then Stdout else Discard).
Proof. cbv zeta. unfold SetupLogs. destruct (V 2%Z), (V 1%Z); split_and!; by eexists. Qed.

(** A flag for level 1 that was set before hides what level 2 asks for. *)
Lemma SetupLogs_flag_wins V l :
  VerboseFlag l = true → prints (VeryVerbose (SetupLogs V l)) Discard.
Proof. intros Hl. unfold SetupLogs. rewrite Hl. destruct (V 2%Z), (V 1%Z); by eexists. Qed.

(** After [SetupLogs] a reload can print the counters. *)
Lemma PrintCurLog_returns V l log : returns (PrintCurLog (SetupLogs V l) log).
Proof.
  unfold PrintCurLog, SetupLogs. destruct (V 2%Z), (V 1%Z), (VerboseFlag l), (VeryVerboseFlag l);
    by eexists.
Qed.

(** ** errorutil.go *)

(** [Ignore(f)]: the call is made and its error dropped. *)
Definition Ignore {W} (f : W → error * W) (w : W) : W := (f w).2.

Example print_two_requests :
  PrintCurLog (SetupLogs (λ _, true) loggers0) (Inc MesosRequests (Inc MesosRequests CurLog)) =
  Ret (Stdout, "VERY VERBOSE: {MesosRequests:2 MesosSuccess:0 MesosNXDomain:0 MesosFailed:0 NonMesosRequests:0 NonMesosSuccess:0 NonMesosNXDomain:0 NonMesosFailed:0 NonMesosForwarded:0}").
Proof. vm_compute. reflexivity. Qed.
