(* ===== verification/LockedSource.v ===== *)
(** * The random source of a resolver (src/resolvers/builtin/rand.go)

    A [rand.Source] is not safe for concurrent use, so the resolver wraps it
    with a lock.  The goroutines that draw from it are a transition system in
    which the call to the source is not atomic: it reads the state of the
    source and writes it back later. *)

From S2P Require Import Prelude.

Section source.
(** A [rand.Source] (math/rand). *)
Context {S : Type} (int63 : S → Z * S) (reseed : Z → S → S).

Inductive op := Int63 | Seed (seed : Z).

(** The call to the source: its result, nil for [Seed], and its state. *)
Definition call (o : op) (s : S) : option Z * S :=
  match o with
  | Int63 => let '(n, s) := int63 s in (Some n, s)
  | Seed seed => (None, reseed seed s)
  end.

(** A goroutine: about to lock; about to call; in the call, having read the
    state; about to unlock; returned. *)
Inductive pc := Calling | Locked | Loaded (s : S) | Called (r : option Z) | Back (r : option Z).

Record thread := { th_op : op; th_pc : pc }.

Definition set_pc (t : thread) (p : pc) : thread := {| th_op := th_op t; th_pc := p |}.

(** [lk] is the lock; [calls] the calls that were finished, in order. *)
Record locked := { src : S; lk : bool; threads : list thread; calls : list (op * option Z) }.

Definition at_pc (l : locked) (i : nat) (p : pc) (b : bool) : locked :=
  {| src := src l; lk := b; threads := alter (λ t : thread, set_pc t p) i (threads l); calls := calls l |}.

Inductive lstep : locked → locked → Prop :=
| l_start l o :
    lstep l {| src := src l; lk := lk l;
               threads := threads l ++ [{| th_op := o; th_pc := Calling |}]; calls := calls l |}
| l_lock l i t :
    threads l !! i = Some t → th_pc t = Calling → lk l = false → lstep l (at_pc l i Locked true)
| l_load l i t :
    threads l !! i = Some t → th_pc t = Locked → lstep l (at_pc l i (Loaded (src l)) (lk l))
| l_store l i t s r s' :
    threads l !! i = Some t → th_pc t = Loaded s → call (th_op t) s = (r, s') →
    lstep l {| src := s'; lk := lk l; threads := alter (λ t : thread, set_pc t (Called r)) i (threads l);
               calls := calls l ++ [(th_op t, r)] |}
| l_unlock l i t r :
    threads l !! i = Some t → th_pc t = Called r → lstep l (at_pc l i (Back r) false).

(** The calls made one after the other. *)
Fixpoint replay (cs : list (op * option Z)) (s : S) : option S :=
  match cs with
  | [] => Some s
  | (o, r) :: cs =>
      let '(r', s') := call o s in if bool_decide (r' = r) then replay cs s' else None
  end.

Lemma replay_snoc cs s0 s o r s' :
  replay cs s0 = Some s → call o s = (r, s') → replay (cs ++ [(o, r)]) s0 = Some s'.
Proof.
  revert s0. induction cs as [|[o1 r1] cs IH]; intros s0; cbn.
  - intros [= ->] ->. by rewrite bool_decide_true.
  - destruct (call o1 s0) as [r2 s2]. case_bool_decide; [apply IH|done].
Qed.

Definition holds_lk (t : thread) : nat :=
  match th_pc t with Locked | Loaded _ | Called _ => 1 | _ => 0 end.

Record locked_ok (s0 : S) (l : locked) : Prop := {
  lk_count : sum_list_with holds_lk (threads l) = (if lk l then 1 else 0)%nat;
  lk_loaded : ∀ i t s, threads l !! i = Some t → th_pc t = Loaded s → s = src l;
  lk_replay : replay (calls l) s0 = Some (src l);
  lk_results : ∀ i t r, threads l !! i = Some t → th_pc t = Called r ∨ th_pc t = Back r →
    (th_op t, r) ∈ calls l }.

(** The state of the other threads after a step of one of them. *)
Lemma alter_lookup (ts : list thread) i j t p u :
  ts !! i = Some t → alter (λ t : thread, set_pc t p) i ts !! j = Some u →
  (i = j ∧ u = set_pc t p) ∨ (i ≠ j ∧ ts !! j = Some u).
Proof.
  intros Hi. destruct (decide (i = j)) as [<-|Hne].
  - rewrite list_lookup_alter_eq, Hi. intros [= <-]. by left.
  - rewrite list_lookup_alter_ne by done. by right.
Qed.

Lemma locked_held s0 l i t :
  locked_ok s0 l → threads l !! i = Some t → holds_lk t = 1%nat → lk l = true.
Proof.
  intros [Hc _ _ _] Hi Ht. pose proof (sum_list_with_in t holds_lk _ (list_elem_of_lookup_2 _ _ _ Hi)).
  destruct (lk l); [done|lia].
Qed.

(** A step of a thread that does not touch the source. *)
Lemma at_pc_ok s0 l i t p (b : bool) :
  locked_ok s0 l → threads l !! i = Some t →
  (holds_lk (set_pc t p) + (if lk l then 1 else 0) = holds_lk t + (if b then 1 else 0))%nat →
  (∀ s, p = Loaded s → s = src l) →
  (∀ r, p = Called r ∨ p = Back r → (th_op t, r) ∈ calls l) →
  locked_ok s0 (at_pc l i p b).
Proof.
  intros [Hc Hl Hr Hres] Hi Hh Hld Hcl.
  pose proof (sum_list_with_alter holds_lk (λ t : thread, set_pc t p) _ _ _ Hi) as Hsum.
  split; cbn; [destruct (lk l), b; lia| |done|].
  - intros j u s Hj Hp. destruct (alter_lookup _ _ _ _ _ _ Hi Hj) as [[<- ->]|[_ Hj']]; eauto.
  - intros j u r Hj Hp. destruct (alter_lookup _ _ _ _ _ _ Hi Hj) as [[<- ->]|[_ Hj']]; eauto.
Qed.

Lemma source_store_ok s0 l i t s r s' :
  locked_ok s0 l → threads l !! i = Some t → th_pc t = Loaded s → call (th_op t) s = (r, s') →
  locked_ok s0 {| src := s'; lk := lk l; threads := alter (λ t : thread, set_pc t (Called r)) i (threads l);
                  calls := calls l ++ [(th_op t, r)] |}.
Proof.
  intros Hok Hi Hp Hcall. assert (holds_lk t = 1%nat) as Ht by (unfold holds_lk; by rewrite Hp).
  pose proof (locked_held _ _ _ _ Hok Hi Ht) as Hlk. destruct Hok as [Hc Hl Hr Hres].
  pose proof (sum_list_with_alter holds_lk (λ t : thread, set_pc t (Called r)) _ _ _ Hi) as Hsum.
  pose proof (Hl _ _ _ Hi Hp) as ->. rewrite Hlk in Hc. split; cbn [src lk threads calls].
  - rewrite Hlk. rewrite Ht in Hsum. cbn in Hsum. lia.
  - intros j u s Hj Hu. destruct (alter_lookup _ _ _ _ _ _ Hi Hj) as [[<- ->]|[Hne Hj']]; [done|].
    pose proof (sum_list_with_unique holds_lk _ _ _ _ _ Hc Hi Ht Hj' Hne) as Hz.
    unfold holds_lk in Hz. by rewrite Hu in Hz.
  - by eapply replay_snoc.
  - intros j u r' Hj Hu. apply elem_of_app.
    destruct (alter_lookup _ _ _ _ _ _ Hi Hj) as [[<- ->]|[_ Hj']].
    + right. destruct Hu as [[= <-]|[=]]. by left.
    + left. eauto.
Qed.

Lemma lstep_ok s0 l l' : lstep l l' → locked_ok s0 l → locked_ok s0 l'.
Proof.
  intros Hst Hok. destruct Hst as [l o|l i t Hi Hp Hlk|l i t Hi Hp|l i t s r s' Hi Hp Hc|l i t r Hi Hp].
  - destruct Hok as [Hc Hl Hr Hres]. split; cbn; [|..|done|].
    + rewrite sum_list_with_app. cbn. lia.
    + intros i t s [Hi|[_ Hi]]%lookup_app_Some Hp; [eauto|].
      apply list_lookup_singleton_Some in Hi as [_ <-]. done.
    + intros i t r [Hi|[_ Hi]]%lookup_app_Some Hp; [eauto|].
      apply list_lookup_singleton_Some in Hi as [_ <-]. by destruct Hp.
  - eapply at_pc_ok; [done|exact Hi|unfold holds_lk; cbn; by rewrite Hp, Hlk|done|by intros r [?|?]].
  - eapply at_pc_ok; [done|exact Hi|unfold holds_lk; cbn; by rewrite Hp|by intros s [=]|by intros r [?|?]].
  - by eapply source_store_ok.
  - assert (lk l = true) as Hlk by (eapply locked_held; [done..|]; unfold holds_lk; by rewrite Hp).
    eapply at_pc_ok; [done|exact Hi|unfold holds_lk; cbn; by rewrite Hp, Hlk|done|].
    intros r' [[=]|[= <-]]. eapply lk_results; eauto.
Qed.

(** The lock makes the source safe for concurrent use: however the calls of
    the goroutines interleave, they are the calls of one goroutine that makes
    them one after the other, and every result that a goroutine gets is that of
    its call in this sequence; no draw is made twice from the same state. *)
Theorem lockedSource_sequential s0 l :
  rtc lstep {| src := s0; lk := false; threads := []; calls := [] |} l →
  replay (calls l) s0 = Some (src l)
  ∧ ∀ t r, t ∈ threads l → th_pc t = Back r → (th_op t, r) ∈ calls l.
Proof.
  intros Hrun. assert (locked_ok s0 l) as [_ _ Hr Hres].
  { assert (locked_ok s0 {| src := s0; lk := false; threads := []; calls := [] |}) as Hinit by by split.
    induction Hrun as [|x y z Hxy _ IH]; [done|]. by eapply IH, lstep_ok. }
  split; [done|]. intros t r [i Hi]%list_elem_of_lookup Hp. eauto.
Qed.
End source.
