(* ===== verification/Resolver.v ===== *)
(** * The builtin resolver (src/resolvers/builtin)

    The server's handlers for DNS queries and its REST handlers, with the
    counters they update.  Random numbers are a class ([Rand]), the order of
    [range] over a map is [MapOrder]; the answer of the external servers is
    the [Forwarder] of Exchanger.v.  [res.rg.Config] is the configuration that
    the record generator shares with the main loop, an argument here. *)

From S2P Require Import Prelude GoStrings GoNet State Config Store Generator Dns Exchanger.

(** ** Configuration *)

Module Builtin.
Record Config := {
  DNSOn : bool; ExternalOn : bool; HTTPOn : bool; HTTPPort : Z; HTTPListener : string;
  Listener : string; Port : Z; RecurseOn : bool; ExternalDNS : list string;
  Timeout : Z; TTL : Z; EnumerationOn : bool }.

Definition NewConfig : Config :=
  {| DNSOn := true; ExternalOn := true; HTTPOn := true; HTTPPort := 8123;
     HTTPListener := "0.0.0.0"; Listener := "0.0.0.0"; Port := 53; RecurseOn := true;
     ExternalDNS := ["8.8.8.8"]; Timeout := 5; TTL := 60; EnumerationOn := true |}.

Definition set_ExternalDNS (c : Config) (l : list string) : Config :=
  {| DNSOn := DNSOn c; ExternalOn := ExternalOn c; HTTPOn := HTTPOn c; HTTPPort := HTTPPort c;
     HTTPListener := HTTPListener c; Listener := Listener c; Port := Port c;
     RecurseOn := RecurseOn c; ExternalDNS := l; Timeout := Timeout c; TTL := TTL c;
     EnumerationOn := EnumerationOn c |}.

Definition validateEnabledServices (c : Config) : error :=
  if negb (DNSOn c) && negb (HTTPOn c)
  then Some "Either DNS or HTTP server should be on" else None.

Fixpoint validateExternalDNS_loop (rs : list string) (ips : gset string) : error :=
  match rs with
  | [] => None
  | r :: rs =>
      match ParseIP r with
      | [] => Some ("illegal IP specified for remote server " +:+ r)
      | ip =>
          let ipstr := IP_String ip in
          if bool_decide (ipstr ∈ ips) then Some ("duplicate remote IP specified: " +:+ r)
          else validateExternalDNS_loop rs ({[ipstr]} ∪ ips)
      end
  end.

Definition validateExternalDNS (rs : list string) : error := validateExternalDNS_loop rs ∅.

(** [net.ParseCIDR] of the interface addresses is the argument: the IP of
    each, [[]] where it fails. *)
Definition localAddies (addies : list IP) : list string :=
  foldl (λ bad ip, match To4 ip with [] => bad | t4 => bad ++ [IP_String t4] end) [] addies.

Definition nonLocalAddies (addies : list IP) (cservers : list string) : list string :=
  let bad := localAddies addies in
  foldl (λ good s,
      let loc := foldl (λ loc b, if bool_decide (s = b) then true else loc) false bad in
      if negb loc then good ++ [s] else good) [] cservers.

(** [Fatalf] ends the process: [inl].  [resolvconf] is the servers of
    /etc/resolv.conf, or the error of reading it. *)
Definition GetLocalDNS (addies : list IP) (resolvconf : string + list string) :
    string + list string :=
  match resolvconf with
  | inl e => inl e
  | inr servers => inr (nonLocalAddies addies servers)
  end.

Definition SetConfig (addies : list IP) (resolvconf : string + list string) (c : Config) :
    string + Config :=
  let step :=
    if ExternalOn c then
      match (if (length (ExternalDNS c) =? 0)%nat
             then match GetLocalDNS addies resolvconf with
                  | inl e => inl e
                  | inr l => inr (set_ExternalDNS c l)
                  end
             else inr c) with
      | inl e => inl e
      | inr c =>
          match validateExternalDNS (ExternalDNS c) with
          | Some e => inl ("External DNS servers validation failed: " +:+ e)
          | None => inr c
          end
      end
    else inr c in
  match step with
  | inl e => inl e
  | inr c =>
      match validateEnabledServices c with
      | Some e => inl ("service validation failed: " +:+ e)
      | None => inr c
      end
  end.
End Builtin.

(** ** The resolver *)

(** The lock, the random source and the forwarder of the struct are not
    fields here: [Reload] and the handlers are atomic with respect to the
    record set ([records] reads the pointer once), and the handlers take the
    other two as arguments. *)
Record Resolver := { res_version : string; res_config : Builtin.Config; res_rg : RecordGenerator }.

(** [Reload] replaces the record set. *)
Definition Reload (res : Resolver) (rg : RecordGenerator) : Resolver :=
  {| res_version := res_version res; res_config := res_config res; res_rg := rg |}.

(** The external servers a resolver forwards to. *)
Definition forward_addrs (c : Builtin.Config) : list string :=
  if Builtin.ExternalOn c then Builtin.ExternalDNS c else [].

(** The timeout of an exchange with an external server, in seconds. *)
Definition exchange_timeout (c : Builtin.Config) : Z :=
  if (Builtin.Timeout c =? 0)%Z then 5 else Builtin.Timeout c.

(** [client timeout proto] is the exchange of a [dns.Client] for one
    protocol. *)
Definition exchangers {W} (client : Z → string → Exchange (W := W)) (timeout : Z)
    (protos : list string) : gmap string (Exchange (W := W)) :=
  foldl (λ exs proto,
      <[proto := Decorate (client timeout proto)
          [ErrorLogging; Instrumentation NonMesosForwarded NonMesosSuccess NonMesosFailed]]> exs)
    ∅ protos.

(** The forwarder that [New] gives a resolver. *)
Definition New_fwd {W} (client : Z → string → Exchange (W := W)) (c : Builtin.Config) :
    Forwarder (W := W) :=
  NewForwarder (forward_addrs c) (exchangers client (exchange_timeout c) ["udp"; "tcp"]).

(** A random number below [n] for the [k]-th draw: [rng.Intn(n)]. *)
Class Rand := {
  intn : nat → nat → nat;
  intn_lt (k n : nat) : (0 < n)%nat → (intn k n < n)%nat }.

(** ** Errors *)

Definition multiError : Type := list error.

(** An argument of [Add]: a [multiError] or another error. *)
Inductive err_arg := Multi (me : multiError) | Single (e : error).

Definition multiError_Add (e : multiError) (errs : list err_arg) : multiError :=
  foldl (λ e e1,
      match e1 with
      | Multi me => e ++ me
      | Single (Some x) => e ++ [Some x]
      | Single None => e
      end) e errs.

Definition multiError_Error (e : multiError) : string := Join (default "" <$> e) "; ".

Definition multiError_Nil (e : multiError) : bool := forallb (λ x, bool_decide (x = None)) e.

(** ** Records *)

Definition uint16 (x : Z) : Z := (x mod 2 ^ 16)%Z.

Section format.
Context (res : Resolver) (config : Config).

Definition ttl : Z := uint32 (Builtin.TTL (res_config res)).

Definition formatSRV (name target : string) : RR + string :=
  let '(h, port, err) := SplitHostPort target in
  match err with
  | Some _ => inr "invalid target"
  | None =>
      let p := (Atoi port).1 in
      inl (RR_SRV {| Hdr_Name := name; Hdr_Rrtype := TypeSRV; Hdr_Class := ClassINET; Hdr_Ttl := ttl |}
             0 0 (uint16 p) h)
  end.

Definition formatA (dom target : string) : RR + string :=
  match ParseIP target with
  | [] => inr "invalid target"
  | a => inl (RR_A {| Hdr_Name := dom; Hdr_Rrtype := TypeA; Hdr_Class := ClassINET; Hdr_Ttl := ttl |} (To4 a))
  end.

Definition formatSOA (dom : string) : RR :=
  RR_SOA {| Hdr_Name := dom; Hdr_Rrtype := TypeSOA; Hdr_Class := ClassINET; Hdr_Ttl := ttl |}
    (SOAMname config) (SOARname config) (SOASerial config) (SOARefresh config)
    (SOARetry config) (SOAExpire config) ttl.

Definition formatNS (dom : string) : RR :=
  RR_NS {| Hdr_Name := dom; Hdr_Rrtype := TypeNS; Hdr_Class := ClassINET; Hdr_Ttl := ttl |}
    (SOAMname config).
End format.

(** ** Shuffling *)

Definition swap (l : list RR) (i r : nat) : go (list RR) :=
  x ← index l i; y ← index l r; Ret (<[i := y]> (<[r := x]> l)).

Definition shuffleAnswers `{Rand} (answers : list RR) : go (list RR) :=
  let n := length answers in
  foldM (λ l i, swap l i (i + intn i (n - i))) (seq 0 n) answers.

(** ** Names *)

Definition cleanWild (name : string) : string :=
  if Contains name ".*" then ReplaceAll name ".*" "" else name.

(** [rs.As[name]] and [rs.SRVs[name]]: the set of hosts, empty for a missing
    name or a nil map. *)
Definition hosts (r : option rrs) (name : string) : gset string :=
  default ∅ (default ∅ r !! name).

(** ** Truncation *)

(** The search loop over the answers; [fuel] bounds its iterations. *)
Fixpoint truncate_loop (fuel : nat) (max : Z) (answers : list RR) (left right : nat) (m : Msg) : Msg :=
  match fuel with
  | 0 => m
  | S fuel =>
      if (left =? right)%nat then m
      else
        let mid := ((left + right) / 2)%nat in
        let m := set_Answer m (take mid answers) in
        if (Len m <? max)%Z then truncate_loop fuel max answers (mid + 1) right m
        else truncate_loop fuel max answers left mid m
  end.

Definition max_size (m : Msg) (udp : bool) : go Z :=
  if negb udp then Ret MaxMsgSize
  else opt ← IsEdns0 m;
       Ret (match opt with Some o => UDPSize o | None => MinMsgSize end).

Definition truncate (m : Msg) (udp : bool) : go Msg :=
  max ← max_size m udp;
  let m := set_Truncated m (max <? Len m)%Z in
  if negb (Truncated m) then Ret m
  else
    let m := set_Extra m [] in
    if (Len m <? max)%Z then Ret m
    else Ret (truncate_loop (S (length (Answer m))) max (Answer m) 0 (length (Answer m)) m).

Definition isUDP (network : string) : bool := HasPrefix network "udp".

(** [reply]: the message that is written to a client on [network]. *)
Definition reply (network : string) (m : Msg) : go Msg :=
  truncate (set_Compress m true) (isUDP network).

(** ** Handlers *)

Section handlers.
Context `{UnicodeTables, MapOrder, Rand}.
Context (res : Resolver) (config : Config).

(** One SRV record of [handleSRV]: the message, the errors and the hosts
    whose A record has been added. *)
Definition srv_step (rs : RecordGenerator) (qname : string)
    (st : Msg * multiError * gset string) (srv : string) : Msg * multiError * gset string :=
  let '(m, errs, added) := st in
  match formatSRV res qname srv with
  | inr e => (m, multiError_Add errs [Single (Some e)], added)
  | inl srvRR =>
      let m := set_Answer m (Answer m ++ [srvRR]) in
      let host := match Split srv ":" with h :: _ => h | [] => "" end in
      if bool_decide (host ∈ added) then (m, errs, added)
      else if (size (hosts (As rs) host) =? 0)%nat then (m, errs, added)
      else
        let '(a, ok) := First ("first " +:+ srv) (default ∅ (As rs)) host in
        if ok then
          match formatA res host a with
          | inr e => (m, multiError_Add errs [Single (Some e)], added)
          | inl aRR => (set_Extra m (Extra m ++ [aRR]), errs, {[host]} ∪ added)
          end
        else (m, errs, added)
  end.

Definition handleSRV (rs : RecordGenerator) (name qname : string) (m : Msg) : Msg * multiError :=
  (foldl (srv_step rs qname) (m, [], ∅) (order "srv" (hosts (SRVs rs) name))).1.

Definition a_step (name : string) (st : Msg * multiError) (a : string) : Msg * multiError :=
  let '(m, errs) := st in
  match formatA res name a with
  | inr e => (m, multiError_Add errs [Single (Some e)])
  | inl rr => (set_Answer m (Answer m ++ [rr]), errs)
  end.

Definition handleA (rs : RecordGenerator) (name : string) (m : Msg) : Msg * multiError :=
  foldl (a_step name) (m, []) (order "a" (hosts (As rs) name)).

Definition handleSOA (m : Msg) (qname : string) : Msg :=
  set_Ns m (Ns m ++ [formatSOA res config qname]).

Definition handleNS (m : Msg) (qname : string) : Msg :=
  set_Ns m (Ns m ++ [formatNS res config qname]).

Definition handleEmpty (rs : RecordGenerator) (name : string) (q : Question) (m : Msg)
    (log : LogOut) : Msg * LogOut :=
  let qType := Q_Qtype q in
  if (qType =? TypeSOA)%Z || (qType =? TypeNS)%Z || (qType =? TypeSRV)%Z
  then (m, Inc MesosSuccess log)
  else
    let m := set_Rcode m RcodeNameError in
    let m :=
      if (qType =? TypeAAAA)%Z
         || (0 <? size (hosts (SRVs rs) name) + size (hosts (As rs) name))%nat
      then set_Rcode m RcodeSuccess else m in
    (set_Ns m (Ns m ++ [formatSOA res config (Q_Name q)]), Inc MesosNXDomain log).

(** The switch on the type of the question. *)
Definition handle_question (rs : RecordGenerator) (name : string) (q : Question) (m : Msg) :
    Msg * multiError :=
  let qname := Q_Name q in
  let t := Q_Qtype q in
  if (t =? TypeSRV)%Z then
    let '(m, e) := handleSRV rs name qname m in (m, multiError_Add [] [Multi e])
  else if (t =? TypeA)%Z then
    let '(m, e) := handleA rs name m in (m, multiError_Add [] [Multi e])
  else if (t =? TypeSOA)%Z then (handleSOA m qname, multiError_Add [] [Single None])
  else if (t =? TypeNS)%Z then (handleNS m qname, multiError_Add [] [Single None])
  else if (t =? TypeANY)%Z then
    let '(m, e1) := handleSRV rs name qname m in
    let '(m, e2) := handleA rs name m in
    let m := handleSOA m qname in
    let m := handleNS m qname in
    (m, multiError_Add [] [Multi e1; Multi e2; Single None; Single None])
  else (m, []).

(** The counters after the handler, and the message it writes. *)
Definition HandleMesos (network : string) (r : Msg) (log : LogOut) : LogOut * go Msg :=
  let log := Inc MesosRequests log in
  let m := set_header Msg0 true (Builtin.RecurseOn (res_config res)) false 0 false in
  let m := SetReply m r in
  match Questions r with
  | [] => (log, Panic IndexOutOfRange)
  | q :: _ =>
      let rs := res_rg res in
      let name := ToLower (cleanWild (Q_Name q)) in
      let '(m, errs) := handle_question rs name q m in
      let '(m, log) :=
        match Answer m with
        | [] => let '(m, log) := handleEmpty rs name q m log in (Ret m, log)
        | an => (an' ← shuffleAnswers an; Ret (set_Answer m an'), Inc MesosSuccess log)
        end in
      let log := if multiError_Nil errs then log else Inc MesosFailed log in
      (log, m ≫= reply network)
  end.

Definition rcode (err : forward_error) : Z :=
  match err with
  | ForwardError _ _ => RcodeRefused
  | ExchangeError _ => RcodeServerFailure
  end.

Definition HandleNonMesos {W} (fwd : Forwarder (W := W)) (network : string) (r : Msg)
    (st : LogOut * W) : (LogOut * W) * go Msg :=
  let '(log, w) := st in
  let '((m, err), (log, w)) := fwd r network (Inc NonMesosRequests log, w) in
  match err with
  | Some e => ((log, w), reply network (SetRcode Msg0 r (rcode e)))
  | None =>
      match m with
      | None => ((log, w), Panic NilDeref)
      | Some m =>
          let log := if (length (Answer m) =? 0)%nat then Inc NonMesosNXDomain log else log in
          ((log, w), reply network m)
      end
  end.

(** [panicRecover]: a handler that panics is answered with a server
    failure. *)
Definition panicRecover (r : Msg) (out : go Msg) : Msg :=
  match out with
  | Ret m => m
  | Panic _ => SetRcode Msg0 r 2
  end.

(** ** REST *)

(** [dom] of a path parameter: [dom[len(dom)-1]] panics for an empty one. *)
Definition rest_name (host : string) : go string :=
  let dom := ToLower (cleanWild host) in
  match last (bytes dom) with
  | None => Panic IndexOutOfRange
  | Some c => Ret (if bool_decide (c = "."%char) then dom else dom +:+ ".")
  end.

Definition stats (domain zone : string) (success : bool) (log : LogOut) : LogOut :=
  if HasSuffix domain zone then
    let log := Inc MesosRequests log in
    if success then Inc MesosSuccess log else Inc MesosNXDomain log
  else Inc NonMesosFailed (Inc NonMesosRequests log).

(** Host and IP. *)
Definition RestHost (host : string) (log : LogOut) : go (list (string * string) * LogOut) :=
  dom ← rest_name host;
  let aRRs := hosts (As (res_rg res)) dom in
  let records := (λ ip, (dom, ip)) <$> order "rest" aRRs in
  Ret (match records with [] => [("", "")] | _ => records end,
       stats dom (Domain config +:+ ".") (0 <? size aRRs)%nat log).

(** Service, host, IP and port. *)
Definition RestService (service : string) (log : LogOut) :
    go (list (string * string * string * string) * LogOut) :=
  dom ← rest_name service;
  let rs := res_rg res in
  let srvRRs := hosts (SRVs rs) dom in
  let records := (λ s,
      let '(host, port, _) := SplitHostPort s in
      let '(r, ok) := First ("first " +:+ s) (default ∅ (As rs)) host in
      (service, host, if ok then r else "", port)) <$> order "rest" srvRRs in
  Ret (match records with [] => [("", "", "", "")] | _ => records end,
       stats dom (Domain config +:+ ".") (0 <? size srvRRs)%nat log).

Definition RestEnumerate : EnumerationData := EnumData (res_rg res).

Record AXFR := {
  AXFR_TTL : Z; AXFR_Serial : Z; AXFR_RefreshSeconds : Z; AXFR_Mname : string;
  AXFR_Rname : string; AXFR_Domain : string;
  AXFR_As : gmap string (list string); AXFR_SRVs : gmap string (list string) }.

Definition RestAXFR : AXFR :=
  {| AXFR_TTL := Builtin.TTL (res_config res); AXFR_Serial := SOASerial config;
     AXFR_RefreshSeconds := RefreshSeconds config; AXFR_Mname := SOAMname config;
     AXFR_Rname := SOARname config; AXFR_Domain := Domain config;
     AXFR_As := ToAXFRResourceRecordSet "As " (default ∅ (As (res_rg res)));
     AXFR_SRVs := ToAXFRResourceRecordSet "SRVs " (default ∅ (SRVs (res_rg res))) |}.

(** The configuration, as it is after the merge with the settings. *)
Definition RestConfig : Builtin.Config := res_config res.

Definition RestVersion : list (string * string) :=
  [("Service", "Mesos-DNS"); ("Version", res_version res);
   ("URL", "https://github.com/mesosphere/mesos-dns")].

Definition StatusNotImplemented : Z := 501.

Definition RestPorts : Z * string := (StatusNotImplemented, "To be implemented...").
End handlers.
