(* ===== verification/Truncation.v ===== *)
(** * Truncation (src/resolvers/builtin/resolver.go, truncate)

    The length of a message grows with its answers; the search of [truncate]
    ends within one answer of the longest prefix that fits. *)

From S2P Require Import Prelude GoStrings GoNet State Config Store Generator Dns Exchanger Resolver.

(** ** The length of a message *)

Lemma slen_cons c s : slen (String c s) = (1 + slen s)%Z.
Proof. unfold slen. cbn [String.length]. lia. Qed.

(** The rest after a label is not longer than the name. *)
Lemma next_label_len q t : (slen (next_label q t).1 ≤ slen t)%Z.
Proof.
  revert q. induction t as [|c t IH]; intros q; [done|]. cbn [next_label].
  destruct t as [|c' t']; [rewrite slen_cons; cbn; lia|].
  rewrite slen_cons. repeat case_bool_decide; try destruct q; cbn [fst];
    match goal with |- context [next_label ?q ?t] => specialize (IH q); lia | _ => lia end.
Qed.

Lemma search_rests_len fuel c t k : search_rests fuel c t = Some k → (k ≤ slen t)%Z.
Proof.
  revert t. induction fuel as [|fuel IH]; intros t; cbn [search_rests].
  { case_bool_decide; [|done]. intros [= <-]. done. }
  case_bool_decide; [intros [= <-]; done|].
  unfold NextLabel. pose proof (next_label_len false t) as Hr.
  destruct (next_label false t) as [r []]; cbn [fst] in Hr.
  - case_bool_decide; [|done]. by intros [= <-].
  - intros Hk%IH. lia.
Qed.

Lemma search_len c s k : compressionLenSearch c s = Some k → (k ≤ slen s)%Z.
Proof. unfold compressionLenSearch. case_bool_decide; [done|]. apply search_rests_len. Qed.

(** The types of records that the resolver makes. *)
Definition own_type (r : RR) : Prop :=
  match r with RR_A _ _ | RR_NS _ _ | RR_SOA _ _ _ _ _ _ _ _ | RR_SRV _ _ _ _ _ => True | _ => False end.

(** Every record adds to the length, whatever is compressed. *)
Lemma len_step_grows compress st r : own_type r → (st.1 ≤ (len_step compress st r).1)%Z.
Proof.
  intros Hr. assert (∀ c s, - slen s ≤ saved (compressionLenSearch c s))%Z as Hs.
  { intros c s. destruct (compressionLenSearch c s) as [k|] eqn:E; cbn [saved];
      [apply search_len in E|]; unfold slen in *; lia. }
  assert (∀ s, 0 ≤ slen s)%Z as H0 by (intros s; unfold slen; lia).
  destruct st as [l c]. unfold len_step. destruct compress; cbn [fst].
  2:{ destruct r; cbn [RR_len]; unfold Hdr_len; try done; pose proof (H0 (Hdr_Name h)); unfold slen; lia. }
  set (c' := compressionLenHelper c (Hdr_Name (Header r))).
  assert (0 ≤ RR_len r - Hdr_len (Header r) + saved (compressionLenSearchType c' r))%Z as Hd.
  { destruct r as [h a|h ns|h ns mbox ser ref ret ex mi|h p w po target|h o|h rd ns]; try done;
      cbn [RR_len Header compressionLenSearchType compress_names foldl].
    - unfold compressionLenSearchType. cbn. lia.
    - unfold compressionLenSearchType. cbn [compress_names foldl]. specialize (Hs c' ns). lia.
    - unfold compressionLenSearchType. cbn [compress_names foldl].
      pose proof (H0 ns). pose proof (H0 mbox).
      destruct (compressionLenSearch c' ns) as [k1|] eqn:E1;
        destruct (compressionLenSearch c' mbox) as [k2|] eqn:E2; cbn [saved];
        try apply search_len in E1; try apply search_len in E2; lia.
    - unfold compressionLenSearchType. cbn [compress_names foldl saved]. specialize (H0 target). lia. }
  specialize (Hs c (Hdr_Name (Header r))). unfold Hdr_len in Hd. lia.
Qed.

Lemma len_section_grows compress st l :
  Forall own_type l → (st.1 ≤ (foldl (len_step compress) st l).1)%Z.
Proof.
  intros Hl. revert st. induction Hl as [|r l Hr _ IH]; intros st; [done|]. cbn [foldl].
  etransitivity; [|apply IH]. by apply len_step_grows.
Qed.

(** A message with answers and a question only grows with its answers. *)
Lemma Len_take_mono m answers j k :
  Ns m = [] → Extra m = [] → Forall own_type answers → (j ≤ k)%nat →
  (Len (set_Answer m (take j answers)) ≤ Len (set_Answer m (take k answers)))%Z.
Proof.
  intros Hn He Ho Hjk. unfold Len. cbn [Answer Ns Extra Compress Questions set_Answer set_sections].
  rewrite Hn, He. cbn [foldl].
  replace (take k answers) with (take j answers ++ drop j (take k answers)).
  2:{ rewrite <-(take_drop j (take k answers)) at 2. rewrite take_take. by rewrite Nat.min_l by lia. }
  rewrite foldl_app. apply len_section_grows. by apply Forall_drop, Forall_take.
Qed.

(** ** The search *)

Definition fits (m : Msg) (max : Z) (answers : list RR) (k : nat) : Prop :=
  (Len (set_Answer m (take k answers)) < max)%Z.

(** The search keeps: everything below [left] was last seen to fit, [right]
    was seen not to, and the message holds the last probe. *)
Lemma truncate_loop_spec fuel max answers m left right cur :
  (right - left < fuel)%nat → (left ≤ right)%nat →
  (left = 0%nat ∨ fits m max answers (left - 1)) →
  ¬ fits m max answers right →
  (cur = right ∨ cur + 1 = left ∧ fits m max answers cur)%nat →
  ∃ k, truncate_loop fuel max answers left right (set_Answer m (take cur answers))
         = set_Answer m (take k answers)
    ∧ (k ≤ right)%nat
    ∧ (fits m max answers k ∧ ¬ fits m max answers (k + 1)
       ∨ ¬ fits m max answers k ∧ (k = 0%nat ∨ fits m max answers (k - 1))).
Proof.
  revert left right cur; induction fuel as [|fuel IH]; intros left right cur Hfuel Hle Hl Hr Hcur; [lia|].
  cbn [truncate_loop]. destruct (Nat.eqb_spec left right) as [->|Hne].
  - exists cur. split; [done|]. destruct Hcur as [->|[Hc Hf]].
    + split; [lia|]. right. done.
    + split; [lia|]. left. split; [done|]. by rewrite Hc.
  - set (mid := ((left + right) / 2)%nat).
    assert (left ≤ mid < right)%nat as Hmid.
    { unfold mid. split; [apply Nat.div_le_lower_bound; lia|apply Nat.div_lt_upper_bound; lia]. }
    change (set_Answer (set_Answer m (take cur answers)) (take mid answers))
      with (set_Answer m (take mid answers)). cbv zeta.
    destruct (Z.ltb_spec (Len (set_Answer m (take mid answers))) max) as [Hf|Hf].
    + apply IH; [lia|lia| |done|].
      * right. unfold fits. by replace (mid + 1 - 1)%nat with mid by lia.
      * right. done.
    + destruct (IH left mid mid) as (k & Hk & Hkm & Hp); [lia|lia|done| |by left|].
      * unfold fits. lia.
      * exists k. split_and!; [done|lia|done].
Qed.

(** The message that the search starts from: truncated, without additional
    records. *)
Definition stripped (m : Msg) : Msg := set_Extra (set_Truncated m true) [].

(** The result of [truncate] by the length of the message. *)
Lemma truncate_props m udp max :
  max_size m udp = Ret max →
  ∃ m', truncate m udp = Ret m'
    ∧ ((Len m ≤ max)%Z → m' = set_Truncated m false)
    ∧ ((max < Len m)%Z → ∃ k, m' = set_Answer (stripped m) (take k (Answer m))
         ∧ (k ≤ length (Answer m))%nat
         ∧ ((Len m' < max)%Z
              ∧ ((length (Answer m) ≤ k)%nat ∨ ¬ fits (stripped m) max (Answer m) (k + 1))
            ∨ (max ≤ Len m')%Z ∧ (k = 0%nat ∨ fits (stripped m) max (Answer m) (k - 1)))).
Proof.
  intros Hmax. unfold truncate. rewrite Hmax. cbn [mbind go_bind].
  destruct (Z.ltb_spec max (Len m)) as [Hgt|Hle]; cbn [set_Truncated set_header Truncated negb].
  2:{ eexists. split; [done|]. split; [done|]. lia. }
  fold (set_Truncated m true). fold (stripped m).
  change (Answer (stripped m)) with (Answer m).
  assert (stripped m = set_Answer (stripped m) (take (length (Answer m)) (Answer m))) as Hm.
  { by rewrite take_ge by lia. }
  destruct (Z.ltb_spec (Len (stripped m)) max) as [Hf|Hf].
  - exists (stripped m). split; [done|]. split; [lia|]. intros _. exists (length (Answer m)).
    split_and!; [done..|]. left. split; [done|]. by left.
  - destruct (truncate_loop_spec (S (length (Answer m))) max (Answer m) (stripped m)
      0 (length (Answer m)) (length (Answer m))) as (k & Hk & Hkm & Hp); [lia|lia|by left| |by left|].
    { unfold fits. rewrite <-Hm. lia. }
    rewrite <-Hm in Hk. eexists. split; [done|]. split; [lia|]. intros _. exists k.
    split_and!; [done..|]. rewrite Hk. unfold fits in *.
    destruct Hp as [[H1 H2]|[H1 H2]]; [left; split; [done|right; lia]|right; split; [lia|done]].
Qed.

(** ** Where the search ends *)

Section search.
Context (m : Msg) (max : Z) (answers : list RR).
Context (Hns : Ns m = []) (Hextra : Extra m = []) (Hown : Forall own_type answers).

Lemma fits_mono j k : (j ≤ k)%nat → fits m max answers k → fits m max answers j.
Proof. unfold fits. intros Hjk Hk. pose proof (Len_take_mono m answers j k Hns Hextra Hown Hjk). lia. Qed.

(** When all proper prefixes fit, the last probe is the longest of them. *)
Lemma loop_all_but_one fuel left cur n :
  (n - left < fuel)%nat → (left ≤ n)%nat → (0 < n)%nat → fits m max answers (n - 1) →
  (left = 0%nat ∨ fits m max answers cur) →
  (Len (truncate_loop fuel max answers left n (set_Answer m (take cur answers))) < max)%Z.
Proof.
  intros Hf Hle Hn Hfit. revert left cur Hf Hle.
  induction fuel as [|fuel IH]; intros left cur Hf Hle Hcur; [lia|].
  cbn [truncate_loop]. destruct (Nat.eqb_spec left n) as [->|Hne]; [destruct Hcur; [lia|done]|].
  set (mid := ((left + n) / 2)%nat).
  assert (left ≤ mid < n)%nat as Hmid.
  { unfold mid. split; [apply Nat.div_le_lower_bound; lia|apply Nat.div_lt_upper_bound; lia]. }
  change (set_Answer (set_Answer m (take cur answers)) (take mid answers))
    with (set_Answer m (take mid answers)). cbv zeta.
  assert (fits m max answers mid) as Hm by (apply (fits_mono mid (n - 1)); [lia|done]).
  rewrite (proj2 (Z.ltb_lt _ _) Hm). apply IH; [lia|lia|by right].
Qed.

(** When not even one answer fits, the last probe is the empty prefix. *)
Lemma loop_none fuel right cur :
  (right < fuel)%nat → (0 < right)%nat → fits m max answers 0 → ¬ fits m max answers 1 →
  (Len (truncate_loop fuel max answers 0 right (set_Answer m (take cur answers))) < max)%Z.
Proof.
  intros Hf Hr H0 H1. revert right cur Hf Hr.
  induction fuel as [|fuel IH]; intros right cur Hf Hr; [lia|].
  cbn [truncate_loop]. destruct (Nat.eqb_spec 0 right) as [|_]; [lia|].
  set (mid := ((0 + right) / 2)%nat).
  assert (mid < right)%nat as Hmid by (unfold mid; apply Nat.div_lt_upper_bound; lia).
  change (set_Answer (set_Answer m (take cur answers)) (take mid answers))
    with (set_Answer m (take mid answers)). cbv zeta.
  destruct (decide (mid = 0%nat)) as [E|Hne].
  - assert (right = 1%nat) as -> by (unfold mid in E; apply Nat.div_small_iff in E; lia).
    rewrite E. rewrite (proj2 (Z.ltb_lt _ _) H0). destruct fuel; exact H0.
  - assert (¬ fits m max answers mid) as Hm by (intros Hm; apply H1, (fits_mono 1 mid); [lia|done]).
    unfold fits in Hm. rewrite (proj2 (Z.ltb_ge _ _)) by lia. apply IH; lia.
Qed.
End search.

Lemma truncate_below m udp max m' :
  let n := length (Answer m) in
  max_size m udp = Ret max → Ns m = [] → Forall own_type (Answer m) →
  fits (stripped m) max (Answer m) 0 →
  fits (stripped m) max (Answer m) (n - 1) ∨ ¬ fits (stripped m) max (Answer m) 1 →
  truncate m udp = Ret m' → (max < Len m)%Z → (Len m' < max)%Z.
Proof.
  intros n Hmax Hns Hown H0 Hc Ht Hlt. unfold truncate in Ht. rewrite Hmax in Ht. cbn [mbind go_bind] in Ht.
  rewrite (proj2 (Z.ltb_lt _ _) Hlt) in Ht. cbn [set_Truncated set_header Truncated negb] in Ht.
  fold (set_Truncated m true) in Ht. fold (stripped m) in Ht.
  destruct (Z.ltb_spec (Len (stripped m)) max) as [Hf|Hf]; [by apply Ret_inj in Ht as <-|].
  change (Answer (stripped m)) with (Answer m) in Ht. apply Ret_inj in Ht as <-. fold n.
  assert (stripped m = set_Answer (stripped m) (take n (Answer m))) as Hm by (by rewrite take_ge by lia).
  assert (0 < n)%nat as Hn.
  { destruct n as [|n']; [|lia]. unfold fits in H0. rewrite <-Hm in H0. lia. }
  rewrite Hm at 1. destruct Hc as [Hc|Hc].
  - apply loop_all_but_one; [done..|lia|lia|done|done|by left].
  - apply loop_none; [done..|lia|done|done|done].
Qed.

(** C31: [truncate] returns.  A message that fits is sent as it is with the
    TC bit clear.  One that does not has the TC bit set, no additional records,
    and [k] of its answers, in order, where every shorter prefix of the answers
    stays below the limit and no longer one does: no answer is dropped that
    there was room for.  The result is below the limit when all answers but
    the last are or when not even the first answer is, so for up to two
    answers always.  (For a message whose records are of the types that the
    resolver makes, with nothing in the authority section and a question that
    fits.) *)
Theorem truncate_spec m udp max :
  let n := length (Answer m) in
  let below := fits (stripped m) max (Answer m) in
  max_size m udp = Ret max → Ns m = [] → Forall own_type (Answer m) → below 0%nat →
  ∃ m', truncate m udp = Ret m'
    ∧ ((Len m ≤ max)%Z → m' = set_Truncated m false)
    ∧ ((max < Len m)%Z → ∃ k, (k ≤ n)%nat ∧ m' = set_Answer (stripped m) (take k (Answer m))
         ∧ (∀ j, (j < k)%nat → below j) ∧ (∀ j, (k < j ≤ n)%nat → ¬ below j)
         ∧ (below (n - 1)%nat ∨ ¬ below 1%nat → (Len m' < max)%Z)).
Proof.
  intros n below Hmax Hns Hown H0.
  assert (∀ j k, (j ≤ k)%nat → below k → below j) as Hmono by (intros j k; by apply fits_mono).
  destruct (truncate_props m udp max Hmax) as (m' & Hm' & Hle & Hgt).
  exists m'. split_and!; [done..|]. intros Hlt. destruct (Hgt Hlt) as (k & Hk & Hkn & Hedge).
  exists k. split_and!; [done..| | |].
  - intros j Hj. destruct Hedge as [[Hf _]|[_ [-> |Hf]]]; [|lia|eapply Hmono; [|exact Hf]; lia].
    eapply Hmono; [|unfold below, fits; by rewrite <-Hk]. lia.
  - intros j Hj Hf. destruct Hedge as [[_ [?|Hnf]]|[Hnf _]]; [unfold n in *; lia|..].
    + apply Hnf. eapply Hmono; [|exact Hf]. lia.
    + rewrite Hk in Hnf. assert (below k) as Hb by (eapply Hmono; [|exact Hf]; lia).
      unfold below, fits in Hb. lia.
  - intros Hc. apply (truncate_below m udp max m'); try done.
Qed.

Definition long_label : string := str (replicate 60 "a"%char).
Definition long_name : string := Join [long_label; long_label; long_label; "nginx-production-frontend-cluster"; "marathon"; "slave"; "mesos"; ""] ".".

Definition srv_answer (n : nat) : RR :=
  RR_SRV {| Hdr_Name := "_x._tcp.mesos."; Hdr_Rrtype := TypeSRV; Hdr_Class := ClassINET; Hdr_Ttl := 60 |}
    0 0 (Z.of_nat n) long_name.

Definition three_answers : Msg :=
  {| Id := 1; Response := true; Opcode := 0; Authoritative := true; Truncated := false;
     RecursionDesired := true; RecursionAvailable := true; Zero := false;
     AuthenticatedData := false; CheckingDisabled := false; Rcode := 0; Compress := true;
     Questions := [{| Q_Name := "_x._tcp.mesos."; Q_Qtype := TypeSRV; Q_Qclass := ClassINET |}];
     Answer := srv_answer <$> [1; 2; 3]%nat; Ns := []; Extra := [] |}.

Lemma truncate_spec_witness :
  ∃ m' k, truncate three_answers true = Ret m'
    ∧ m' = set_Answer (stripped three_answers) (take k (Answer three_answers))
    ∧ (∀ j, (j < k)%nat → fits (stripped three_answers) 512 (Answer three_answers) j).
Proof.
  destruct (truncate_spec three_answers true 512) as (m' & H1 & _ & H2).
  - reflexivity.
  - reflexivity.
  - repeat constructor.
  - vm_compute. reflexivity.
  - destruct H2 as (k & _ & Hk & Hj & _); [vm_compute; reflexivity|].
    exists m', k. exact (conj H1 (conj Hk Hj)).
Defined.

(** The reply of [truncate] over UDP can be longer than 512 bytes although
    a shorter prefix of the answers fits: the search ends on a probe that did not
    fit. *)
Theorem truncate_overrun :
  ∃ m', truncate three_answers true = Ret m'
    ∧ (512 < Len m')%Z ∧ length (Answer m') = 2%nat ∧ Truncated m' = true
    ∧ (Len (set_Answer m' (take 1 (Answer m'))) < 512)%Z.
Proof. eexists. split; [vm_compute; reflexivity|]. by vm_compute. Qed.
