(* ===== verification/ResolverProps.v ===== *)
(** * What the resolver answers

    Theorems on src/resolvers/builtin/resolver.go: shuffling,
    the answers and the response code of a query in the Mesos domain, the
    counters, forwarding and the REST handlers. *)

From S2P Require Import Prelude GoStrings GoNet State Config Store Generator Dns Exchanger Resolver.
From S2P Require Import Truncation.

(** ** Shuffling *)

Lemma swap_perm l i r : (i < length l)%nat → (r < length l)%nat → ∃ l', swap l i r = Ret l' ∧ l' ≡ₚ l.
Proof.
  intros Hi Hr. unfold swap, index.
  destruct (lookup_lt_is_Some_2 l i Hi) as [x Hx], (lookup_lt_is_Some_2 l r Hr) as [y Hy].
  rewrite Hx, Hy. cbn [mbind go_bind]. eexists. split; [done|].
  destruct (decide (i = r)) as [->|Hne].
  - simplify_eq. by rewrite list_insert_insert_eq, list_insert_id.
  - apply Permutation_inj. split; [by rewrite !length_insert|].
    exists (λ k, if decide (k = i) then r else if decide (k = r) then i else k).
    split; [intros a b; repeat case_decide; congruence|].
    intros k. repeat case_decide; subst.
    + rewrite list_lookup_insert_eq by (by rewrite length_insert). done.
    + by rewrite list_lookup_insert_ne, list_lookup_insert_eq by done.
    + by rewrite !list_lookup_insert_ne by done.
Qed.

Lemma shuffle_perm `{Rand} answers : ∃ l, shuffleAnswers answers = Ret l ∧ l ≡ₚ answers.
Proof.
  unfold shuffleAnswers. apply foldM_returns; [done|].
  intros l i Hi Hl. apply elem_of_seq in Hi.
  pose proof (intn_lt i (length answers - i) ltac:(lia)).
  destruct (swap_perm l i (i + intn i (length answers - i))) as (l' & Hs & Hp);
    [rewrite Hl; lia|rewrite Hl; lia|]. exists l'. split; [done|by rewrite Hp].
Qed.

(** [shuffleAnswers] returns for every sequence of random draws and only
    reorders the answers. *)
Theorem shuffleAnswers_permutation `{Rand} answers :
  ∃ l, shuffleAnswers answers = Ret l ∧ l ≡ₚ answers.
Proof. apply shuffle_perm. Qed.

(** ** Messages that are written *)

(** What [reply] keeps of a message. *)
Record same_reply (m m' : Msg) : Prop := {
  sr_id : Id m' = Id m; sr_response : Response m' = Response m;
  sr_aa : Authoritative m' = Authoritative m; sr_ra : RecursionAvailable m' = RecursionAvailable m;
  sr_rd : RecursionDesired m' = RecursionDesired m;
  sr_rcode : Rcode m' = Rcode m; sr_questions : Questions m' = Questions m; sr_ns : Ns m' = Ns m }.

Lemma reply_props network m max :
  max_size (set_Compress m true) (isUDP network) = Ret max →
  ∃ m', reply network m = Ret m' ∧ same_reply m m' ∧ Compress m' = true
    ∧ (∃ k, Answer m' = take k (Answer m))
    ∧ (Truncated m' = false → Answer m' = Answer m ∧ Extra m' = Extra m ∧ (Len m' ≤ max)%Z).
Proof.
  intros Hmax. destruct (truncate_props _ _ _ Hmax) as (m' & Hm' & Hle & Hgt).
  exists m'. split; [done|]. destruct (Z.le_gt_cases (Len (set_Compress m true)) max) as [H|H].
  - rewrite (Hle H). split_and!; [done|done| |done].
    exists (length (Answer m)). by rewrite take_ge by lia.
  - destruct (Hgt H) as (k & -> & _). split_and!; [done|done| |done]. by exists k.
Qed.

Lemma find_opt_none l : Forall (λ r, Hdr_Rrtype (Header r) ≠ TypeOPT) l → find_opt l = Ret None.
Proof.
  induction 1 as [|r l Hr _ IH]; [done|]. cbn [find_opt].
  by rewrite (proj2 (Z.eqb_neq _ _) Hr).
Qed.

Lemma max_size_no_opt m udp :
  Forall (λ r, Hdr_Rrtype (Header r) ≠ TypeOPT) (Extra m) →
  max_size m udp = Ret (if udp then MinMsgSize else MaxMsgSize).
Proof.
  intros H. unfold max_size, IsEdns0. destruct udp; [|done]. cbn [negb].
  by rewrite (find_opt_none _ H).
Qed.

(** ** Records of a name *)

Section handlers.
Context `{UnicodeTables, MapOrder, Rand}.
Context (res : Resolver) (config : Config).

Definition to_option {X Y} (x : X + Y) : option X := match x with inl x => Some x | inr _ => None end.

Definition a_rrs (rs : RecordGenerator) (name : string) : list RR :=
  omap (λ a, to_option (formatA res name a)) (order "a" (hosts (As rs) name)).

Definition srv_rrs (rs : RecordGenerator) (name qname : string) : list RR :=
  omap (λ s, to_option (formatSRV res qname s)) (order "srv" (hosts (SRVs rs) name)).

Lemma a_loop name l m errs :
  ∃ errs', foldl (a_step res name) (m, errs) l
    = (set_Answer m (Answer m ++ omap (λ a, to_option (formatA res name a)) l), errs').
Proof.
  revert m errs; induction l as [|a l IH]; intros m errs; cbn [foldl].
  - exists errs. cbn. rewrite app_nil_r. by destruct m.
  - unfold a_step at 2. cbn [omap list_omap]. destruct (formatA res name a) as [rr|e]; cbn [to_option].
    + destruct (IH (set_Answer m (Answer m ++ [rr])) errs) as [errs' ->]. exists errs'.
      f_equal. cbn [Answer set_Answer set_sections]. by rewrite <-app_assoc.
    + apply IH.
Qed.

Lemma handleA_spec rs name m :
  ∃ errs, handleA res rs name m = (set_Answer m (Answer m ++ a_rrs rs name), errs).
Proof. apply a_loop. Qed.

Lemma handleA_errors rs name m :
  (∀ a, a ∈ hosts (As rs) name → ParseIP a ≠ []) → (handleA res rs name m).2 = [].
Proof.
  intros Hp. unfold handleA.
  assert (Forall (λ a, ParseIP a ≠ []) (order "a" (hosts (As rs) name))) as Hl.
  { apply Forall_forall. intros a Ha. apply Hp. rewrite order_perm in Ha. by apply elem_of_elements. }
  revert m; induction Hl as [|a l Ha _ IH]; intros m; [done|]. cbn [foldl].
  unfold a_step at 2, formatA. destruct (ParseIP a); [done|]. apply IH.
Qed.

(** The additional records: A records of targets, one per target. *)
Definition extra_ok (rs : RecordGenerator) (l : list string) (ex : list RR) : Prop :=
  NoDup (Hdr_Name ∘ Header <$> ex)
  ∧ ∀ rr, rr ∈ ex → ∃ srv host rest a, srv ∈ l ∧ Split srv ":" = host :: rest
      ∧ a ∈ hosts (As rs) host ∧ formatA res host a = inl rr.

Lemma formatA_name host a rr : formatA res host a = inl rr →
  Hdr_Name (Header rr) = host ∧ Hdr_Rrtype (Header rr) = TypeA.
Proof. unfold formatA. destruct (ParseIP a); [done|]. by intros [= <-]. Qed.

Lemma First_elem loop r name h : First loop r name = (h, true) → h ∈ hosts (Some r) name.
Proof.
  unfold First, hosts. cbn. destruct (r !! name) as [v|]; [|done]. cbn.
  destruct (order loop v) as [|x l] eqn:E; [done|]. intros [= <-].
  apply elem_of_elements. rewrite <-(order_perm loop v), E. by left.
Qed.

Lemma srv_loop rs qname l0 l m errs ex :
  extra_ok rs l0 ex → l ⊆ l0 →
  let st := (m, errs, list_to_set (Hdr_Name ∘ Header <$> ex)) in
  ∃ errs' added' ex', foldl (srv_step res rs qname) st l
    = (set_sections m (Answer m ++ omap (λ s, to_option (formatSRV res qname s)) l)
         (Ns m) (Extra m ++ ex'), errs', added')
    ∧ extra_ok rs l0 (ex ++ ex').
Proof.
  cbv zeta. revert m errs ex; induction l as [|s l IH]; intros m errs ex Hex Hl; cbn [foldl].
  - exists errs. eexists _, []. cbn [omap list_omap]. rewrite !app_nil_r. by destruct m.
  - unfold srv_step at 2. cbn [omap list_omap].
    destruct (formatSRV res qname s) as [rr|e]; cbn [to_option]; [|apply IH; [done|set_solver]].
    set (host := match Split s ":" with h :: _ => h | [] => "" end).
    assert (∀ errs1, ∃ errs' added' ex',
      foldl (srv_step res rs qname)
        (set_Answer m (Answer m ++ [rr]), errs1, list_to_set (Hdr_Name ∘ Header <$> ex)) l
      = (set_sections m (Answer m ++ rr :: omap (λ s, to_option (formatSRV res qname s)) l)
           (Ns m) (Extra m ++ ex'), errs', added') ∧ extra_ok rs l0 (ex ++ ex')) as Hskip.
    { intros errs1. destruct (IH (set_Answer m (Answer m ++ [rr])) errs1 ex Hex) as (e' & ad' & ex' & -> & Hx);
        [set_solver|]. exists e', ad', ex'. split; [|done]. cbn [Answer set_Answer set_sections Ns Extra].
      by rewrite <-app_assoc. }
    case_bool_decide as Hadded; [apply Hskip|].
    destruct (size (hosts (As rs) host) =? 0)%nat; [apply Hskip|].
    destruct (First _ _ host) as [a ok] eqn:EF. destruct ok; [|apply Hskip].
    destruct (formatA res host a) as [arr|e] eqn:EA; [|apply Hskip].
    destruct (formatA_name _ _ _ EA) as [Hn _].
    assert (extra_ok rs l0 (ex ++ [arr])) as Hex'.
    { destruct Hex as [Hnd Hin]. split.
      - rewrite fmap_app. apply NoDup_app. split_and!; [done| |apply NoDup_singleton].
        intros x Hx Hx'. apply list_elem_of_singleton in Hx'. cbn in Hx'. subst x.
        apply Hadded, elem_of_list_to_set. by rewrite <-Hn.
      - intros x [Hx|Hx]%elem_of_app; [by apply Hin|]. apply list_elem_of_singleton in Hx as ->.
        destruct (Split s ":") as [|h hs] eqn:Es.
        { by apply split_fuel_nonempty in Es. }
        exists s, h, hs, a. split_and!; [set_solver|done| |done].
        apply First_elem in EF. unfold hosts in *. by destruct (As rs). }
    assert ({[host]} ∪ list_to_set (Hdr_Name ∘ Header <$> ex)
      =@{gset string} list_to_set (Hdr_Name ∘ Header <$> (ex ++ [arr]))) as ->.
    { rewrite fmap_app, list_to_set_app_L. cbn. rewrite Hn. set_solver. }
    destruct (IH (set_Extra (set_Answer m (Answer m ++ [rr])) (Extra m ++ [arr])) errs _ Hex')
      as (e' & ad' & ex' & Hf & Hx); [set_solver|].
    exists e', ad', (arr :: ex'). rewrite <-app_assoc in Hx. split; [|done].
    cbn [Extra set_Answer set_sections] in *. rewrite Hf.
    cbn [Answer set_Extra set_Answer set_sections Ns Extra]. by rewrite <-!app_assoc.
Qed.

Lemma handleSRV_spec rs name qname m :
  ∃ ex errs, handleSRV res rs name qname m
    = (set_sections m (Answer m ++ srv_rrs rs name qname) (Ns m) (Extra m ++ ex), errs)
    ∧ extra_ok rs (order "srv" (hosts (SRVs rs) name)) ex.
Proof.
  unfold handleSRV.
  destruct (srv_loop rs qname (order "srv" (hosts (SRVs rs) name))
    (order "srv" (hosts (SRVs rs) name)) m [] []) as (errs & added & ex & Hf & Hx).
  - split; [constructor|]. intros rr Hr. by apply elem_of_nil in Hr.
  - done.
  - exists ex, errs. split; [|done]. by apply (f_equal fst) in Hf.
Qed.

(** ** Queries in the Mesos domain *)

(** The name that a question is looked up under. *)
Definition lookup_name (q : Question) : string := ToLower (cleanWild (Q_Name q)).

(** The records that answer a question, in some order. *)
Definition expected (q : Question) : list RR :=
  let rs := res_rg res in
  let name := lookup_name q in
  if (Q_Qtype q =? TypeSRV)%Z then srv_rrs rs name (Q_Name q)
  else if (Q_Qtype q =? TypeA)%Z then a_rrs rs name
  else if (Q_Qtype q =? TypeANY)%Z then srv_rrs rs name (Q_Name q) ++ a_rrs rs name
  else [].

(** The name has a record of some type. *)
Definition known (q : Question) : bool :=
  (0 <? size (hosts (SRVs (res_rg res)) (lookup_name q))
        + size (hosts (As (res_rg res)) (lookup_name q)))%nat.

Definition no_error_type (q : Question) : bool :=
  bool_decide (Q_Qtype q ∈ [TypeSOA; TypeNS; TypeSRV; TypeAAAA]).

Definition types_A (l : list RR) : Prop := Forall (λ r, Hdr_Rrtype (Header r) ≠ TypeOPT) l.

Lemma extra_types rs l ex : extra_ok rs l ex → types_A ex.
Proof.
  intros [_ Hin]. apply Forall_forall. intros rr Hr.
  destruct (Hin rr Hr) as (srv & host & rest & a & _ & _ & _ & Hf).
  destruct (formatA_name _ _ _ Hf) as [_ ->]. done.
Qed.

(** After the switch: the answers are those expected, and the header and
    the code are untouched. *)
Lemma handle_question_spec q m :
  Answer m = [] → Ns m = [] → Extra m = [] →
  ∃ ns ex errs, handle_question res config (res_rg res) (lookup_name q) q m
    = (set_sections m (expected q) ns ex, errs)
    ∧ types_A ex ∧ NoDup (Hdr_Name ∘ Header <$> ex).
Proof.
  intros Ha Hn He. unfold handle_question, expected.
  destruct (handleSRV_spec (res_rg res) (lookup_name q) (Q_Name q) m) as (ex & e1 & Hs & Hex).
  pose proof (extra_types _ _ _ Hex) as Hty. destruct Hex as [Hnd _].
  rewrite Ha, He in Hs. cbn [app] in Hs.
  repeat case_match; try (rewrite ?Z.eqb_eq in *; unfold TypeSOA, TypeNS, TypeANY in *; lia); simplify_eq.
  - eexists _, _, _. split; [reflexivity|]. done.
  - destruct (handleA_spec (res_rg res) (lookup_name q) m) as [e2 Hs2].
    rewrite Ha in Hs2.
    match goal with E : handleA _ _ _ _ = _ |- _ => rewrite E in Hs2; injection Hs2 as -> -> end.
    eexists (Ns m), (Extra m), _. split; [reflexivity|]. rewrite He. by split; constructor.
  - destruct m; cbn in *; subst. eexists _, [], _. split; [reflexivity|]. by split; constructor.
  - destruct m; cbn in *; subst. eexists _, [], _. split; [reflexivity|]. by split; constructor.
  - destruct (handleA_spec (res_rg res) (lookup_name q)
      (set_sections m (srv_rrs (res_rg res) (lookup_name q) (Q_Name q)) (Ns m) ex)) as [e2 Hs2].
    match goal with E : handleA _ _ _ _ = _ |- _ => rewrite E in Hs2; injection Hs2 as -> -> end.
    eexists _, ex, _. split; [reflexivity|]. done.
  - destruct m; cbn in *; subst. eexists _, [], _. split; [reflexivity|]. by split; constructor.
Qed.

Definition expected_rcode (q : Question) : Z :=
  if no_error_type q || known q then RcodeSuccess else RcodeNameError.

(** The counter that a query ends up in beside [MesosRequests]. *)
Definition outcome (q : Question) : Counter :=
  match expected q with
  | [] => if bool_decide (Q_Qtype q ∈ [TypeSOA; TypeNS; TypeSRV]) then MesosSuccess else MesosNXDomain
  | _ => MesosSuccess
  end.

Lemma omap_nil_size {X} (f : string → option X) loop (v : gset string) :
  size v = 0%nat → omap f (order loop v) = [].
Proof.
  intros Hv%size_empty_inv. assert (order loop v = []) as ->; [|done].
  apply Permutation_nil_r. rewrite order_perm.
  assert (v = ∅) as -> by (by apply leibniz_equiv). by rewrite elements_empty.
Qed.

(** A name with no records has no answers. *)
Lemma expected_unknown q : known q = false → expected q = [].
Proof.
  unfold known, expected. intros Hk%Nat.ltb_ge.
  assert (srv_rrs (res_rg res) (lookup_name q) (Q_Name q) = []) as -> by (apply omap_nil_size; lia).
  assert (a_rrs (res_rg res) (lookup_name q) = []) as -> by (apply omap_nil_size; lia).
  by repeat case_match.
Qed.

Lemma handleEmpty_spec q m log :
  Rcode m = RcodeSuccess → expected q = [] →
  ∃ ns, handleEmpty res config (res_rg res) (lookup_name q) q m log
    = (set_Ns (set_Rcode m (expected_rcode q)) ns, Inc (outcome q) log).
Proof.
  intros Hm He. unfold handleEmpty, expected_rcode, outcome, no_error_type. rewrite He.
  destruct (_ || _ || _) eqn:E.
  - rewrite (bool_decide_true (Q_Qtype q ∈ [TypeSOA; TypeNS; TypeSRV])),
      (bool_decide_true (Q_Qtype q ∈ [TypeSOA; TypeNS; TypeSRV; TypeAAAA])).
    + exists (Ns m). destruct m; cbn in *. by subst.
    + rewrite !orb_true_iff, !Z.eqb_eq in E. set_solver.
    + rewrite !orb_true_iff, !Z.eqb_eq in E. set_solver.
  - rewrite !orb_false_iff, !Z.eqb_neq in E.
    rewrite (bool_decide_false (Q_Qtype q ∈ [TypeSOA; TypeNS; TypeSRV])) by set_solver.
    assert (bool_decide (Q_Qtype q ∈ [TypeSOA; TypeNS; TypeSRV; TypeAAAA]) = (Q_Qtype q =? TypeAAAA)%Z) as ->.
    { destruct (Z.eqb_spec (Q_Qtype q) TypeAAAA) as [->|Hne]; [apply bool_decide_true; set_solver|].
      apply bool_decide_false. set_solver. }
    fold (known q). eexists. destruct (_ || known q); reflexivity.
Qed.

(** The counters after a query with errors [errs]. *)
Definition mesos_log (q : Question) (errs : multiError) (log : LogOut) : LogOut :=
  let log := Inc (outcome q) (Inc MesosRequests log) in
  if multiError_Nil errs then log else Inc MesosFailed log.

(** [m] is the whole reply to [q] and [m'] what is written. *)
Record mesos_reply (network : string) (r : Msg) (q : Question) (m m' : Msg) : Prop := {
  mr_id : Id m = Id r; mr_response : Response m = true; mr_aa : Authoritative m = true;
  mr_ra : RecursionAvailable m = Builtin.RecurseOn (res_config res);
  mr_questions : Questions m = [q];
  mr_rcode : Rcode m = expected_rcode q;
  mr_answer : Answer m ≡ₚ expected q;
  mr_extra : NoDup (Hdr_Name ∘ Header <$> Extra m);
  mr_same : same_reply m m';
  mr_prefix : ∃ k, Answer m' = take k (Answer m);
  mr_whole : Truncated m' = false → Answer m' = Answer m ∧ Extra m' = Extra m
    ∧ (Len m' ≤ if isUDP network then MinMsgSize else MaxMsgSize)%Z }.

Lemma HandleMesos_props network r log q qs :
  Questions r = q :: qs →
  ∃ m m' errs, HandleMesos res config network r log = (mesos_log q errs log, Ret m')
    ∧ mesos_reply network r q m m'.
Proof.
  intros Hq. unfold HandleMesos. rewrite Hq. fold (lookup_name q).
  set (m0 := SetReply _ r).
  destruct (handle_question_spec q m0) as (ns & ex & errs & -> & Hty & Hnd); [done..|].
  cbn [Answer set_sections].
  assert (∀ m1 (log1 : LogOut), Answer m1 ≡ₚ expected q → Extra m1 = ex →
    Id m1 = Id m0 → Response m1 = true → Authoritative m1 = true →
    RecursionAvailable m1 = RecursionAvailable m0 → Questions m1 = Questions m0 →
    Rcode m1 = expected_rcode q → log1 = Inc (outcome q) (Inc MesosRequests log) →
    ∃ m m' errs', ((if multiError_Nil errs then log1 else Inc MesosFailed log1), Ret m1 ≫= reply network)
    = (mesos_log q errs' log, Ret m') ∧ mesos_reply network r q m m') as Hfin.
  { intros m1 log1 Ha Hx Hid Hresp Haa Hra Hqs Hrc ->.
    rewrite <-Hx in Hty, Hnd. cbn [mbind go_bind].
    destruct (reply_props network m1 _ (max_size_no_opt (set_Compress m1 true) _ Hty))
      as (m' & Hr & Hs & _ & Hk & Ht).
    exists m1, m', errs. rewrite Hr. split; [done|]. split; try done. rewrite Hqs. cbn. by rewrite Hq. }
  destruct (expected q) as [|x l] eqn:Ee.
  - destruct (handleEmpty_spec q (set_sections m0 [] ns ex) (Inc MesosRequests log) eq_refl Ee)
      as [ns' ->]. apply Hfin; done.
  - assert (known q = true) as Hk.
    { destruct (known q) eqn:Ek; [done|]. apply expected_unknown in Ek. congruence. }
    destruct (shuffle_perm (x :: l)) as (l' & -> & Hp). cbn [mbind go_bind].
    apply Hfin; try done.
    + unfold expected_rcode. by rewrite Hk, orb_true_r.
    + unfold outcome. by rewrite Ee.
Qed.

(** C10: a query with a question is always answered, without a panic.  The
    reply repeats the identifier and the question, is authoritative, and holds
    only the records that the stores have for the name; without the TC bit it
    holds all of them, each once, fits the limit of the transport, and has at
    most one additional A record per target. *)
Theorem HandleMesos_answers network r log q qs :
  Questions r = q :: qs →
  ∃ log' m', HandleMesos res config network r log = (log', Ret m')
    ∧ Id m' = Id r ∧ Response m' = true ∧ Authoritative m' = true ∧ Questions m' = [q]
    ∧ (∀ rr, rr ∈ Answer m' → rr ∈ expected q)
    ∧ (Truncated m' = false →
         Answer m' ≡ₚ expected q ∧ NoDup (Hdr_Name ∘ Header <$> Extra m')
         ∧ (Len m' ≤ if isUDP network then MinMsgSize else MaxMsgSize)%Z).
Proof.
  intros Hq. destruct (HandleMesos_props network r log q qs Hq)
    as (m & m' & errs & -> & [R1 R2 R3 R4 R5 R6 R7 R8 [S1 S2 S3 S4 S5 S6 S7 S8] [k Hk] Hw]).
  eexists _, m'. split; [done|]. split_and!; try congruence.
  - intros rr Hr. rewrite <-R7. rewrite Hk in Hr. by eapply subseteq_take.
  - intros Ht. destruct (Hw Ht) as (-> & -> & ?). done.
Qed.

Lemma has_hosts rg k n h : is_store k = true → has rg k n h ↔ h ∈ hosts (kind_rrs k rg) n.
Proof.
  intros _. unfold has, hosts, in_rrs. destruct (kind_rrs k rg) as [rr|]; cbn.
  - destruct (rr !! n) as [v|] eqn:E; cbn; [naive_solver|].
    split; [intros (? & [= <-] & ? & ? & _); congruence|set_solver].
  - split; [by intros (? & [=] & _)|set_solver].
Qed.

(** The name of the question has no record of any type. *)
Definition nameless (q : Question) : Prop :=
  ∀ h, ¬ has (res_rg res) A (lookup_name q) h ∧ ¬ has (res_rg res) SRV (lookup_name q) h.

(** The response code for every type: NXDOMAIN is sent exactly when the name
    has no record and the type is none of SOA, NS, SRV and AAAA. *)
Theorem HandleMesos_rcode_all network r log q qs :
  Questions r = q :: qs →
  ∃ log' m', HandleMesos res config network r log = (log', Ret m')
    ∧ (Rcode m' = RcodeSuccess ∨ Rcode m' = RcodeNameError)
    ∧ (Rcode m' = RcodeNameError ↔
         Q_Qtype q ∉ [TypeSOA; TypeNS; TypeSRV; TypeAAAA] ∧ nameless q).
Proof.
  intros Hq. destruct (HandleMesos_props network r log q qs Hq)
    as (m & m' & errs & -> & [_ _ _ _ _ R6 _ _ [_ _ _ _ _ S6 _ _] _ _]).
  eexists _, m'. split; [done|]. rewrite S6, R6. unfold expected_rcode, no_error_type.
  assert (known q = false ↔ nameless q) as Hk.
  { pose proof (λ k, has_hosts (res_rg res) k (lookup_name q)) as Hh.
    unfold known, nameless. rewrite Nat.ltb_ge.
    change (SRVs (res_rg res)) with (kind_rrs SRV (res_rg res)).
    change (As (res_rg res)) with (kind_rrs A (res_rg res)).
    transitivity (hosts (kind_rrs SRV (res_rg res)) (lookup_name q) ≡ ∅
      ∧ hosts (kind_rrs A (res_rg res)) (lookup_name q) ≡ ∅).
    - rewrite <-!size_empty_iff. lia.
    - split.
      + intros [E1 E2] h. rewrite !Hh by done. set_solver.
      + intros Hno. split; intros h; specialize (Hno h); rewrite !Hh in Hno by done; set_solver. }
  rewrite <-Hk. case_bool_decide; cbn [orb].
  - split; [by left|]. split; [done|tauto].
  - destruct (known q); (split; [by auto|]); split; naive_solver.
Qed.

(** C11: the response code for the types of record that the zone serves.  A
    query for an address is answered with NXDOMAIN exactly when its name has no
    record of any type, and with success otherwise; a query for SRV, SOA or NS
    records is always answered with success; a query of another type, AAAA
    apart, for a name without records is answered with NXDOMAIN. *)
Theorem HandleMesos_rcode network r log q qs :
  Questions r = q :: qs →
  ∃ log' m', HandleMesos res config network r log = (log', Ret m')
    ∧ (Rcode m' = RcodeSuccess ∨ Rcode m' = RcodeNameError)
    ∧ (Q_Qtype q = TypeA → (Rcode m' = RcodeNameError ↔ nameless q))
    ∧ (Q_Qtype q ∈ [TypeSRV; TypeSOA; TypeNS] → Rcode m' = RcodeSuccess)
    ∧ (Q_Qtype q ∉ [TypeA; TypeSRV; TypeSOA; TypeNS; TypeAAAA] → nameless q →
         Rcode m' = RcodeNameError).
Proof.
  intros Hq. destruct (HandleMesos_rcode_all network r log q qs Hq) as (log' & m' & Hm & Hrc & Hnx).
  exists log', m'. split_and!; [done..| | |].
  - intros Ht. rewrite Hnx, Ht. split; [tauto|]. intros Hn. split; [|done]. by vm_compute; set_solver.
  - intros Ht. destruct Hrc as [?|[Hno _]%Hnx]; [done|]. destruct Hno. set_solver.
  - intros Ht Hn. apply Hnx. split; [|done]. set_solver.
Qed.

(** Every query counts once as a request and once as exactly one of
    success and NXDOMAIN, and no counter of external queries moves. *)
Theorem HandleMesos_counters network r log q qs :
  Questions r = q :: qs →
  let log' := (HandleMesos res config network r log).1 in
  log' MesosRequests = ((log MesosRequests + 1) mod 2 ^ 64)%Z
  ∧ (log' MesosSuccess = ((log MesosSuccess + 1) mod 2 ^ 64)%Z ∧ log' MesosNXDomain = log MesosNXDomain
     ∨ log' MesosNXDomain = ((log MesosNXDomain + 1) mod 2 ^ 64)%Z ∧ log' MesosSuccess = log MesosSuccess)
  ∧ Forall (λ c, log' c = log c)
      [NonMesosRequests; NonMesosSuccess; NonMesosNXDomain; NonMesosFailed; NonMesosForwarded].
Proof.
  intros Hq. destruct (HandleMesos_props network r log q qs Hq) as (m & m' & errs & -> & _).
  cbn [fst]. unfold mesos_log.
  assert (outcome q = MesosSuccess ∨ outcome q = MesosNXDomain) as Ho.
  { unfold outcome. repeat case_match; auto. }
  unfold Inc. destruct Ho as [-> | ->], (multiError_Nil errs); cbn;
    (split_and!; [done|auto|by repeat constructor]).
Qed.

Lemma elem_of_order loop (v : gset string) x : x ∈ order loop v ↔ x ∈ v.
Proof. rewrite order_perm. apply elem_of_elements. Qed.

(** The records that an A query asks for: one per stored address. *)
Lemma expected_A q rr :
  Q_Qtype q = TypeA →
  rr ∈ expected q ↔ ∃ a, has (res_rg res) A (lookup_name q) a ∧ formatA res (lookup_name q) a = inl rr.
Proof.
  intros Ht. unfold expected. rewrite Ht. cbn -[a_rrs]. unfold a_rrs. rewrite list_elem_of_omap.
  split.
  - intros (a & Ha & Hf). exists a. split.
    + apply has_hosts; [done|]. by apply elem_of_order in Ha.
    + by destruct (formatA _ _ a); [injection Hf as ->|].
  - intros (a & Ha & Hf). exists a. rewrite elem_of_order. apply has_hosts in Ha; [|done].
    by rewrite Hf.
Qed.

(** Every query handed to the server is answered with its identifier,
    also when a handler panics: a message without a question gets a server
    failure. *)
Theorem queries_are_answered network r log :
  let m := panicRecover r (HandleMesos res config network r log).2 in
  Id m = Id r ∧ Response m = true
  ∧ (Questions r = [] → Rcode m = RcodeServerFailure)
  ∧ (Questions r ≠ [] → Rcode m = RcodeSuccess ∨ Rcode m = RcodeNameError).
Proof.
  cbv zeta. destruct (Questions r) as [|q qs] eqn:Hq.
  - unfold HandleMesos. rewrite Hq. cbn. done.
  - destruct (HandleMesos_props network r log q qs Hq)
      as (m & m' & errs & -> & [R1 R2 _ _ _ R6 _ _ [S1 S2 _ _ _ S6 _ _] _ _]).
    cbn [snd panicRecover]. split_and!; [congruence|congruence|done|]. intros _.
    rewrite S6, R6. unfold expected_rcode. destruct (_ || _); auto.
Qed.

(** The REST answer for a host is the store's: when the cleaned name is
    not empty, [RestHost] lists every address of the name exactly once, or the
    one empty record for an unknown name; it counts a request, and a success
    exactly when the name is known, for a name in the zone. *)
Theorem RestHost_spec host log dom :
  rest_name host = Ret dom →
  ∃ records log', RestHost res config host log = Ret (records, log')
    ∧ ((∀ ip, ¬ has (res_rg res) A dom ip) → records = [("", "")])
    ∧ ((∃ ip, has (res_rg res) A dom ip) →
         NoDup records ∧ ∀ n ip, (n, ip) ∈ records ↔ n = dom ∧ has (res_rg res) A dom ip)
    ∧ (HasSuffix dom (Domain config +:+ ".") = true →
         log' MesosRequests = ((log MesosRequests + 1) mod 2 ^ 64)%Z
         ∧ ((∃ ip, has (res_rg res) A dom ip) →
              log' MesosSuccess = ((log MesosSuccess + 1) mod 2 ^ 64)%Z)).
Proof.
  intros Hd. unfold RestHost. rewrite Hd. cbn [mbind go_bind].
  pose proof (λ h, has_hosts (res_rg res) A dom h eq_refl) as Hh. cbn [kind_rrs] in Hh.
  set (v := hosts (As (res_rg res)) dom) in *. eexists _, _. split; [reflexivity|].
  assert (∀ x, x ∈ (λ ip, (dom, ip)) <$> order "rest" v ↔ x.1 = dom ∧ has (res_rg res) A dom x.2) as Hin.
  { intros [n ip]. rewrite list_elem_of_fmap. setoid_rewrite elem_of_order. setoid_rewrite <-Hh.
    cbn. naive_solver. }
  split_and!.
  - intros Hno. destruct ((λ ip, (dom, ip)) <$> order "rest" v) as [|x l]; [done|].
    destruct (Hno x.2). by apply (Hin x); left.
  - intros [ip Hip]. assert ((dom, ip) ∈ (λ ip, (dom, ip)) <$> order "rest" v) as Hx by (by apply Hin).
    assert (NoDup ((λ ip, (dom, ip)) <$> order "rest" v)) as Hnd.
    { apply NoDup_fmap_2; [by intros ?? [=]|]. rewrite order_perm. apply NoDup_elements. }
    destruct ((λ ip, (dom, ip)) <$> order "rest" v) as [|x l]; [by apply elem_of_nil in Hx|].
    split; [done|]. intros n ip'. apply (Hin (n, ip')).
  - intros Hz. unfold stats. rewrite Hz. split.
    + destruct (0 <? size v)%nat; reflexivity.
    + intros [ip Hip]. apply Hh in Hip.
      rewrite (proj2 (Nat.ltb_lt 0 (size v))); [reflexivity|].
      destruct (size v) eqn:E; [|lia]. apply size_empty_inv in E. set_solver.
Qed.
End handlers.

(** C40: an external query that cannot be forwarded is refused, one for which
    every external server fails is answered with a server failure, and a reply
    of an external server is passed on with its code and its answers, cut only
    when it does not fit; each has the identifier of its message.  With external
    queries switched off, or over a transport other than udp and tcp, every
    query is refused without an exchange. *)
Theorem HandleNonMesos_replies {W} (client : Z → string → Exchange (W := W)) c network r
    (log : LogOut) (w : W) :
  let fwd := New_fwd client c in
  let '((m, err), st') := fwd r network (Inc NonMesosRequests log, w) in
  let out := (HandleNonMesos fwd network r (log, w)).2 in
  match err with
  | Some e => ∃ m', out = Ret m' ∧ Id m' = Id r ∧ Answer m' = []
      ∧ Rcode m' = match e with ForwardError _ _ => RcodeRefused | ExchangeError _ => RcodeServerFailure end
  | None => ∀ m1 max, m = Some m1 → max_size (set_Compress m1 true) (isUDP network) = Ret max →
      ∃ m', out = Ret m' ∧ same_reply m1 m' ∧ (∃ k, Answer m' = take k (Answer m1))
        ∧ (Truncated m' = false → Answer m' = Answer m1)
  end
  ∧ (Builtin.ExternalOn c = false ∨ network ∉ ["udp"; "tcp"] →
       st' = (Inc NonMesosRequests log, w) ∧ ∃ addrs, err = Some (ForwardError addrs network)).
Proof.
  cbv zeta. unfold HandleNonMesos.
  destruct (New_fwd client c r network (Inc NonMesosRequests log, w)) as [[m err] [log' w']] eqn:Ef.
  split.
  - destruct err as [e|].
    + destruct (reply_props network (SetRcode Msg0 r (rcode e)) _
        (max_size_no_opt (set_Compress (SetRcode Msg0 r (rcode e)) true) _ (Forall_nil_2 _)))
        as (m' & -> & [S1 _ _ _ _ S6 _ _] & _ & [k Hk] & _).
      exists m'. split_and!; [done|done| |rewrite S6; by destruct e].
      rewrite Hk. cbn. by rewrite take_nil.
    + intros m1 max -> Hmax. cbn [snd].
      destruct (reply_props network m1 max Hmax) as (m' & -> & Hs & _ & Hk & Ht).
      exists m'. split_and!; [done..|]. intros H. by destruct (Ht H).
  - intros Hoff. unfold New_fwd, NewForwarder in Ef. destruct Hoff as [Hoff|Hnet].
    + unfold forward_addrs in Ef. rewrite Hoff in Ef. cbn [length Nat.eqb] in Ef.
      destruct (_ !! network); injection Ef as <- <- <- <-; eauto.
    + assert (exchangers client (exchange_timeout c) ["udp"; "tcp"] !! network = None) as Hn.
      { unfold exchangers. cbn [foldl]. by rewrite !lookup_insert_ne by set_solver. }
      rewrite Hn in Ef. injection Ef as <- <- <- <-. eauto.
Qed.

(** ** A small zone *)

Module DemoZone.
#[local] Instance ascii_tables : UnicodeTables := {| unicode_ToLower := λ s, s |}.

#[export] Instance sorted_order : MapOrder.
Proof. refine {| order := λ _ s, elements s |}. done. Defined.

#[export] Instance no_rand : Rand.
Proof. refine {| intn := λ _ _, 0%nat |}. done. Defined.

Definition rg : RecordGenerator :=
  {| As := Some {["a.mesos." := {["10.0.0.1"; "10.0.0.2"]}]}; SRVs := Some ∅;
     rg_State := State0; SlaveIPs := Some ∅; EnumData := [] |}.

Definition res : Resolver :=
  {| res_version := "1"; res_config := Builtin.NewConfig; res_rg := rg |}.

Definition query (name : string) (t : Z) : Msg :=
  {| Id := 7; Response := false; Opcode := 0; Authoritative := false; Truncated := false;
     RecursionDesired := true; RecursionAvailable := false; Zero := false;
     AuthenticatedData := false; CheckingDisabled := false; Rcode := 0; Compress := false;
     Questions := [{| Q_Name := name; Q_Qtype := t; Q_Qclass := ClassINET |}];
     Answer := []; Ns := []; Extra := [] |}.

Lemma HandleMesos_answers_witness :
  ∃ log' m', HandleMesos res (NewConfig 0) "udp" (query "A.mesos." TypeA) CurLog = (log', Ret m')
    ∧ Id m' = 7%Z.
Proof.
  destruct (HandleMesos_answers res (NewConfig 0) "udp" (query "A.mesos." TypeA) CurLog
    {| Q_Name := "A.mesos."; Q_Qtype := TypeA; Q_Qclass := ClassINET |} [] eq_refl)
    as (log' & m' & H1 & H2 & _).
  exists log', m'. exact (conj H1 H2).
Defined.

Lemma HandleMesos_rcode_witness :
  ∃ log' m', HandleMesos res (NewConfig 0) "udp" (query "b.mesos." TypeA) CurLog = (log', Ret m')
    ∧ (Rcode m' = RcodeNameError ↔
       nameless res {| Q_Name := "b.mesos."; Q_Qtype := TypeA; Q_Qclass := ClassINET |}).
Proof.
  destruct (HandleMesos_rcode res (NewConfig 0) "udp" (query "b.mesos." TypeA) CurLog
    {| Q_Name := "b.mesos."; Q_Qtype := TypeA; Q_Qclass := ClassINET |} [] eq_refl)
    as (log' & m' & H1 & _ & H2 & _).
  exists log', m'. split; [exact H1|]. exact (H2 eq_refl).
Defined.

Lemma HandleMesos_counters_witness :
  (HandleMesos res (NewConfig 0) "udp" (query "b.mesos." TypeA) CurLog).1 MesosRequests = 1%Z.
Proof.
  exact (proj1 (HandleMesos_counters res (NewConfig 0) "udp" (query "b.mesos." TypeA) CurLog
    {| Q_Name := "b.mesos."; Q_Qtype := TypeA; Q_Qclass := ClassINET |} [] eq_refl)).
Defined.

Lemma RestHost_spec_witness :
  ∃ records log', RestHost res (NewConfig 0) "A.mesos" CurLog = Ret (records, log')
    ∧ ((∃ ip, has rg A "a.mesos." ip) → NoDup records).
Proof.
  destruct (RestHost_spec res (NewConfig 0) "A.mesos" CurLog "a.mesos." eq_refl)
    as (records & log' & H1 & _ & H2 & _).
  exists records, log'. split; [exact H1|]. intros H. exact (proj1 (H2 H)).
Defined.

(** The reply to an A query, and to a query for a missing name. *)
Example two_addresses :
  match (HandleMesos res (NewConfig 0) "udp" (query "A.mesos." TypeA) CurLog).2 with
  | Ret m => length (Answer m) = 2%nat ∧ Rcode m = RcodeSuccess
  | Panic _ => False
  end.
Proof. by vm_compute. Qed.

Example missing_name :
  match (HandleMesos res (NewConfig 0) "udp" (query "b.mesos." TypeA) CurLog).2 with
  | Ret m => Answer m = [] ∧ Rcode m = RcodeNameError
  | Panic _ => False
  end.
Proof. by vm_compute. Qed.
End DemoZone.
