(* ===== verification/Server.v ===== *)
(** * Serving queries (src/resolvers/builtin/resolver.go, vendored dns server)

    How a query reaches a handler: the handlers that [LaunchDNS] registers,
    the match of a name against them ([ServeMux]), and the routes of the HTTP
    interface.  Listening on sockets and the framing of messages are left
    out. *)

From S2P Require Import Prelude GoStrings GoNet Labels State Config Store Dns Exchanger.
From S2P Require Import Resolver ResolverProps.

(** ** The multiplexer (vendored) *)

Definition TypeDS : Z := 43.

Definition IsFqdn (s : string) : bool :=
  match last (bytes s) with Some c => bool_decide (c = "."%char) | None => false end.

Definition Fqdn (s : string) : string := if IsFqdn s then s else s +:+ ".".

(** The two handlers of the program. *)
Inductive handler := Mesos | NonMesos.

Abbreviation ServeMux := (gmap string handler).

Definition Handle (pattern : string) (h : handler) (z : ServeMux) : ServeMux :=
  <[Fqdn pattern := h]> z.

(** The key of a rest of a name: its ASCII letters in lower case. *)
Definition lower_key (q : string) : string := str (lower_byte <$> bytes q).

(** The loop over the labels of a name: the handler that is returned at once,
    or the last one that was remembered.  Every round drops a label, so the
    length of the name bounds the rounds. *)
Fixpoint match_labels (fuel : nat) (z : ServeMux) (q : string) (t : Z) (h : option handler) :
    handler + option handler :=
  match z !! lower_key q, (t =? TypeDS)%Z with
  | Some h', false => inl h'
  | o, _ =>
      let h := match o with Some h' => Some h' | None => h end in
      match fuel with
      | 0 => inr h
      | S fuel =>
          let '(r, e) := NextLabel q in
          if e then inr h else match_labels fuel z r t h
      end
  end.

Definition match_ (z : ServeMux) (q : string) (t : Z) : option handler :=
  match match_labels (String.length q) z q t None with
  | inl h => Some h
  | inr h => match z !! "." with Some h' => Some h' | None => h end
  end.

(** [HandleFailed] *)
Definition HandleFailed (r : Msg) : Msg := SetRcode Msg0 r RcodeServerFailure.

(** ** The server of a resolver *)

(** The registrations of [LaunchDNS]. *)
Definition LaunchDNS (domain : string) : ServeMux :=
  Handle "." NonMesos (Handle (domain +:+ ".") Mesos ∅).

(** The address that [Serve] and [LaunchHTTP] listen on. *)
Definition dns_address (c : Builtin.Config) : string :=
  JoinHostPort (Builtin.Listener c) (Itoa (Builtin.Port c)).
Definition http_address (c : Builtin.Config) : string :=
  JoinHostPort (Builtin.HTTPListener c) (Itoa (Builtin.HTTPPort c)).

Section serve.
Context `{UnicodeTables, MapOrder, Rand} {W : Type}.
Context (res : Resolver) (config : Config) (fwd : Forwarder (W := W)).

(** [ServeDNS] with the handlers of [LaunchDNS]: the state of counters and
    world, and the reply. *)
Definition serve (z : ServeMux) (network : string) (r : Msg) (st : LogOut * W) :
    (LogOut * W) * Msg :=
  match Questions r with
  | [] => (st, HandleFailed r)
  | q :: _ =>
      match match_ z (Q_Name q) (Q_Qtype q) with
      | None => (st, HandleFailed r)
      | Some Mesos =>
          let '(log, out) := HandleMesos res config network r st.1 in
          ((log, st.2), panicRecover r out)
      | Some NonMesos =>
          let '(st, out) := HandleNonMesos fwd network r st in (st, panicRecover r out)
      end
  end.
End serve.

(** ** The HTTP interface *)

Inductive rest_handler :=
| RestVersionH | RestConfigH | RestHostH | RestPortsH | RestServiceH | RestEnumerateH | RestAXFRH.

(** The GET routes, in the order they are added. *)
Definition configureHTTP (c : Builtin.Config) : list (string * rest_handler) :=
  [("/v1/version", RestVersionH); ("/v1/config", RestConfigH); ("/v1/hosts/{host}", RestHostH);
   ("/v1/hosts/{host}/ports", RestPortsH); ("/v1/services/{service}", RestServiceH)]
  ++ (if Builtin.EnumerationOn c
      then [("/v1/enumerate", RestEnumerateH); ("/v1/axfr", RestAXFRH)] else []).

(** ** Properties *)

(** A name is in the zone [domain] when one of its label-wise suffixes is
    [domain.], up to the case of ASCII letters. *)
Definition in_zone (domain q : string) : bool :=
  existsb (λ s, bool_decide (lower_key s = domain +:+ ".")) (label_rests (String.length q) q).

Lemma IsFqdn_dot s : IsFqdn (s +:+ ".") = true.
Proof. unfold IsFqdn. rewrite bytes_app. change (bytes ".") with ["."%char]. by rewrite last_snoc. Qed.

Lemma LaunchDNS_lookup domain k :
  domain ≠ "" →
  LaunchDNS domain !! k =
    if bool_decide (k = ".") then Some NonMesos
    else if bool_decide (k = domain +:+ ".") then Some Mesos else None.
Proof.
  intros Hd. unfold LaunchDNS, Handle, Fqdn. rewrite IsFqdn_dot. change (IsFqdn ".") with true.
  cbv iota. case_bool_decide as Hk; [subst k; by rewrite lookup_insert_eq|].
  rewrite lookup_insert_ne by done. case_bool_decide as Hk2; [subst k; by rewrite lookup_insert_eq|].
  by rewrite lookup_insert_ne.
Qed.

Lemma domain_not_root domain : domain ≠ "" → domain +:+ "." ≠ ".".
Proof. intros Hd E. apply Hd. by apply (inj (λ s, s +:+ ".") domain ""). Qed.

(** The rest after a label is shorter. *)
Lemma next_label_length quote t r :
  next_label quote t = (r, false) → (String.length r < String.length t)%nat.
Proof.
  revert quote. induction t as [|c t IH]; intros quote; cbn [next_label]; [done|].
  destruct t as [|d t]; [done|]. cbn [String.length] in *.
  repeat case_match; intros Hr; try (apply IH in Hr; lia). injection Hr as <-. cbn. lia.
Qed.

Lemma label_rests_root fuel q : lower_key q = "." → label_rests fuel q = [q].
Proof.
  intros Hq. assert (String.length q = 1%nat) as Hl.
  { apply (f_equal bytes) in Hq. unfold lower_key in Hq. rewrite bytes_str in Hq.
    rewrite <-length_bytes, <-(length_fmap lower_byte), Hq. done. }
  destruct q as [|c [|d q]]; [done| |done]. by destruct fuel.
Qed.

Lemma label_rests_head fuel t : t ∈ label_rests fuel t.
Proof. destruct fuel; cbn; [by left|]. destruct (NextLabel t). by left. Qed.

Lemma next_label_app a s :
  "\"%char ∉ bytes a → "."%char ∉ bytes a → s ≠ "" → next_label false (a +:+ "." +:+ s) = (s, false).
Proof.
  intros Hq Hd Hs. induction a as [|c a IH].
  - cbn. by destruct s.
  - cbn [bytes] in Hq, Hd. rewrite not_elem_of_cons in Hq, Hd.
    change (String c a +:+ "." +:+ s) with (String c (a +:+ "." +:+ s)). cbn [next_label].
    destruct (a +:+ "." +:+ s) as [|d u] eqn:E; [by destruct a|].
    rewrite !bool_decide_false by naive_solver. apply IH; tauto.
Qed.

(** Dropping whole labels from the front of a name yields one of its rests. *)
Lemma label_rests_suffix fuel a s :
  "\"%char ∉ bytes a → s ≠ "" → (String.length a < fuel)%nat →
  s ∈ label_rests fuel (a +:+ "." +:+ s).
Proof.
  revert a. induction fuel as [|fuel IH]; intros a Ha Hs Hf; [lia|]. cbn [label_rests].
  unfold NextLabel. destruct (decide ("."%char ∈ bytes a)) as [Hd|Hd].
  - apply list_elem_of_split_l in Hd as (l1 & l2 & Hl & Ha1).
    assert (a = str l1 +:+ "." +:+ str l2) as ->.
    { apply (inj bytes). by rewrite Hl, !bytes_app, !bytes_str. }
    rewrite <-(bytes_str l1) in Ha1. set (a1 := str l1) in *. set (a2 := str l2) in *.
    rewrite !bytes_app, !elem_of_app in Ha. rewrite <-!app_string_assoc.
    rewrite next_label_app; [|tauto|done|by destruct a2].
    right. apply IH; [tauto|done|]. rewrite !length_app_string in Hf. cbn in Hf. lia.
  - rewrite next_label_app by done. right. apply label_rests_head.
Qed.

Lemma lower_key_app s t : lower_key (s +:+ t) = lower_key s +:+ lower_key t.
Proof. unfold lower_key. by rewrite bytes_app, fmap_app, str_app. Qed.

(** A name of whole labels before the domain is in the zone, in any case. *)
Lemma in_zone_name domain a d :
  "\"%char ∉ bytes a → lower_key d = domain → in_zone domain (a +:+ "." +:+ d +:+ ".") = true.
Proof.
  intros Ha Hd. apply existsb_exists. exists (d +:+ "."). split.
  - apply list_elem_of_In, label_rests_suffix; [done|by destruct d|].
    rewrite !length_app_string. cbn. lia.
  - rewrite lower_key_app, Hd. by apply bool_decide_eq_true.
Qed.

Section routing.
Context (domain : string) (Hdomain : domain ≠ "").

Abbreviation zone_rest := (λ s, bool_decide (lower_key s = domain +:+ ".")).

Lemma match_labels_zone fuel q t :
  t ≠ TypeDS →
  if existsb zone_rest (label_rests fuel q)
  then match_labels fuel (LaunchDNS domain) q t None = inl Mesos
  else match_labels fuel (LaunchDNS domain) q t None = inl NonMesos
       ∨ match_labels fuel (LaunchDNS domain) q t None = inr None.
Proof.
  intros Ht%Z.eqb_neq. pose proof (domain_not_root domain Hdomain) as Hroot.
  revert q. induction fuel as [|fuel IH]; intros q.
  - cbn [match_labels label_rests existsb]. rewrite LaunchDNS_lookup, Ht by done.
    repeat case_bool_decide; cbn [orb]; auto; congruence.
  - destruct (decide (lower_key q = ".")) as [Hq|Hq].
    + rewrite (label_rests_root _ _ Hq). cbn [match_labels existsb].
      rewrite LaunchDNS_lookup, Ht by done. rewrite Hq.
      rewrite (bool_decide_false (_ = domain +:+ ".")) by congruence.
      rewrite bool_decide_true by done. cbn [orb]. auto.
    + cbn [match_labels label_rests]. rewrite LaunchDNS_lookup, Ht by done.
      rewrite (bool_decide_false (lower_key q = ".")) by done. destruct (NextLabel q) as [r e].
      cbn [existsb]. case_bool_decide; [done|]. cbn [orb].
      destruct e; [cbn; auto|apply IH].
Qed.

Lemma match_labels_DS fuel q h :
  ∃ h', match_labels fuel (LaunchDNS domain) q TypeDS h = inr h'.
Proof.
  revert q h. induction fuel as [|fuel IH]; intros q h; cbn [match_labels];
    destruct (LaunchDNS domain !! lower_key q); cbn; eauto;
    destruct (NextLabel q) as [r []]; eauto.
Qed.

(** The match of the multiplexer. *)
Lemma match_zone q t :
  match_ (LaunchDNS domain) q t =
    Some (if in_zone domain q && negb (t =? TypeDS)%Z then Mesos else NonMesos).
Proof.
  unfold match_. rewrite (LaunchDNS_lookup _ "."), bool_decide_true by done.
  destruct (Z.eqb_spec t TypeDS) as [->|Ht].
  - destruct (match_labels_DS (String.length q) q None) as [h ->]. by rewrite andb_false_r.
  - rewrite andb_true_r. pose proof (match_labels_zone (String.length q) q t Ht) as Hm.
    unfold in_zone. destruct (existsb _ _); [by rewrite Hm|]. by destruct Hm as [-> | ->].
Qed.

Context `{UnicodeTables, MapOrder, Rand} {W : Type}.
Context (res : Resolver) (config : Config) (fwd : Forwarder (W := W)).

(** C12: a query for a name in the domain, of any type but DS, is answered by
    the handler for the cluster: the external servers are not asked, the
    reply has the identifier of the query and succeeds or denies the name.
    Every other query goes to the forwarder, and a message without a question
    is answered with a server failure. *)
Theorem queries_are_routed network r log (w : W) :
  let out := serve res config fwd (LaunchDNS domain) network r (log, w) in
  match Questions r with
  | [] => out = ((log, w), HandleFailed r) ∧ Rcode (HandleFailed r) = RcodeServerFailure
  | q :: _ =>
      if in_zone domain (Q_Name q) && negb (Q_Qtype q =? TypeDS)%Z
      then out.1.2 = w ∧ Id out.2 = Id r ∧ Response out.2 = true
           ∧ out.2 = panicRecover r (HandleMesos res config network r log).2
           ∧ (Rcode out.2 = RcodeSuccess ∨ Rcode out.2 = RcodeNameError)
      else out = ((HandleNonMesos fwd network r (log, w)).1,
                  panicRecover r (HandleNonMesos fwd network r (log, w)).2)
  end.
Proof.
  cbv zeta. unfold serve. destruct (Questions r) as [|q qs] eqn:Hq; [done|].
  rewrite match_zone. destruct (_ && _).
  - cbn [fst snd].
    destruct (HandleMesos_props res config network r log q qs Hq)
      as (m & m' & errs & -> & [R1 R2 _ _ _ R6 _ _ [S1 S2 _ _ _ S6 _ _] _ _]).
    cbn [snd fst panicRecover]. split_and!; [done|congruence|congruence|done|].
    rewrite S6, R6. unfold expected_rcode. destruct (_ || _); auto.
  - by destruct (HandleNonMesos fwd network r (log, w)).
Qed.
End routing.

(** A forwarder without servers. *)
Definition no_forwarder : Forwarder (W := unit) :=
  λ r network st, ((None, Some (ForwardError [] network)), st).

Lemma queries_are_routed_witness :
  let r := DemoZone.query "a.MESOS." TypeA in
  let out := @serve DemoZone.ascii_tables DemoZone.sorted_order DemoZone.no_rand unit
    DemoZone.res (NewConfig 0) no_forwarder (LaunchDNS "mesos") "udp" r (CurLog, ()) in
  out.1.2 = () ∧ Id out.2 = Id r.
Proof.
  pose proof (@queries_are_routed "mesos" ltac:(discriminate) DemoZone.ascii_tables
    DemoZone.sorted_order DemoZone.no_rand unit DemoZone.res (NewConfig 0) no_forwarder "udp"
    (DemoZone.query "a.MESOS." TypeA) CurLog ()) as Hr.
  cbv zeta in Hr. cbn [Questions DemoZone.query] in Hr.
  replace (in_zone _ _ && _) with true in Hr by (vm_compute; reflexivity).
  destruct Hr as (Hw & Hid & _). exact (conj Hw Hid).
Defined.
