(* ===== verification/EndToEnd.v ===== *)
(** * From a running task to a DNS answer

    The generator and the resolver together: a task of the state that a
    generation took its records from is found by a query for its name. *)

From S2P Require Import Prelude GoStrings GoNet Labels Chains State Hash Config Store.
From S2P Require Import Generator GeneratorSpec GeneratorMasters GeneratorProps Dns Exchanger Resolver ResolverProps.
From S2P Require Import Server.

(** ** The answer of the handler *)

(** The address of the task [t] on a slave with the address [ip]. *)
Abbreviation task_address t ip srcs := (Task_IP (set_SlaveIP t ip) srcs).

Section answer.
Context `{UnicodeTables, MapOrder, Rand}.

(** An A query for a name that has the host [a], which parses, succeeds and is
    answered with its address, unless the reply is truncated. *)
Lemma A_query_answered res c network r log q qs a :
  Questions r = q :: qs → Q_Qtype q = TypeA →
  has (res_rg res) A (lookup_name q) a → ParseIP a ≠ [] →
  ∃ log' m' h, HandleMesos res c network r log = (log', Ret m')
    ∧ Id m' = Id r ∧ Rcode m' = RcodeSuccess
    ∧ (Truncated m' = true ∨ RR_A h (To4 (ParseIP a)) ∈ Answer m').
Proof.
  intros Hq Hty Hhas Hp.
  destruct (HandleMesos_props res c network r log q qs Hq)
    as (m & m' & errs & -> & [R1 _ _ _ _ R6 R7 _ [S1 _ _ _ _ S6 _ _] _ Hw]).
  assert (known res q = true) as Hk.
  { destruct (known res q) eqn:Ek; [done|]. unfold known in Ek. apply Nat.ltb_ge in Ek.
    apply has_hosts in Hhas; [|done]. cbn [kind_rrs] in Hhas.
    assert (size (hosts (As (res_rg res)) (lookup_name q)) = 0%nat) as Hz by lia.
    apply size_empty_inv in Hz. set_solver. }
  destruct (formatA res (lookup_name q) a) as [rr|] eqn:Ef.
  2:{ unfold formatA in Ef. by destruct (ParseIP a). }
  assert (rr ∈ expected res q) as Hrr by (apply expected_A; eauto).
  unfold formatA in Ef. destruct (ParseIP a) as [|b bs] eqn:Ea; [done|]. injection Ef as <-.
  eexists _, m', _. split; [done|]. split; [by rewrite S1, R1|]. split.
  - rewrite S6, R6. unfold expected_rcode. by rewrite Hk, orb_true_r.
  - destruct (Truncated m') eqn:Etr; [by left|right].
    destruct (Hw eq_refl) as (-> & _ & _). rewrite R7. exact Hrr.
Qed.

(** The name and the address that a generation publishes a running task
    under. *)
Lemma running_task_has resolve domain spec sj masters srcs now rg c rg' c' e f t ip :
  InsertState resolve domain spec sj masters srcs now rg c = Ret (rg', c', e) → spec "" = Ret "" →
  f ∈ Frameworks sj → t ∈ Tasks f → Task_State t = "TASK_RUNNING" →
  default ∅ (SlaveIPs rg') !! SlaveID t = Some ip →
  ∃ ctx fname, published spec srcs t ip ctx
    ∧ DomainFrag (Framework_Name f) Sep spec = Ret fname
    ∧ (ParseIP (task_address t ip srcs) ≠ [] →
       has rg' A (ctx_taskName ctx +:+ "." +:+ fname +:+ "." +:+ domain +:+ ".")
         (task_address t ip srcs)).
Proof.
  intros Hi Hs Hf Ht Hrun Hip.
  destruct (running_task_props _ _ _ _ _ _ _ _ _ _ _ _ _ _ _ Hi Hs Hf Ht Hrun Hip)
    as (ctx & fname & ports & Hpub & Hfn & _ & Ha & _).
  exists ctx, fname. split_and!; [done..|]. intros Hp.
  apply Ha; [|by intros E; rewrite E in Hp]. unfold a_recs, tail_of.
  rewrite (pub_taskIP _ _ _ _ _ Hpub). rewrite <-!app_string_assoc. by left.
Qed.
End answer.

(** C2: a running task on a known slave, with an address that parses, is
    found by its name: once its generation is loaded into the resolver, an A
    query for [task.framework.domain] that reaches the server, in any case and
    with or without wildcards, succeeds without asking an external server, and
    the answer holds the task's address unless the reply is truncated. *)
Theorem running_task_resolves `{UnicodeTables, MapOrder, Rand} {W} (fwd : Forwarder (W := W))
    resolve domain spec sj masters srcs now rg c rg' c' e f t ip :
  InsertState resolve domain spec sj masters srcs now rg c = Ret (rg', c', e) → spec "" = Ret "" →
  domain ≠ "" → f ∈ Frameworks sj → t ∈ Tasks f → Task_State t = "TASK_RUNNING" →
  default ∅ (SlaveIPs rg') !! SlaveID t = Some ip →
  ∃ ctx fname, published spec srcs t ip ctx
    ∧ DomainFrag (Framework_Name f) Sep spec = Ret fname
    ∧ ∀ res network r log (w : W) q qs,
        Questions r = q :: qs → Q_Qtype q = TypeA → in_zone domain (Q_Name q) = true →
        lookup_name q = ctx_taskName ctx +:+ "." +:+ fname +:+ "." +:+ domain +:+ "." →
        ParseIP (Task_IP (set_SlaveIP t ip) srcs) ≠ [] →
        ∃ log' m' h,
          serve (Reload res rg') c' fwd (LaunchDNS domain) network r (log, w) = ((log', w), m')
          ∧ Rcode m' = RcodeSuccess
          ∧ (Truncated m' = true
             ∨ RR_A h (To4 (ParseIP (Task_IP (set_SlaveIP t ip) srcs))) ∈ Answer m').
Proof.
  intros Hi Hs Hdom Hf Ht Hrun Hip.
  destruct (running_task_has _ _ _ _ _ _ _ _ _ _ _ _ _ _ _ Hi Hs Hf Ht Hrun Hip)
    as (ctx & fname & Hpub & Hfn & Ha).
  exists ctx, fname. split_and!; [done..|]. intros res network r log w q qs Hq Hty Hzone Hname Hp.
  unfold serve. rewrite Hq, match_zone, Hzone, Hty by done. cbn [fst snd].
  specialize (Ha Hp). rewrite <-Hname in Ha.
  destruct (A_query_answered (Reload res rg') c' network r log q qs _ Hq Hty Ha Hp)
    as (log' & m' & h & -> & _ & Hrc & Han).
  by exists log', m', h.
Qed.

Lemma running_task_resolves_witness :
  ∃ log' m', @serve GeneratorProps.ascii_tables DemoZone.sorted_order DemoZone.no_rand unit
      (Reload DemoZone.res demo_rg) demo_config no_forwarder (LaunchDNS "mesos")
      "udp" (DemoZone.query "NGINX.Marathon.mesos." TypeA) (CurLog, ()) = ((log', ()), m')
    ∧ Rcode m' = RcodeSuccess.
Proof.
  destruct (@running_task_resolves GeneratorProps.ascii_tables DemoZone.sorted_order DemoZone.no_rand
    unit no_forwarder _ "mesos" _ _ _ _ _ _ _ _ _ _ demo_framework
    (demo_task "nginx.1" "TASK_RUNNING") "10.0.0.5" demo_eq) as (ctx & fname & Hp & Hf & H).
  - vm_compute. reflexivity.
  - discriminate.
  - apply list_elem_of_singleton. reflexivity.
  - left.
  - reflexivity.
  - vm_compute. reflexivity.
  - destruct (H DemoZone.res "udp" (DemoZone.query "NGINX.Marathon.mesos." TypeA) CurLog ()
      {| Q_Name := "NGINX.Marathon.mesos."; Q_Qtype := TypeA; Q_Qclass := ClassINET |} [])
      as (log' & m' & h & H1 & H2 & _).
    + reflexivity.
    + reflexivity.
    + vm_compute. reflexivity.
    + assert (ctx_taskName ctx = "nginx") as ->.
      { assert (RFC1123 "nginx" = Ret "nginx") as E by (vm_compute; reflexivity).
        pose proof (pub_name _ _ _ _ _ Hp) as E'.
        change (RFC1123 "nginx" = Ret (ctx_taskName ctx)) in E'. congruence. }
      assert (fname = "marathon") as ->.
      { assert (DomainFrag "Marathon" Sep RFC1123 = Ret "marathon") as E by (vm_compute; reflexivity).
        change (DomainFrag "Marathon" Sep RFC1123 = Ret fname) in Hf. congruence. }
      vm_compute. reflexivity.
    + vm_compute. discriminate.
    + exists log', m'. exact (conj H1 H2).
Defined.
