(* ===== verification/Detect.v ===== *)
(** * Master detection (src/detect/masters.go)

    The list of masters that the ZooKeeper detector keeps, the leader first,
    and the lists it emits.  The channel's other end is the main loop; an
    emission is the copy of the list that is sent. *)

From S2P Require Import Prelude GoStrings GoNet State.

(** ** Master infos (mesosproto) *)

Record Address := { Address_Ip : option string; Address_Port : option Z }.

Record MasterInfo := {
  MasterInfo_Ip : option Z; MasterInfo_Port : option Z; MasterInfo_Address : option Address }.

(** The getters give the default of an optional field. *)
Definition Address_GetIp (a : Address) : string := default "" (Address_Ip a).
Definition Address_GetPort (a : Address) : Z := default 0%Z (Address_Port a).
Definition MasterInfo_GetIp (i : MasterInfo) : Z := default 0%Z (MasterInfo_Ip i).
Definition MasterInfo_GetPort (i : MasterInfo) : Z := default 5050%Z (MasterInfo_Port i).

(** [byteOrder]: the byte order of the process. *)
Inductive ByteOrder := BigEndian | LittleEndian.

Definition big_bytes (v : Z) : list Z :=
  [Z.shiftr v 24 mod 256; Z.shiftr v 16 mod 256; Z.shiftr v 8 mod 256; v mod 256]%Z.

Definition PutUint32 (o : ByteOrder) (v : Z) : list Z :=
  match o with BigEndian => big_bytes v | LittleEndian => reverse (big_bytes v) end.

Definition masterAddr (o : ByteOrder) (info : option MasterInfo) : string :=
  match info with
  | None => ""
  | Some info =>
      let '(ip, port) :=
        match MasterInfo_Address info with
        | Some addr => (Address_GetIp addr, Address_GetPort addr)
        | None => (IP_String (PutUint32 o (MasterInfo_GetIp info)), MasterInfo_GetPort info)
        end in
      JoinHostPort ip (Itoa port)
  end.

(** ** The detector *)

(** [masters] of the detector. *)
Record Masters := { ms_masters : list string }.

Definition NewMasters (masters : list string) : Masters := {| ms_masters := "" :: masters |}.

Definition ordered (leader : string) (masters : list string) : list string :=
  foldl (λ ms m, if bool_decide (m = leader) then ms else ms ++ [m]) [leader] masters.

(** [append(make([]string, 0, len(s)), s...)]: a copy. *)
Definition emit (s : list string) : list string := [] ++ s.

(** The new state and the list that is sent. *)
Definition OnMasterChanged (o : ByteOrder) (leader : option MasterInfo) (ms : Masters) :
    go (Masters * list string) :=
  match ms_masters ms with
  | [] => Panic SliceBounds
  | _ :: rest =>
      let l := ordered (masterAddr o leader) rest in
      Ret ({| ms_masters := l |}, emit l)
  end.

Definition UpdatedMasters (o : ByteOrder) (infos : list (option MasterInfo)) (ms : Masters) :
    go (Masters * list string) :=
  let masters := foldl (λ l info,
      let addr := masterAddr o info in
      if bool_decide (addr = "") then l else l ++ [addr]) [] infos in
  leader ← index (ms_masters ms) 0;
  let l := ordered leader masters in
  Ret ({| ms_masters := l |}, emit l).

(** ** Detection as a transition system *)

Inductive event :=
| LeaderChanged (leader : option MasterInfo)
| MastersUpdated (infos : list (option MasterInfo)).

Definition on_event (o : ByteOrder) (e : event) (ms : Masters) : go (Masters * list string) :=
  match e with
  | LeaderChanged l => OnMasterChanged o l ms
  | MastersUpdated infos => UpdatedMasters o infos ms
  end.

(** [detected o init l ms]: after some events, having emitted [l] (the last
    emission first), the detector is in the state [ms]. *)
Inductive detected (o : ByteOrder) (init : list string) : list (list string) → Masters → Prop :=
| detected_start : detected o init [] (NewMasters init)
| detected_event e emitted ms ms' out :
    detected o init emitted ms → on_event o e ms = Ret (ms', out) →
    detected o init (out :: emitted) ms'.

(** ** Properties *)

Lemma ordered_loop (leader : string) masters acc :
  foldl (λ ms m, if bool_decide (m = leader) then ms else ms ++ [m]) acc masters
  = acc ++ filter (.≠ leader) masters.
Proof.
  revert acc; induction masters as [|m ms IH]; intros acc; cbn [foldl]; [by rewrite app_nil_r|].
  rewrite IH. case_bool_decide.
  - by rewrite filter_cons_False by naive_solver.
  - by rewrite filter_cons_True, <-app_assoc by done.
Qed.

Lemma ordered_eq leader masters : ordered leader masters = leader :: filter (.≠ leader) masters.
Proof. apply ordered_loop. Qed.

(** A list of masters with its leader in front and nowhere else. *)
Definition leader_first (l : list string) : Prop :=
  ∃ leader rest, l = leader :: rest ∧ leader ∉ rest.

Lemma ordered_leader_first leader masters : leader_first (ordered leader masters).
Proof.
  rewrite ordered_eq. exists leader, (filter (.≠ leader) masters). split; [done|].
  rewrite list_elem_of_filter. naive_solver.
Qed.

Lemma on_event_returns o e ms leader rest :
  ms_masters ms = leader :: rest →
  ∃ ms' out, on_event o e ms = Ret (ms', out) ∧ out = ms_masters ms' ∧ leader_first out
    ∧ match e with
      | LeaderChanged l => out = ordered (masterAddr o l) rest
      | MastersUpdated infos => head out = Some leader
      end.
Proof.
  intros Hms. destruct e as [l|infos]; cbn [on_event].
  - unfold OnMasterChanged. rewrite Hms. eexists _, _. split; [done|]. split; [done|].
    split; [apply ordered_leader_first|done].
  - unfold UpdatedMasters. rewrite Hms. cbn [index lookup list_lookup mbind go_bind].
    eexists _, _. split; [done|]. split; [done|]. split; [apply ordered_leader_first|].
    cbn [ms_masters]. unfold emit. cbn [app]. by rewrite ordered_eq.
Qed.

Lemma detected_nonempty o init emitted ms :
  detected o init emitted ms → ∃ leader rest, ms_masters ms = leader :: rest.
Proof.
  induction 1 as [|e emitted ms ms' out _ (leader & rest & Hms) He]; [by eexists _, _|].
  destruct (on_event_returns o e ms leader rest Hms) as (ms1 & out1 & He1 & Ho & (l & r & Hl & _) & _).
  rewrite He in He1. injection He1 as <- <-. exists l, r. congruence.
Qed.

(** A sequence of events: the detector and the lists that it emits. *)
Definition run_events (o : ByteOrder) (init : list string) (events : list event) :
    go (Masters * list (list string)) :=
  foldM (λ st e, '(ms', out) ← on_event o e st.1; Ret (ms', st.2 ++ [out])) events (NewMasters init, []).

(** The leader that the last change of the leader announced; none at first. *)
Definition leader_after (o : ByteOrder) (events : list event) : string :=
  foldl (λ leader e, match e with LeaderChanged i => masterAddr o i | MastersUpdated _ => leader end)
    "" events.

Lemma run_events_snoc o init events e ms emitted ms' out :
  run_events o init events = Ret (ms, emitted) → on_event o e ms = Ret (ms', out) →
  run_events o init (events ++ [e]) = Ret (ms', emitted ++ [out]).
Proof. unfold run_events. intros Hr He. rewrite foldM_app, Hr. cbn. by rewrite He. Qed.

(** Every list has the leader of its event in front and nowhere else; the
    last is the state of the detector. *)
Lemma run_events_spec o init events :
  ∃ ms emitted rest, run_events o init events = Ret (ms, emitted)
    ∧ length emitted = length events
    ∧ ms_masters ms = leader_after o events :: rest
    ∧ default (ms_masters ms) (last emitted) = ms_masters ms
    ∧ (∀ i l, emitted !! i = Some l →
         ∃ others, l = leader_after o (take (S i) events) :: others
           ∧ leader_after o (take (S i) events) ∉ others).
Proof.
  induction events as [|e events (ms & emitted & rest & Hr & Hlen & Hms & _ & Hall)] using rev_ind.
  { exists (NewMasters init), [], init. by split_and!. }
  destruct (on_event_returns o e ms _ _ Hms) as (ms' & out & He & Hout & (ld & oth & Ho & Hno) & Hcase).
  assert (ld = leader_after o (events ++ [e])) as ->.
  { unfold leader_after. rewrite foldl_snoc. destruct e as [i|infos].
    - rewrite ordered_eq, Ho in Hcase. by injection Hcase.
    - rewrite Ho in Hcase. by injection Hcase. }
  exists ms', (emitted ++ [out]), oth. split_and!.
  - by eapply run_events_snoc.
  - rewrite !length_app, Hlen. done.
  - by rewrite <-Hout.
  - rewrite last_snoc. by rewrite Hout.
  - intros i l [Hi|[Hge Hi]]%lookup_app_Some.
    + apply lookup_lt_Some in Hi as Hlt. rewrite take_app_le by lia. by apply Hall.
    + apply list_lookup_singleton_Some in Hi as [Hi <-].
      rewrite take_ge by (rewrite length_app; cbn; lia). by exists oth.
Qed.

(** The addresses that [UpdatedMasters] collects. *)
Lemma addrs_loop o infos acc :
  foldl (λ l info,
      if bool_decide (masterAddr o info = "") then l else l ++ [masterAddr o info]) acc infos
  = acc ++ filter (.≠ "") (masterAddr o <$> infos).
Proof.
  revert acc; induction infos as [|i infos IH]; intros acc; cbn [foldl fmap list_fmap]; [by rewrite app_nil_r|].
  rewrite IH. case_bool_decide.
  - by rewrite filter_cons_False by naive_solver.
  - by rewrite filter_cons_True, <-app_assoc by done.
Qed.

(** C37: in every state that a detector can reach, the next event is handled
    without a panic, and the list it emits is the new list of masters, with the
    leader in front and nowhere else; a change of the leader keeps the other
    masters in their order, and an update of the masters keeps the leader. *)
Theorem detector_safe o init emitted ms e :
  detected o init emitted ms →
  ∃ leader rest ms' out, ms_masters ms = leader :: rest
    ∧ on_event o e ms = Ret (ms', out) ∧ out = ms_masters ms' ∧ leader_first out
    ∧ match e with
      | LeaderChanged l => out = masterAddr o l :: filter (.≠ masterAddr o l) rest
      | MastersUpdated infos =>
          out = leader :: filter (.≠ leader) (filter (.≠ "") (masterAddr o <$> infos))
      end.
Proof.
  intros Hd. destruct (detected_nonempty _ _ _ _ Hd) as (leader & rest & Hms).
  destruct (on_event_returns o e ms leader rest Hms) as (ms' & out & He & Ho & Hl & Hout).
  exists leader, rest, ms', out. split_and!; [done..|]. destruct e as [l|infos].
  - by rewrite Hout, ordered_eq.
  - cbn [on_event] in He. unfold UpdatedMasters in He. rewrite Hms in He.
    cbn [index lookup list_lookup mbind go_bind] in He. apply Ret_inj in He.
    injection He as _ <-. unfold emit. cbn [app]. by rewrite ordered_eq, (addrs_loop o infos []).
Qed.

Lemma detector_safe_witness :
  ∃ ms' out, on_event LittleEndian (LeaderChanged None) (NewMasters ["1.1.1.1:5050"]) = Ret (ms', out)
    ∧ leader_first out.
Proof.
  destruct (detector_safe LittleEndian ["1.1.1.1:5050"] [] (NewMasters ["1.1.1.1:5050"])
    (LeaderChanged None) (detected_start _ _)) as (l & r & ms' & out & _ & H1 & _ & H2 & _).
  exists ms', out. exact (conj H1 H2).
Defined.

(** The number whose bytes in the order [o] are the four octets. *)
Definition Uint32 (o : ByteOrder) (a b c d : Z) : Z :=
  match o with
  | BigEndian => a * 2 ^ 24 + b * 2 ^ 16 + c * 2 ^ 8 + d
  | LittleEndian => d * 2 ^ 24 + c * 2 ^ 16 + b * 2 ^ 8 + a
  end%Z.

Lemma big_bytes_Uint32 a b c d :
  octet a → octet b → octet c → octet d →
  big_bytes (a * 2 ^ 24 + b * 2 ^ 16 + c * 2 ^ 8 + d)%Z = [a; b; c; d].
Proof.
  unfold octet, big_bytes. intros Ha Hb Hc Hd. rewrite !Z.shiftr_div_pow2 by lia.
  repeat f_equal; Z.div_mod_to_equations; lia.
Qed.

Lemma dotted_bytes a b c d x :
  octet a → octet b → octet c → octet d →
  x ∈ bytes (utoa a +:+ "." +:+ utoa b +:+ "." +:+ utoa c +:+ "." +:+ utoa d) →
  is_digit x = true ∨ x = "."%char.
Proof.
  intros Ha Hb Hc Hd. rewrite !bytes_app, !elem_of_app. change (bytes ".") with ["."%char].
  assert (∀ n, octet n → x ∈ bytes (utoa n) → is_digit x = true) as Hu.
  { intros n [Hn _] Hx. pose proof (utoa_digits n Hn) as Hf. rewrite Forall_forall in Hf. auto. }
  rewrite !list_elem_of_singleton. intuition eauto.
Qed.

(** C38: the address of a master that announces its IP as a number (Mesos
    before 0.24) is the dotted address, whatever the byte order, and the
    address of one that announces it as text is that text; host and port can be
    read back from both. *)
Theorem masterAddr_roundtrip o a b c d port :
  octet a → octet b → octet c → octet d → (0 ≤ port < 2 ^ 31)%Z →
  let ip := utoa a +:+ "." +:+ utoa b +:+ "." +:+ utoa c +:+ "." +:+ utoa d in
  let old := {| MasterInfo_Ip := Some (Uint32 o a b c d); MasterInfo_Port := Some port;
                MasterInfo_Address := None |} in
  let new := {| MasterInfo_Ip := None; MasterInfo_Port := None;
                MasterInfo_Address := Some {| Address_Ip := Some ip; Address_Port := Some port |} |} in
  masterAddr o (Some old) = masterAddr o (Some new)
  ∧ SplitHostPort (masterAddr o (Some new)) = (ip, Itoa port, None).
Proof.
  intros Ha Hb Hc Hd Hp. cbv zeta.
  assert (PutUint32 o (Uint32 o a b c d) = [a; b; c; d]) as Hput.
  { destruct o; cbn [PutUint32 Uint32]; [by apply big_bytes_Uint32|].
    by rewrite big_bytes_Uint32. }
  split.
  - unfold masterAddr. cbn. by rewrite Hput.
  - unfold masterAddr. cbn [MasterInfo_Address Address_GetIp Address_GetPort Address_Ip Address_Port default].
    apply SplitHostPort_JoinHostPort.
    + split; intros Hin; apply dotted_bytes in Hin; try done; destruct Hin; done.
    + split; intros Hin%Itoa_bytes; destruct Hin; done.
    + intros Hin%Itoa_bytes. destruct Hin; done.
Qed.

Lemma masterAddr_roundtrip_witness :
  SplitHostPort (masterAddr LittleEndian (Some {| MasterInfo_Ip := None; MasterInfo_Port := None;
    MasterInfo_Address := Some {| Address_Ip := Some "10.0.0.2"; Address_Port := Some 5050%Z |} |}))
  = ("10.0.0.2", "5050", None).
Proof.
  apply (masterAddr_roundtrip LittleEndian 10 0 0 2 5050); unfold octet; lia.
Defined.
