(* ===== verification/Main.v ===== *)
(** * The main loop (src/main.go)

    The process as a transition system: the event loop, the timer of master
    detection, and the goroutines that report errors on [errch].  [errch] is
    unbuffered and only the loop receives from it, so a sender waits until the
    loop is back in its [select].

    The resolvers are behind an interface ([Reloads]); the theorems about the
    loop hold for every implementation, and the builtin resolver is one.  A
    reload reaches them one after the other, each in a step of its own. *)

From S2P Require Import Prelude GoStrings GoNet Crash Labels State Config Store Generator GeneratorSpec.
From S2P Require Import GeneratorProps Loader Dns Exchanger Resolver.

(** [resolvers.Resolver]: what the loop asks of a resolver, and what a
    resolver promises: after a [Reload] that returns the records it serves are
    those it was given, and besides these it uses only records that it used
    before. *)
Class Reloads (R : Type) := {
  reload : R → RecordGenerator → go R;
  serves : R → RecordGenerator;
  uses : R → RecordGenerator → Prop;
  serves_reload (r r' : R) (rg : RecordGenerator) : reload r rg = Ret r' → serves r' = rg;
  uses_reload (r r' : R) (rg x : RecordGenerator) : reload r rg = Ret r' → uses r' x → x = rg ∨ uses r x }.

#[export] Instance builtin_reloads : Reloads Resolver.
Proof.
  refine {| reload := λ r rg, Ret (Reload r rg); serves := res_rg; uses := λ r x, x = res_rg r |}.
  - by intros r _ rg <-%Ret_inj.
  - intros r _ rg x <-%Ret_inj ->. by left.
Defined.

(** What the loop is doing: waiting in its [select], at the [i]-th turn of the
    loop of [reloadResolvers] over the resolvers, waiting to send an error, or
    gone. *)
Inductive phase :=
| Running
| Reloading (rg : RecordGenerator) (i : nat)
| Sending (e : string)
| Exited (code : Z).

(** [time.Second * time.Duration(n)], a signed 64-bit number of nanoseconds. *)
Definition Seconds (n : Z) : Z := ((10 ^ 9 * n + 2 ^ 63) mod 2 ^ 64 - 2 ^ 63)%Z.

Section main.
Context `{UnicodeTables} {W R : Type} `{Reloads R}.
Context (get : URL → W → (list ascii + string) * W) (unmarshal : list ascii → State + string).
Context (resolve : string → option IP).

(** [timer]: the detection timeout is armed; [senders]: the errors that
    goroutines wait to send. *)
Record process := {
  p_config : Config; p_rs : list R; p_world : W; p_timer : bool;
  p_senders : list string; p_phase : phase }.

Definition set_phase (p : process) (ph : phase) : process :=
  {| p_config := p_config p; p_rs := p_rs p; p_world := p_world p; p_timer := p_timer p;
     p_senders := p_senders p; p_phase := ph |}.
Definition set_timer (p : process) (b : bool) : process :=
  {| p_config := p_config p; p_rs := p_rs p; p_world := p_world p; p_timer := b;
     p_senders := p_senders p; p_phase := p_phase p |}.
Definition set_senders (p : process) (l : list string) : process :=
  {| p_config := p_config p; p_rs := p_rs p; p_world := p_world p; p_timer := p_timer p;
     p_senders := l; p_phase := p_phase p |}.
Definition set_config (p : process) (c : Config) : process :=
  {| p_config := c; p_rs := p_rs p; p_world := p_world p; p_timer := p_timer p;
     p_senders := p_senders p; p_phase := p_phase p |}.

(** The status of the process after a panic in the loop, which has deferred
    [HandleCrash]. *)
Definition crash_status (c : crash) : Z :=
  default 0%Z (exit_code (HandleCrash (A := unit) false main_handlers (Panic c))).

Definition set_rs (p : process) (rs : list R) : process :=
  {| p_config := p_config p; p_rs := rs; p_world := p_world p; p_timer := p_timer p;
     p_senders := p_senders p; p_phase := p_phase p |}.

(** [reloadResolvers] up to its loop over the resolvers. *)
Definition reloadResolvers (now : Z) (p : process) : process :=
  match ParseState get unmarshal resolve now NewRecordGenerator (p_config p) (p_world p) with
  | Panic c => set_phase p (Exited (crash_status c))
  | Ret (rg, config, err, w) =>
      {| p_config := config; p_rs := p_rs p; p_world := w; p_timer := p_timer p;
         p_senders := p_senders p;
         p_phase := match err with Some e => Sending e | None => Reloading rg 0 end |}
  end.

(** One turn of [for _, resolver := range rs]. *)
Definition reload_next (rg : RecordGenerator) (i : nat) (p : process) : process :=
  match p_rs p !! i with
  | None => set_phase p Running
  | Some r =>
      match reload r rg with
      | Ret r' => set_phase (set_rs p (<[i := r']> (p_rs p))) (Reloading rg (S i))
      | Panic c => set_phase p (Exited (crash_status c))
      end
  end.

(** [len(masters) == 0 || masters[0] == ""] *)
Definition no_leader (masters : list string) : bool :=
  match masters with [] => true | m :: _ => bool_decide (m = "") end.

Definition on_changed (now : Z) (masters : list string) (p : process) : process :=
  let p := set_timer p (no_leader masters) in
  let p := set_config p (set_Masters (p_config p) masters) in
  reloadResolvers now p.

Inductive step : process → process → Prop :=
| step_tick p now : p_phase p = Running → step p (reloadResolvers now p)
| step_changed p now masters : p_phase p = Running → step p (on_changed now masters p)
| step_reload p rg i : p_phase p = Reloading rg i → step p (reload_next rg i p)
| step_error p e senders :
    p_phase p = Running → p_senders p ≡ₚ e :: senders →
    step p (set_phase (set_senders p senders) (Exited 1))
| step_timeout p msg :
    p_timer p = true → (∀ c, p_phase p ≠ Exited c) →
    step p (set_timer (set_senders p (p_senders p ++
      (if (0 <? Seconds (ZkDetectionTimeout (p_config p)))%Z then [msg] else []))) false)
| step_server p e :
    (∀ c, p_phase p ≠ Exited c) → step p (set_senders p (p_senders p ++ [e])).

(** Without ZooKeeper the configured masters are the first and only change;
    with it the detector sends the changes. *)
Definition detectMasters (zk : string) (masters : list string) : option (list string) :=
  if bool_decide (zk = "") then Some masters else None.

(** The loop starts with the timer armed and the resolvers on the empty
    generator. *)
Definition start (config : Config) (rs : list R) (w : W) : process :=
  {| p_config := config; p_rs := rs; p_world := w; p_timer := true; p_senders := [];
     p_phase := Running |}.

(** ** Properties *)

(** The records that a resolver may serve: none yet, or those of a state
    with a leader that a master answered with. *)
Definition servable (rg : RecordGenerator) : Prop :=
  rg = NewRecordGenerator
  ∨ ready rg ∧ wf_rg rg ∧ loaded get unmarshal (rg_State rg) ∧ Leader (rg_State rg) ≠ "".

(** The part of the configuration that never changes. *)
Definition same_settings (c c' : Config) : Prop :=
  Domain c' = Domain c ∧ EnforceRFC952 c' = EnforceRFC952 c ∧ IPSources c' = IPSources c
  ∧ SOAMname c' = SOAMname c ∧ SOARname c' = SOARname c ∧ ZkDetectionTimeout c' = ZkDetectionTimeout c.

(** Every resolver serves and uses whole generations only.  Outside of a
    reload all serve the same one; in a reload those whose turn has been serve
    the new one and the others still the one before. *)
Record consistent (p : process) : Prop := {
  cons_uses : Forall (λ r, ∀ x, uses r x → servable x) (p_rs p);
  cons_serves :
    ∃ old new i, servable old ∧ servable new
      ∧ Forall (λ r, serves r = new) (take i (p_rs p))
      ∧ Forall (λ r, serves r = old) (drop i (p_rs p))
      ∧ match p_phase p with
        | Running | Sending _ => i = length (p_rs p)
        | Reloading rg j => new = rg ∧ i = j
        | Exited _ => True
        end }.

Lemma ParseState_servable now config w rg config' w' :
  ParseState get unmarshal resolve now NewRecordGenerator config w = Ret (rg, config', None, w') →
  servable rg ∧ config' = set_SOASerial config (uint32 now).
Proof.
  intros Hp. apply ParseState_props in Hp as [[[? ?] _]|[_ (sj & Hl & Hlead & Hi)]]; [done|].
  pose proof Hi as Hi'. apply InsertState_props in Hi as (Hr & Hwf & Hst & _ & _).
  apply InsertState_stages in Hi' as (_ & -> & _). split; [|done].
  right. by rewrite Hst.
Qed.

Lemma ParseState_config now rg config w rg' config' err w' :
  ParseState get unmarshal resolve now rg config w = Ret (rg', config', err, w') →
  same_settings config config' ∧ Masters config' = Masters config.
Proof.
  intros Hp. apply ParseState_props in Hp as [(_ & _ & ->)|[_ (sj & _ & _ & Hi)]]; [done|].
  by apply InsertState_stages in Hi as (_ & -> & _).
Qed.

Lemma consistent_same p rg :
  servable rg → Forall (λ r, serves r = rg) (p_rs p) →
  Forall (λ r, ∀ x, uses r x → servable x) (p_rs p) →
  (∀ rg' i, p_phase p = Reloading rg' i → i = 0%nat ∧ servable rg') →
  consistent p.
Proof.
  intros Hrg Hs Hu Hph. split; [done|]. destruct (p_phase p) as [|rg' i|e|c] eqn:E.
  1,3,4: exists rg, rg, (length (p_rs p)); rewrite firstn_all, drop_all; done.
  destruct (Hph rg' i eq_refl) as [-> Hrg']. exists rg, rg', 0%nat. by rewrite take_0, drop_0.
Qed.

(** Outside of a reload there is one generation. *)
Lemma consistent_one p :
  consistent p → p_phase p = Running →
  ∃ rg, servable rg ∧ Forall (λ r, serves r = rg) (p_rs p).
Proof.
  intros [_ (old & new & i & _ & Hn & Ht & _ & Hi)] Hph. rewrite Hph in Hi. subst i.
  rewrite firstn_all in Ht. by exists new.
Qed.

Lemma reload_consistent now p :
  p_phase p = Running → consistent p → consistent (reloadResolvers now p).
Proof.
  intros Hph Hc. destruct (consistent_one p Hc Hph) as (rg0 & Hrg0 & Hs). destruct Hc as [Hu _].
  unfold reloadResolvers.
  destruct (ParseState _ _ _ _ _ _ _) as [[[[rg config] err] w]|] eqn:E;
    (eapply consistent_same; [exact Hrg0|done|done|]); [|done].
  destruct err as [e|]; [done|]. intros ? ? [= <- <-]. split; [done|].
  by apply ParseState_servable in E as [? _].
Qed.

Lemma reload_next_consistent rg i p :
  p_phase p = Reloading rg i → consistent p → consistent (reload_next rg i p).
Proof.
  intros Hph [Hu (old & new & j & Ho & Hn & Ht & Hd & Hj)]. rewrite Hph in Hj. destruct Hj as [-> ->].
  unfold reload_next. destruct (p_rs p !! i) as [r|] eqn:Hi.
  2:{ apply lookup_ge_None in Hi. split; [done|]. exists old, rg, (length (p_rs p)). cbn.
      rewrite take_ge in Ht by done. by rewrite firstn_all, drop_all. }
  pose proof (lookup_lt_Some _ _ _ Hi) as Hlt.
  destruct (reload r rg) as [r'|c] eqn:Er; [|split; [done|]; by exists old, rg, i].
  split; cbn [p_rs set_phase set_rs].
  - apply Forall_insert; [done|]. intros x [->|Hx]%(uses_reload _ _ _ _ Er); [done|].
    rewrite Forall_lookup in Hu. by apply (Hu i r).
  - exists old, rg, (S i). split_and!; [done..| | |done].
    + rewrite (take_S_r _ _ r') by (by apply list_lookup_insert_eq).
      rewrite take_insert_ge by lia. apply Forall_snoc; [done|]. by eapply serves_reload.
    + rewrite drop_insert_lt by lia. rewrite <-Nat.add_1_r, <-drop_drop. by apply Forall_drop.
Qed.

Lemma step_consistent p p' : step p p' → consistent p → consistent p'.
Proof.
  intros [q now Hq|q now ms Hq|q rg i Hq|q e ss Hq Hse|q msg Ht Hq|q e Hq] Hc.
  - by apply reload_consistent.
  - apply reload_consistent; [done|]. by destruct Hc.
  - by apply reload_next_consistent.
  - destruct Hc as [Hu (old & new & i & ? & ? & ? & ? & _)]. split; [done|]. by exists old, new, i.
  - by destruct Hc.
  - by destruct Hc.
Qed.

(** All reachable states are consistent when the start is. *)
Lemma loop_consistent config rs w p :
  Forall (λ r, serves r = NewRecordGenerator ∧ ∀ x, uses r x → x = NewRecordGenerator) rs →
  rtc step (start config rs w) p →
  consistent p.
Proof.
  intros Hrs Hsteps. assert (consistent (start config rs w)) as Hinit.
  { apply (consistent_same _ NewRecordGenerator); [by left| | |done];
      (eapply Forall_impl; [exact Hrs|]); intros r [? Hu]; [done|]. intros x ->%Hu. by left. }
  clear Hrs. induction Hsteps as [|x y z Hxy _ IH]; [done|]. apply IH. by eapply step_consistent.
Qed.

(** The loop over the resolvers ends: undisturbed it takes a turn for every
    resolver left and one more, and is then back in its [select] unless a
    resolver panicked. *)
Theorem reload_ends p rg i :
  p_phase p = Reloading rg i →
  ∃ p', rtc step p p' ∧ (p_phase p' = Running ∨ ∃ c, p_phase p' = Exited c).
Proof.
  remember (length (p_rs p) - i)%nat as n eqn:En. revert p i En.
  induction n as [n IH] using lt_wf_ind. intros p i En Hph.
  pose proof (step_reload p rg i Hph) as Hst. unfold reload_next in Hst.
  destruct (p_rs p !! i) as [r|] eqn:Hi.
  2:{ eexists. split; [by apply rtc_once|by left]. }
  apply lookup_lt_Some in Hi. destruct (reload r rg) as [r'|c].
  - destruct (IH (n - 1)%nat ltac:(lia) (set_phase (set_rs p (<[i := r']> (p_rs p))) (Reloading rg (S i)))
      (S i)) as (p' & Hrun & Hp'); [cbn; rewrite length_insert; lia|done|].
    exists p'. split; [by eapply rtc_l|done].
  - eexists. split; [by apply rtc_once|right; by eexists].
Qed.

(** C32: a failing reload stops the process for good: the loop waits to send
    the error to itself, so it never serves another event, never receives an
    error of a server or of the detection timer and never updates a resolver
    again. *)
Theorem failed_reload_blocks now p rg config e w p' :
  p_phase p = Running →
  ParseState get unmarshal resolve now NewRecordGenerator (p_config p) (p_world p)
    = Ret (rg, config, Some e, w) →
  rtc step (reloadResolvers now p) p' →
  p_phase p' = Sending e ∧ p_rs p' = p_rs p ∧ p_config p' = p_config (reloadResolvers now p).
Proof.
  intros Hrun Hp Hsteps.
  assert (p_phase (reloadResolvers now p) = Sending e ∧ p_rs (reloadResolvers now p) = p_rs p) as [H1 H2]
    by (unfold reloadResolvers; by rewrite Hp).
  remember (reloadResolvers now p) as p1 eqn:Ep1. clear Ep1.
  rewrite <-H2. clear H2 Hrun Hp. induction Hsteps as [|x y z Hxy _ IH]; [done|].
  assert (p_phase y = Sending e ∧ p_rs y = p_rs x ∧ p_config y = p_config x) as (E1 & E2 & E3).
  { destruct Hxy; try congruence; by cbn. }
  rewrite <-E2, <-E3. by apply IH.
Qed.

(** The settings that names and answers depend on never change while the
    process runs: the loop only replaces the masters and the serial. *)
Theorem settings_kept config rs w p :
  rtc step (start config rs w) p → same_settings config (p_config p).
Proof.
  intros Hsteps. change config with (p_config (start config rs w)) at 1.
  assert (∀ now p, same_settings (p_config p) (p_config (reloadResolvers now p))) as Hre.
  { intros now q. unfold reloadResolvers.
    destruct (ParseState _ _ _ _ _ _ _) as [[[[rg c] err] w1]|] eqn:E; [|done].
    by apply ParseState_config in E as [? _]. }
  induction Hsteps as [|x y z Hxy _ IH]; [done|].
  assert (same_settings (p_config x) (p_config y)) as Hs.
  { destruct Hxy as [q now Hq|q now masters Hq|q rg i Hq|q e senders Hq Hse|q msg Ht Hph|q e Hph]; try done.
    - exact (Hre now (set_config (set_timer q (no_leader masters)) (set_Masters (p_config q) masters))).
    - unfold reload_next. destruct (p_rs q !! i) as [r|]; [|done]. by destruct (reload r rg). }
  unfold same_settings in *. intuition congruence.
Qed.
End main.

(** ** A run with a failing reload *)

Module DemoRun.
#[local] Instance ascii_tables : UnicodeTables := {| unicode_ToLower := λ s, s |}.

Definition initial : Resolver :=
  {| res_version := "1"; res_config := Builtin.NewConfig; res_rg := NewRecordGenerator |}.

Definition p0 : process (W := nat) (R := Resolver) := start (NewConfig 0) [initial] 0%nat.

Lemma failed_reload_blocks_witness :
  p_phase (reloadResolvers Loader.Demo.get Loader.Demo.unmarshal (λ _, None) 7 p0) = Sending "no master".
Proof.
  apply (failed_reload_blocks Loader.Demo.get Loader.Demo.unmarshal (λ _, None) 7 p0
    NewRecordGenerator (NewConfig 0) "no master" 0%nat).
  - reflexivity.
  - reflexivity.
  - apply rtc_refl.
Defined.

Lemma settings_kept_witness :
  same_settings (NewConfig 0)
    (p_config (on_changed Loader.Demo.get Loader.Demo.unmarshal (λ _, None) 7 ["10.0.0.2:5050"] p0)).
Proof.
  eapply (settings_kept Loader.Demo.get Loader.Demo.unmarshal (λ _, None) (NewConfig 0) [initial] 0%nat).
  eapply rtc_once, step_changed. reflexivity.
Defined.
End DemoRun.
