(* ===== verification/Detection.v ===== *)
(** * Master detection and the main loop (src/main.go detectMasters, src/detect)

    The detector's callbacks send every new list of masters on the channel
    [changed], which holds one list; the main loop receives them and makes them
    the masters of the configuration.  The detector library makes its
    callbacks one after the other, and a callback returns when its list is
    sent.  Without ZooKeeper the configured masters are sent once. *)

From S2P Require Import Prelude GoStrings GoNet Labels State Config Store Generator Loader.
From S2P Require Import Dns Exchanger Resolver Main.
From S2P Require Import Detect.

(** The capacity of [changed]. *)
Definition changed_capacity : nat := 1.

Section detection.
Context `{UnicodeTables} {W R : Type} `{Reloads R}.
Context (get : URL → W → (list ascii + string) * W) (unmarshal : list ascii → State + string).
Context (resolve : string → option IP) (o : ByteOrder).

Abbreviation process := (process (W := W) (R := R)).

(** [dt_ms]: the detector, if there is one; [dt_sending]: the list that a
    callback waits to send; [dt_changed]: the buffer of the channel.
    [dt_emitted] and [dt_received] are the lists so far. *)
Record detection := {
  dt_ms : option Masters; dt_sending : option (list string); dt_changed : list (list string);
  dt_loop : process; dt_emitted : list (list string); dt_received : list (list string) }.

(** [detectMasters], when the loop starts. *)
Definition detect_start (config : Config) (rs : list R) (w : W) : detection :=
  {| dt_ms := if bool_decide (Zk config = "") then None else Some (NewMasters (Config.Masters config));
     dt_sending := None;
     dt_changed := option_list (detectMasters (Zk config) (Config.Masters config));
     dt_loop := start config rs w;
     dt_emitted := option_list (detectMasters (Zk config) (Config.Masters config));
     dt_received := [] |}.

Definition set_loop (d : detection) (p : process) : detection :=
  {| dt_ms := dt_ms d; dt_sending := dt_sending d; dt_changed := dt_changed d; dt_loop := p;
     dt_emitted := dt_emitted d; dt_received := dt_received d |}.

(** A callback of the detector has computed a list and is about to send it. *)
Definition called (d : detection) (ms : Masters) (out : list string) : detection :=
  {| dt_ms := Some ms; dt_sending := Some out; dt_changed := dt_changed d; dt_loop := dt_loop d;
     dt_emitted := dt_emitted d ++ [out]; dt_received := dt_received d |}.

Definition sent_list (d : detection) (out : list string) : detection :=
  {| dt_ms := dt_ms d; dt_sending := None; dt_changed := dt_changed d ++ [out]; dt_loop := dt_loop d;
     dt_emitted := dt_emitted d; dt_received := dt_received d |}.

(** [case masters := <-changed] *)
Definition received (d : detection) (now : Z) (masters : list string) (rest : list (list string)) :
    detection :=
  {| dt_ms := dt_ms d; dt_sending := dt_sending d; dt_changed := rest;
     dt_loop := on_changed get unmarshal resolve now masters (dt_loop d);
     dt_emitted := dt_emitted d; dt_received := dt_received d ++ [masters] |}.

Definition running_process (p : process) : Prop := ∀ code, p_phase p ≠ Exited code.

Inductive dstep : detection → detection → Prop :=
| d_event d ms e ms' out :
    running_process (dt_loop d) → dt_ms d = Some ms → dt_sending d = None →
    on_event o e ms = Ret (ms', out) → dstep d (called d ms' out)
| d_send d out :
    running_process (dt_loop d) → dt_sending d = Some out →
    (length (dt_changed d) < changed_capacity)%nat → dstep d (sent_list d out)
| d_recv d now masters rest :
    p_phase (dt_loop d) = Running → dt_changed d = masters :: rest →
    dstep d (received d now masters rest)
| d_tick d now :
    p_phase (dt_loop d) = Running →
    dstep d (set_loop d (reloadResolvers get unmarshal resolve now (dt_loop d)))
| d_reload d rg i :
    p_phase (dt_loop d) = Reloading rg i → dstep d (set_loop d (reload_next rg i (dt_loop d)))
| d_error d e senders :
    p_phase (dt_loop d) = Running → p_senders (dt_loop d) ≡ₚ e :: senders →
    dstep d (set_loop d (set_phase (set_senders (dt_loop d) senders) (Exited 1)))
| d_timeout d msg :
    p_timer (dt_loop d) = true → running_process (dt_loop d) →
    dstep d (set_loop d (set_timer (set_senders (dt_loop d) (p_senders (dt_loop d) ++
      (if (0 <? Seconds (ZkDetectionTimeout (p_config (dt_loop d))))%Z then [msg] else []))) false))
| d_server d e :
    running_process (dt_loop d) →
    dstep d (set_loop d (set_senders (dt_loop d) (p_senders (dt_loop d) ++ [e]))).

(** The loop with a detector is the loop of Main.v, which takes any list. *)
Lemma dstep_step d d' :
  dstep d d' → dt_loop d' = dt_loop d ∨ step get unmarshal resolve (dt_loop d) (dt_loop d').
Proof.
  intros []; cbn; [by left|by left|right..]; by econstructor.
Qed.

Lemma dsteps_steps d d' : rtc dstep d d' → rtc (step get unmarshal resolve) (dt_loop d) (dt_loop d').
Proof.
  induction 1 as [|x y z Hxy _ IH]; [done|].
  apply dstep_step in Hxy as [E|Hs]; [by rewrite <-E|by eapply rtc_l].
Qed.

(** ** The masters of the configuration *)

Lemma reload_masters now (p : process) :
  Config.Masters (p_config (reloadResolvers get unmarshal resolve now p)) = Config.Masters (p_config p).
Proof.
  unfold reloadResolvers.
  destruct (ParseState _ _ _ _ _ _ _) as [[[[rg c] err] w]|] eqn:E; [|done].
  by apply ParseState_config in E as [_ E].
Qed.

Lemma reload_next_config rg i (p : process) : p_config (reload_next rg i p) = p_config p.
Proof. unfold reload_next. destruct (p_rs p !! i) as [r|]; [|done]. by destruct (reload r rg). Qed.

Record detection_ok (config0 : Config) (d : detection) : Prop := {
  dk_order : dt_emitted d = dt_received d ++ dt_changed d ++ option_list (dt_sending d);
  dk_capacity : (length (dt_changed d) ≤ changed_capacity)%nat;
  dk_masters : Config.Masters (p_config (dt_loop d))
               = default (Config.Masters config0) (last (dt_received d));
  dk_detector :
    match dt_ms d with
    | None => dt_emitted d = [Config.Masters config0]
    | Some ms => ∃ events, run_events o (Config.Masters config0) events = Ret (ms, dt_emitted d)
    end }.

Lemma detection_start config0 rs w : detection_ok config0 (detect_start config0 rs w).
Proof.
  unfold detect_start, detectMasters. split; case_bool_decide; cbn; try done; [unfold changed_capacity; lia..|].
  by exists [].
Qed.

Lemma dstep_ok config0 d d' : dstep d d' → detection_ok config0 d → detection_ok config0 d'.
Proof.
  intros Hst [Ho Hc Hm Hd].
  destruct Hst as [d ms e ms' out Hr Hms Hs He|d out Hr Hs Hl|d now masters rest Hr Hch
    |d now Hr|d rg i Hr|d e senders Hr Hp|d msg Ht Hr|d e Hr]; try by split.
  - rewrite Hs in Ho. rewrite Hms in Hd. cbn in Ho. rewrite app_nil_r in Ho. split; cbn; [|done..|].
    + by rewrite Ho, <-app_assoc.
    + destruct Hd as [events Hd]. exists (events ++ [e]). by eapply run_events_snoc.
  - rewrite Hs in Ho. split; cbn; [by rewrite Ho, app_nil_r| |done..].
    rewrite length_app. cbn. lia.
  - rewrite Hch in Ho, Hc. split; cbn; [by rewrite Ho, <-app_assoc|cbn in Hc; lia| |done].
    unfold on_changed. rewrite reload_masters, last_snoc. done.
  - split; cbn; [done..| |done]. by rewrite reload_masters.
  - split; cbn; [done..| |done]. by rewrite reload_next_config.
Qed.

Lemma reachable_detection config0 rs w d :
  rtc dstep (detect_start config0 rs w) d → detection_ok config0 d.
Proof.
  intros Hrun. pose proof (detection_start config0 rs w) as Hinit.
  induction Hrun as [|x y z Hxy _ IH]; [done|]. by eapply IH, dstep_ok.
Qed.

(** A detector stays one, and so does its absence. *)
Lemma detector_kept d d' : rtc dstep d d' → is_Some (dt_ms d) ↔ is_Some (dt_ms d').
Proof.
  induction 1 as [|x y z Hxy _ IH]; [done|]. rewrite <-IH.
  destruct Hxy as [d ms e ms' out Hr Hms Hs He| | | | | | |]; cbn; [by rewrite Hms|done..].
Qed.


(** Without ZooKeeper the configured masters are sent once and stay: the
    masters that a state reports play no part in later requests. *)
Theorem configured_masters_stay config0 rs w d :
  Zk config0 = "" → rtc dstep (detect_start config0 rs w) d →
  Config.Masters (p_config (dt_loop d)) = Config.Masters config0.
Proof.
  intros Hz Hrun. pose proof (reachable_detection _ _ _ _ Hrun) as [Ho Hc Hm Hd].
  pose proof (detector_kept _ _ Hrun) as Hk. cbn [dt_ms detect_start] in Hk.
  rewrite bool_decide_true in Hk by done. destruct (dt_ms d) as [ms|].
  { destruct (proj2 Hk) as [? [=]]. by eexists. }
  rewrite Hm. rewrite Hd in Ho. destruct (dt_received d) as [|x l]; [done|].
  injection Ho as <- Hnil. symmetry in Hnil. by apply app_eq_nil in Hnil as [-> _].
Qed.

(** A loop that waits to send the error of a failed reload takes no list any
    more, and the detector is blocked after at most two: the process keeps its
    masters for good. *)
Theorem blocked_loop_blocks_detector config0 rs w d d' e :
  rtc dstep (detect_start config0 rs w) d → p_phase (dt_loop d) = Sending e → rtc dstep d d' →
  Config.Masters (p_config (dt_loop d')) = Config.Masters (p_config (dt_loop d))
  ∧ (length (dt_emitted d') ≤ length (dt_received d) + 2)%nat.
Proof.
  intros Hrun Hph Hrun'.
  assert (p_phase (dt_loop d') = Sending e ∧ dt_received d' = dt_received d) as [_ Hrec].
  { clear Hrun. induction Hrun' as [|x y z Hxy _ IH]; [done|].
    assert (p_phase (dt_loop y) = Sending e ∧ dt_received y = dt_received x) as [H1 H2]
      by (destruct Hxy; try congruence; by cbn).
    rewrite <-H2. by apply IH. }
  pose proof (reachable_detection _ _ _ _ Hrun) as [_ _ Hm _].
  destruct (reachable_detection config0 rs w d') as [Ho' Hc' Hm' _]; [by etransitivity|].
  split; [by rewrite Hm, Hm', Hrec|]. rewrite Ho', Hrec, !length_app. unfold changed_capacity in Hc'.
  destruct (dt_sending d'); cbn; lia.
Qed.
End detection.

(** ** A leader that is detected *)

Module DemoDetection.
#[local] Instance ascii_tables : UnicodeTables := {| unicode_ToLower := λ s, s |}.

Definition zk_config : Config :=
  {| Domain := "mesos"; EnforceRFC952 := false; File := ""; IPSources := ["host"];
     Config.Masters := ["10.0.0.3:5050"]; RefreshSeconds := 60; Resolvers := None;
     StateTimeoutSeconds := 300; SOAExpire := 86400; SOAMinttl := 60; SOAMname := "ns1.mesos.";
     SOARefresh := 60; SOARetry := 600; SOARname := "root.ns1.mesos."; SOASerial := 0;
     Zk := "zk://10.0.0.1:2181/mesos"; ZkDetectionTimeout := 30 |}.


Abbreviation begin := (detect_start (W := nat) (R := Resolver) zk_config [DemoRun.initial] 0%nat).





(** No master answers: the loop has no resolver to tell and blocks. *)
Definition deaf : detection (W := nat) (R := Resolver) :=
  set_loop begin (reloadResolvers Loader.Demo.get Loader.Demo.unmarshal (λ _, None) 7 (dt_loop begin)).

Lemma blocked_loop_blocks_detector_witness :
  p_phase (dt_loop deaf) = Sending "no master" ∧ (length (dt_emitted deaf) ≤ 2)%nat.
Proof.
  assert (p_phase (dt_loop deaf) = Sending "no master") as Hph by (vm_compute; reflexivity).
  split; [exact Hph|].
  refine (proj2 (blocked_loop_blocks_detector Loader.Demo.get Loader.Demo.unmarshal (λ _, None)
    LittleEndian zk_config [DemoRun.initial] 0%nat deaf deaf "no master" _ Hph (rtc_refl _ _))).
  apply rtc_once. by apply d_tick.
Defined.
End DemoDetection.
