(* ===== verification/Concurrent.v ===== *)
(** * Requests that run while the records are reloaded (src/resolvers/builtin, src/main.go)

    Every request runs on a goroutine of its own, and so does the main loop,
    which builds a new generation of records and makes it current
    ([Reload]).  They share the resolver with its lock, the configuration that
    all generators point to, and the counters.  The system of them is a
    transition system in which a request takes these steps one at a time:
    arrive, [RLock], read the pointer to the records, [RUnlock], compute with
    the records and the configuration, reply.  A request that reads the
    serial of the configuration twice does so in two steps. *)

From S2P Require Import Prelude GoStrings GoNet Labels State Config Store Generator GeneratorSpec.
From S2P Require Import GeneratorProps Loader Dns Exchanger Resolver Main.

(** ** [sync.RWMutex]

    The readers that hold the lock, whether a [Lock] was called, and whether
    it has returned.  [None] is a call that blocks. *)

Record RWMutex := { rw_readers : nat; rw_pending : bool; rw_held : bool }.

Definition RWMutex0 : RWMutex := {| rw_readers := 0; rw_pending := false; rw_held := false |}.

(** A [Lock] that waits keeps new readers out. *)
Definition RLock (l : RWMutex) : option RWMutex :=
  if rw_pending l then None
  else Some {| rw_readers := S (rw_readers l); rw_pending := false; rw_held := rw_held l |}.

Definition RUnlock (l : RWMutex) : option RWMutex :=
  match rw_readers l with
  | 0 => None
  | S n => Some {| rw_readers := n; rw_pending := rw_pending l; rw_held := rw_held l |}
  end.

(** The call of [Lock], and its return. *)
Definition Lock_call (l : RWMutex) : option RWMutex :=
  if rw_pending l then None
  else Some {| rw_readers := rw_readers l; rw_pending := true; rw_held := false |}.
Definition Lock_return (l : RWMutex) : option RWMutex :=
  match rw_readers l with
  | 0 => Some {| rw_readers := 0; rw_pending := true; rw_held := true |}
  | S _ => None
  end.

Definition Unlock (l : RWMutex) : RWMutex :=
  {| rw_readers := rw_readers l; rw_pending := false; rw_held := false |}.

(** ** Requests *)

Inductive request :=
| DnsQuery (network : string) (r : Msg)
| HostQuery (host : string)
| ServiceQuery (service : string)
| EnumerateQuery
| AXFRQuery.

(** A REST handler that panics is stopped by the HTTP server. *)
Inductive response :=
| DnsReply (m : Msg)
| HostReply (o : go (list (string * string)))
| ServiceReply (o : go (list (string * string * string * string)))
| EnumerateReply (e : EnumerationData)
| AXFRReply (x : AXFR).

Section respond.
Context `{UnicodeTables, MapOrder, Rand}.
Context (res : Resolver).

(** [HandleMesos] up to the end of its switch, for the question [q]. *)
Definition mesos_ask (config : Config) (r : Msg) (q : Question) : Msg * multiError :=
  let m := set_header Msg0 true (Builtin.RecurseOn (res_config res)) false 0 false in
  handle_question res config (res_rg res) (ToLower (cleanWild (Q_Name q))) q (SetReply m r).

(** The rest of [HandleMesos]. *)
Definition mesos_finish (config : Config) (network : string) (q : Question) (m : Msg)
    (errs : multiError) (log : LogOut) : LogOut * go Msg :=
  let '(m, log) :=
    match Answer m with
    | [] => let '(m, log) := handleEmpty res config (res_rg res)
                               (ToLower (cleanWild (Q_Name q))) q m log in (Ret m, log)
    | an => (an' ← shuffleAnswers an; Ret (set_Answer m an'), Inc MesosSuccess log)
    end in
  let log := if multiError_Nil errs then log else Inc MesosFailed log in
  (log, m ≫= reply network).

(** The two parts are the handler. *)
Lemma HandleMesos_split config network r log :
  HandleMesos res config network r log =
  match Questions r with
  | [] => (Inc MesosRequests log, Panic IndexOutOfRange)
  | q :: _ =>
      let '(m, errs) := mesos_ask config r q in
      mesos_finish config network q m errs (Inc MesosRequests log)
  end.
Proof. reflexivity. Qed.

(** The message does not depend on the counters. *)
Lemma mesos_finish_log config network q m errs log log' :
  (mesos_finish config network q m errs log).2 = (mesos_finish config network q m errs log').2.
Proof.
  unfold mesos_finish. destruct (Answer m); [|done].
  unfold handleEmpty. by destruct (_ || _), (multiError_Nil errs).
Qed.

(** The response of the handler of a request when it runs alone. *)
Definition respond (config : Config) (req : request) : response :=
  match req with
  | DnsQuery network r => DnsReply (panicRecover r (HandleMesos res config network r CurLog).2)
  | HostQuery host => HostReply (fst <$> RestHost res config host CurLog)
  | ServiceQuery service => ServiceReply (fst <$> RestService res config service CurLog)
  | EnumerateQuery => EnumerateReply (RestEnumerate res)
  | AXFRQuery => AXFRReply (RestAXFR res config)
  end.

(** The counters after a REST request. *)
Definition rest_log (config : Config) (req : request) (log : LogOut) : LogOut :=
  match req with
  | HostQuery host => match RestHost res config host log with Ret (_, log) => log | _ => log end
  | ServiceQuery s => match RestService res config s log with Ret (_, log) => log | _ => log end
  | _ => log
  end.
End respond.

(** A REST request for an empty name panics before it reads the records. *)
Definition early `{UnicodeTables} (req : request) : option response :=
  match req with
  | HostQuery host =>
      match rest_name host with Panic c => Some (HostReply (Panic c)) | Ret _ => None end
  | ServiceQuery service =>
      match rest_name service with Panic c => Some (ServiceReply (Panic c)) | Ret _ => None end
  | _ => None
  end.

(** ** The system *)

(** What a request is about to do: [RLock], read the pointer, [RUnlock],
    compute, finish; or what it replied, and which generation was current
    then. *)
Inductive cphase :=
| Arrived
| Reading
| Holding (rg : RecordGenerator)
| Snapshot (rg : RecordGenerator)
| Asked (rg : RecordGenerator) (m : Msg) (errs : multiError)
| Replied (resp : response) (end_ : nat).

(** [c_start] is the generation that was current when the request came. *)
Record client := { c_req : request; c_start : nat; c_phase : cphase }.

Definition set_cphase (c : client) (ph : cphase) : client :=
  {| c_req := c_req c; c_start := c_start c; c_phase := ph |}.

(** The main loop: in its [select]; with a generation, about to call [Reload];
    in [Lock]; about to store the pointer; about to call [Unlock]; waiting to
    send an error to itself; gone. *)
Inductive mphase :=
| Select
| Parsed (rg : RecordGenerator)
| Locking (rg : RecordGenerator)
| Storing (rg : RecordGenerator)
| Unlocking
| Blocked (e : string)
| Gone.

Inductive event := Tick | Changed (masters : list string).

Section system.
Context `{UnicodeTables, MapOrder, Rand} {W : Type}.
Context (get : URL → W → (list ascii + string) * W) (unmarshal : list ascii → State + string).
Context (resolve : string → option IP).

(** [s_past] are the generations that have been current, the last one being
    so, and [s_serials] the serials that the configuration has had. *)
Record system := {
  s_main : mphase; s_config : Config; s_world : W; s_res : Resolver; s_lock : RWMutex;
  s_log : LogOut; s_clients : list client;
  s_past : list RecordGenerator; s_serials : list Z }.

Definition now_current (s : system) : nat := length (s_past s) - 1.

(** A step of the request [i]. *)
Definition move (s : system) (i : nat) (ph : cphase) (l : RWMutex) (log : LogOut) : system :=
  {| s_main := s_main s; s_config := s_config s; s_world := s_world s; s_res := s_res s;
     s_lock := l; s_log := log; s_clients := alter (λ c, set_cphase c ph) i (s_clients s);
     s_past := s_past s; s_serials := s_serials s |}.

Definition arrive (s : system) (req : request) : system :=
  {| s_main := s_main s; s_config := s_config s; s_world := s_world s; s_res := s_res s;
     s_lock := s_lock s;
     s_log := match req with DnsQuery _ _ => Inc MesosRequests (s_log s) | _ => s_log s end;
     s_clients :=
       s_clients s ++ [{| c_req := req; c_start := now_current s; c_phase := Arrived |}];
     s_past := s_past s; s_serials := s_serials s |}.

(** A step of the main loop. *)
Definition set_main (s : system) (ph : mphase) (l : RWMutex) : system :=
  {| s_main := ph; s_config := s_config s; s_world := s_world s; s_res := s_res s;
     s_lock := l; s_log := s_log s; s_clients := s_clients s;
     s_past := s_past s; s_serials := s_serials s |}.

(** An event and [ParseState]: InsertState stores the serial in the
    configuration that the current generation points to as well. *)
Definition parse (s : system) (now : Z) (ev : event) : system :=
  let config :=
    match ev with Tick => s_config s | Changed masters => set_Masters (s_config s) masters end in
  match ParseState get unmarshal resolve now NewRecordGenerator config (s_world s) with
  | Panic _ => set_main s Gone (s_lock s)
  | Ret (rg, config, err, w) =>
      {| s_main := match err with Some e => Blocked e | None => Parsed rg end;
         s_config := config; s_world := w; s_res := s_res s; s_lock := s_lock s;
         s_log := s_log s; s_clients := s_clients s; s_past := s_past s;
         s_serials :=
           match err with Some _ => s_serials s | None => s_serials s ++ [SOASerial config] end |}
  end.

(** [res.rg = rg] *)
Definition store (s : system) (rg : RecordGenerator) : system :=
  {| s_main := Unlocking; s_config := s_config s; s_world := s_world s;
     s_res := Reload (s_res s) rg; s_lock := s_lock s; s_log := s_log s;
     s_clients := s_clients s; s_past := s_past s ++ [rg]; s_serials := s_serials s |}.

(** The steps of requests that have come and of a reload that has begun. *)
Inductive istep : system → system → Prop :=
| c_early s i c resp :
    s_clients s !! i = Some c → c_phase c = Arrived → early (c_req c) = Some resp →
    istep s (move s i (Replied resp (now_current s)) (s_lock s) (s_log s))
| c_rlock s i c l :
    s_clients s !! i = Some c → c_phase c = Arrived → early (c_req c) = None →
    RLock (s_lock s) = Some l →
    istep s (move s i Reading l (s_log s))
| c_read s i c :
    s_clients s !! i = Some c → c_phase c = Reading →
    istep s (move s i (Holding (res_rg (s_res s))) (s_lock s) (s_log s))
| c_runlock s i c rg l :
    s_clients s !! i = Some c → c_phase c = Holding rg → RUnlock (s_lock s) = Some l →
    istep s (move s i (Snapshot rg) l (s_log s))
| c_no_question s i c rg network r :
    s_clients s !! i = Some c → c_phase c = Snapshot rg → c_req c = DnsQuery network r →
    Questions r = [] →
    istep s (move s i (Replied (DnsReply (panicRecover r (Panic IndexOutOfRange)))
      (now_current s)) (s_lock s) (s_log s))
| c_ask s i c rg network r q qs m errs :
    s_clients s !! i = Some c → c_phase c = Snapshot rg → c_req c = DnsQuery network r →
    Questions r = q :: qs → mesos_ask (Reload (s_res s) rg) (s_config s) r q = (m, errs) →
    istep s (move s i (Asked rg m errs) (s_lock s) (s_log s))
| c_finish s i c rg m errs network r q qs log out :
    s_clients s !! i = Some c → c_phase c = Asked rg m errs → c_req c = DnsQuery network r →
    Questions r = q :: qs →
    mesos_finish (Reload (s_res s) rg) (s_config s) network q m errs (s_log s) = (log, out) →
    istep s (move s i (Replied (DnsReply (panicRecover r out)) (now_current s)) (s_lock s) log)
| c_rest s i c rg :
    s_clients s !! i = Some c → c_phase c = Snapshot rg →
    (∀ network r, c_req c ≠ DnsQuery network r) →
    istep s (move s i
      (Replied (respond (Reload (s_res s) rg) (s_config s) (c_req c)) (now_current s))
      (s_lock s) (rest_log (Reload (s_res s) rg) (s_config s) (c_req c) (s_log s)))
| m_lock s rg l :
    s_main s = Parsed rg → Lock_call (s_lock s) = Some l → istep s (set_main s (Locking rg) l)
| m_locked s rg l :
    s_main s = Locking rg → Lock_return (s_lock s) = Some l → istep s (set_main s (Storing rg) l)
| m_store s rg : s_main s = Storing rg → istep s (store s rg)
| m_unlock s : s_main s = Unlocking → istep s (set_main s Select (Unlock (s_lock s))).

(** What comes from outside: requests, and events for the main loop. *)
Inductive estep : system → system → Prop :=
| e_arrive s req : estep s (arrive s req)
| e_event s now ev : s_main s = Select → estep s (parse s now ev).

Definition sstep (s s' : system) : Prop := istep s s' ∨ estep s s'.

(** The resolver starts with the generator of the start. *)
Definition sys0 (res : Resolver) (config : Config) (w : W) : system :=
  {| s_main := Select; s_config := config; s_world := w; s_res := res; s_lock := RWMutex0;
     s_log := CurLog; s_clients := []; s_past := [res_rg res]; s_serials := [SOASerial config] |}.
End system.
