(* ===== verification/Serials.v ===== *)
(** * The serials in a response

    A response and the serials in it: the SOA records of the authority
    section and the serial of a zone transfer.  The serial of the configuration
    decides nothing else in a response. *)

From S2P Require Import Prelude GoStrings GoNet Labels State Config Store Generator GeneratorSpec.
From S2P Require Import GeneratorProps Loader Dns Exchanger Resolver Main Concurrent.

Definition rr_serial (r : RR) : option Z :=
  match r with RR_SOA _ _ _ serial _ _ _ _ => Some serial | _ => None end.

Definition rr_without (r : RR) : RR :=
  match r with
  | RR_SOA h ns mbox _ refresh retry expire minttl => RR_SOA h ns mbox 0 refresh retry expire minttl
  | r => r
  end.

Definition msg_without (m : Msg) : Msg := set_Ns m (rr_without <$> Ns m).

Definition axfr_without (x : AXFR) : AXFR :=
  {| AXFR_TTL := AXFR_TTL x; AXFR_Serial := 0; AXFR_RefreshSeconds := AXFR_RefreshSeconds x;
     AXFR_Mname := AXFR_Mname x; AXFR_Rname := AXFR_Rname x; AXFR_Domain := AXFR_Domain x;
     AXFR_As := AXFR_As x; AXFR_SRVs := AXFR_SRVs x |}.

(** The serials in a response, and the response without them. *)
Definition serials_in (resp : response) : list Z :=
  match resp with
  | DnsReply m => omap rr_serial (Ns m)
  | AXFRReply x => [AXFR_Serial x]
  | _ => []
  end.

Definition without_serials (resp : response) : response :=
  match resp with
  | DnsReply m => DnsReply (msg_without m)
  | AXFRReply x => AXFRReply (axfr_without x)
  | resp => resp
  end.

(** ** Replies *)

Lemma len_step_without compress st r : len_step compress st (rr_without r) = len_step compress st r.
Proof. destruct r; done. Qed.

Lemma section_without compress l st :
  foldl (len_step compress) st (rr_without <$> l) = foldl (len_step compress) st l.
Proof.
  revert st. induction l as [|r l IH]; intros st; [done|]. cbn. by rewrite len_step_without.
Qed.

Lemma Len_without m : Len (msg_without m) = Len m.
Proof.
  unfold Len. cbn [Compress Questions Answer Ns Extra msg_without set_Ns set_sections].
  by rewrite section_without.
Qed.

Lemma truncate_loop_without fuel max answers left right m :
  truncate_loop fuel max answers left right (msg_without m)
  = msg_without (truncate_loop fuel max answers left right m).
Proof.
  revert left right m. induction fuel as [|fuel IH]; intros left right m; [done|].
  cbn [truncate_loop]. destruct (left =? right)%nat; [done|]. cbv zeta.
  change (set_Answer (msg_without m) ?l) with (msg_without (set_Answer m l)).
  rewrite Len_without. destruct (_ <? _)%Z; by rewrite IH.
Qed.

Lemma reply_without network m : reply network (msg_without m) = msg_without <$> reply network m.
Proof.
  unfold reply. change (set_Compress (msg_without m) true) with (msg_without (set_Compress m true)).
  generalize (set_Compress m true) as m1, (isUDP network) as udp. clear m. intros m udp. unfold truncate.
  change (max_size (msg_without m) udp) with (max_size m udp).
  destruct (max_size m udp) as [max|]; [|done]. cbn [mbind go_bind]. rewrite Len_without.
  change (set_Truncated (msg_without m) ?b) with (msg_without (set_Truncated m b)).
  generalize (set_Truncated m (max <? Len m)%Z) as m1. clear m. intros m.
  change (Truncated (msg_without m)) with (Truncated m). destruct (Truncated m); [|done]. cbn [negb].
  change (set_Extra (msg_without m) []) with (msg_without (set_Extra m [])).
  rewrite Len_without. destruct (_ <? max)%Z; [done|]. cbn [fmap go_fmap].
  change (Answer (msg_without (set_Extra m []))) with (Answer (set_Extra m [])).
  by rewrite truncate_loop_without.
Qed.

Lemma truncate_loop_Ns fuel max answers left right m :
  Ns (truncate_loop fuel max answers left right m) = Ns m.
Proof.
  revert left right m. induction fuel as [|fuel IH]; intros left right m; [done|].
  cbn [truncate_loop]. destruct (left =? right)%nat; [done|]. cbv zeta.
  destruct (_ <? _)%Z; by rewrite IH.
Qed.

Lemma reply_Ns network m m' : reply network m = Ret m' → Ns m' = Ns m.
Proof.
  unfold reply, truncate. intros Hr. go_inv Hr. destruct (negb _); [by apply Ret_inj in Hr as <-|].
  destruct (_ <? _)%Z; apply Ret_inj in Hr as <-; [done|]. by rewrite truncate_loop_Ns.
Qed.

(** ** Handlers *)

Section handlers.
Context `{UnicodeTables, MapOrder, Rand}.
Context (res : Resolver) (config : Config).

Abbreviation serial_config z := (set_SOASerial config z).

(** The serials of a message are among [P]. *)
Definition serials_ok (P : Z → Prop) (m : Msg) : Prop := Forall P (omap rr_serial (Ns m)).

Lemma srv_loop_Ns rs qname l st : Ns (foldl (srv_step res rs qname) st l).1.1 = Ns st.1.1.
Proof.
  revert st. induction l as [|srv l IH]; intros st; [done|]. cbn [foldl]. rewrite IH.
  destruct st as [[m1 errs] added]. unfold srv_step. destruct (formatSRV _ _ _); [|done].
  case_bool_decide; [done|]. destruct (_ =? 0)%nat; [done|]. destruct (First _ _ _) as [a []]; [|done].
  by destruct (formatA _ _ _).
Qed.

Lemma handleSRV_Ns rs name qname m : Ns (handleSRV res rs name qname m).1 = Ns m.
Proof. unfold handleSRV. by rewrite srv_loop_Ns. Qed.

Lemma a_loop_Ns name l st : Ns (foldl (a_step res name) st l).1 = Ns st.1.
Proof.
  revert st. induction l as [|a l IH]; intros st; [done|]. cbn [foldl]. rewrite IH.
  destruct st as [m1 errs]. unfold a_step. by destruct (formatA _ _ _).
Qed.

Lemma handleA_Ns rs name m : Ns (handleA res rs name m).1 = Ns m.
Proof. unfold handleA. by rewrite a_loop_Ns. Qed.

(** The switch depends on the serial only through the SOA records. *)
Lemma ask_serial z r q :
  let '(m, errs) := mesos_ask res (serial_config z) r q in
  let '(m', errs') := mesos_ask res config r q in
  msg_without m = msg_without m' ∧ errs = errs' ∧ serials_ok (.= z) m.
Proof.
  unfold mesos_ask, handle_question. set (m0 := SetReply _ r). assert (Ns m0 = []) as Hn0 by done.
  set (name := ToLower _). pose proof (handleSRV_Ns (res_rg res) name (Q_Name q) m0) as Hs.
  pose proof (handleA_Ns (res_rg res) name m0) as Ha.
  pose proof (λ m, handleA_Ns (res_rg res) name m) as Ha'.
  destruct (handleSRV _ _ _ _ _) as [ms es]; destruct (handleA res (res_rg res) name m0) as [ma ea];
    cbn [fst] in *.
  specialize (Ha' ms). destruct (handleA res (res_rg res) name ms) as [msa esa]. cbn [fst] in *.
  unfold serials_ok, msg_without, handleSOA, handleNS.
  repeat case_match; simplify_eq;
    cbn [Ns set_Ns set_sections Answer Extra]; rewrite ?Ha', ?Hs, ?Ha, ?Hn0; cbn; split_and!;
    try done; by repeat constructor.
Qed.

(** The SOA record that [handleEmpty] adds. *)
Definition add_soa (c : Config) (rc : Z) (q : Question) (m : Msg) : Msg :=
  set_Ns (set_Rcode m rc) (Ns (set_Rcode m rc) ++ [formatSOA res c (Q_Name q)]).

Lemma add_soa_without z rc q a b :
  msg_without a = msg_without b →
  msg_without (add_soa (serial_config z) rc q a) = msg_without (add_soa config rc q b).
Proof.
  intros Hab. assert (rr_without <$> Ns a = rr_without <$> Ns b) as Hn by exact (f_equal Ns Hab).
  change (set_Ns (set_Rcode (msg_without a) rc)
      (rr_without <$> (Ns a ++ [formatSOA res (serial_config z) (Q_Name q)]))
    = set_Ns (set_Rcode (msg_without b) rc)
        (rr_without <$> (Ns b ++ [formatSOA res config (Q_Name q)]))).
  by rewrite !fmap_app, Hn, Hab.
Qed.

Lemma add_soa_serials (P : Z → Prop) z rc q m :
  P z → serials_ok P m → serials_ok P (add_soa (serial_config z) rc q m).
Proof.
  intros Hz Hs. unfold serials_ok, add_soa. cbn [Ns set_Ns set_sections]. rewrite omap_app.
  apply Forall_app. split; [exact Hs|]. by repeat constructor.
Qed.

Lemma finish_serial (P : Z → Prop) z network q m1 m2 errs log :
  msg_without m1 = msg_without m2 → P z → serials_ok P m1 →
  msg_without <$> (mesos_finish res (serial_config z) network q m1 errs log).2
  = msg_without <$> (mesos_finish res config network q m2 errs log).2
  ∧ ∀ m', (mesos_finish res (serial_config z) network q m1 errs log).2 = Ret m' → serials_ok P m'.
Proof.
  intros Hm Hz Hs.
  assert (∀ a b, msg_without a = msg_without b →
    msg_without <$> reply network a = msg_without <$> reply network b) as Hreply.
  { intros a b Hab. by rewrite <-!reply_without, Hab. }
  assert (∀ a, serials_ok P a → ∀ m', reply network a = Ret m' → serials_ok P m') as Hrs.
  { intros a Ha m' Hr. unfold serials_ok. by rewrite (reply_Ns _ _ _ Hr). }
  assert (Answer m1 = Answer m2) as Ha by exact (f_equal Answer Hm).
  unfold mesos_finish. rewrite <-Ha. destruct (Answer m1) as [|x l].
  - unfold handleEmpty. destruct (_ || _ || _).
    { split; [by apply Hreply|by apply Hrs]. }
    destruct (_ || _); (split; [|by apply Hrs, (add_soa_serials P z _ q m1)]); apply Hreply.
    + by apply (add_soa_without z RcodeSuccess q m1 m2).
    + by apply (add_soa_without z RcodeNameError q m1 m2).
  - destruct (shuffleAnswers _) as [l'|c]; [|by split]. cbn [mbind go_bind]. split; [|apply Hrs; exact Hs].
    apply Hreply. change (set_Answer (msg_without m1) l' = set_Answer (msg_without m2) l'). by rewrite Hm.
Qed.

(** The response to a request whose handler has read the serial twice: before
    and after the end of its switch. *)
Definition respond_between (c1 c2 : Config) (req : request) : response :=
  match req with
  | DnsQuery network r =>
      DnsReply (panicRecover r
        match Questions r with
        | [] => Panic IndexOutOfRange
        | q :: _ =>
            let '(m, errs) := mesos_ask res c1 r q in (mesos_finish res c2 network q m errs CurLog).2
        end)
  | req => respond res c2 req
  end.

(** Up to the serials it is the response of the handler alone. *)
Lemma between_respond z1 z2 req :
  let resp := respond_between (serial_config z1) (serial_config z2) req in
  without_serials resp = without_serials (respond res config req)
  ∧ Forall (λ z, z = z1 ∨ z = z2) (serials_in resp).
Proof.
  destruct req as [network r|host|service| |]; try by repeat constructor.
  cbn -[HandleMesos]. rewrite HandleMesos_split. destruct (Questions r) as [|q qs]; [by repeat constructor|].
  pose proof (ask_serial z1 r q) as Hask.
  destruct (mesos_ask res (serial_config z1) r q) as [m1 errs].
  destruct (mesos_ask res config r q) as [m2 errs2]. destruct Hask as (Hm & <- & Hs).
  destruct (finish_serial (λ z, z = z1 ∨ z = z2) z2 network q m1 m2 errs CurLog Hm)
    as [Hfin Hok]; [by right|eapply Forall_impl; [exact Hs|]; by left|].
  rewrite (mesos_finish_log res config network q m2 errs (Inc MesosRequests CurLog) CurLog).
  destruct (mesos_finish res (serial_config z2) network q m1 errs CurLog).2 as [m|c];
    destruct (mesos_finish res config network q m2 errs CurLog).2 as [m'|c']; try done.
  apply Ret_inj in Hfin. split; [cbn; by f_equal|by apply Hok].
Qed.

(** Without interference it is that response. *)
Lemma between_alone c req : respond_between c c req = respond res c req.
Proof.
  destruct req as [network r|host|service| |]; try done. cbn -[HandleMesos]. rewrite HandleMesos_split.
  destruct (Questions r) as [|q qs]; [done|]. destruct (mesos_ask res c r q) as [m errs].
  do 2 f_equal. apply mesos_finish_log.
Qed.
End handlers.
