(* ===== verification/ConcurrentProps.v ===== *)
(** * Requests and reloads in any interleaving

    The reply to a request is that of one whole generation that was current
    while the request ran; the lock keeps readers and the writer apart; every
    request is answered; the counters account for every request. *)

From S2P Require Import Prelude GoStrings GoNet Labels State Config Store Generator GeneratorSpec.
From S2P Require Import GeneratorProps Loader Dns Exchanger Resolver Main Concurrent Serials.

(** ** One generation per reply *)

Section generations.
Context `{UnicodeTables, MapOrder, Rand} {W : Type}.
Context (get : URL → W → (list ascii + string) * W) (unmarshal : list ascii → State + string).
Context (resolve : string → option IP).
Context (res0 : Resolver) (config0 : Config).

Abbreviation system := (system (W := W)).
Abbreviation step := (sstep get unmarshal resolve).
Abbreviation serial_config z := (set_SOASerial config0 z).

(** The response to [c] is that of a generation [g] that was current between
    its arrival and its reply, when generation [e] was; the serials that it
    read are not older than that generation and at most one ahead of [e]. *)
Definition answered (past : list RecordGenerator) (serials : list Z) (c : client)
    (resp : response) (e : nat) : Prop :=
  ∃ g rg j1 z1 j2 z2,
    (c_start c ≤ g ≤ e)%nat ∧ (e < length past)%nat ∧ past !! g = Some rg
    ∧ (g ≤ j1 ≤ j2)%nat ∧ (j2 ≤ S e)%nat
    ∧ serials !! j1 = Some z1 ∧ serials !! j2 = Some z2
    ∧ resp = respond_between (Reload res0 rg) (serial_config z1) (serial_config z2) (c_req c).

Definition client_ok (past : list RecordGenerator) (serials : list Z) (c : client) : Prop :=
  (c_start c < length past)%nat ∧
  match c_phase c with
  | Arrived | Reading => True
  | Holding rg | Snapshot rg => ∃ g, (c_start c ≤ g)%nat ∧ past !! g = Some rg
  | Asked rg m errs => ∃ g j z network r q qs,
      c_req c = DnsQuery network r ∧ Questions r = q :: qs
      ∧ (c_start c ≤ g ≤ j)%nat ∧ past !! g = Some rg ∧ serials !! j = Some z
      ∧ mesos_ask (Reload res0 rg) (serial_config z) r q = (m, errs)
  | Replied resp e => answered past serials c resp e
  end.

(** The generation that the main loop is about to store. *)
Definition coming (ph : mphase) : option RecordGenerator :=
  match ph with Parsed rg | Locking rg | Storing rg => Some rg | _ => None end.

Record sys_ok (s : system) : Prop := {
  ok_res : s_res s = Reload res0 (res_rg (s_res s));
  ok_current : last (s_past s) = Some (res_rg (s_res s));
  ok_config : ∃ z ms, s_config s = set_Masters (serial_config z) ms
                      ∧ last (s_serials s) = Some z;
  ok_serials : length (s_serials s) =
    (length (s_past s) + match coming (s_main s) with Some _ => 1 | None => 0 end)%nat;
  ok_servable : Forall (servable get unmarshal) (s_past s);
  ok_coming : ∀ rg, coming (s_main s) = Some rg → servable get unmarshal rg;
  ok_clients : Forall (client_ok (s_past s) (s_serials s)) (s_clients s) }.

(** Histories grow. *)
Lemma client_ok_mono past serials past' serials' c :
  client_ok past serials c → client_ok (past ++ past') (serials ++ serials') c.
Proof.
  assert (∀ {A} (l k : list A) i x, l !! i = Some x → (l ++ k) !! i = Some x) as Hl
    by (intros; by apply lookup_app_l_Some).
  unfold client_ok, answered. rewrite length_app. intros [Hs Hc]. split; [lia|].
  destruct (c_phase c); [done..| | | |].
  - destruct Hc as (g & ? & ?). eauto.
  - destruct Hc as (g & ? & ?). eauto.
  - destruct Hc as (g & j & z & n & r & q & qs & ?). exists g, j, z, n, r, q, qs. naive_solver.
  - destruct Hc as (g & rg & j1 & z1 & j2 & z2 & ? & ? & ? & ? & ? & ? & ? & ?).
    exists g, rg, j1, z1, j2, z2. split_and!; eauto; lia.
Qed.

(** The masters play no part in a response. *)
Lemma respond_masters res c1 ms1 c2 ms2 req :
  respond_between res (set_Masters c1 ms1) (set_Masters c2 ms2) req = respond_between res c1 c2 req.
Proof. by destruct req. Qed.

Lemma last_current (s : system) :
  sys_ok s → s_past s !! now_current s = Some (res_rg (s_res s))
             ∧ (0 < length (s_past s))%nat ∧ (now_current s < length (s_past s))%nat.
Proof.
  intros [_ Hl _ _ _ _ _]. rewrite last_lookup in Hl. unfold now_current.
  assert (0 < length (s_past s))%nat by (destruct (s_past s); [done|cbn; lia]).
  rewrite <-Nat.sub_1_r in Hl. split_and!; [done|lia..].
Qed.

Lemma last_serial (s : system) :
  sys_ok s → ∃ j z ms, s_config s = set_Masters (serial_config z) ms
    ∧ s_serials s !! j = Some z ∧ (now_current s ≤ j ≤ S (now_current s))%nat
    ∧ ∀ j' z', s_serials s !! j' = Some z' → (j' ≤ j)%nat.
Proof.
  intros Hs. destruct (last_current s Hs) as (_ & Hp & _).
  destruct (ok_config s Hs) as (z & ms & Hc & Hl). pose proof (ok_serials s Hs) as Hn.
  rewrite last_lookup in Hl. exists (pred (length (s_serials s))), z, ms. unfold now_current.
  split_and!; [done..| | |].
  - destruct (coming _); lia.
  - destruct (coming _); lia.
  - intros j' z' Hj%lookup_lt_Some. lia.
Qed.

(** What a step of a request has to show. *)
Lemma move_ok (s : system) i c ph l log :
  sys_ok s → s_clients s !! i = Some c →
  client_ok (s_past s) (s_serials s) (set_cphase c ph) →
  sys_ok (move s i ph l log).
Proof.
  intros [] Hi Hc. split; try done. by eapply Forall_alter_lookup.
Qed.

Lemma client_of (s : system) i c :
  sys_ok s → s_clients s !! i = Some c → client_ok (s_past s) (s_serials s) c.
Proof. intros Hs Hi. exact (Forall_lookup_1 _ _ _ _ (ok_clients s Hs) Hi). Qed.

(** A reply that was computed from a generation that is in the history and
    the present configuration. *)
Lemma answered_now (s : system) c g rg j1 z1 resp :
  sys_ok s → (c_start c ≤ g ≤ j1)%nat → s_past s !! g = Some rg → s_serials s !! j1 = Some z1 →
  resp = respond_between (Reload res0 rg) (serial_config z1) (s_config s) (c_req c) →
  answered (s_past s) (s_serials s) c resp (now_current s).
Proof.
  intros Hs Hg Hrg Hj1 ->. destruct (last_serial s Hs) as (j & z & ms & Hc & Hj & Hjn & Hmax).
  destruct (last_current s Hs) as (_ & Hp & _). apply lookup_lt_Some in Hrg as Hlt.
  pose proof (Hmax _ _ Hj1). unfold now_current in *.
  exists g, rg, j1, z1, j, z. split_and!; try done; try lia.
  rewrite Hc. change (serial_config z1) with (set_Masters (serial_config z1) (Masters (serial_config z1))).
  by rewrite !respond_masters.
Qed.

(** A request that panics early does so whatever the records are. *)
Lemma early_respond res c1 c2 req resp : early req = Some resp → respond_between res c1 c2 req = resp.
Proof.
  destruct req as [n r|host|service| |]; cbn; [done| | |done..];
    unfold RestHost, RestService; destruct (rest_name _); [done|by intros [= <-]|done|by intros [= <-]].
Qed.

Lemma set_main_ok (s : system) ph l :
  sys_ok s → coming ph = coming (s_main s) → sys_ok (set_main s ph l).
Proof. intros [] E. split; cbn [s_main set_main]; rewrite ?E; done. Qed.

Lemma store_ok (s : system) rg : sys_ok s → s_main s = Storing rg → sys_ok (store s rg).
Proof.
  intros [Hr Hl Hc Hn Hsv Hco Hcl] Hm. rewrite Hm in Hn, Hco. cbn in Hn, Hco. split; cbn.
  - by rewrite Hr.
  - by rewrite last_snoc.
  - exact Hc.
  - rewrite length_app, Hn. cbn. lia.
  - apply Forall_app. split; [done|]. apply Forall_singleton. by apply Hco.
  - done.
  - eapply Forall_impl; [exact Hcl|]. intros c Hc'. rewrite <-(app_nil_r (s_serials s)).
    by apply client_ok_mono.
Qed.

Lemma istep_ok s s' : istep s s' → sys_ok s → sys_ok s'.
Proof.
  intros Hst Hs. pose proof (last_current s Hs) as (Hcur & Hp & Hlt).
  pose proof (last_serial s Hs) as (j & z & ms & Hcfg & Hj & Hjn & _).
  destruct Hst as [s i c resp Hi Hph He|s i c l Hi Hph He Hl|s i c Hi Hph|s i c rg l Hi Hph Hl
    |s i c rg n r Hi Hph Hr Hq|s i c rg n r q qs m errs Hi Hph Hr Hq Ha
    |s i c rg m errs n r q qs log out Hi Hph Hr Hq Hf|s i c rg Hi Hph Hr
    |s rg l Hm Hl|s rg l Hm Hl|s rg Hm|s Hm];
    try (pose proof (client_of s i c Hs Hi) as [Hst Hc]; rewrite Hph in Hc;
         eapply move_ok; [done|exact Hi|]; split; [done|]; cbn [c_phase set_cphase]);
    unfold now_current in *; try done.
  - destruct (lookup_lt_is_Some_2 _ _ Hst) as [rg Hrg].
    eapply (answered_now s _ (c_start c) rg j z); [done|cbn; lia|done..|].
    symmetry. by apply early_respond.
  - eexists. split; [|exact Hcur]. cbn. lia.
  - destruct Hc as (g & Hg & Hrg). apply lookup_lt_Some in Hrg as ?.
    eapply (answered_now s _ g rg j z); [done|cbn; lia|done..|]. cbn. by rewrite Hr; cbn; rewrite Hq.
  - destruct Hc as (g & Hg & Hrg). apply lookup_lt_Some in Hrg as ?.
    exists g, j, z, n, r, q, qs. split_and!; try done; [cbn; lia|].
    rewrite (ok_res s Hs), Hcfg in Ha. exact Ha.
  - destruct Hc as (g & j1 & z1 & n' & r' & q' & qs' & Hr' & Hq' & Hg & Hrg & Hj1 & Ha).
    rewrite Hr in Hr'. injection Hr' as <- <-. rewrite Hq in Hq'. injection Hq' as <- <-.
    eapply (answered_now s _ g rg j1 z1); [done..|]. cbn. rewrite Hr. cbn. rewrite Hq, Ha.
    rewrite (mesos_finish_log _ _ _ _ _ _ _ (s_log s)). rewrite (ok_res s Hs) in Hf.
    change (Reload (Reload res0 _) rg) with (Reload res0 rg) in Hf. by rewrite Hf.
  - destruct Hc as (g & Hg & Hrg). apply lookup_lt_Some in Hrg as ?.
    eapply (answered_now s _ g rg j z); [done|cbn; lia|done..|].
    rewrite (ok_res s Hs). change (Reload (Reload res0 _) rg) with (Reload res0 rg).
    change (c_req (set_cphase c _)) with (c_req c).
    destruct (c_req c) eqn:Er; [by destruct (Hr network r)|done..].
  - apply set_main_ok; [done|]. by rewrite Hm.
  - apply set_main_ok; [done|]. by rewrite Hm.
  - by apply store_ok.
  - apply set_main_ok; [done|]. by rewrite Hm.
Qed.

Lemma parse_ok (s : system) now ev :
  sys_ok s → s_main s = Select → sys_ok (parse get unmarshal resolve s now ev).
Proof.
  intros Hs Hm. unfold parse. destruct (ParseState _ _ _ _ _ _ _) as [[[[rg config] err] w]|] eqn:E.
  2:{ apply set_main_ok; [done|]. by rewrite Hm. }
  assert (∃ z ms, match ev with Tick => s_config s | Changed m => set_Masters (s_config s) m end
    = set_Masters (serial_config z) ms ∧ last (s_serials s) = Some z) as (z & ms & Hc & Hl).
  { destruct (ok_config s Hs) as (z & ms & -> & ?). destruct ev; by eexists _, _. }
  rewrite Hc in E. destruct Hs as [Hr Hcur _ Hn Hsv _ Hcl]. rewrite Hm in Hn. cbn in Hn.
  destruct err as [e|].
  - apply ParseState_props in E as [(_ & _ & ->)|([=] & _)].
    split; cbn; try done. by exists z, ms.
  - apply ParseState_servable in E as [Hrg ->]. split; cbn; try done.
    + exists (uint32 now), ms. split; [done|]. by rewrite last_snoc.
    + rewrite length_app, Hn. cbn. lia.
    + by intros ? [= <-].
    + eapply Forall_impl; [exact Hcl|]. intros c Hc'. rewrite <-(app_nil_r (s_past s)).
      by apply client_ok_mono.
Qed.

Lemma sstep_ok s s' : step s s' → sys_ok s → sys_ok s'.
Proof.
  intros [Hi|[s0 req|s0 now ev Hm]] Hs; [by eapply istep_ok|..|by apply parse_ok].
  pose proof (last_current _ Hs) as (_ & _ & Hlt).
  destruct Hs as [Hr Hcur Hc Hn Hsv Hco Hcl]. split; try done.
  cbn. apply Forall_app. split; [done|]. apply Forall_singleton. split; done.
Qed.

Lemma reachable_ok w s :
  res_rg res0 = NewRecordGenerator → rtc step (sys0 res0 config0 w) s → sys_ok s.
Proof.
  intros Hr0 Hrun.
  assert (sys_ok (sys0 res0 config0 w)) as Hinit.
  { split; cbn; [by destruct res0|done| |done| |done|done].
    - exists (SOASerial config0), (Masters config0). split; [by destruct config0|done].
    - apply Forall_singleton. by left. }
  induction Hrun as [|x y z Hxy _ IH]; [done|]. by eapply IH, sstep_ok.
Qed.

(** C13: whatever requests run while the records are reloaded, and however
    their steps interleave, the reply to a request is, up to the serials in it,
    the one that the handler gives when it runs alone on a single generation of
    records, which was current at some moment between the arrival of the
    request and its reply and which is whole: the empty one of the start, or
    that of a state with a leader.  No serial in the reply is older than that
    generation, and none is newer than the one after the generation that was
    current when the reply was sent. *)
Theorem replies_linearizable w s c resp e :
  res_rg res0 = NewRecordGenerator → rtc step (sys0 res0 config0 w) s →
  c ∈ s_clients s → c_phase c = Replied resp e →
  ∃ g rg,
    (c_start c ≤ g ≤ e)%nat ∧ s_past s !! g = Some rg ∧ servable get unmarshal rg
    ∧ without_serials resp = without_serials (respond (Reload res0 rg) config0 (c_req c))
    ∧ ∀ z, z ∈ serials_in resp → ∃ j, (g ≤ j ≤ S e)%nat ∧ s_serials s !! j = Some z.
Proof.
  intros Hr0 Hrun Hc Hph. pose proof (reachable_ok w s Hr0 Hrun) as Hs.
  pose proof (proj1 (Forall_forall _ _) (ok_clients s Hs) c Hc) as [_ Hok]. rewrite Hph in Hok.
  destruct Hok as (g & rg & j1 & z1 & j2 & z2 & Hg & He & Hrg & Hj & Hj2 & Hz1 & Hz2 & ->).
  destruct (between_respond (Reload res0 rg) config0 z1 z2 (c_req c)) as [Hsame Hserials].
  exists g, rg. split_and!; try done; try lia.
  - exact (Forall_lookup_1 _ _ _ _ (ok_servable s Hs) Hrg).
  - rewrite Forall_forall in Hserials. intros z [->| ->]%Hserials; [exists j1|exists j2]; (split; [lia|done]).
Qed.
End generations.

(** ** The lock *)

(** The request holds the lock for reading. *)
Definition holds (c : client) : nat :=
  match c_phase c with Reading | Holding _ => 1 | _ => 0 end.

(** The main loop has called [Lock]; its call has returned. *)
Definition main_pending (ph : mphase) : bool :=
  match ph with Locking _ | Storing _ | Unlocking => true | _ => false end.
Definition main_held (ph : mphase) : bool :=
  match ph with Storing _ | Unlocking => true | _ => false end.

(** The steps that a request and a reload have left. *)
Definition client_work (c : client) : nat :=
  match c_phase c with
  | Arrived => 5 | Reading => 4 | Holding _ => 3 | Snapshot _ => 2 | Asked _ _ _ => 1
  | Replied _ _ => 0
  end.
Definition main_work (ph : mphase) : nat :=
  match ph with Parsed _ => 4 | Locking _ => 3 | Storing _ => 2 | Unlocking => 1 | _ => 0 end.

Section lock.
Context `{UnicodeTables, MapOrder, Rand} {W : Type}.
Context (get : URL → W → (list ascii + string) * W) (unmarshal : list ascii → State + string).
Context (resolve : string → option IP).

Abbreviation system := (system (W := W)).
Abbreviation step := (sstep get unmarshal resolve).

Definition work (s : system) : nat :=
  sum_list_with client_work (s_clients s) + main_work (s_main s).

Record lock_ok (s : system) : Prop := {
  lock_readers : rw_readers (s_lock s) = sum_list_with holds (s_clients s);
  lock_pending : rw_pending (s_lock s) = main_pending (s_main s);
  lock_held : rw_held (s_lock s) = main_held (s_main s);
  lock_exclusive : main_held (s_main s) = true → rw_readers (s_lock s) = 0%nat }.

(** A step of a request that changes the readers as it should. *)
Lemma move_lock (s : system) i c ph l log :
  lock_ok s → s_clients s !! i = Some c →
  (rw_readers l + holds c = rw_readers (s_lock s) + holds (set_cphase c ph))%nat →
  rw_pending l = rw_pending (s_lock s) → rw_held l = rw_held (s_lock s) →
  (main_held (s_main s) = true → (holds (set_cphase c ph) ≤ holds c)%nat) →
  lock_ok (move s i ph l log).
Proof.
  intros [Hr Hp Hh He] Hi Hn Hpend Hheld Hle.
  pose proof (sum_list_with_alter holds (λ c, set_cphase c ph) _ _ _ Hi) as Hsum.
  split; cbn.
  - lia.
  - congruence.
  - congruence.
  - intros Hm. specialize (He Hm). specialize (Hle Hm). lia.
Qed.

Lemma istep_lock s s' : istep s s' → lock_ok s → lock_ok s'.
Proof.
  intros Hst Hs. destruct Hst as [s i c resp Hi Hph He|s i c l Hi Hph He Hl|s i c Hi Hph
    |s i c rg l Hi Hph Hl|s i c rg n r Hi Hph Hr Hq|s i c rg n r q qs m errs Hi Hph Hr Hq Ha
    |s i c rg m errs n r q qs log out Hi Hph Hr Hq Hf|s i c rg Hi Hph Hr
    |s rg l Hm Hl|s rg l Hm Hl|s rg Hm|s Hm];
    try (eapply move_lock; [done|exact Hi|unfold holds; cbn; by rewrite Hph|done..|];
         unfold holds; cbn; rewrite Hph; lia).
  - unfold RLock in Hl. destruct (rw_pending (s_lock s)) eqn:Ep; [done|]. injection Hl as <-.
    eapply move_lock; [done|exact Hi|unfold holds; cbn; rewrite Hph; lia|cbn; congruence|done|].
    rewrite (lock_pending s Hs) in Ep. by destruct (s_main s).
  - unfold RUnlock in Hl. destruct (rw_readers (s_lock s)) as [|n] eqn:En; [done|]. injection Hl as <-.
    eapply move_lock; [done|exact Hi|unfold holds; cbn; rewrite Hph; lia|done..|].
    unfold holds; cbn; rewrite Hph; lia.
  - destruct Hs as [Hr Hp Hh He]. rewrite Hm in *. unfold Lock_call in Hl. rewrite Hp in Hl.
    injection Hl as <-. by split.
  - destruct Hs as [Hr Hp Hh He]. unfold Lock_return in Hl.
    destruct (rw_readers (s_lock s)) as [|n] eqn:En; [|done]. injection Hl as <-. by split.
  - destruct Hs as [Hr Hp Hh He]. rewrite Hm in *. by split.
  - destruct Hs as [Hr Hp Hh He]. rewrite Hm in *. by split.
Qed.

Lemma estep_lock s s' : estep get unmarshal resolve s s' → lock_ok s → lock_ok s'.
Proof.
  intros [s0 req|s0 now ev Hm] [Hr Hp Hh He].
  - split; cbn; [|done..]. rewrite sum_list_with_app. cbn. lia.
  - rewrite Hm in *. unfold parse. destruct (ParseState _ _ _ _ _ _ _) as [[[[rg c] [e|]] w]|]; by split.
Qed.

Lemma reachable_lock res config w s : rtc step (sys0 res config w) s → lock_ok s.
Proof.
  intros Hrun. assert (lock_ok (sys0 res config w)) as Hinit by by split.
  induction Hrun as [|x y z [Hxy|Hxy] _ IH]; [done|..]; apply IH;
    [by eapply istep_lock|by eapply estep_lock].
Qed.

(** The lock does its work: in every reachable state, when the main loop
    is about to store the pointer to the records or to release the lock, no
    request is between [RLock] and [RUnlock], and the lock counts exactly the
    requests that are. *)
Theorem lock_excludes res config w s :
  rtc step (sys0 res config w) s →
  rw_readers (s_lock s) = sum_list_with holds (s_clients s)
  ∧ (main_held (s_main s) = true → Forall (λ c, holds c = 0%nat) (s_clients s)).
Proof.
  intros Hrun. destruct (reachable_lock _ _ _ _ Hrun) as [Hr Hp Hh He]. split; [done|].
  intros Hm. specialize (He Hm). rewrite He in Hr. clear -Hr.
  induction (s_clients s) as [|c l IH]; [constructor|]. cbn in Hr. constructor; [|apply IH]; lia.
Qed.

(** Every step leaves less to do. *)
Lemma istep_work (s s' : system) : istep s s' → (work s' < work s)%nat.
Proof.
  unfold work. intros Hst. destruct Hst as [s i c resp Hi Hph He|s i c l Hi Hph He Hl|s i c Hi Hph
    |s i c rg l Hi Hph Hl|s i c rg n r Hi Hph Hr Hq|s i c rg n r q qs m errs Hi Hph Hr Hq Ha
    |s i c rg m errs n r q qs log out Hi Hph Hr Hq Hf|s i c rg Hi Hph Hr
    |s rg l Hm Hl|s rg l Hm Hl|s rg Hm|s Hm]; cbn;
    try (match goal with |- context [alter ?f _ _] =>
           pose proof (sum_list_with_alter client_work f _ _ _ Hi) as Hsum end;
         unfold client_work at 2 4 in Hsum; rewrite Hph in Hsum; cbn in Hsum; lia).
  all: rewrite Hm; cbn; lia.
Qed.

(** A request that has the lock, or does not need it, can go on. *)
Lemma client_progress res0 config0 (s : system) i c :
  sys_ok get unmarshal res0 config0 s → lock_ok s → s_clients s !! i = Some c →
  (0 < client_work c < 5)%nat → ∃ s', istep s s'.
Proof.
  intros Hs Hl Hi Hw. pose proof (client_of _ _ _ _ _ _ _ Hs Hi) as [_ Hc].
  unfold client_work in Hw. destruct (c_phase c) as [| |rg|rg|rg m errs|resp e] eqn:Hph; try lia.
  - eexists. by eapply c_read.
  - assert (∃ l, RUnlock (s_lock s) = Some l) as [l HU].
    { unfold RUnlock. destruct (rw_readers (s_lock s)) eqn:En; [|eauto].
      assert (holds c = 1%nat) as Hh by (unfold holds; by rewrite Hph).
      pose proof (sum_list_with_alter holds id _ _ _ Hi) as Hsum.
      pose proof (sum_list_with_in c holds (s_clients s) (list_elem_of_lookup_2 _ _ _ Hi)).
      rewrite <-(lock_readers s Hl) in *. lia. }
    eexists. by eapply c_runlock.
  - destruct (c_req c) as [n r|h|sv| |] eqn:Hr.
    + destruct (Questions r) as [|q qs] eqn:Hq; [eexists; by eapply c_no_question|].
      destruct (mesos_ask (Reload (s_res s) rg) (s_config s) r q) as [m errs] eqn:Ha.
      eexists. by eapply c_ask.
    + eexists. eapply c_rest; [done..|]. by rewrite Hr.
    + eexists. eapply c_rest; [done..|]. by rewrite Hr.
    + eexists. eapply c_rest; [done..|]. by rewrite Hr.
    + eexists. eapply c_rest; [done..|]. by rewrite Hr.
  - destruct Hc as (g & j & z & n & r & q & qs & Hr & Hq & _).
    destruct (mesos_finish (Reload (s_res s) rg) (s_config s) n q m errs (s_log s)) as [log out] eqn:Hf.
    eexists. by eapply c_finish.
Qed.

(** When a reload has begun, it or a request that has the lock can go on. *)
Lemma main_progress res0 config0 (s : system) :
  sys_ok get unmarshal res0 config0 s → lock_ok s → (0 < main_work (s_main s))%nat →
  ∃ s', istep s s'.
Proof.
  intros Hs Hl Hw. destruct (s_main s) as [|rg|rg|rg| | |] eqn:Hm; try (cbn in Hw; lia).
  - assert (∃ l, Lock_call (s_lock s) = Some l) as [l Hc].
    { unfold Lock_call. rewrite (lock_pending s Hl), Hm. eauto. }
    eexists. by eapply m_lock.
  - destruct (Lock_return (s_lock s)) as [l|] eqn:Hr; [eexists; by eapply m_locked|].
    unfold Lock_return in Hr. destruct (rw_readers (s_lock s)) eqn:En; [done|].
    destruct (sum_list_with_pos holds (s_clients s)) as (i & c & Hi & Hh).
    { rewrite <-(lock_readers s Hl). lia. }
    eapply client_progress; [done..|exact Hi|]. unfold holds in Hh. unfold client_work.
    destruct (c_phase c); lia.
  - eexists. by eapply m_store.
  - eexists. by eapply m_unlock.
Qed.

Lemma progress res0 config0 (s : system) :
  sys_ok get unmarshal res0 config0 s → lock_ok s → (0 < work s)%nat → ∃ s', istep s s'.
Proof.
  intros Hs Hl Hw. destruct (decide (0 < main_work (s_main s))%nat) as [Hm|Hm];
    [by eapply main_progress|].
  destruct (sum_list_with_pos client_work (s_clients s)) as (i & c & Hi & Hc);
    [unfold work in Hw; lia|].
  destruct (c_phase c) as [| |rg|rg|rg m errs|resp e] eqn:Hph;
    try (eapply client_progress; [done..|exact Hi|]; unfold client_work in *; rewrite Hph in *; lia).
  destruct (early (c_req c)) as [resp|] eqn:He; [eexists; by eapply c_early|].
  assert (∃ l, RLock (s_lock s) = Some l) as [l HR].
  { unfold RLock. rewrite (lock_pending s Hl). destruct (s_main s); cbn in Hm |- *; eauto; lia. }
  eexists. by eapply c_rlock.
Qed.

(** C15: no request waits for ever and no reload does: from every reachable
    state the requests that have come and the reload that has begun take at
    most [work s] further steps, in whatever order, and they stop only when
    every request is answered and the main loop is out of [Reload]. *)
Theorem requests_answered res config w s :
  res_rg res = NewRecordGenerator → rtc step (sys0 res config w) s →
  ∀ n s', nsteps istep n s s' →
    (n ≤ work s)%nat
    ∧ ((∃ s'', istep s' s'')
       ∨ (main_work (s_main s') = 0%nat
          ∧ Forall (λ c, ∃ resp e, c_phase c = Replied resp e) (s_clients s'))).
Proof.
  intros Hr Hrun n s' Hn. split.
  - assert (n + work s' ≤ work s)%nat; [|lia]. clear Hr Hrun.
    induction Hn as [|n x y z Hxy _ IH]; [lia|]. apply istep_work in Hxy. lia.
  - assert (rtc step (sys0 res config w) s') as Hrun'.
    { etransitivity; [exact Hrun|]. eapply rtc_nsteps_2 in Hn. eapply rtc_subrel; [|exact Hn].
      by left. }
    pose proof (reachable_ok _ _ _ _ _ _ _ Hr Hrun') as Hs. pose proof (reachable_lock _ _ _ _ Hrun') as Hl.
    destruct (decide (0 < work s')%nat) as [Hw|Hw]; [left; by eapply progress|right].
    unfold work in Hw. split; [lia|]. assert (sum_list_with client_work (s_clients s') = 0%nat) as Hz by lia.
    clear -Hz. induction (s_clients s') as [|c l IH]; [constructor|]. cbn in Hz. constructor; [|apply IH; lia].
    unfold client_work in Hz. destruct (c_phase c); try lia. eauto.
Qed.
End lock.

(** ** The counters *)

(** The requests that neither counter of outcomes has been incremented for. *)
Definition unaccounted (c : client) : nat :=
  match c_req c, c_phase c with
  | DnsQuery _ r, Replied _ _ => match Questions r with [] => 1 | _ => 0 end
  | DnsQuery _ _, _ => 1
  | _, _ => 0
  end.

Section counters.
Context `{UnicodeTables, MapOrder, Rand} {W : Type}.
Context (get : URL → W → (list ascii + string) * W) (unmarshal : list ascii → State + string).
Context (resolve : string → option IP).

(** The requests of the zone without those with an outcome. *)
Definition balance (log : LogOut) : Z :=
  (log MesosRequests - log MesosSuccess - log MesosNXDomain)%Z.

Definition same_balance (log log' : LogOut) (d : Z) : Prop :=
  ∃ k, (balance log' = balance log + d + k * 2 ^ 64)%Z.

Lemma Inc_balance c log :
  same_balance log (Inc c log)
    (match c with MesosRequests => 1 | MesosSuccess | MesosNXDomain => -1 | _ => 0 end).
Proof.
  unfold same_balance, balance, Inc.
  assert (∀ x, ∃ k, (x + 1) mod 2 ^ 64 = x + 1 + k * 2 ^ 64)%Z as Hm.
  { intros x. exists (- ((x + 1) / 2 ^ 64))%Z. pose proof (Z_div_mod_eq_full (x + 1) (2 ^ 64)). lia. }
  destruct c; repeat case_decide; try done;
    first [exists 0%Z; lia
          |destruct (Hm (log MesosRequests)) as [k ->]; exists k; lia
          |destruct (Hm (log MesosSuccess)) as [k ->]; exists (-k)%Z; lia
          |destruct (Hm (log MesosNXDomain)) as [k ->]; exists (-k)%Z; lia].
Qed.

Lemma same_balance_trans log log' log'' d d' :
  same_balance log log' d → same_balance log' log'' d' → same_balance log log'' (d + d').
Proof. intros [k ?] [k' ?]. exists (k + k')%Z. lia. Qed.

Lemma same_balance_refl log : same_balance log log 0.
Proof. exists 0%Z. lia. Qed.

(** A question that is answered has one outcome. *)
Lemma mesos_finish_balance res config network q m errs log log' out :
  mesos_finish res config network q m errs log = (log', out) → same_balance log log' (-1).
Proof.
  unfold mesos_finish, handleEmpty. intros Hf.
  assert (∃ c, (c = MesosSuccess ∨ c = MesosNXDomain)
    ∧ (log' = Inc c log ∨ log' = Inc MesosFailed (Inc c log))) as (c & Hc & Hl).
  { destruct (Answer m); [destruct (_ || _)|]; destruct (multiError_Nil errs);
      injection Hf as <- _; eauto 10. }
  assert (same_balance log (Inc c log) (-1)) as H1'
    by (pose proof (Inc_balance c log); by destruct Hc as [-> | ->]).
  destruct Hl as [-> | ->]; [done|]. eapply (same_balance_trans _ _ _ (-1) 0); [done|].
  apply (Inc_balance MesosFailed).
Qed.

Lemma stats_balance domain zone success log : same_balance log (stats domain zone success log) 0.
Proof.
  unfold stats. destruct (HasSuffix domain zone).
  - destruct success; (eapply (same_balance_trans _ _ _ 1 (-1)); [apply (Inc_balance MesosRequests)|]);
      [apply (Inc_balance MesosSuccess)|apply (Inc_balance MesosNXDomain)].
  - eapply (same_balance_trans _ _ _ 0 0); [apply (Inc_balance NonMesosRequests)|].
    apply (Inc_balance NonMesosFailed).
Qed.

Lemma rest_log_balance res config req log : same_balance log (rest_log res config req log) 0.
Proof.
  destruct req as [n r|h|sv| |]; cbn; try apply same_balance_refl.
  - unfold RestHost. destruct (rest_name h); cbn; [apply stats_balance|apply same_balance_refl].
  - unfold RestService. destruct (rest_name sv); cbn; [apply stats_balance|apply same_balance_refl].
Qed.

Abbreviation system := (system (W := W)).
Abbreviation step := (sstep get unmarshal resolve).

Definition accounted (s : system) : Prop :=
  ∃ k, (balance (s_log s) = Z.of_nat (sum_list_with unaccounted (s_clients s)) + k * 2 ^ 64)%Z.

(** A step of a request whose share changes with the counters. *)
Lemma move_accounted (s : system) i c ph l log d :
  accounted s → s_clients s !! i = Some c → same_balance (s_log s) log d →
  (Z.of_nat (unaccounted (set_cphase c ph)) = Z.of_nat (unaccounted c) + d)%Z →
  accounted (move s i ph l log).
Proof.
  intros [k Hk] Hi [k' Hk'] Hu. exists (k + k')%Z. cbn.
  pose proof (sum_list_with_alter unaccounted (λ c, set_cphase c ph) _ _ _ Hi). lia.
Qed.

Lemma istep_accounted s s' : istep s s' → accounted s → accounted s'.
Proof.
  intros Hst Ha. destruct Hst as [s i c resp Hi Hph He|s i c l Hi Hph He Hl|s i c Hi Hph
    |s i c rg l Hi Hph Hl|s i c rg n r Hi Hph Hr Hq|s i c rg n r q qs m errs Hi Hph Hr Hq Hask
    |s i c rg m errs n r q qs log out Hi Hph Hr Hq Hf|s i c rg Hi Hph Hr
    |s rg l Hm Hl|s rg l Hm Hl|s rg Hm|s Hm]; try done;
    try (eapply (move_accounted _ _ _ _ _ _ 0); [done|exact Hi|apply same_balance_refl|];
         unfold unaccounted; cbn; rewrite Hph, ?Hr, ?Hq; by destruct (c_req c)).
  - eapply (move_accounted _ _ _ _ _ _ (-1)); [done|exact Hi|by eapply mesos_finish_balance|].
    unfold unaccounted. cbn. by rewrite Hph, Hr, Hq.
  - eapply (move_accounted _ _ _ _ _ _ 0); [done|exact Hi|apply rest_log_balance|].
    unfold unaccounted. cbn. rewrite Hph. destruct (c_req c); [by destruct (Hr network r)|done..].
Qed.

Lemma estep_accounted s s' : estep get unmarshal resolve s s' → accounted s → accounted s'.
Proof.
  intros [s0 req|s0 now ev Hm] [k Hk].
  - unfold accounted, arrive. cbn [s_log s_clients]. rewrite sum_list_with_app. destruct req.
    1:{ destruct (Inc_balance MesosRequests (s_log s0)) as [k' Hk']. exists (k + k')%Z. cbn in *. lia. }
    all: exists k; cbn; lia.
  - exists k. unfold parse. by destruct (ParseState _ _ _ _ _ _ _) as [[[[rg c] [e|]] w]|].
Qed.

(** C16: no count is lost: in every reachable state the counter of requests
    for the zone is the sum of those that succeeded, those for unknown names
    and the DNS queries that are not finished or had no question, up to the
    wrap-around at 2^64. *)
Theorem requests_accounted res config w s :
  rtc step (sys0 res config w) s →
  (s_log s MesosRequests `mod` 2 ^ 64 =
   (s_log s MesosSuccess + s_log s MesosNXDomain
    + Z.of_nat (sum_list_with unaccounted (s_clients s))) `mod` 2 ^ 64)%Z.
Proof.
  intros Hrun. assert (accounted s) as [k Hk].
  { assert (accounted (sys0 res config w)) as Hinit by by exists 0%Z.
    induction Hrun as [|x y z [Hxy|Hxy] _ IH]; [done|..]; apply IH;
      [by eapply istep_accounted|by eapply estep_accounted]. }
  unfold balance in Hk.
  replace (s_log s MesosRequests) with (s_log s MesosSuccess + s_log s MesosNXDomain
    + Z.of_nat (sum_list_with unaccounted (s_clients s)) + k * 2 ^ 64)%Z by lia.
  apply Z_mod_plus_full.
Qed.
End counters.
