(* ===== verification/ConcurrentRuns.v ===== *)
(** * Runs of requests and reloads

    The system of requests and reloads refines the process of Main.v, which
    has no lock; a transfer of the zone can carry a serial that its
    records are too old for; and a concrete run, in which a query, a transfer
    and a reload overlap. *)

From S2P Require Import Prelude GoStrings GoNet Labels State Config Store Generator GeneratorSpec.
From S2P Require Import GeneratorProps Loader Dns Exchanger Resolver ResolverProps Main.
From S2P Require Import Concurrent Serials ConcurrentProps.

Section runs.
Context `{UnicodeTables, MapOrder, Rand} {W : Type}.
Context (get : URL → W → (list ascii + string) * W) (unmarshal : list ascii → State + string).
Context (resolve : string → option IP).

Abbreviation system := (system (W := W)).
Abbreviation conc_step := (sstep get unmarshal resolve).
Abbreviation seq_step := (step (R := Resolver) get unmarshal resolve).

(** ** Refinement *)






(** ** A serial that is ahead of the records *)

Lemma move_self (s : system) i c ph l log :
  s_clients s !! i = Some c → s_clients (move s i ph l log) !! i = Some (set_cphase c ph).
Proof. intros Hi. cbn. by rewrite list_lookup_alter_eq, Hi. Qed.

(** A request can run to its end while the main loop does nothing. *)
Lemma rest_run (s : system) i c :
  s_clients s !! i = Some c → c_phase c = Arrived → early (c_req c) = None →
  (∀ network r, c_req c ≠ DnsQuery network r) → rw_pending (s_lock s) = false →
  ∃ s', rtc istep s s' ∧ s_res s' = s_res s ∧ s_config s' = s_config s
    ∧ s_clients s' !! i = Some (set_cphase c
        (Replied (respond (s_res s) (s_config s) (c_req c)) (now_current s))).
Proof.
  intros Hi Hph He Hr Hl.
  assert (RLock (s_lock s) = Some {| rw_readers := S (rw_readers (s_lock s)); rw_pending := false;
    rw_held := rw_held (s_lock s) |}) as HR by (unfold RLock; by rewrite Hl).
  eexists. split_and!.
  - eapply rtc_l; [exact (c_rlock s i c _ Hi Hph He HR)|].
    eapply rtc_l; [eapply (c_read _ i); [by apply move_self|done]|].
    eapply rtc_l; [eapply (c_runlock _ i); [by do 2 apply move_self|done|done]|].
    apply rtc_once. eapply (c_rest _ i); [by do 3 apply move_self|done|exact Hr].
  - done.
  - done.
  - erewrite move_self by (by do 3 apply move_self). cbn. by destruct (s_res s).
Qed.

(** A transfer of the zone can carry a serial that its records are too
    old for: InsertState stores the serial of the next generation in the
    configuration that the current one shares, so that until [Reload] has
    stored the pointer a transfer has the old records under the new serial. *)
Theorem axfr_ahead res config w s i c now rg config' w' :
  rtc conc_step (sys0 res config w) s → s_main s = Select →
  s_clients s !! i = Some c → c_req c = AXFRQuery → c_phase c = Arrived →
  ParseState get unmarshal resolve now NewRecordGenerator (s_config s) (s_world s)
    = Ret (rg, config', None, w') →
  ∃ s' x e, rtc conc_step s s'
    ∧ s_clients s' !! i = Some (set_cphase c (Replied (AXFRReply x) e))
    ∧ s_res s' = s_res s ∧ AXFR_Serial x = uint32 now
    ∧ AXFR_As x = ToAXFRResourceRecordSet "As " (default ∅ (As (res_rg (s_res s))))
    ∧ AXFR_SRVs x = ToAXFRResourceRecordSet "SRVs " (default ∅ (SRVs (res_rg (s_res s)))).
Proof.
  intros Hrun Hm Hi Hr Hph Hp. pose proof (reachable_lock _ _ _ _ _ _ _ Hrun) as Hl.
  pose proof (ParseState_servable _ _ _ _ _ _ _ _ _ Hp) as [_ Hc].
  set (s1 := parse get unmarshal resolve s now Tick).
  assert (s_clients s1 = s_clients s ∧ s_res s1 = s_res s ∧ s_lock s1 = s_lock s
    ∧ s_config s1 = config') as (E1 & E2 & E3 & E4) by (unfold s1, parse; by rewrite Hp).
  destruct (rest_run s1 i c) as (s' & Hs' & Hres & Hcfg & Hcl);
    [by rewrite E1|done|by rewrite Hr|by rewrite Hr| |].
  { rewrite E3, (lock_pending s Hl). by rewrite Hm. }
  eexists s', _, _. split_and!; [|by rewrite Hcl, Hr|by rewrite Hres| | |].
  - eapply rtc_l; [right; by apply (e_event _ _ _ s now Tick)|].
    eapply rtc_subrel; [|exact Hs']. by left.
  - rewrite E4, Hc. done.
  - by rewrite E2.
  - by rewrite E2.
Qed.

(** ** Running the system *)

(** Who makes the next step. *)
Inductive choice := Request (req : request) | Event (now : Z) (ev : event) | Client (i : nat) | Loop.

Definition exec_client (s : system) (i : nat) (c : client) : option system :=
  match c_phase c with
  | Arrived =>
      match early (c_req c) with
      | Some resp => Some (move s i (Replied resp (now_current s)) (s_lock s) (s_log s))
      | None => (λ l, move s i Reading l (s_log s)) <$> RLock (s_lock s)
      end
  | Reading => Some (move s i (Holding (res_rg (s_res s))) (s_lock s) (s_log s))
  | Holding rg => (λ l, move s i (Snapshot rg) l (s_log s)) <$> RUnlock (s_lock s)
  | Snapshot rg =>
      match c_req c with
      | DnsQuery network r =>
          match Questions r with
          | [] => Some (move s i (Replied (DnsReply (panicRecover r (Panic IndexOutOfRange)))
                    (now_current s)) (s_lock s) (s_log s))
          | q :: _ =>
              let '(m, errs) := mesos_ask (Reload (s_res s) rg) (s_config s) r q in
              Some (move s i (Asked rg m errs) (s_lock s) (s_log s))
          end
      | req =>
          Some (move s i (Replied (respond (Reload (s_res s) rg) (s_config s) req)
                            (now_current s))
                  (s_lock s) (rest_log (Reload (s_res s) rg) (s_config s) req (s_log s)))
      end
  | Asked rg m errs =>
      match c_req c with
      | DnsQuery network r =>
          match Questions r with
          | [] => None
          | q :: _ =>
              let '(log, out) :=
                mesos_finish (Reload (s_res s) rg) (s_config s) network q m errs (s_log s) in
              Some (move s i (Replied (DnsReply (panicRecover r out)) (now_current s)) (s_lock s) log)
          end
      | _ => None
      end
  | Replied _ _ => None
  end.

Definition exec_main (s : system) : option system :=
  match s_main s with
  | Parsed rg => set_main s (Locking rg) <$> Lock_call (s_lock s)
  | Locking rg => set_main s (Storing rg) <$> Lock_return (s_lock s)
  | Storing rg => Some (store s rg)
  | Unlocking => Some (set_main s Select (Unlock (s_lock s)))
  | _ => None
  end.

Definition exec (s : system) (ch : choice) : option system :=
  match ch with
  | Request req => Some (arrive s req)
  | Event now ev =>
      match s_main s with Select => Some (parse get unmarshal resolve s now ev) | _ => None end
  | Client i => s_clients s !! i ≫= exec_client s i
  | Loop => exec_main s
  end.

Fixpoint exec_all (s : system) (chs : list choice) : option system :=
  match chs with [] => Some s | ch :: chs => exec s ch ≫= λ s', exec_all s' chs end.

(** The steps are exactly the executions of a choice. *)
Lemma exec_sound s ch s' : exec s ch = Some s' → conc_step s s'.
Proof.
  destruct ch as [req|now ev|i|]; cbn.
  - intros [= <-]. right. constructor.
  - destruct (s_main s) eqn:Hm; try done. intros [= <-]. right. by constructor.
  - destruct (s_clients s !! i) as [c|] eqn:Hi; [|done]. cbn. unfold exec_client. intros Hex. left. revert Hex.
    destruct (c_phase c) as [| |rg|rg|rg m errs|resp e] eqn:Hph.
    + destruct (early (c_req c)) as [resp|] eqn:He; [intros [= <-]; by eapply c_early|].
      destruct (RLock (s_lock s)) eqn:Hl; [intros [= <-]; by eapply c_rlock|done].
    + intros [= <-]. by eapply c_read.
    + destruct (RUnlock (s_lock s)) eqn:Hl; [intros [= <-]; by eapply c_runlock|done].
    + destruct (c_req c) as [n r|h|sv| |] eqn:Hr.
      1:{ destruct (Questions r) as [|q qs] eqn:Hq; [intros [= <-]; by eapply c_no_question|].
          destruct (mesos_ask _ _ _ _) as [m errs] eqn:Ha. intros [= <-]. by eapply c_ask. }
      all: intros [= <-]; pose proof (c_rest s i c rg Hi Hph) as Hrest; rewrite Hr in Hrest; by apply Hrest.
    + destruct (c_req c) as [n r|h|sv| |] eqn:Hr; [|done..].
      destruct (Questions r) as [|q qs] eqn:Hq; [done|].
      destruct (mesos_finish _ _ _ _ _ _ _) as [log out] eqn:Hf. intros [= <-]. by eapply c_finish.
    + done.
  - unfold exec_main. intros Hex. left. destruct (s_main s) eqn:Hm; simplify_option_eq; by econstructor.
Qed.

Lemma exec_complete s s' : conc_step s s' → ∃ ch, exec s ch = Some s'.
Proof.
  intros [Hst|[s0 req|s0 now ev Hm]];
    [|by exists (Request req)|exists (Event now ev); cbn; by rewrite Hm].
  destruct Hst as [s i c resp Hi Hph He|s i c l Hi Hph He Hl|s i c Hi Hph
    |s i c rg l Hi Hph Hl|s i c rg n r Hi Hph Hr Hq|s i c rg n r q qs m errs Hi Hph Hr Hq Ha
    |s i c rg m errs n r q qs log out Hi Hph Hr Hq Hf|s i c rg Hi Hph Hr
    |s rg l Hm Hl|s rg l Hm Hl|s rg Hm|s Hm].
  1-8: exists (Client i); cbn; rewrite Hi; cbn; unfold exec_client; rewrite Hph.
  - by rewrite He.
  - by rewrite He, Hl.
  - done.
  - by rewrite Hl.
  - by rewrite Hr, Hq.
  - by rewrite Hr, Hq, Ha.
  - by rewrite Hr, Hq, Hf.
  - destruct (c_req c); [by destruct (Hr network r)|done..].
  - exists Loop. cbn. unfold exec_main. by rewrite Hm, Hl.
  - exists Loop. cbn. unfold exec_main. by rewrite Hm, Hl.
  - exists Loop. cbn. unfold exec_main. by rewrite Hm.
  - exists Loop. cbn. unfold exec_main. by rewrite Hm.
Qed.

Lemma exec_all_sound s chs s' : exec_all s chs = Some s' → rtc conc_step s s'.
Proof.
  revert s. induction chs as [|ch chs IH]; intros s; cbn; [by intros [= ->]|].
  destruct (exec s ch) as [s1|] eqn:E; [|done]. cbn. intros Hs.
  eapply rtc_l; [by eapply exec_sound|by apply IH].
Qed.
End runs.

(** ** A run in which a query, a transfer and a reload overlap *)

Module DemoConcurrent.
#[local] Instance ascii_tables : UnicodeTables := {| unicode_ToLower := λ s, s |}.
Import DemoZone.

Definition res0 : Resolver :=
  {| res_version := "1"; res_config := Builtin.NewConfig; res_rg := NewRecordGenerator |}.

Definition conf : Config := Loader.Demo.config ["10.0.0.2:5050"].

Abbreviation demo_exec := (exec_all Loader.Demo.get Loader.Demo.unmarshal (λ _, None)).
Abbreviation demo_step := (sstep Loader.Demo.get Loader.Demo.unmarshal (λ _, None)).

(** The query reads the records of the start while the next generation is
    parsed; the reload waits for its lock and then becomes current; the query
    then finishes. *)
Definition schedule : list choice :=
  [Request (DnsQuery "udp" (query "leader.mesos." TypeA)); Client 0; Event 7 Tick; Client 0; Loop;
   Client 0; Loop; Loop; Client 0].

(** The state after a schedule. *)
Definition after (s : system) (chs : list choice) : system (W := nat) := default s (demo_exec s chs).

Lemma after_run s chs :
  (if demo_exec s chs then true else false) = true → rtc demo_step s (after s chs).
Proof.
  unfold after. destruct (demo_exec s chs) as [s'|] eqn:E; [|done]. intros _.
  by eapply exec_all_sound.
Qed.

Definition beginning : system := sys0 res0 conf 0%nat.
Definition middle : system := after beginning schedule.

Lemma middle_run : rtc demo_step beginning middle.
Proof. apply after_run. vm_compute. reflexivity. Qed.

(** The query is answered from the generation of the start when the next one
    is current. *)
Definition answered_state : system := after middle [Client 0; Loop].

Lemma answered_run : rtc demo_step beginning answered_state.
Proof. etransitivity; [exact middle_run|]. apply after_run. vm_compute. reflexivity. Qed.

Definition dns_reply (c : client) : option (Z * nat) :=
  match c_phase c with Replied (DnsReply m) e => Some (Rcode m, e) | _ => None end.

Example dns_reply_last : dns_reply <$> s_clients answered_state = [Some (RcodeNameError, 1%nat)].
Proof. vm_compute. reflexivity. Qed.

Lemma replies_linearizable_witness :
  ∃ c resp e g rg, c ∈ s_clients answered_state ∧ c_phase c = Replied resp e
    ∧ (c_start c ≤ g ≤ e)%nat ∧ s_past answered_state !! g = Some rg
    ∧ without_serials resp = without_serials (respond (Reload res0 rg) conf (c_req c)).
Proof.
  pose proof dns_reply_last as Hd. destruct (s_clients answered_state) as [|c [|]] eqn:Hc; try done.
  injection Hd as Hd. unfold dns_reply in Hd. destruct (c_phase c) as [| | | | |resp e] eqn:Hph; try done.
  assert (c ∈ s_clients answered_state) as Hin by (rewrite Hc; by left).
  destruct (replies_linearizable Loader.Demo.get Loader.Demo.unmarshal (λ _, None) res0 conf 0%nat
    answered_state c resp e eq_refl answered_run Hin Hph) as (g & rg & ? & ? & _ & ? & _).
  exists c, resp, e, g, rg. split_and!; [by left|tauto..].
Defined.

(** The main loop is about to store the pointer. *)
Definition storing : system := after beginning (take 7 schedule).

Lemma lock_excludes_witness :
  main_held (s_main storing) = true ∧ Forall (λ c, holds c = 0%nat) (s_clients storing).
Proof.
  assert (main_held (s_main storing) = true) as Hm by (vm_compute; reflexivity).
  split; [exact Hm|].
  refine (proj2 (lock_excludes Loader.Demo.get Loader.Demo.unmarshal (λ _, None) res0 conf 0%nat
    storing _) Hm).
  apply after_run. vm_compute. reflexivity.
Defined.

Lemma requests_answered_witness :
  (∃ s, istep middle s) ∨ main_work (s_main middle) = 0%nat.
Proof.
  destruct (requests_answered Loader.Demo.get Loader.Demo.unmarshal (λ _, None) res0 conf 0%nat
    middle eq_refl middle_run 0 middle (nsteps_O _ _)) as [_ [?|[? _]]]; auto.
Defined.

Lemma requests_accounted_witness :
  (s_log middle MesosRequests `mod` 2 ^ 64 =
   (s_log middle MesosSuccess + s_log middle MesosNXDomain + 1) `mod` 2 ^ 64)%Z.
Proof.
  exact (requests_accounted Loader.Demo.get Loader.Demo.unmarshal (λ _, None) res0 conf 0%nat
    middle middle_run).
Defined.


Definition transfer : system := after beginning [Request AXFRQuery].

Lemma axfr_ahead_witness : ∃ s' x e c,
  rtc demo_step transfer s' ∧ s_clients s' !! 0%nat = Some (set_cphase c (Replied (AXFRReply x) e))
  ∧ res_rg (s_res s') = NewRecordGenerator ∧ AXFR_Serial x = 7%Z ∧ AXFR_As x = ∅.
Proof.
  destruct (axfr_ahead Loader.Demo.get Loader.Demo.unmarshal (λ _, None) res0 conf 0%nat transfer 0
    {| c_req := AXFRQuery; c_start := 0; c_phase := Arrived |} 7 Loader.Demo.rg
    (set_SOASerial conf 7) 1%nat) as (s' & x & e & Hrun & Hcl & Hres & Hser & Has & _).
  - apply after_run. vm_compute. reflexivity.
  - reflexivity.
  - reflexivity.
  - reflexivity.
  - reflexivity.
  - vm_compute. reflexivity.
  - eexists s', x, e, _. split_and!; [exact Hrun|exact Hcl|by rewrite Hres|exact Hser|by rewrite Has].
Defined.
End DemoConcurrent.
