(* ===== verification/Servers.v ===== *)
(** * The servers of the builtin resolver and how their errors are reported
    (src/resolvers/builtin/resolver.go: New, LaunchDNS, Serve, LaunchHTTP)

    Every server runs on a goroutine of its own and reports through a chain of
    channels, the last of which is [errch] of the main loop.  The goroutines
    are a transition system; what [ListenAndServe] returns comes from
    outside. *)

From S2P Require Import Prelude GoStrings GoNet Labels State Config Store Generator Loader.
From S2P Require Import Dns Exchanger Resolver Server Main.

(** ** Channels of errors *)

Record chan := { buf : list error; capacity : nat; closed : bool }.

Definition make_chan (n : nat) : chan := {| buf := []; capacity := n; closed := false |}.

(** [None] is a send that blocks; no goroutine sends on a channel that it or
    another has closed. *)
Definition send (v : error) (ch : chan) : option chan :=
  if (length (buf ch) <? capacity ch)%nat
  then Some {| buf := buf ch ++ [v]; capacity := capacity ch; closed := closed ch |}
  else None.

(** A closed channel yields nil errors. *)
Definition recv (ch : chan) : option (error * chan) :=
  match buf ch with
  | v :: vs => Some (v, {| buf := vs; capacity := capacity ch; closed := closed ch |})
  | [] => if closed ch then Some (None, ch) else None
  end.

Definition close (ch : chan) : chan := {| buf := buf ch; capacity := capacity ch; closed := true |}.

(** ** Goroutines *)

(** The goroutine of [Serve]: in [ListenAndServe]; about to send its error;
    about to close its channel; gone. *)
Inductive serve_pc := Listening | Failed (e : string) | Closing (r : error) | Finished (r : error).

(** [out <- <-in]: waiting to receive, waiting to send [v], gone. *)
Inductive fwd_pc := FWait | FSend (v : error) | FDone (v : error).

(** A DNS server, its channel and the goroutine that forwards from it. *)
Record dns_server := { ds_pc : serve_pc; ds_ch : chan; ds_fwd : fwd_pc }.

(** What [LaunchDNS] starts, with the goroutine of [New]. *)
Record dns_part := { d_tcp : dns_server; d_udp : dns_server; d_ch : chan; d_fwd : fwd_pc }.

(** The goroutine of [LaunchHTTP]: in [ListenAndServe]; about to send; gone. *)
Inductive http_pc := HListening | HSend (r : error) | HFinished (r : error).

Record http_part := { h_pc : http_pc; h_ch : chan; h_fwd : fwd_pc }.

Record servers := { sv_dns : option dns_part; sv_http : option http_part }.

(** [fmt.Errorf] with the protocol in quotes (byte 34). *)
Definition setup_error (proto e : string) : string :=
  let quote := str ["034"%char] in
  "Failed to setup " +:+ quote +:+ proto +:+ quote +:+ " server: " +:+ e.

Definition http_error (e : string) : string := "Failed to setup http server: " +:+ e.

(** ** Launching *)

Definition Serve : dns_server :=
  {| ds_pc := Listening; ds_ch := make_chan 1; ds_fwd := FWait |}.

Definition LaunchDNS_servers : dns_part :=
  {| d_tcp := Serve; d_udp := Serve; d_ch := make_chan 2; d_fwd := FWait |}.

Definition LaunchHTTP : http_part := {| h_pc := HListening; h_ch := make_chan 1; h_fwd := FWait |}.

(** The servers that [New] launches. *)
Definition New_servers (c : Builtin.Config) : servers :=
  {| sv_dns := if Builtin.DNSOn c then Some LaunchDNS_servers else None;
     sv_http := if Builtin.HTTPOn c then Some LaunchHTTP else None |}.

(** ** Steps *)

(** [ListenAndServe] returns. *)
Definition serve_returned (proto : string) (err : error) (d : dns_server) : dns_server :=
  {| ds_pc := match err with Some e => Failed (setup_error proto e) | None => Closing None end;
     ds_ch := ds_ch d; ds_fwd := ds_fwd d |}.

Definition http_returned (err : error) (h : http_part) : http_part :=
  {| h_pc := HSend (http_error <$> err); h_ch := h_ch h; h_fwd := h_fwd h |}.

(** The steps of a server and its forwarder, with the channel [ch] of
    [LaunchDNS]. *)
Inductive ds_step : dns_server * chan → dns_server * chan → Prop :=
| ds_send d ch e ch' :
    ds_pc d = Failed e → send (Some e) (ds_ch d) = Some ch' →
    ds_step (d, ch) ({| ds_pc := Closing (Some e); ds_ch := ch'; ds_fwd := ds_fwd d |}, ch)
| ds_close d ch r :
    ds_pc d = Closing r →
    ds_step (d, ch) ({| ds_pc := Finished r; ds_ch := close (ds_ch d); ds_fwd := ds_fwd d |}, ch)
| ds_recv d ch v ch' :
    ds_fwd d = FWait → recv (ds_ch d) = Some (v, ch') →
    ds_step (d, ch) ({| ds_pc := ds_pc d; ds_ch := ch'; ds_fwd := FSend v |}, ch)
| ds_forward d ch v ch' :
    ds_fwd d = FSend v → send v ch = Some ch' →
    ds_step (d, ch) ({| ds_pc := ds_pc d; ds_ch := ds_ch d; ds_fwd := FDone v |}, ch').

(** A step is silent, or it gets an error to the goroutine that sends it on
    [errch]. *)
Inductive dns_step : dns_part → option error → dns_part → Prop :=
| dns_tcp d t ch :
    ds_step (d_tcp d, d_ch d) (t, ch) →
    dns_step d None {| d_tcp := t; d_udp := d_udp d; d_ch := ch; d_fwd := d_fwd d |}
| dns_udp d u ch :
    ds_step (d_udp d, d_ch d) (u, ch) →
    dns_step d None {| d_tcp := d_tcp d; d_udp := u; d_ch := ch; d_fwd := d_fwd d |}
| dns_report d v ch :
    d_fwd d = FWait → recv (d_ch d) = Some (v, ch) →
    dns_step d (Some v) {| d_tcp := d_tcp d; d_udp := d_udp d; d_ch := ch; d_fwd := FSend v |}.

Inductive http_step : http_part → option error → http_part → Prop :=
| http_send h r ch :
    h_pc h = HSend r → send r (h_ch h) = Some ch →
    http_step h None {| h_pc := HFinished r; h_ch := ch; h_fwd := h_fwd h |}
| http_report h v ch :
    h_fwd h = FWait → recv (h_ch h) = Some (v, ch) →
    http_step h (Some v) {| h_pc := h_pc h; h_ch := ch; h_fwd := FSend v |}.

Inductive net_step : servers → option error → servers → Prop :=
| net_dns n d o d' :
    sv_dns n = Some d → dns_step d o d' →
    net_step n o {| sv_dns := Some d'; sv_http := sv_http n |}
| net_http n h o h' :
    sv_http n = Some h → http_step h o h' →
    net_step n o {| sv_dns := sv_dns n; sv_http := Some h' |}.

(** A server stops. *)
Inductive net_stop : servers → servers → Prop :=
| stop_tcp n d err :
    sv_dns n = Some d → ds_pc (d_tcp d) = Listening →
    net_stop n {| sv_dns := Some {| d_tcp := serve_returned "tcp" err (d_tcp d); d_udp := d_udp d;
                    d_ch := d_ch d; d_fwd := d_fwd d |}; sv_http := sv_http n |}
| stop_udp n d err :
    sv_dns n = Some d → ds_pc (d_udp d) = Listening →
    net_stop n {| sv_dns := Some {| d_tcp := d_tcp d; d_udp := serve_returned "udp" err (d_udp d);
                    d_ch := d_ch d; d_fwd := d_fwd d |}; sv_http := sv_http n |}
| stop_http n h err :
    sv_http n = Some h → h_pc h = HListening →
    net_stop n {| sv_dns := sv_dns n; sv_http := Some (http_returned err h) |}.

(** The error that a server stopped with, as it is reported. *)
Definition stopped_with (n : servers) (r : error) : Prop :=
  (∃ d, sv_dns n = Some d ∧ ∃ s, (s = d_tcp d ∨ s = d_udp d)
     ∧ (ds_pc s = Closing r ∨ ds_pc s = Finished r ∨ ∃ e, ds_pc s = Failed e ∧ r = Some e))
  ∨ (∃ h, sv_http n = Some h ∧ (h_pc h = HSend r ∨ h_pc h = HFinished r)).

(** ** The state of the channels *)

(** What the forwarder of a server has, for a server that ended with [r]. *)
Definition contents (r : error) (ch : chan) (f : fwd_pc) : Prop :=
  match f with
  | FWait => buf ch = (if r then [r] else [])
  | FSend v | FDone v => v = r ∧ buf ch = []
  end.

Definition server_ok (s : dns_server) : Prop :=
  capacity (ds_ch s) = 1%nat ∧
  match ds_pc s with
  | Listening | Failed _ => buf (ds_ch s) = [] ∧ closed (ds_ch s) = false ∧ ds_fwd s = FWait
  | Closing r => closed (ds_ch s) = false ∧ contents r (ds_ch s) (ds_fwd s)
  | Finished r => closed (ds_ch s) = true ∧ contents r (ds_ch s) (ds_fwd s)
  end.

(** The forwarder has sent, and what. *)
Definition sent (f : fwd_pc) : nat := match f with FDone _ => 1 | _ => 0 end.

(** The errors that have gone through the channel of [LaunchDNS]. *)
Record dns_ok (d : dns_part) : Prop := {
  ok_tcp : server_ok (d_tcp d);
  ok_udp : server_ok (d_udp d);
  ok_open : capacity (d_ch d) = 2%nat ∧ closed (d_ch d) = false;
  ok_count : (length (buf (d_ch d)) + match d_fwd d with FWait => 0 | _ => 1 end
              = sent (ds_fwd (d_tcp d)) + sent (ds_fwd (d_udp d)))%nat;
  ok_from : ∀ v, v ∈ buf (d_ch d) ∨ d_fwd d = FSend v →
    ds_fwd (d_tcp d) = FDone v ∨ ds_fwd (d_udp d) = FDone v;
  ok_waits : ∀ v, d_fwd d ≠ FDone v }.

Definition http_ok (h : http_part) : Prop :=
  capacity (h_ch h) = 1%nat ∧ closed (h_ch h) = false ∧
  match h_pc h with
  | HListening | HSend _ => buf (h_ch h) = [] ∧ h_fwd h = FWait
  | HFinished r =>
      match h_fwd h with
      | FWait => buf (h_ch h) = [r]
      | FSend v => v = r ∧ buf (h_ch h) = []
      | FDone _ => False
      end
  end.

Record net_ok (n : servers) : Prop := {
  net_dns_ok : ∀ d, sv_dns n = Some d → dns_ok d;
  net_http_ok : ∀ h, sv_http n = Some h → http_ok h }.

Lemma send_Some v ch : (length (buf ch) < capacity ch)%nat →
  send v ch = Some {| buf := buf ch ++ [v]; capacity := capacity ch; closed := closed ch |}.
Proof. intros Hl. unfold send. by rewrite (proj2 (Nat.ltb_lt _ _) Hl). Qed.

Lemma send_inv v ch ch' :
  send v ch = Some ch' → ch' = {| buf := buf ch ++ [v]; capacity := capacity ch; closed := closed ch |}.
Proof. unfold send. destruct (_ <? _)%nat; [congruence|done]. Qed.

(** A step of a server keeps its state sound; it changes the channel of
    [LaunchDNS] only when its forwarder sends. *)
Lemma ds_step_ok s ch s' ch' :
  ds_step (s, ch) (s', ch') → server_ok s →
  server_ok s'
  ∧ ((ch' = ch ∧ sent (ds_fwd s') = sent (ds_fwd s) ∧ (∀ v, ds_fwd s = FDone v → ds_fwd s' = FDone v))
     ∨ (∃ v, ds_fwd s = FSend v ∧ ds_fwd s' = FDone v ∧ buf ch' = buf ch ++ [v]
             ∧ capacity ch' = capacity ch ∧ closed ch' = closed ch)).
Proof.
  intros Hst [Hc Hs]. inversion Hst as [? ? e ch1 Hpc Hsend|? ? r Hpc|? ? v ch1 Hf Hr|? ? v ch1 Hf Hsend];
    subst; cbn; unfold server_ok; cbn.
  - rewrite Hpc in Hs. destruct Hs as (Hb & Hcl & Hf). apply send_inv in Hsend as ->. cbn.
    split; [|by left]. rewrite Hb, Hf. done.
  - rewrite Hpc in Hs. destruct Hs as [Hcl Hs]. split; [|by left]. done.
  - unfold recv in Hr. split; [|left; rewrite Hf; split_and!; done].
    destruct (ds_pc s) as [|e|r|r]; destruct Hs as [Hs1 Hs2]; rewrite ?Hf in Hs2; cbn in Hs2.
    + destruct Hs2 as [Hs2 _]. by rewrite Hs1, Hs2 in Hr.
    + destruct Hs2 as [Hs2 _]. by rewrite Hs1, Hs2 in Hr.
    + rewrite Hs2 in Hr. destruct r as [e|]; [by injection Hr as <- <-|by rewrite Hs1 in Hr].
    + rewrite Hs2 in Hr. destruct r as [e|]; [by injection Hr as <- <-|].
      rewrite Hs1 in Hr. by injection Hr as <- <-.
  - apply send_inv in Hsend as ->. split; [|right; by exists v].
    split; [done|]. destruct (ds_pc s); rewrite Hf in Hs; cbn in *; naive_solver.
Qed.

(** The two servers play the same part. *)
Definition swap_servers (d : dns_part) : dns_part :=
  {| d_tcp := d_udp d; d_udp := d_tcp d; d_ch := d_ch d; d_fwd := d_fwd d |}.

Lemma swap_ok d : dns_ok d → dns_ok (swap_servers d).
Proof. intros [? ? ? Hc Hf Hw]. split; cbn; try done; [lia|]. intros v Hv. apply Hf in Hv. tauto. Qed.

Lemma dns_tcp_ok d t ch :
  dns_ok d → ds_step (d_tcp d, d_ch d) (t, ch) →
  dns_ok {| d_tcp := t; d_udp := d_udp d; d_ch := ch; d_fwd := d_fwd d |}.
Proof.
  intros [Ht Hu [Ho1 Ho2] Hc Hf Hw] Hst. destruct (ds_step_ok _ _ _ _ Hst Ht)
    as [Ht' [(-> & Hs & Hd)|(v & Hv & Hv' & Hb & Hcap & Hcl)]]; split; cbn; try done.
  - lia.
  - intros v Hv. destruct (Hf v Hv) as [?|?]; [left; by apply Hd|by right].
  - by rewrite Hcap, Hcl.
  - rewrite Hb, length_app, Hv'. rewrite Hv in Hc. cbn in *. lia.
  - intros x [Hx|Hx].
    + rewrite Hb, elem_of_app, list_elem_of_singleton in Hx. destruct Hx as [Hx| ->]; [|by left].
      destruct (Hf x) as [?|?]; [by left|congruence|by right].
    + destruct (Hf x) as [?|?]; [by right|congruence|by right].
Qed.

Lemma dns_step_ok d o d' : dns_step d o d' → dns_ok d → dns_ok d'.
Proof.
  intros Hst Hd. destruct Hst as [d t ch Hst|d u ch Hst|d v ch Hf Hr].
  - by apply dns_tcp_ok.
  - apply (swap_ok {| d_tcp := u; d_udp := d_tcp d; d_ch := ch; d_fwd := d_fwd d |}).
    apply (dns_tcp_ok (swap_servers d)); [by apply swap_ok|done].
  - destruct Hd as [Ht Hu [Ho1 Ho2] Hc Hfr Hw]. unfold recv in Hr.
    destruct (buf (d_ch d)) as [|x xs] eqn:Hb; [by rewrite Ho2 in Hr|]. injection Hr as <- <-.
    rewrite Hf in Hc. split; cbn; try done.
    + cbn in Hc. lia.
    + intros y [Hy|[= ->]]; [apply Hfr; left; by right|apply Hfr; left; by left].
Qed.

Lemma http_step_ok h o h' : http_step h o h' → http_ok h → http_ok h'.
Proof.
  intros Hst (Hc & Hcl & Hs). destruct Hst as [h r ch Hpc Hsend|h v ch Hf Hr].
  - rewrite Hpc in Hs. destruct Hs as [Hb Hf]. apply send_inv in Hsend as ->.
    split_and!; cbn; [done..|]. by rewrite Hf, Hb.
  - unfold recv in Hr. destruct (buf (h_ch h)) as [|x xs] eqn:Hb; [by rewrite Hcl in Hr|].
    injection Hr as <- <-. split_and!; cbn; [done..|].
    destruct (h_pc h); rewrite ?Hf in Hs; [by destruct Hs|by destruct Hs|]. by injection Hs as -> ->.
Qed.

Lemma net_step_ok n o n' : net_step n o n' → net_ok n → net_ok n'.
Proof.
  intros Hst [Hd Hh]. destruct Hst as [n d o d' Hn Hst|n h o h' Hn Hst]; split; cbn; try done.
  - intros d1 [= <-]. by eapply dns_step_ok, Hd.
  - intros h1 [= <-]. by eapply http_step_ok, Hh.
Qed.

Lemma returned_ok proto err s : server_ok s → ds_pc s = Listening → server_ok (serve_returned proto err s).
Proof.
  intros [Hc Hs] Hpc. rewrite Hpc in Hs. destruct Hs as (Hb & Hcl & Hf).
  split; [done|]. cbn. destruct err; [done|]. split; [done|]. cbn. by rewrite Hf.
Qed.

Lemma net_stop_ok n n' : net_stop n n' → net_ok n → net_ok n'.
Proof.
  intros Hst [Hd Hh]. destruct Hst as [n d err Hn Hpc|n d err Hn Hpc|n h err Hn Hpc]; split; cbn; try done.
  - intros d1 [= <-]. destruct (Hd d Hn) as [Ht Hu Ho Hc Hf Hw]. split; cbn; try done. by apply returned_ok.
  - intros d1 [= <-]. destruct (Hd d Hn) as [Ht Hu Ho Hc Hf Hw]. split; cbn; try done. by apply returned_ok.
  - intros h1 [= <-]. destruct (Hh h Hn) as (Hc & Hcl & Hs). rewrite Hpc in Hs. by split_and!.
Qed.

Lemma New_servers_ok c : net_ok (New_servers c).
Proof.
  split; cbn; [destruct (Builtin.DNSOn c)|destruct (Builtin.HTTPOn c)]; try done; intros x [= <-].
  - split; try done. intros v [Hv%elem_of_nil|Hv]; done.
  - done.
Qed.

(** ** Every stop is reported *)

(** The steps that the goroutines have left. *)
Definition pc_work (pc : serve_pc) : nat := match pc with Failed _ => 2 | Closing _ => 1 | _ => 0 end.
Definition fwd_work (f : fwd_pc) : nat := match f with FWait => 2 | FSend _ => 1 | FDone _ => 0 end.
Definition server_work (s : dns_server) : nat := pc_work (ds_pc s) + fwd_work (ds_fwd s).
Definition net_work (n : servers) : nat :=
  match sv_dns n with
  | Some d => server_work (d_tcp d) + server_work (d_udp d) + fwd_work (d_fwd d)
  | None => 0
  end
  + match sv_http n with
    | Some h => match h_pc h with HSend _ => 1 | _ => 0 end + fwd_work (h_fwd h)
    | None => 0
    end.

Lemma ds_step_work s ch s' ch' : ds_step (s, ch) (s', ch') → (server_work s' < server_work s)%nat.
Proof.
  unfold server_work. inversion 1 as [? ? e ch1 Hpc Hs|? ? r Hpc|? ? v ch1 Hf Hs|? ? v ch1 Hf Hs];
    subst; cbn; rewrite ?Hpc, ?Hf; cbn; lia.
Qed.

Lemma net_step_work n o n' : net_step n o n' → (net_work n' < net_work n)%nat.
Proof.
  unfold net_work. intros Hst. destruct Hst as [n d o d' Hn Hst|n h o h' Hn Hst]; cbn; rewrite Hn.
  - destruct Hst as [d t ch Hst|d u ch Hst|d v ch Hf Hr]; cbn; [apply ds_step_work in Hst; lia..|].
    rewrite Hf. cbn. lia.
  - destruct Hst as [h r ch Hpc Hs|h v ch Hf Hr]; cbn; [rewrite Hpc; lia|rewrite Hf; cbn; lia].
Qed.

(** A server that has stopped can go on until its forwarder has sent. *)
Lemma ds_progress d s :
  dns_ok d → s = d_tcp d ∨ s = d_udp d → ds_pc s ≠ Listening → sent (ds_fwd s) = 0%nat →
  ∃ s' ch, ds_step (s, d_ch d) (s', ch).
Proof.
  intros [Ht Hu [Ho1 Ho2] Hc _ _] Hin Hpc Hsent.
  assert (server_ok s) as [Hcap Hs] by (by destruct Hin as [-> | ->]).
  destruct (ds_pc s) as [|e|r|r] eqn:Epc; [done|..].
  - destruct Hs as (Hb & Hcl & Hf). eexists _, _. eapply ds_send; [done|].
    apply send_Some. rewrite Hb, Hcap. cbn. lia.
  - eexists _, _. by eapply ds_close.
  - destruct Hs as [Hcl Hs]. destruct (ds_fwd s) as [|v|v] eqn:Ef; [| |done].
    + destruct (recv (ds_ch s)) as [[v ch']|] eqn:Er; [eexists _, _; by eapply ds_recv|].
      unfold recv in Er. rewrite Hcl in Er. by destruct (buf (ds_ch s)).
    + eexists _, _. eapply ds_forward; [done|]. apply send_Some. rewrite Ho1.
      assert (sent (ds_fwd (d_tcp d)) + sent (ds_fwd (d_udp d)) ≤ 1)%nat; [|lia].
      destruct Hin as [<- | <-]; rewrite Ef; cbn;
        [destruct (ds_fwd (d_udp d))|destruct (ds_fwd (d_tcp d))]; cbn; lia.
Qed.

(** When no goroutine can go on and a server has stopped, an error waits to
    be sent on [errch]; it is one that a server stopped with. *)
Lemma dns_quiet d s :
  dns_ok d → (∀ o d', ¬ dns_step d o d') → s = d_tcp d ∨ s = d_udp d → ds_pc s ≠ Listening →
  d_fwd d ≠ FWait.
Proof.
  intros Hd Hq Hin Hpc Hf.
  assert (0 < sent (ds_fwd s))%nat as Hs.
  { destruct (sent (ds_fwd s)) eqn:E; [exfalso|lia].
    destruct (ds_progress d s Hd Hin Hpc E) as (s' & ch & Hst).
    destruct Hin as [-> | ->]; [by eapply Hq, dns_tcp|by eapply Hq, dns_udp]. }
  destruct Hd as [_ _ _ Hc _ _]. rewrite Hf in Hc.
  destruct (buf (d_ch d)) as [|v vs] eqn:Hb.
  - cbn in Hc. destruct Hin as [-> | ->]; lia.
  - eapply Hq, dns_report; [done|]. unfold recv. by rewrite Hb.
Qed.

Lemma http_quiet h :
  http_ok h → (∀ o h', ¬ http_step h o h') → h_pc h ≠ HListening → h_fwd h ≠ FWait.
Proof.
  intros (Hc & Hcl & Hs) Hq Hpc Hf. destruct (h_pc h) as [|r|r] eqn:E; [done|..].
  - destruct Hs as [Hb _]. eapply Hq, http_send; [done|]. apply send_Some. rewrite Hb, Hc. cbn. lia.
  - rewrite Hf in Hs. eapply Hq, http_report; [done|]. unfold recv. by rewrite Hs.
Qed.

(** What waits to be sent is what a server stopped with. *)
Lemma sent_stopped s v : server_ok s → ds_fwd s = FDone v → ds_pc s = Closing v ∨ ds_pc s = Finished v.
Proof.
  intros [_ Hs] Hf. destruct (ds_pc s) as [|e|r|r]; rewrite ?Hf in Hs; cbn in Hs.
  - by destruct Hs as (_ & _ & ?).
  - by destruct Hs as (_ & _ & ?).
  - destruct Hs as (_ & -> & _). by left.
  - destruct Hs as (_ & -> & _). by right.
Qed.

(** The errors that wait to be sent on [errch]. *)
Definition reporting (n : servers) (v : error) : Prop :=
  (∃ d, sv_dns n = Some d ∧ d_fwd d = FSend v) ∨ (∃ h, sv_http n = Some h ∧ h_fwd h = FSend v).

Lemma reporting_stopped n v : net_ok n → reporting n v → stopped_with n v.
Proof.
  intros [Hd Hh] [(d & Hn & Hf)|(h & Hn & Hf)].
  - left. exists d. split; [done|]. destruct (Hd d Hn) as [Ht Hu _ _ Hfr _].
    destruct (Hfr v) as [E|E]; [by right|..].
    + exists (d_tcp d). split; [by left|]. destruct (sent_stopped _ _ Ht E); auto.
    + exists (d_udp d). split; [by right|]. destruct (sent_stopped _ _ Hu E); auto.
  - right. exists h. split; [done|]. destruct (Hh h Hn) as (_ & _ & Hs).
    destruct (h_pc h); rewrite Hf in Hs; [by destruct Hs|by destruct Hs|]. destruct Hs as [-> _]. by right.
Qed.

(** Without a step left, a server that has stopped is reported. *)
Lemma quiet_reporting n r :
  net_ok n → (∀ o n', ¬ net_step n o n') → stopped_with n r → ∃ v, reporting n v.
Proof.
  intros [Hd Hh] Hq [(d & Hn & s & Hin & Hpc)|(h & Hn & Hpc)].
  - assert (d_fwd d ≠ FWait) as Hf.
    { apply (dns_quiet d s); [by apply Hd| |done|].
      - intros o d' Hst. by eapply Hq, net_dns.
      - destruct Hpc as [->|[->|(e & -> & _)]]; done. }
    destruct (d_fwd d) as [|v|v] eqn:E; [done| |by destruct (ok_waits d (Hd d Hn) v)].
    exists v. left. eauto.
  - assert (h_fwd h ≠ FWait) as Hf.
    { apply (http_quiet h); [by apply Hh| |].
      - intros o h' Hst. by eapply Hq, net_http.
      - by destruct Hpc as [-> | ->]. }
    destruct (Hh h Hn) as (_ & _ & Hs).
    destruct (h_fwd h) as [|v|v] eqn:E; [done|exists v; right; eauto|].
    destruct (h_pc h); [by destruct Hs|by destruct Hs|done].
Qed.

(** ** The servers and the main loop *)

(** What [Fatal] prints of an error. *)
Definition show_error (v : error) : string := default "<nil>" v.

Section whole.
Context `{UnicodeTables} {W R : Type} `{Reloads R}.
Context (get : URL → W → (list ascii + string) * W) (unmarshal : list ascii → State + string).
Context (resolve : string → option IP).

Abbreviation whole := (process (W := W) (R := R) * servers)%type.
Abbreviation main_step := (step (W := W) (R := R) get unmarshal resolve).

Definition alive (p : process (W := W) (R := R)) : Prop := ∀ code, p_phase p ≠ Exited code.

(** A goroutine that reports an error waits to send it on [errch]. *)
Inductive w_step : whole → whole → Prop :=
| w_main p p' n : main_step p p' → w_step (p, n) (p', n)
| w_silent p n n' : alive p → net_step n None n' → w_step (p, n) (p, n')
| w_report p n v n' :
    alive p → net_step n (Some v) n' →
    w_step (p, n) (set_senders p (p_senders p ++ [show_error v]), n')
| w_stop p n n' : alive p → net_stop n n' → w_step (p, n) (p, n').

(** The goroutines that report an error are among the senders of the loop. *)
Definition whole_ok (x : whole) : Prop :=
  net_ok x.2 ∧ (alive x.1 → ∀ v, reporting x.2 v → show_error v ∈ p_senders x.1).

Lemma reporting_step n o n' v :
  net_step n o n' → reporting n' v → reporting n v ∨ o = Some v.
Proof.
  intros Hst. destruct Hst as [n d o d' Hn Hst|n h o h' Hn Hst];
    intros [(x & Hx & Hf)|(x & Hx & Hf)]; cbn in Hx.
  - injection Hx as <-. destruct Hst as [d t ch Hst|d u ch Hst|d u ch Hf' Hr]; cbn in Hf;
      [left; left; eauto..|right; congruence].
  - left. right. eauto.
  - left. left. eauto.
  - injection Hx as <-. destruct Hst as [h r ch Hpc Hs|h u ch Hf' Hr]; cbn in Hf;
      [left; right; eauto|right; congruence].
Qed.

Lemma reporting_stop n n' v : net_stop n n' → reporting n' v → reporting n v.
Proof.
  intros Hst. destruct Hst as [n d err Hn Hpc|n d err Hn Hpc|n h err Hn Hpc];
    (intros [(x & Hx & Hf)|(x & Hx & Hf)]; cbn in Hx;
     [left|right]; (injection Hx as <- || idtac); cbn in Hf; eauto).
Qed.

(** The loop takes senders away only when it ends. *)
Lemma main_step_senders p p' :
  main_step p p' → alive p' → alive p ∧ ∀ e, e ∈ p_senders p → e ∈ p_senders p'.
Proof.
  intros Hst Ha'. assert (∀ now (q : process (W := W) (R := R)),
    p_senders (reloadResolvers get unmarshal resolve now q) = p_senders q) as Hre.
  { intros now q. unfold reloadResolvers.
    by destruct (ParseState _ _ _ _ _ _ _) as [[[[rg c] err] w]|]. }
  destruct Hst as [p now Hp|p now ms Hp|p rg i Hp|p e ss Hp Hse|p msg Ht Hp|p e Hp].
  - split; [intros c; by rewrite Hp|]. intros e. by rewrite Hre.
  - split; [intros c; by rewrite Hp|]. intros e. unfold on_changed. by rewrite Hre.
  - split; [intros c; by rewrite Hp|]. intros e. unfold reload_next.
    destruct (p_rs p !! i) as [r|]; [|done]. by destruct (reload r rg).
  - by destruct (Ha' 1%Z).
  - split; [done|]. intros e He. cbn. apply elem_of_app. by left.
  - split; [done|]. intros e' He. cbn. apply elem_of_app. by left.
Qed.

Lemma w_step_ok x y : w_step x y → whole_ok x → whole_ok y.
Proof.
  intros Hst [Hn Hr]. destruct Hst as [p p' n Hst|p n n' Ha Hst|p n v n' Ha Hst|p n n' Ha Hst];
    (split; cbn in *; [eauto using net_step_ok, net_stop_ok|]).
  - intros Ha v Hv. destruct (main_step_senders _ _ Hst Ha) as [Ha0 Hin]. apply Hin. by apply Hr.
  - intros _ v Hv. destruct (reporting_step _ _ _ _ Hst Hv) as [?|[=]]. by apply Hr.
  - intros _ u Hu. apply elem_of_app. destruct (reporting_step _ _ _ _ Hst Hu) as [?|[= ->]];
      [left; by apply Hr|right; by left].
  - intros _ v Hv. apply Hr; [done|]. by eapply reporting_stop.
Qed.

Lemma reachable_whole config rs w c x :
  rtc w_step (start config rs w, New_servers c) x → whole_ok x.
Proof.
  intros Hrun. assert (whole_ok (start config rs w, New_servers c)) as Hinit.
  { split; [apply New_servers_ok|]. intros _ v [(d & Hd & Hf)|(h & Hh & Hf)]; cbn in *.
    - destruct (Builtin.DNSOn c); [|done]. by injection Hd as <-.
    - destruct (Builtin.HTTPOn c); [|done]. by injection Hh as <-. }
  induction Hrun as [|x y z Hxy _ IH]; [done|]. by eapply IH, w_step_ok.
Qed.

(** C18: a server that stops ends the process: from every reachable state the
    goroutines that report errors take at most [net_work n] steps, in any order,
    and once they cannot go on after a server has stopped, a sender offers the
    loop an error that some server stopped with; if the loop is in its [select]
    it can receive it, and ends with status 1. *)
Theorem server_stop_noticed config rs w c p n r :
  rtc w_step (start config rs w, New_servers c) (p, n) → alive p → stopped_with n r →
  (∀ k n', nsteps (λ a b, ∃ o, net_step a o b) k n n' → (k ≤ net_work n)%nat)
  ∧ ((∀ o n', ¬ net_step n o n') →
     ∃ v, stopped_with n v ∧ show_error v ∈ p_senders p
       ∧ (p_phase p = Running → ∃ p', main_step p p' ∧ p_phase p' = Exited 1)).
Proof.
  intros [Hn Hr]%reachable_whole Ha Hs. cbn in Hn, Hr. split.
  - intros k n' Hk. assert (k + net_work n' ≤ net_work n)%nat; [|lia].
    clear Hn Hr Hs. induction Hk as [|k x y z [o Hxy] _ IH]; [lia|]. apply net_step_work in Hxy. lia.
  - intros Hq. destruct (quiet_reporting n r Hn Hq Hs) as [v Hv].
    exists v. split; [by apply reporting_stopped|]. specialize (Hr Ha v Hv). split; [done|].
    intros Hrun. apply elem_of_Permutation in Hr as [ss Hss].
    eexists. split; [by eapply step_error|done].
Qed.
End whole.

(** ** A port that is taken *)

Module DemoServers.
Definition taken : string := "address already in use".
Definition reported : error := Some (setup_error "tcp" taken).

(** The TCP server at a point of its run, with the other servers untouched. *)
Definition at_point (pc : serve_pc) (ch : chan) (f : fwd_pc) (ch2 : chan) (g : fwd_pc) : servers :=
  {| sv_dns := Some {| d_tcp := {| ds_pc := pc; ds_ch := ch; ds_fwd := f |}; d_udp := Serve;
       d_ch := ch2; d_fwd := g |};
     sv_http := Some LaunchHTTP |}.

Definition closed_chan : chan := close (make_chan 1).

Definition at_end : servers :=
  at_point (Finished reported) closed_chan (FDone reported) (make_chan 2) (FSend reported).

Abbreviation demo_step := (w_step (R := Resolver) Loader.Demo.get Loader.Demo.unmarshal (λ _, None)).

Definition p1 : process (W := nat) (R := Resolver) :=
  set_senders DemoRun.p0 [show_error reported].

Section tcp_run.
Context `{UnicodeTables}.

Lemma tcp_step pc ch f ch2 pc' ch' f' ch2' :
  ds_step ({| ds_pc := pc; ds_ch := ch; ds_fwd := f |}, ch2)
    ({| ds_pc := pc'; ds_ch := ch'; ds_fwd := f' |}, ch2') →
  demo_step (DemoRun.p0, at_point pc ch f ch2 FWait) (DemoRun.p0, at_point pc' ch' f' ch2' FWait).
Proof.
  intros Hst. apply w_silent; [done|]. eapply net_dns; [done|].
  by apply (dns_tcp {| d_tcp := {| ds_pc := pc; ds_ch := ch; ds_fwd := f |}; d_udp := Serve;
    d_ch := ch2; d_fwd := FWait |}).
Qed.

(** A channel that holds [reported]. *)
Definition full (n : nat) : chan := {| buf := [reported]; capacity := n; closed := false |}.

Lemma tcp_run : rtc demo_step (DemoRun.p0, New_servers Builtin.NewConfig) (p1, at_end).
Proof.
  eapply rtc_l.
  { apply w_stop; [done|]. by apply (stop_tcp _ LaunchDNS_servers (Some taken)). }
  eapply rtc_l; [apply (tcp_step (Failed (setup_error "tcp" taken)) (make_chan 1) FWait (make_chan 2)
    (Closing reported) (full 1)); by eapply ds_send|].
  eapply rtc_l; [apply (tcp_step _ _ _ _ (Finished reported) (close (full 1))); by eapply ds_close|].
  eapply rtc_l; [apply (tcp_step _ _ _ _ (Finished reported) closed_chan (FSend reported));
    by eapply ds_recv|].
  eapply rtc_l; [apply (tcp_step _ _ _ _ (Finished reported) closed_chan (FDone reported) (full 2));
    by eapply ds_forward|].
  apply rtc_once.
  change p1 with (set_senders DemoRun.p0 (p_senders DemoRun.p0 ++ [show_error reported])).
  apply w_report; [done|]. eapply net_dns; [done|].
  by apply (dns_report {| d_tcp := {| ds_pc := Finished reported; ds_ch := closed_chan;
    ds_fwd := FDone reported |}; d_udp := Serve; d_ch := full 2; d_fwd := FWait |} reported).
Qed.
End tcp_run.

Lemma at_end_quiet o n' : ¬ net_step at_end o n'.
Proof.
  intros Hst. inversion Hst as [? d ? d' Hn Hd|? h ? h' Hn Hh]; subst; injection Hn as <-.
  - inversion Hd as [? t ch Hs|? u ch Hs|? v ch Hf Hr]; subst; [..|done]; by inversion Hs.
  - by inversion Hh.
Qed.

#[local] Instance ascii_tables : UnicodeTables := {| unicode_ToLower := λ s, s |}.

Lemma server_stop_noticed_witness : ∃ v p',
  stopped_with at_end v ∧ show_error v ∈ p_senders p1
  ∧ step Loader.Demo.get Loader.Demo.unmarshal (λ _, None) p1 p' ∧ p_phase p' = Exited 1.
Proof.
  destruct (server_stop_noticed Loader.Demo.get Loader.Demo.unmarshal (λ _, None) (NewConfig 0)
    [DemoRun.initial] 0%nat Builtin.NewConfig p1 at_end reported tcp_run) as [_ Hq].
  - done.
  - left. eexists. split; [done|]. eexists. split; [by left|]. by right; left.
  - destruct (Hq at_end_quiet) as (v & Hv & Hin & Hp). destruct (Hp eq_refl) as (p' & ? & ?).
    by exists v, p'.
Defined.
End DemoServers.
