(* ===== verification/Merge.v ===== *)
(** * Merging settings into a configuration (src/utils/merge.go)

    [Merge] sets the fields of a configuration struct by reflection.  The
    class [Struct] is what reflection sees of a struct type: the names of the
    fields and the list of their values, each of the type the field has.

    A conversion of a [float64] to an integer type drops the fraction; for a
    value outside the range of the type the language leaves the result open,
    so it is a parameter ([FloatConv]). *)

From Corelib Require Import SpecFloat.
From S2P Require Import Prelude GoStrings GoNet Config Store.

(** ** Values and types *)

Inductive ikind := Int | Uint8 | Uint16 | Uint32 | Uint64 | Int8 | Int16 | Int32 | Int64.

#[export] Instance ikind_eq_dec : EqDecision ikind.
Proof. solve_decision. Defined.

Inductive ftype := TBool | TString | TInt (k : ikind) | TFloat32 | TFloat64 | TStrings | TFloats.

#[export] Instance ftype_eq_dec : EqDecision ftype.
Proof. solve_decision. Defined.

Inductive fval :=
| VBool (b : bool)
| VString (s : string)
| VInt (k : ikind) (z : Z)
| VFloat32 (x : spec_float)
| VFloat64 (x : spec_float)
| VStrings (l : list string)
| VFloats (l : list spec_float).

Definition type_of (v : fval) : ftype :=
  match v with
  | VBool _ => TBool | VString _ => TString | VInt k _ => TInt k
  | VFloat32 _ => TFloat32 | VFloat64 _ => TFloat64
  | VStrings _ => TStrings | VFloats _ => TFloats
  end.

(** A setting, an [interface{}]: a value of one of these types, nil, a
    [[]interface{}] or a [map[string]interface{}]. *)
Inductive setting :=
| Val (v : fval)
| NilSetting
| Slice (l : list json)
| MapSetting (m : list (string * json)).

(** What the JSON decoder makes of a value. *)
Definition of_json (j : json) : setting :=
  match j with
  | JNull => NilSetting
  | JBool b => Val (VBool b)
  | JNumber x => Val (VFloat64 x)
  | JString s => Val (VString s)
  | JArray l => Slice l
  | JObject m => MapSetting m
  end.

(** ** Conversions *)

(** The integer part of a finite [float64]. *)
Definition trunc (x : spec_float) : option Z :=
  match x with
  | S754_zero _ => Some 0%Z
  | S754_finite s m e =>
      let z := if (0 <=? e)%Z then (Zpos m * 2 ^ e)%Z else (Zpos m / 2 ^ (- e))%Z in
      Some (if s then (- z)%Z else z)
  | _ => None
  end.

Definition in_range (k : ikind) (z : Z) : Prop :=
  match k with
  | Int | Int64 => (- 2 ^ 63 ≤ z < 2 ^ 63)%Z
  | Int8 => (- 2 ^ 7 ≤ z < 2 ^ 7)%Z
  | Int16 => (- 2 ^ 15 ≤ z < 2 ^ 15)%Z
  | Int32 => (- 2 ^ 31 ≤ z < 2 ^ 31)%Z
  | Uint8 => (0 ≤ z < 2 ^ 8)%Z
  | Uint16 => (0 ≤ z < 2 ^ 16)%Z
  | Uint32 => (0 ≤ z < 2 ^ 32)%Z
  | Uint64 => (0 ≤ z < 2 ^ 64)%Z
  end.

Class FloatConv := {
  to_int : ikind → spec_float → Z;
  to_float32 : spec_float → spec_float;
  to_int_trunc k x z : trunc x = Some z → in_range k z → to_int k x = z }.

(** ** Structs *)

Class Struct (T : Type) := {
  names : list string;
  types : list ftype;
  values : T → list fval;
  build : list fval → option T;
  names_NoDup : NoDup names;
  names_length : length names = length types;
  values_types (t : T) : type_of <$> values t = types;
  build_values (t : T) : build (values t) = Some t;
  values_build (vs : list fval) :
    type_of <$> vs = types → ∃ t, build vs = Some t ∧ values t = vs }.

Section merge.
Context `{FloatConv, MapOrder} {T : Type} `{Struct T}.

(** The position of a field. *)
Definition index_of (name : string) : option nat := fst <$> list_find (λ n, n = name) names.

(** [FieldByName(name)], [None] when there is no such field. *)
Definition FieldByName (obj : T) (name : string) : option fval :=
  i ← index_of name; values obj !! i.

(** [structFieldValue.Set(v)] *)
Definition Set_ (obj : T) (name : string) (v : fval) : T :=
  match index_of name with
  | Some i => default obj (build (<[i := v]> (values obj)))
  | None => obj
  end.

Definition ConvertNum (val : spec_float) (obj : T) (name : string) : fval + string :=
  match FieldByName obj name with
  | Some (VInt k _) => inl (VInt k (to_int k val))
  | Some (VFloat32 _) => inl (VFloat32 (to_float32 val))
  | Some (VFloat64 _) => inl (VFloat64 val)
  | _ => inr ("Unexpected type found for field " +:+ name)
  end.

(** [SetField]: the error and the struct.  The type of a nil value does not
    exist and asking for it panics, and so does setting a field to a value of
    another type. *)
Definition SetField (obj : T) (name : string) (value : setting) : go (error * T) :=
  match FieldByName obj name with
  | None => Ret (Some ("No such field: " +:+ name +:+ " in obj"), obj)
  | Some old =>
      match value with
      | NilSetting => Panic NilDeref
      | Val v =>
          if bool_decide (type_of v = type_of old) then Ret (None, Set_ obj name v)
          else
            match v with
            | VFloat64 x =>
                match ConvertNum x obj name with
                | inl v => Ret (None, Set_ obj name v)
                | inr e => Ret (Some e, obj)
                end
            | VStrings _ | VFloats _ => Panic TypeAssertion
            | _ => Ret (Some "Passed value cannot be used for field", obj)
            end
      | Slice _ => Ret (None, obj)
      | MapSetting _ => Ret (Some "Passed value cannot be used for field", obj)
      end
  end.

(** [Merge]: errors are only logged.  The keys come in the order of the loop
    over the map. *)
Definition Merge (data : json) (config : T) : go T :=
  match data with
  | JObject l =>
      let m : gmap string json := list_to_map (reverse l) in
      foldM (λ config k,
          match m !! k with
          | Some v => '(_, config) ← SetField config k (of_json v); Ret config
          | None => Ret config
          end)
        (order "merge" (dom m)) config
  | _ => Ret config
  end.

(** ** Properties *)

(** What a setting makes of the value of a field. *)
Definition merged (old : fval) (v : json) : fval :=
  match v, old with
  | JBool b, VBool _ => VBool b
  | JString s, VString _ => VString s
  | JNumber x, VInt k _ => VInt k (to_int k x)
  | JNumber x, VFloat32 _ => VFloat32 (to_float32 x)
  | JNumber x, VFloat64 _ => VFloat64 x
  | _, _ => old
  end.

Lemma index_of_Some name i : index_of name = Some i ↔ names !! i = Some name.
Proof.
  unfold index_of. rewrite fmap_Some. split.
  - intros ([j n] & (Hj & -> & _)%list_find_Some & ->). done.
  - intros Hi. exists (i, name). split; [|done]. apply list_find_Some. split_and!; [done..|].
    intros j y Hj Hlt ->. pose proof (NoDup_lookup names i j name names_NoDup Hi Hj). lia.
Qed.

Lemma length_values (t : T) : length (values t) = length names.
Proof. by rewrite names_length, <-(values_types t), length_fmap. Qed.

Lemma FieldByName_Some (obj : T) name i :
  index_of name = Some i → is_Some (FieldByName obj name).
Proof.
  intros Hi. unfold FieldByName. rewrite Hi. cbn. apply lookup_lt_is_Some.
  apply index_of_Some, lookup_lt_Some in Hi. by rewrite length_values.
Qed.

(** Setting a field to a value of its type changes that field only. *)
Lemma FieldByName_Set (obj : T) name old v n :
  FieldByName obj name = Some old → type_of v = type_of old →
  FieldByName (Set_ obj name v) n = if decide (n = name) then Some v else FieldByName obj n.
Proof.
  unfold FieldByName, Set_. intros Hold Hty.
  destruct (index_of name) as [i|] eqn:Hi; [|done]. cbn in Hold.
  destruct (values_build (<[i := v]> (values obj))) as (t & Ht & Hv).
  { rewrite list_fmap_insert, <-(values_types obj), list_insert_id; [done|].
    by rewrite list_lookup_fmap, Hold, Hty. }
  rewrite Ht. cbn. rewrite Hv. destruct (decide (n = name)) as [->|Hne].
  - rewrite Hi. cbn. apply list_lookup_insert_eq. by apply lookup_lt_Some in Hold.
  - destruct (index_of n) as [j|] eqn:Hj; [|done]. cbn. apply list_lookup_insert_ne.
    intros ->. apply Hne. apply index_of_Some in Hi, Hj. congruence.
Qed.

(** [r] is the outcome of setting the field [name] of [obj] to [v]. *)
Definition sets_field (obj : T) (name : string) (v : json) (r : go (error * T)) : Prop :=
  ∃ e obj', r = Ret (e, obj')
    ∧ ∀ n, FieldByName obj' n =
        if decide (n = name) then (λ old, merged old v) <$> FieldByName obj n
        else FieldByName obj n.

Lemma sets_field_keep obj name old v e :
  FieldByName obj name = Some old → merged old v = old → sets_field obj name v (Ret (e, obj)).
Proof.
  intros Hold Hm. eexists _, _. split; [done|]. intros n.
  destruct (decide _) as [->|]; [|done]. rewrite Hold. cbn. by rewrite Hm.
Qed.

Lemma sets_field_set obj name old v v' :
  FieldByName obj name = Some old → merged old v = v' → type_of v' = type_of old →
  sets_field obj name v (Ret (None, Set_ obj name v')).
Proof.
  intros Hold Hm Hty. eexists _, _. split; [done|]. intros n.
  rewrite (FieldByName_Set _ _ _ _ _ Hold Hty). destruct (decide _) as [->|]; [|done].
  rewrite Hold. cbn. by rewrite Hm.
Qed.

Lemma SetField_merged (obj : T) name v :
  v ≠ JNull ∨ name ∉ names → sets_field obj name v (SetField obj name (of_json v)).
Proof.
  intros Hnull. unfold SetField. destruct (FieldByName obj name) as [old|] eqn:Hold.
  2: { eexists _, obj. split; [done|]. intros n. destruct (decide _) as [->|]; [|done]. by rewrite Hold. }
  unfold ConvertNum. rewrite Hold. destruct v; cbn [of_json].
  - destruct Hnull as [?|Hn]; [done|]. exfalso. apply Hn. unfold FieldByName in Hold.
    destruct (index_of name) as [i|] eqn:Hi; [|done].
    apply index_of_Some in Hi. by eapply list_elem_of_lookup_2.
  - case_bool_decide; [eapply sets_field_set|eapply sets_field_keep]; (done || by destruct old).
  - case_bool_decide; [eapply sets_field_set; (done || by destruct old)|].
    destruct old; (eapply sets_field_set + eapply sets_field_keep); done.
  - case_bool_decide; [eapply sets_field_set|eapply sets_field_keep]; (done || by destruct old).
  - eapply sets_field_keep; (done || by destruct old).
  - eapply sets_field_keep; (done || by destruct old).
Qed.

Lemma merge_loop (m : gmap string json) ks (c : T) :
  NoDup ks → (∀ k v, m !! k = Some v → v ≠ JNull ∨ k ∉ names) →
  ∃ c', foldM (λ config k,
          match m !! k with
          | Some v => '(_, config) ← SetField config k (of_json v); Ret config
          | None => Ret config
          end) ks c = Ret c'
    ∧ ∀ n, FieldByName c' n =
        (λ old, match (if decide (n ∈ ks) then m !! n else None) with
                | Some v => merged old v | None => old end) <$> FieldByName c n.
Proof.
  intros Hks Hnull. revert c. induction Hks as [|k ks Hk Hks IH]; intros c.
  { exists c. split; [done|]. intros n. by rewrite decide_False, option_fmap_id by apply not_elem_of_nil. }
  cbn [foldM].
  assert (∃ c1, match m !! k with
      | Some v => '(_, config) ← SetField c k (of_json v); Ret config | None => Ret c end = Ret c1
    ∧ ∀ n, FieldByName c1 n = (λ old, match (if decide (n = k) then m !! n else None) with
        | Some v => merged old v | None => old end) <$> FieldByName c n) as (c1 & -> & Hc1).
  { destruct (m !! k) as [v|] eqn:Hv.
    - destruct (SetField_merged c k v) as (e & c1 & -> & Hc1); [by eapply Hnull|].
      exists c1. split; [done|]. intros n. rewrite Hc1. destruct (decide (n = k)) as [->|].
      + by rewrite Hv.
      + by rewrite option_fmap_id.
    - exists c. split; [done|]. intros n. destruct (decide (n = k)) as [->|];
        rewrite ?Hv; by rewrite option_fmap_id. }
  cbn [mbind go_bind]. destruct (IH c1) as (c' & -> & Hc'). exists c'. split; [done|]. intros n.
  rewrite Hc', Hc1, <-option_fmap_compose. apply option_fmap_ext. intros old. cbn.
  destruct (decide (n = k)) as [->|Hne].
  - rewrite (decide_False (P := k ∈ ks)) by done. by rewrite decide_True by (by left).
  - destruct (decide (n ∈ ks)); [rewrite decide_True by (by right)|
      rewrite decide_False by (rewrite elem_of_cons; tauto)]; done.
Qed.

(** A loop over keys one of which panics in every state. *)
Lemma foldM_panics {S K} (f : S → K → go S) k ks s :
  k ∈ ks → (∀ s, ∃ e, f s k = Panic e) → ∃ e, foldM f ks s = Panic e.
Proof.
  intros Hk Hf. revert s. induction Hk as [k ks|k k' ks _ IH]; intros s; cbn [foldM].
  - destruct (Hf s) as [e ->]. by exists e.
  - destruct (f s k') as [s'|e]; cbn [mbind go_bind]; [by apply IH|by exists e].
Qed.

Lemma SetField_null (obj : T) name :
  name ∈ names → SetField obj name NilSetting = Panic NilDeref.
Proof.
  intros (i & Hi)%list_elem_of_lookup. apply index_of_Some in Hi.
  destruct (FieldByName_Some obj name i Hi) as [old Hold]. unfold SetField. by rewrite Hold.
Qed.

(** C28: merging a JSON object into a configuration acts field by field,
    whatever the order of its keys: without a null for a field of the struct it
    returns, a field that the object does not mention keeps its value, and so
    does one with a setting that is neither of its type nor a number for a
    numeric field; a number becomes the type of the field.  A null for a field
    of the struct panics. *)
Theorem Merge_fieldwise l (c : T) :
  let m : gmap string json := list_to_map (reverse l) in
  ((∀ k v, m !! k = Some v → v ≠ JNull ∨ k ∉ names) →
   ∃ c', Merge (JObject l) c = Ret c'
     ∧ ∀ n, FieldByName c' n =
         (λ old, match m !! n with Some v => merged old v | None => old end) <$> FieldByName c n)
  ∧ (∀ k, m !! k = Some JNull → k ∈ names → ∃ e, Merge (JObject l) c = Panic e).
Proof.
  intros m. split.
  - intros Hnull. destruct (merge_loop m (order "merge" (dom m)) c) as (c' & Hf & Hc').
    { rewrite order_perm. apply NoDup_elements. }
    { done. }
    exists c'. split; [exact Hf|]. intros n. rewrite Hc'. apply option_fmap_ext. intros old.
    destruct (decide _) as [|Hn]; [done|].
    rewrite order_perm, elem_of_elements, not_elem_of_dom in Hn. by rewrite Hn.
  - intros k Hk Hin. apply (foldM_panics _ k).
    + rewrite order_perm, elem_of_elements. by eapply elem_of_dom_2.
    + intros s. exists NilDeref. fold m. rewrite Hk. cbn [of_json]. by rewrite SetField_null.
Qed.
End merge.
