(* ===== verification/Consul.v ===== *)
(** * The consul resolver: data, records and cache (src/resolvers/consul)

    The service and check registrations, how the cluster state is turned into
    records (parser.go), how records are compared (utils.go), and the cache of
    an agent (cache.go).  A generator of records that sends on a channel and
    then closes it returns the list of what it sends.

    [json.Unmarshal] of a health check is the argument [unmarshal]. *)

From S2P Require Import Prelude GoStrings GoNet State Store.

(** ** Registrations (vendored consul API) *)

Record AgentServiceCheck := {
  Script : string; DockerContainerID : string; Shell : string; Interval : string;
  ASC_Timeout : string; ASC_TTL : string; HTTP : string; TCP : string; ASC_Status : string }.

#[export] Instance AgentServiceCheck_eq_dec : EqDecision AgentServiceCheck.
Proof. solve_decision. Defined.

(** The checks that can be embedded in a registration are never set by the
    resolver and left out. *)
Record AgentServiceRegistration := {
  Service_ID : string; Service_Name : string; Service_Tags : list string;
  Service_Port : Z; Service_Address : string }.

Record AgentCheckRegistration := {
  Check_ID : string; Check_Name : string; Notes : string; ServiceID : string;
  Check_Def : AgentServiceCheck }.

(** A service as the agent lists it. *)
Record AgentService := {
  AS_ID : string; AS_Service : string; AS_Tags : list string; AS_Port : Z; AS_Address : string }.

(** The fields of a key-value pair that the resolver reads. *)
Record KVPair := { KV_Key : string; KV_Value : list ascii }.

Definition AgentServiceCheck0 : AgentServiceCheck :=
  {| Script := ""; DockerContainerID := ""; Shell := ""; Interval := ""; ASC_Timeout := "";
     ASC_TTL := ""; HTTP := ""; TCP := ""; ASC_Status := "" |}.

Definition AgentCheckRegistration0 : AgentCheckRegistration :=
  {| Check_ID := ""; Check_Name := ""; Notes := ""; ServiceID := "";
     Check_Def := AgentServiceCheck0 |}.

(** ** Configuration and records *)

Module Consul.
Record Config := {
  Address : string; CacheOnly : bool; CacheRefresh : Z; Datacenter : string; Scheme : string;
  ServicePrefix : string; SkipInactiveFrameworks : bool; Token : string }.

Definition NewConfig : Config :=
  {| Address := "127.0.0.1:8500"; CacheOnly := false; CacheRefresh := 3; Datacenter := "";
     Scheme := "http"; ServicePrefix := "mesos-dns"; SkipInactiveFrameworks := false;
     Token := "" |}.
End Consul.

(** [consul.Record]; a nil registration is [None]. *)
Record rec := {
  Action : string; Address : string; rec_SlaveID : string; Type_ : string;
  Service : option AgentServiceRegistration; Check_ : option AgentCheckRegistration }.

(** The zero value [Record{}]. *)
Definition rec0 : rec :=
  {| Action := ""; Address := ""; rec_SlaveID := ""; Type_ := ""; Service := None; Check_ := None |}.

Definition set_Action (r : rec) (action : string) : rec :=
  {| Action := action; Address := Address r; rec_SlaveID := rec_SlaveID r; Type_ := Type_ r;
     Service := Service r; Check_ := Check_ r |}.

(** A pointer that is dereferenced. *)
Definition deref {A} (p : option A) : go A :=
  match p with Some x => Ret x | None => Panic NilDeref end.

(** ** utils.go *)

(** The runes that the class [[^\w-]] leaves alone. *)
Definition word_or_dash (r : Z) : bool :=
  ((48 <=? r) && (r <=? 57) || (65 <=? r) && (r <=? 90) || (97 <=? r) && (r <=? 122)
   || (r =? 95) || (r =? 45))%Z.

(** [reg.ReplaceAllString(name, "-")]: every rune of the class, an invalid
    byte being one, becomes a hyphen. *)
Definition replace_non_word (name : string) : string :=
  str (bytes_Map (λ r, if word_or_dash r then r else 45%Z) (bytes name)).

Definition CreateService `{UnicodeTables} (id name address stateport : string)
    (tags : list string) : AgentServiceRegistration :=
  let s := replace_non_word name in
  {| Service_ID := id; Service_Name := ToLower (ReplaceAll s "_" "");
     Service_Address := address; Service_Tags := tags;
     Service_Port := match Atoi stateport with (port, None) => port | (_, Some _) => 0%Z end |}.

(** [{PORT}] and [{IP}] in the text of a check. *)
Definition evalVars (check address port : string) : string * error :=
  if Contains check "{PORT}" && bool_decide (port = "0")
  then (check, Some ("Invalid port for substitution in healthcheck " +:+ check +:+ port))
  else (ReplaceAll (ReplaceAll check "{PORT}" port) "{IP}" address, None).

Definition set_HTTP (c : AgentCheckRegistration) (s : string) : AgentCheckRegistration :=
  let d := Check_Def c in
  {| Check_ID := Check_ID c; Check_Name := Check_Name c; Notes := Notes c; ServiceID := ServiceID c;
     Check_Def := {| Script := Script d; DockerContainerID := DockerContainerID d; Shell := Shell d;
       Interval := Interval d; ASC_Timeout := ASC_Timeout d; ASC_TTL := ASC_TTL d; HTTP := s;
       TCP := TCP d; ASC_Status := ASC_Status d |} |}.
Definition set_TCP (c : AgentCheckRegistration) (s : string) : AgentCheckRegistration :=
  let d := Check_Def c in
  {| Check_ID := Check_ID c; Check_Name := Check_Name c; Notes := Notes c; ServiceID := ServiceID c;
     Check_Def := {| Script := Script d; DockerContainerID := DockerContainerID d; Shell := Shell d;
       Interval := Interval d; ASC_Timeout := ASC_Timeout d; ASC_TTL := ASC_TTL d; HTTP := HTTP d;
       TCP := s; ASC_Status := ASC_Status d |} |}.
Definition set_Script (c : AgentCheckRegistration) (s : string) : AgentCheckRegistration :=
  let d := Check_Def c in
  {| Check_ID := Check_ID c; Check_Name := Check_Name c; Notes := Notes c; ServiceID := ServiceID c;
     Check_Def := {| Script := s; DockerContainerID := DockerContainerID d; Shell := Shell d;
       Interval := Interval d; ASC_Timeout := ASC_Timeout d; ASC_TTL := ASC_TTL d; HTTP := HTTP d;
       TCP := TCP d; ASC_Status := ASC_Status d |} |}.

(** [check.ID = ...; check.ServiceID = id] *)
Definition set_IDs (c : AgentCheckRegistration) (cid id : string) : AgentCheckRegistration :=
  {| Check_ID := cid; Check_Name := Check_Name c; Notes := Notes c; ServiceID := id;
     Check_Def := Check_Def c |}.

(** [if check.F != "" { check.F, err = evalVars(check.F, address, port) }]: an
    error of an earlier field is overwritten. *)
Definition expand (get : AgentServiceCheck → string)
    (set : AgentCheckRegistration → string → AgentCheckRegistration) (address port : string)
    (st : AgentCheckRegistration * error) : AgentCheckRegistration * error :=
  let '(check, err) := st in
  let v := get (Check_Def check) in
  if bool_decide (v = "") then (check, err)
  else let '(v, err) := evalVars v address port in (set check v, err).

Section checks.
(** [json.Unmarshal(value, check)]: the check after the call and the error. *)
Context (unmarshal : list ascii → AgentCheckRegistration → AgentCheckRegistration * error).

Fixpoint createHealthChecks (kvs : list KVPair) (endpoint id address port : string) :
    AgentCheckRegistration * error :=
  match kvs with
  | [] => (AgentCheckRegistration0, None)
  | kv :: kvs =>
      if negb (bool_decide (KV_Key kv = "healthchecks/" +:+ endpoint))
      then createHealthChecks kvs endpoint id address port
      else
        match unmarshal (KV_Value kv) AgentCheckRegistration0 with
        | (check, Some e) => (check, Some e)
        | (check, None) =>
            let check := set_IDs check (Join [Check_ID check; id] ":") id in
            expand Script set_Script address port
              (expand TCP set_TCP address port
                (expand HTTP set_HTTP address port (check, None)))
        end
  end.
End checks.

Definition compareService (newservice oldservice : AgentServiceRegistration) : bool :=
  if negb (bool_decide (Service_ID newservice = Service_ID oldservice)) then false
  else if negb (bool_decide (Service_Name newservice = Service_Name oldservice)) then false
  else if negb (bool_decide (Service_Address newservice = Service_Address oldservice)) then false
  else if negb (bool_decide (Service_Port newservice = Service_Port oldservice)) then false
  else if negb (length (Service_Tags newservice) =? length (Service_Tags oldservice))%nat then false
  else forallb (λ otag,
         existsb (λ ntag, bool_decide (otag = ntag)) (Service_Tags newservice))
       (Service_Tags oldservice).

Definition compareCheck (newcheck oldcheck : AgentCheckRegistration) : bool :=
  if negb (bool_decide (Check_ID newcheck = Check_ID oldcheck)) then false
  else if negb (bool_decide (Check_Name newcheck = Check_Name oldcheck)) then false
  else if negb (bool_decide (ServiceID newcheck = ServiceID oldcheck)) then false
  else bool_decide (Check_Def newcheck = Check_Def oldcheck).

(** The inner loops: is there an equal registration?  [field] is the
    registration that is compared. *)
Fixpoint found {A} (field : rec → option A) (compare : A → A → bool) (x : rec) (old : list rec) :
    go bool :=
  match old with
  | [] => Ret false
  | y :: old =>
      a ← deref (field x); b ← deref (field y);
      if compare a b then Ret true else found field compare x old
  end.

Definition delta_loop {A} (field : rec → option A) (compare : A → A → bool)
    (old new : list rec) (action : string) : go (list rec) :=
  foldM (λ delta x,
      f ← found field compare x old;
      Ret (if f : bool then delta else delta ++ [set_Action x action]))
    new [].

Definition getDeltaServices (oldservices newservices : list rec) (action : string) : go (list rec) :=
  delta_loop Service compareService oldservices newservices action.

Definition getDeltaChecks (oldchecks newchecks : list rec) (action : string) : go (list rec) :=
  delta_loop Check_ compareCheck oldchecks newchecks action.

(** The records with a registration: [if rec.Service != nil { ... append }]. *)
Definition having {A} (field : rec → option A) (l : list rec) : list rec :=
  filter (λ r, is_Some (field r)) l.

Definition getDeltaRecords (oldRecords newRecords : list rec) (action : string) : go (list rec) :=
  services ← getDeltaServices (having Service oldRecords) (having Service newRecords) action;
  checks ← getDeltaChecks (having Check_ oldRecords) (having Check_ newRecords) action;
  Ret (services ++ checks).

(** The address of a task by the first source that has one. *)
Fixpoint getAddress (task : Task) (ipsources : list string) (slaveip : string) : go string :=
  match ipsources with
  | [] => Ret ""
  | lookup :: ipsources =>
      let lookupkey := Split lookup ":" in
      let next (address : string) : go string :=
        if bool_decide (address = "") then getAddress task ipsources slaveip else Ret address in
      key ← index lookupkey 0;
      if bool_decide (key ∈ ["mesos"; "docker"; "netinfo"; "host"]) then next (Task_IP task [key])
      else if bool_decide (key = "label") then
        match lookupkey with
        | [_; name] =>
            let address :=
              match StatusIPs (Statuses task) (Labels name) with a :: _ => a | [] => "" end in
            if bool_decide (address = "")
               && bool_decide (name = "CalicoDocker.NetworkSettings.IPAddress")
               && existsb (λ l, bool_decide (Label_Key l = "CALICO_IP")) (Task_Labels task)
            then Ret "" else next address
        | _ => Panic Fatal
        end
      else if bool_decide (key = "fallback") then next slaveip
      else next ""
  end.

(** ** parser.go *)

Record SlaveInfo := { Info_Address : string; Info_Hostname : string; Info_ID : string }.

Section parser.
Context `{UnicodeTables}.
Context (unmarshal : list ascii → AgentCheckRegistration → AgentCheckRegistration * error).

(** A record that adds a service. *)
Definition service_rec (address slaveID : string) (s : AgentServiceRegistration) : rec :=
  {| Action := "add"; Address := address; rec_SlaveID := slaveID; Type_ := "service";
     Service := Some s; Check_ := None |}.

(** The record of one slave and the entry of [taskSlaves] for it. *)
Definition mesos_record (prefix leadHost : string) (slave : Slave) : go (rec * SlaveInfo) :=
  slaveHostname ← index (Split (Slave_Hostname slave) ".") 0;
  host ← PID_Host (Slave_PID slave);
  port ← PID_Port (Slave_PID slave);
  let slaveInfo :=
    {| Info_Address := host; Info_Hostname := slaveHostname; Info_ID := Slave_ID slave |} in
  let tags := ["slave"; slaveHostname] in
  let tags := if bool_decide (Master (Attrs slave) = "true") then tags ++ ["master"] else tags in
  let tags := if bool_decide (host = leadHost) then tags ++ ["leader"] else tags in
  Ret (service_rec "" (Slave_ID slave)
         (CreateService (Join [prefix; Slave_ID slave] ":") "mesos" host port tags), slaveInfo).

Definition generateMesosRecords (st : State) (prefix : string) :
    go (list rec * gmap string SlaveInfo) :=
  addr ← index (Split (Leader st) "@") 1;
  leadHost ← index (Split addr ":") 0;
  _ ← index (Split addr ":") 1;
  foldM (λ '(recs, taskSlaves) slave,
      '(r, info) ← mesos_record prefix leadHost slave;
      Ret (recs ++ [r], <[Slave_ID slave := info]> taskSlaves))
    (Slaves st) ([], ∅).

(** [skipInactiveFrameworks && !framework.Active] *)
Definition skipped (skipInactive : bool) (f : Framework) : bool :=
  skipInactive && negb (Framework_Active f).

Definition generateFrameworkRecords (st : State) (prefix : string) (skipInactive : bool) :
    list rec :=
  foldl (λ recs framework,
      if skipped skipInactive framework then recs
      else
        let '(frameworkHost, frameworkPort) := HostPort framework in
        if bool_decide (frameworkHost = "") then recs
        else
          recs ++ [service_rec "" ""
            (CreateService (Join [prefix; Framework_Name framework] ":") (Framework_Name framework)
               frameworkHost frameworkPort [])])
    [] (Frameworks st).

(** The checks of one port: one for every endpoint of every label
    ConsulHealthCheckKeys that can be rendered. *)
Definition check_records (kvPairs : list KVPair) (task : Task) (id address port : string) :
    list rec :=
  foldl (λ recs label,
      if negb (bool_decide (Label_Key label = "ConsulHealthCheckKeys")) then recs
      else
        foldl (λ recs endpoint,
            match createHealthChecks unmarshal kvPairs endpoint id address port with
            | (_, Some _) => recs
            | (hc, None) =>
                recs ++ [{| Action := "add"; Address := address; rec_SlaveID := SlaveID task;
                            Type_ := "check"; Service := None; Check_ := Some hc |}]
            end)
          recs (Split (Label_Value label) ","))
    [] (Task_Labels task).

(** The records of one task: a service, and its checks, for every port. *)
Definition task_records (prefix : string) (ipsources : list string)
    (slaveInfo : gmap string SlaveInfo) (kvPairs : list KVPair) (task : Task) : go (list rec) :=
  if negb (bool_decide (Task_State task = "TASK_RUNNING")) then Ret []
  else
    address ← getAddress task ipsources
                (match slaveInfo !! SlaveID task with Some i => Info_Address i | None => "" end);
    if bool_decide (address = "") then Ret []
    else
      ports ← Ports (Task_Resources task);
      let ports := match ports with [] => ["0"] | _ => ports end in
      let tags :=
        match slaveInfo !! SlaveID task with Some i => [Info_Hostname i] | None => [] end in
      Ret (foldl (λ recs port,
               let id := Join [prefix; SlaveID task; Task_ID task; port] ":" in
               recs ++ [service_rec address (SlaveID task)
                          (CreateService id (Task_Name task) address port tags)]
                    ++ check_records kvPairs task id address port)
             [] ports).

(** [ipsources] starts with one empty string per configured source and one
    more: the slice is made with that length and then appended to. *)
Definition generateTaskRecords (st : State) (prefix : string) (IPSources : list string)
    (slaveInfo : gmap string SlaveInfo) (kvPairs : list KVPair) (skipInactive : bool) :
    go (list rec) :=
  let ipsources := replicate (length IPSources + 1) "" ++ IPSources ++ ["fallback"] in
  foldM (λ recs framework,
      if skipped skipInactive framework then Ret recs
      else
        foldM (λ recs task,
            ts ← task_records prefix ipsources slaveInfo kvPairs task; Ret (recs ++ ts))
          (Tasks framework) recs)
    (Frameworks st) [].
End parser.

(** ** cache.go *)

(** [Records] may be a nil map. *)
Record cache := { Records : option (gmap string rec); Updated : Z }.

Definition cache0 : cache := {| Records := None; Updated := 0 |}.

(** The key of a record: the ID of its service or check. *)
Definition rec_key (r : rec) : go string :=
  if bool_decide (Type_ r = "service") then Service_ID <$> deref (Service r)
  else if bool_decide (Type_ r = "check") then Check_ID <$> deref (Check_ r)
  else Ret "".

Definition UpdateCache (now : Z) (c : cache) (record : rec) (action : string) : go cache :=
  let Records := default ∅ (Records c) in
  id ← rec_key record;
  Ret {| Records := Some (if bool_decide (action = "add") then <[id := record]> Records
                          else if bool_decide (action = "remove") then delete id Records
                          else Records);
         Updated := now |}.

(** The list starts with one zero record per entry: it is made with that
    length and then appended to. *)
Definition CachedRecords `{MapOrder} (loop : string) (c : cache) : list rec :=
  let m := default ∅ (Records c) in
  replicate (size m) rec0 ++ omap (λ id, m !! id) (order loop (dom m)).

(** ** Services of an agent (consul.go) *)

(** The registration that a listed service came from. *)
Definition registration_of (service : AgentService) : AgentServiceRegistration :=
  {| Service_ID := AS_ID service; Service_Name := AS_Service service;
     Service_Tags := AS_Tags service; Service_Port := AS_Port service;
     Service_Address := AS_Address service |}.

(** [services] are the entries of the map that the agent answers with, in the
    order of the loop; [None] is an error of the call.  The list starts with
    one zero record per service. *)
Definition agentServiceRecords (services : option (list AgentService)) (prefix : string) :
    go (list rec) :=
  match services with
  | None => Ret []
  | Some services =>
      foldM (λ recs service,
          let parts := Split (AS_ID service) ":" in
          owner ← index parts 0;
          if negb (bool_decide (owner = prefix)) then Ret recs
          else
            slaveID ← index parts 1;
            Ret (recs ++ [{| Action := ""; Address := AS_Address service; rec_SlaveID := slaveID;
              Type_ := "service"; Service := Some (registration_of service);
              Check_ := None |}]))
        services (replicate (length services) rec0)
  end.

(** ** Dispatch (consul.go) *)

(** The maps of [Dispatch]; a channel is named by the address of its agent. *)
Record dispatch_state := {
  consulAgent : gmap string string;
  recs_of : gmap string (list rec);
  slaveLookup : gmap string string }.

(** [records[id] = append(records[id], record)] *)
Definition append_rec (ds : dispatch_state) (id : string) (r : rec) : dispatch_state :=
  {| consulAgent := consulAgent ds;
     recs_of := <[id := default [] (recs_of ds !! id) ++ [r]]> (recs_of ds);
     slaveLookup := slaveLookup ds |}.

Definition dispatch_mesos (Agents : gset string) (ds : dispatch_state) (r : rec) :
    go dispatch_state :=
  s ← deref (Service r);
  let ds :=
    if bool_decide (Service_Address s ∈ Agents) then
      {| consulAgent := <[rec_SlaveID r := Service_Address s]> (consulAgent ds);
         recs_of := recs_of ds;
         slaveLookup := <[Service_Address s := rec_SlaveID r]> (slaveLookup ds) |}
    else ds in
  Ret (append_rec ds (rec_SlaveID r) r).

Definition dispatch_framework (ds : dispatch_state) (r : rec) : dispatch_state :=
  match slaveLookup ds !! Address r with
  | Some slaveid => append_rec ds slaveid r
  | None => ds
  end.

Definition dispatch_task (ds : dispatch_state) (r : rec) : dispatch_state :=
  append_rec ds (rec_SlaveID r) r.

(** The sends of the last loop, one goroutine each: the slave, the agent and
    the records. *)
Definition Dispatch (Agents : gset string) (mesosRecords frameworks tasks : list rec) :
    go (gmap string (string * list rec)) :=
  ds ← foldM (dispatch_mesos Agents) mesosRecords
         {| consulAgent := ∅; recs_of := ∅; slaveLookup := ∅ |};
  let ds := foldl dispatch_framework ds frameworks in
  let ds := foldl dispatch_task ds tasks in
  Ret (map_imap (λ slaveid agent, Some (agent, default [] (recs_of ds !! slaveid)))
         (consulAgent ds)).

(** [Reload]: the generators and [Dispatch] run concurrently and meet at the
    channels, every one of which has one sender and one receiver; [kvPairs] is
    what the poller of the key-value store sends. *)
Definition Reload_consul `{UnicodeTables}
    (unmarshal : list ascii → AgentCheckRegistration → AgentCheckRegistration * error)
    (Agents : gset string) (config : Consul.Config) (IPSources : list string)
    (kvPairs : list KVPair) (st : State) : go (gmap string (string * list rec)) :=
  let prefix := Consul.ServicePrefix config in
  let skip := Consul.SkipInactiveFrameworks config in
  '(mesosRecords, taskSlaves) ← generateMesosRecords st prefix;
  tasks ← generateTaskRecords unmarshal st prefix IPSources taskSlaves kvPairs skip;
  Dispatch Agents mesosRecords (generateFrameworkRecords st prefix skip) tasks.
