(* ===== verification/ConsulProps.v ===== *)
(** * Properties of the consul records

    What the generated registrations look like, how registrations are
    compared, and where the records of a state are sent. *)

From S2P Require Import Prelude GoStrings GoNet Labels State Config Store Consul.

(** ** Names of services *)

Lemma map_fuel_Forall (P : ascii → Prop) n mapping s :
  (∀ r, (0 ≤ mapping r)%Z → Forall P (EncodeRune (mapping r))) →
  Forall P (map_fuel n mapping s).
Proof.
  intros Hm. revert s. induction n as [|n IH]; intros s; [constructor|].
  destruct s as [|a s]; [constructor|]. cbn [map_fuel].
  destruct (DecodeRune (a :: s)) as [r w]. apply Forall_app. split; [|apply IH].
  destruct (Z.leb_spec 0 (mapping r)); [by apply Hm|constructor].
Qed.

Lemma word_byte c : word_or_dash (code c) = true → EncodeRune (code c) = [c] ∧ is_ascii c = true.
Proof. destruct c as [[] [] [] [] [] [] [] []]; vm_compute; intros; split; congruence. Qed.

Lemma word_rune r : word_or_dash r = true → ∃ c, r = code c.
Proof.
  intros Hr. exists (chr r). rewrite code_chr; [done|]. unfold word_or_dash in Hr. lia.
Qed.

Lemma replace_non_word_bytes name :
  Forall (λ c, word_or_dash (code c) = true) (bytes (replace_non_word name)).
Proof.
  unfold replace_non_word. rewrite bytes_str. apply map_fuel_Forall. intros r _.
  destruct (word_or_dash r) eqn:E; [|by repeat constructor].
  destruct (word_rune r E) as [c ->]. destruct (word_byte c E) as [-> _]. by repeat constructor.
Qed.

Lemma replace_non_word_id name :
  Forall (λ c, word_or_dash (code c) = true) (bytes name) → replace_non_word name = name.
Proof.
  intros Hn. unfold replace_non_word, bytes_Map. apply (inj bytes). rewrite bytes_str.
  induction Hn as [|c s Hc Hs IH]; [done|]. cbn [length map_fuel].
  destruct (word_byte c Hc) as [He Ha]. unfold DecodeRune. rewrite Ha, Hc, He.
  pose proof (code_range c). destruct (Z.leb_spec 0 (code c)); [|lia].
  cbn [app]. f_equal. exact IH.
Qed.

Lemma Join_field f l sep : f ∈ l → bytes f ⊆ bytes (Join l sep).
Proof.
  induction l as [|s l IH]; [by intros ?%elem_of_nil|].
  destruct (decide (l = [])) as [->|Hne]; [by intros ->%list_elem_of_singleton|].
  rewrite Join_cons, !bytes_app by done. intros [->|Hf%IH]%elem_of_cons; set_solver.
Qed.

(** Deleting every occurrence of a byte. *)
Lemma bytes_delete c s d : d ∈ bytes (ReplaceAll s (String c "") "") → d ≠ c ∧ d ∈ bytes s.
Proof.
  unfold ReplaceAll. intros Hd. apply bytes_Join in Hd as [Hd|(f & Hf & Hd)];
    [by apply elem_of_nil in Hd|].
  pose proof (Split_fields c s) as Hs. rewrite Forall_forall in Hs. specialize (Hs f Hf).
  split; [by intros ->|]. rewrite <-(Join_Split s (String c "")). by eapply Join_field.
Qed.

Lemma lower_word c :
  word_or_dash (code c) = true → c ≠ "_"%char → ldh (lower_byte c) = true.
Proof. destruct c as [[] [] [] [] [] [] [] []]; vm_compute; intros; congruence. Qed.

Lemma ldh_word c : ldh c = true → word_or_dash (code c) = true ∧ c ≠ "_"%char ∧ lower_byte c = c.
Proof. destruct c as [[] [] [] [] [] [] [] []]; vm_compute; intros; repeat split; congruence. Qed.

(** The name of every service that is registered consists of lower-case
    letters, digits and hyphens, whatever the name of the task or framework,
    and a name of that form is registered unchanged. *)
Theorem CreateService_name `{UnicodeTables} id name address port tags :
  let s := CreateService id name address port tags in
  Forall (λ c, ldh c = true) (bytes (Service_Name s))
  ∧ (Forall (λ c, ldh c = true) (bytes name) → Service_Name s = name).
Proof.
  cbn. pose proof (replace_non_word_bytes name) as Hw. rewrite Forall_forall in Hw.
  assert (∀ s, (∀ c, c ∈ bytes s → word_or_dash (code c) = true) →
    ToLower s = str (lower_byte <$> bytes s)) as Hlow.
  { intros s Hs. unfold ToLower. replace (forallb is_ascii (bytes s)) with true; [done|].
    symmetry. apply forallb_forall. intros c Hc%list_elem_of_In%Hs. by apply word_byte. }
  rewrite Hlow by (intros c [_ Hc]%bytes_delete; by apply Hw). split.
  - rewrite bytes_str, Forall_fmap. apply Forall_forall. intros c [Hc1 Hc2]%bytes_delete.
    apply lower_word; [by apply Hw|done].
  - intros Hn. rewrite replace_non_word_id by (eapply Forall_impl; [exact Hn|apply ldh_word]).
    unfold ReplaceAll. rewrite Forall_forall in Hn.
    rewrite Split_nosep by (intros Hc%Hn%ldh_word; by destruct Hc as (_ & ? & _)).
    cbn [Join]. apply (inj bytes). rewrite bytes_str. rewrite <-(list_fmap_id (bytes name)) at 2.
    apply list_fmap_ext. intros i c Hc%list_elem_of_lookup_2%Hn. by apply ldh_word.
Qed.

Lemma CreateService_name_witness :
  let H := {| unicode_ToLower := λ s, s |} in
  Service_Name (CreateService "id" "web-1" "10.0.0.1" "80" []) = "web-1".
Proof.
  intros H. apply (CreateService_name "id" "web-1" "10.0.0.1" "80" []).
  by repeat constructor.
Defined.

(** ** Comparing services *)

Lemma existsb_eq (x : string) l : existsb (λ y, bool_decide (x = y)) l = true ↔ x ∈ l.
Proof.
  rewrite existsb_exists. split.
  - intros (y & Hy & ->%bool_decide_eq_true). by apply list_elem_of_In.
  - intros Hx. exists x. split; [by apply list_elem_of_In|by apply bool_decide_eq_true].
Qed.

Lemma compareService_true n o :
  compareService n o = true ↔
  Service_ID n = Service_ID o ∧ Service_Name n = Service_Name o
  ∧ Service_Address n = Service_Address o ∧ Service_Port n = Service_Port o
  ∧ length (Service_Tags n) = length (Service_Tags o)
  ∧ Service_Tags o ⊆ Service_Tags n.
Proof.
  unfold compareService.
  repeat (case_bool_decide; cbn [negb]; [|split; [done|tauto]]).
  destruct (Nat.eqb_spec (length (Service_Tags n)) (length (Service_Tags o)));
    cbn [negb]; [|split; [done|tauto]].
  rewrite forallb_forall. split.
  - intros Hf. split_and!; [done..|]. intros t Ht%list_elem_of_In%Hf. by apply existsb_eq.
  - intros (_ & _ & _ & _ & _ & Hs) t Ht%list_elem_of_In. by apply existsb_eq, Hs.
Qed.

(** [compareService] is reflexive, and for services without duplicate
    tags it decides that all fields are equal up to the order of the tags; it
    is then symmetric.  With duplicate tags it is not symmetric. *)
Theorem compareService_spec n o :
  compareService n n = true
  ∧ (NoDup (Service_Tags o) →
     compareService n o = true ↔
     Service_ID n = Service_ID o ∧ Service_Name n = Service_Name o
     ∧ Service_Address n = Service_Address o ∧ Service_Port n = Service_Port o
     ∧ Service_Tags n ≡ₚ Service_Tags o)
  ∧ (∃ a b, compareService a b = true ∧ compareService b a = false).
Proof.
  split_and!.
  - by apply compareService_true.
  - intros Ho. rewrite compareService_true.
    split; intros (? & ? & ? & ? & Ht); split_and!; try done.
    + destruct Ht as [Hl Hs]. symmetry.
      apply submseteq_length_Permutation; [by apply NoDup_submseteq|lia].
    + by rewrite Ht.
    + by rewrite Ht.
  - exists {| Service_ID := "s"; Service_Name := ""; Service_Tags := ["slave"; "n1"];
              Service_Port := 0; Service_Address := "" |},
           {| Service_ID := "s"; Service_Name := ""; Service_Tags := ["slave"; "slave"];
              Service_Port := 0; Service_Address := "" |}.
    done.
Qed.

(** ** Where records are sent *)

Lemma filter_key_nil {A} (f : A → string) l k :
  k ∉ f <$> l → filter (λ x, f x = k) l = [].
Proof.
  induction l as [|x l IH]; [done|]. rewrite fmap_cons, not_elem_of_cons. intros [Hx Hl].
  rewrite filter_cons_False by done. by apply IH.
Qed.

Lemma filter_key_unique {A} (f : A → string) l x :
  NoDup (f <$> l) → x ∈ l → filter (λ y, f y = f x) l = [x].
Proof.
  induction l as [|y l IH]; [by intros _ ?%elem_of_nil|].
  rewrite fmap_cons, NoDup_cons. intros [Hy Hl] [->|Hx]%elem_of_cons.
  - rewrite filter_cons_True by done. by rewrite filter_key_nil.
  - rewrite filter_cons_False; [by apply IH|]. intros E. apply Hy. rewrite E.
    by apply list_elem_of_fmap_2.
Qed.

(** The record [r] makes the agent at [a] the agent of the slave [id]. *)
Definition announces (Agents : gset string) (r : rec) (id a : string) : Prop :=
  rec_SlaveID r = id ∧ a ∈ Agents ∧ ∃ s, Service r = Some s ∧ Service_Address s = a.

(** The slave that an address leads to: the last one of the slaves with an
    agent that has it. *)
Definition slave_at (Agents : gset string) (mesos : list rec) (a : string) : option string :=
  last (omap (λ r, s ← Service r;
    if bool_decide (Service_Address s = a ∧ a ∈ Agents) then Some (rec_SlaveID r) else None) mesos).

Lemma slave_at_snoc Agents l r s a :
  Service r = Some s →
  slave_at Agents (l ++ [r]) a =
  if bool_decide (Service_Address s = a ∧ a ∈ Agents) then Some (rec_SlaveID r) else slave_at Agents l a.
Proof.
  intros Hs. unfold slave_at. rewrite omap_app. cbn [omap list_omap]. rewrite Hs. cbn.
  case_bool_decide; [by rewrite last_snoc|by rewrite app_nil_r].
Qed.

Lemma slave_at_unknown Agents l a : a ∉ Agents → slave_at Agents l a = None.
Proof.
  intros Ha. unfold slave_at. induction l as [|r l IH]; [done|]. cbn.
  destruct (Service r) as [s|]; [|done]. cbn. by rewrite bool_decide_false by naive_solver.
Qed.

Lemma append_rec_recs ds k r id :
  default [] (recs_of (append_rec ds k r) !! id) =
  default [] (recs_of ds !! id) ++ (if decide (k = id) then [r] else []).
Proof.
  cbn. destruct (decide (k = id)) as [->|Hk].
  - by rewrite lookup_insert_eq.
  - by rewrite lookup_insert_ne, app_nil_r.
Qed.

Lemma filter_snoc_key l (r : rec) id :
  filter (λ x, rec_SlaveID x = id) (l ++ [r]) =
  filter (λ x, rec_SlaveID x = id) l ++ (if decide (rec_SlaveID r = id) then [r] else []).
Proof. rewrite filter_app, filter_cons, filter_nil. by destruct (decide _). Qed.

Lemma dispatch_mesos_spec Agents l ds :
  foldM (dispatch_mesos Agents) l {| consulAgent := ∅; recs_of := ∅; slaveLookup := ∅ |} = Ret ds →
  NoDup (rec_SlaveID <$> l) →
  (∀ id, default [] (recs_of ds !! id) = filter (λ r, rec_SlaveID r = id) l)
  ∧ (∀ id a, consulAgent ds !! id = Some a ↔ ∃ r, r ∈ l ∧ announces Agents r id a)
  ∧ (∀ a, slaveLookup ds !! a = slave_at Agents l a).
Proof.
  revert ds. induction l as [|r l IH] using rev_ind; intros ds Hds Hl.
  { apply Ret_inj in Hds as <-. split_and!; [done| |done]. intros id a. cbn.
    rewrite lookup_empty. split; [done|]. by intros (? & ?%elem_of_nil & _). }
  rewrite foldM_app in Hds. go_inv Hds. cbn [foldM] in Hds. go_inv Hds.
  apply Ret_inj in Hds as <-. rename r0 into ds.
  rewrite fmap_app, NoDup_app in Hl. destruct Hl as (Hl & Hr & _).
  destruct (IH ds E Hl) as (Hrecs & Hag & Hlook). clear IH E.
  unfold dispatch_mesos in E0. destruct (Service r) as [s|] eqn:Hs; [|done].
  cbn [deref mbind go_bind] in E0. apply Ret_inj in E0 as <-. split_and!.
  - intros id. rewrite append_rec_recs, filter_snoc_key, <-Hrecs. by case_bool_decide.
  - intros id a. unfold append_rec. cbn [consulAgent].
    assert ((∃ r', r' ∈ l ++ [r] ∧ announces Agents r' id a) ↔
      consulAgent ds !! id = Some a
      ∨ rec_SlaveID r = id ∧ Service_Address s = a ∧ a ∈ Agents) as ->.
    { rewrite Hag. setoid_rewrite elem_of_app. setoid_rewrite list_elem_of_singleton. split.
      - intros (r' & [Hr'| ->] & Ha); [left; eauto|right].
        destruct Ha as (? & ? & s' & Hs' & ?). naive_solver.
      - intros [(r' & Hr' & Ha)|(? & ? & ?)]; [eauto|]. exists r. split; [by right|].
        repeat split; eauto. }
    assert (consulAgent ds !! rec_SlaveID r = None) as Hnone.
    { destruct (consulAgent ds !! rec_SlaveID r) as [a'|] eqn:Ea; [|done].
      apply Hag in Ea as (r' & Hr' & Hid & _). exfalso. apply (Hr (rec_SlaveID r)); [|by left].
      rewrite <-Hid. by apply list_elem_of_fmap_2. }
    case_bool_decide as Hin; cbn [consulAgent].
    + destruct (decide (id = rec_SlaveID r)) as [->|Hne].
      * rewrite lookup_insert_eq, Hnone. naive_solver.
      * rewrite lookup_insert_ne by done. naive_solver.
    + naive_solver.
  - intros a. unfold append_rec. cbn [slaveLookup]. rewrite (slave_at_snoc _ _ _ _ _ Hs).
    case_bool_decide as Hin; cbn [slaveLookup].
    + destruct (decide (Service_Address s = a)) as [<-|Hne].
      * by rewrite lookup_insert_eq, bool_decide_true.
      * rewrite lookup_insert_ne, bool_decide_false by naive_solver. apply Hlook.
    + rewrite bool_decide_false by naive_solver. apply Hlook.
Qed.

Lemma dispatch_task_spec l ds :
  let ds' := foldl dispatch_task ds l in
  consulAgent ds' = consulAgent ds
  ∧ ∀ id, default [] (recs_of ds' !! id) =
          default [] (recs_of ds !! id) ++ filter (λ r, rec_SlaveID r = id) l.
Proof.
  induction l as [|r l IH] using rev_ind; cbv zeta; [split; [done|]; intros; by rewrite app_nil_r|].
  rewrite foldl_snoc. destruct IH as [Ha Hr]. split; [done|]. intros id.
  unfold dispatch_task at 1. rewrite append_rec_recs, Hr, filter_snoc_key.
  by rewrite (assoc_L (++)).
Qed.

Lemma dispatch_framework_spec l ds :
  let ds' := foldl dispatch_framework ds l in
  consulAgent ds' = consulAgent ds ∧ slaveLookup ds' = slaveLookup ds
  ∧ ∀ id, default [] (recs_of ds' !! id) =
          default [] (recs_of ds !! id) ++ filter (λ r, slaveLookup ds !! Address r = Some id) l.
Proof.
  induction l as [|r l IH] using rev_ind; cbv zeta; [split_and!; [done..|]; intros; by rewrite app_nil_r|].
  rewrite foldl_snoc. destruct IH as (Ha & Hl & Hr). unfold dispatch_framework at 1 3 5. rewrite Hl.
  split_and!.
  - by destruct (slaveLookup ds !! Address r).
  - by destruct (slaveLookup ds !! Address r).
  - intros id. rewrite filter_app, filter_cons, filter_nil.
    destruct (slaveLookup ds !! Address r) as [sid|] eqn:El.
    + rewrite append_rec_recs, Hr, (assoc_L (++)). f_equal.
      destruct (decide (sid = id)) as [->|Hne]; [by rewrite decide_True|by rewrite decide_False by congruence].
    + rewrite Hr, decide_False by done. by rewrite app_nil_r.
Qed.

(** The record set of a slave with an agent: its own record, the framework
    records whose address leads to it, and the task records with its ID. *)
Lemma Dispatch_sends Agents mesos frameworks tasks sends :
  Dispatch Agents mesos frameworks tasks = Ret sends → NoDup (rec_SlaveID <$> mesos) →
  ∀ id agent recs, sends !! id = Some (agent, recs) ↔
    ∃ r, r ∈ mesos ∧ announces Agents r id agent
      ∧ recs = r :: filter (λ f, slave_at Agents mesos (Address f) = Some id) frameworks
                 ++ filter (λ t, rec_SlaveID t = id) tasks.
Proof.
  unfold Dispatch. intros Hd Hids id agent recs. go_inv Hd. rename r into ds. apply Ret_inj in Hd as <-.
  destruct (dispatch_mesos_spec _ _ _ E Hids) as (Hrecs & Hag & Hlook).
  destruct (dispatch_framework_spec frameworks ds) as (Ha & _ & Hf).
  destruct (dispatch_task_spec tasks (foldl dispatch_framework ds frameworks)) as [Ha' Ht].
  rewrite map_lookup_imap, Ha', Ha, Ht, Hf, Hrecs.
  rewrite (list_filter_iff (λ f, slaveLookup ds !! Address f = Some id)
    (λ f, slave_at Agents mesos (Address f) = Some id))
    by (intros f; by rewrite Hlook).
  split.
  - destruct (consulAgent ds !! id) as [a|] eqn:Ea; [|done]. cbn. intros [= <- <-].
    apply Hag in Ea as (r & Hr & Hann). exists r. split_and!; [done..|].
    pose proof Hann as (<- & _). by rewrite filter_key_unique by done.
  - intros (r & Hr & Hann & ->).
    rewrite (proj2 (Hag id agent)) by eauto. cbn. pose proof Hann as (<- & _).
    by rewrite filter_key_unique by done.
Qed.

Section reload.
Context `{UnicodeTables}.
Context (unmarshal : list ascii → AgentCheckRegistration → AgentCheckRegistration * error).

Lemma generateFrameworkRecords_address st prefix skip r :
  r ∈ generateFrameworkRecords st prefix skip → Address r = "".
Proof.
  unfold generateFrameworkRecords. generalize (Frameworks st). intros l.
  induction l as [|f l IH] using rev_ind; [by intros ?%elem_of_nil|].
  rewrite foldl_snoc. destruct (skipped skip f); [done|]. destruct (HostPort f).
  case_bool_decide; [done|]. rewrite elem_of_app, list_elem_of_singleton.
  intros [Hr| ->]; [by apply IH|done].
Qed.

Lemma generateMesosRecords_ids st prefix recs infos :
  generateMesosRecords st prefix = Ret (recs, infos) →
  rec_SlaveID <$> recs = Slave_ID <$> Slaves st.
Proof.
  unfold generateMesosRecords. intros Hg. go_inv Hg. clear E E0 E1. revert recs infos Hg.
  generalize (Slaves st). intros l. induction l as [|s l IH] using rev_ind; intros recs infos Hg;
    [by apply Ret_inj in Hg as [= <- _]|].
  rewrite foldM_app in Hg. go_inv Hg. cbn [foldM] in Hg. go_inv Hg.
  apply Ret_inj in Hg. subst r3. destruct r2 as [recs0 infos0]. go_inv E0.
  destruct r2 as [r2 info]. apply Ret_inj in E0 as [= <- _].
  rewrite !fmap_app, (IH _ _ E). f_equal. cbn. f_equal.
  unfold mesos_record in E1. go_inv E1. by apply Ret_inj in E1 as [= <- _].
Qed.

(** C24: a reload routes records to the agents of their slaves: the agent of a
    slave is sent the record of the slave, then the records of the frameworks
    whose address leads to the slave, then the records of the tasks on it, each
    in the order they were generated in, and nothing else; and nothing is sent
    that is not for the agent of a slave. *)
Theorem Reload_routes Agents config IPSources kvPairs st sends :
  Reload_consul unmarshal Agents config IPSources kvPairs st = Ret sends →
  NoDup (Slave_ID <$> Slaves st) →
  ∃ mesos infos tasks,
    generateMesosRecords st (Consul.ServicePrefix config) = Ret (mesos, infos)
    ∧ rec_SlaveID <$> mesos = Slave_ID <$> Slaves st
    ∧ generateTaskRecords unmarshal st (Consul.ServicePrefix config) IPSources infos kvPairs
        (Consul.SkipInactiveFrameworks config) = Ret tasks
    ∧ ∀ id agent recs, sends !! id = Some (agent, recs) ↔
        ∃ r, r ∈ mesos ∧ announces Agents r id agent
          ∧ recs = r :: filter (λ f, slave_at Agents mesos (Address f) = Some id)
                          (generateFrameworkRecords st (Consul.ServicePrefix config)
                             (Consul.SkipInactiveFrameworks config))
                     ++ filter (λ t, rec_SlaveID t = id) tasks.
Proof.
  unfold Reload_consul. intros Hr Hids. go_inv Hr. destruct r as [mesos infos]. go_inv Hr.
  rename r into tasks. pose proof (generateMesosRecords_ids _ _ _ _ E) as Hm.
  exists mesos, infos, tasks. split_and!; [done..|]. apply Dispatch_sends; [done|by rewrite Hm].
Qed.

(** The records of frameworks are made without an address, so that no slave is
    found for them: no framework record is sent to any agent. *)
Theorem frameworks_discarded Agents mesos st prefix skip id :
  "" ∉ Agents →
  filter (λ f, slave_at Agents mesos (Address f) = Some id) (generateFrameworkRecords st prefix skip) = [].
Proof.
  intros Hne. destruct (filter _ _) as [|f l] eqn:E; [done|].
  assert (f ∈ f :: l) as Hf by left. rewrite <-E in Hf. apply list_elem_of_filter in Hf as [Hat Hf].
  apply generateFrameworkRecords_address in Hf. rewrite Hf in Hat. by rewrite slave_at_unknown in Hat.
Qed.

(** The record sets that a reload sends. *)
Lemma Reload_sends Agents config IPSources kvPairs st sends :
  Reload_consul unmarshal Agents config IPSources kvPairs st = Ret sends →
  NoDup (Slave_ID <$> Slaves st) → "" ∉ Agents →
  ∃ mesos infos tasks,
    generateMesosRecords st (Consul.ServicePrefix config) = Ret (mesos, infos)
    ∧ rec_SlaveID <$> mesos = Slave_ID <$> Slaves st
    ∧ generateTaskRecords unmarshal st (Consul.ServicePrefix config) IPSources infos kvPairs
        (Consul.SkipInactiveFrameworks config) = Ret tasks
    ∧ ∀ id agent recs, sends !! id = Some (agent, recs) ↔
        ∃ r, r ∈ mesos ∧ announces Agents r id agent
             ∧ recs = r :: filter (λ t, rec_SlaveID t = id) tasks.
Proof.
  unfold Reload_consul. intros Hr Hids Hempty. go_inv Hr. destruct r as [mesos infos]. go_inv Hr.
  rename r into tasks. pose proof (generateMesosRecords_ids _ _ _ _ E) as Hm.
  exists mesos, infos, tasks. split_and!; [done..|]. intros id agent recs.
  rewrite (Dispatch_sends _ _ _ _ _ Hr) by (by rewrite Hm).
  by rewrite frameworks_discarded.
Qed.
End reload.

(** ** The address of a task *)

(** The address that one source gives. *)
Definition source_address (task : Task) (slaveip src : string) : string :=
  match Split src ":" with
  | [] => ""
  | key :: args =>
      if bool_decide (key ∈ ["mesos"; "docker"; "netinfo"; "host"]) then Task_IP task [key]
      else if bool_decide (key = "label") then
        match args with
        | [name] => match StatusIPs (Statuses task) (Labels name) with a :: _ => a | [] => "" end
        | _ => ""
        end
      else if bool_decide (key = "fallback") then slaveip else ""
  end.

(** A label source names one label, which is not the one of Calico. *)
Definition plain_source (src : string) : Prop :=
  match Split src ":" with
  | key :: args => key = "label" → ∃ name, args = [name] ∧ name ≠ "CalicoDocker.NetworkSettings.IPAddress"
  | [] => False
  end.

(** With such sources the address of a task is the first one that a source
    gives. *)
Theorem getAddress_first task srcs slaveip :
  Forall plain_source srcs →
  getAddress task srcs slaveip
  = Ret (default "" (head (filter (.≠ "") (source_address task slaveip <$> srcs)))).
Proof.
  induction 1 as [|src srcs Hs _ IH]; [done|]. cbn [getAddress fmap list_fmap].
  assert (∀ a, (if bool_decide (a = "") then getAddress task srcs slaveip else Ret a)
    = Ret (default "" (head (filter (.≠ "") (a :: (source_address task slaveip <$> srcs)))))) as Hnext.
  { intros a. rewrite filter_cons. case_bool_decide as Ha.
    - rewrite decide_False by (intros []; done). exact IH.
    - by rewrite decide_True. }
  unfold plain_source in Hs. unfold source_address at 1.
  destruct (Split src ":") as [|key args]; [done|]. cbn -[elem_of].
  case_bool_decide; [apply Hnext|]. case_bool_decide as Hl.
  - destruct (Hs Hl) as (name & -> & Hn). rewrite (bool_decide_false (name = _)) by done.
    rewrite andb_false_r. cbn [andb]. apply Hnext.
  - case_bool_decide; apply Hnext.
Qed.

(** A label source with no name, or with more than one, passes the validation
    of the configuration and ends the process as soon as a task is looked at
    that has no address from an earlier source. *)
Theorem label_source_fatal task n src rest args slaveip :
  Split src ":" = "label" :: args → length args ≠ 1%nat →
  known_source src = true
  ∧ getAddress task (replicate n "" ++ src :: rest) slaveip = Panic Fatal.
Proof.
  intros Hs Hn. split; [unfold known_source; by rewrite Hs|].
  induction n as [|n IH]; cbn [replicate app getAddress].
  - rewrite Hs. cbn -[elem_of]. by destruct args as [|a [|]].
  - exact IH.
Qed.
