(* ===== verification/ConsulAgent.v ===== *)
(** * The goroutine of a consul agent (src/resolvers/consul/consul.go)

    [consulAgent] keeps one agent up to date: it connects, fills its cache
    with what the agent has registered, and applies the difference between
    the cache and every record set it is sent.  The loop is a transition
    system whose states carry the cache and the world.

    The HTTP client of consul is not part of the program: the class
    [ConsulAPI] has its calls, and [ConsulLaws] what their documentation says
    about the services an agent has.  The port of the agents is that of the
    configured address, which [New] has split before the loop starts. *)

From S2P Require Import Prelude GoStrings GoNet State Store Consul ConsulProps.

(** [capi.Config] as [consulInit] fills it in; it identifies the client. *)
Record ClientConfig := {
  cc_Address : string; cc_Datacenter : string; cc_Scheme : string; cc_Token : string;
  cc_Timeout : Z }.

(** [Members] lists the addresses of the members of the LAN pool. *)
Class ConsulAPI (W : Type) := {
  now : W → Z;
  NewClient : ClientConfig → error;
  Self : ClientConfig → W → error * W;
  Members : ClientConfig → W → (list string + string) * W;
  Services : ClientConfig → W → option (list AgentService) * W;
  ServiceRegister : ClientConfig → AgentServiceRegistration → W → error * W;
  ServiceDeregister : ClientConfig → string → W → error * W;
  CheckRegister : ClientConfig → AgentCheckRegistration → W → error * W;
  CheckDeregister : ClientConfig → string → W → error * W }.

(** A registration replaces the service with its ID, a deregistration removes
    it, the other calls leave the services of an agent alone, and the list of
    services shows what is registered. *)
Class ConsulLaws (W : Type) `{ConsulAPI W} := {
  registered : ClientConfig → W → gmap string AgentServiceRegistration;
  registered_register c s w w' :
    ServiceRegister c s w = (None, w') → registered c w' = <[Service_ID s := s]> (registered c w);
  registered_deregister c id w w' :
    ServiceDeregister c id w = (None, w') → registered c w' = delete id (registered c w);
  registered_check c k w w' :
    CheckRegister c k w = (None, w') → registered c w' = registered c w;
  registered_uncheck c id w w' :
    CheckDeregister c id w = (None, w') → registered c w' = registered c w;
  registered_listed c w services w' :
    Services c w = (Some services, w') →
    registered c w' = registered c w
    ∧ ∀ v, v ∈ services ↔ registered c w !! AS_ID v = Some (registration_of v) }.

Section agent.
Context {W : Type} `{ConsulAPI W, MapOrder}.

Definition consulInit (config : Consul.Config) (addr port : string) (refresh : Z) (w : W) :
    (ClientConfig + string) * W :=
  let cfg := {| cc_Address := Join [addr; port] ":"; cc_Datacenter := Consul.Datacenter config;
                cc_Scheme := Consul.Scheme config; cc_Token := Consul.Token config;
                cc_Timeout := refresh |} in
  match NewClient cfg with
  | Some e => (inr e, w)
  | None =>
      match Self cfg w with
      | (Some e, w) => (inr e, w)
      | (None, w) => (inl cfg, w)
      end
  end.

(** [Agent] with the variables of the loop. *)
Record agent := {
  ConsulAgent : option ClientConfig; Healthy : bool; count : Z; recordCache : cache }.

Definition agent0 : agent :=
  {| ConsulAgent := None; Healthy := false; count := 0; recordCache := cache0 |}.

(** [recordCache.Records = make(map[string]Record)] *)
Definition drop_cache (c : cache) : cache := {| Records := Some ∅; Updated := Updated c |}.

Definition set_cache (a : agent) (c : cache) : agent :=
  {| ConsulAgent := ConsulAgent a; Healthy := Healthy a; count := count a; recordCache := c |}.
Definition set_Healthy (a : agent) (b : bool) : agent :=
  {| ConsulAgent := ConsulAgent a; Healthy := b; count := count a; recordCache := recordCache a |}.
Definition set_count (a : agent) (n : Z) : agent :=
  {| ConsulAgent := ConsulAgent a; Healthy := Healthy a; count := n; recordCache := recordCache a |}.

(** The part of the loop before [select]; the result is [None] when the agent
    cannot be reached and the loop starts over. *)
Definition agent_refresh (config : Consul.Config) (address port : string) (a : agent) (w : W) :
    go (option agent * W) :=
  if (Consul.CacheRefresh config =? 0)%Z then Panic DivideByZero
  else if negb (Z.rem (count a) (Consul.CacheRefresh config) =? 0)%Z then Ret (Some a, w)
  else
    let '(connected, w) :=
      if Healthy a then (Some a, w)
      else
        match consulInit config address port 5 w with
        | (inr _, w) => (None, w)
        | (inl client, w) =>
            (Some {| ConsulAgent := Some client; Healthy := true; count := count a;
                     recordCache := drop_cache (recordCache a) |}, w)
        end in
    match connected with
    | None => Ret (None, w)
    | Some a =>
        if Consul.CacheOnly config then Ret (Some (set_cache a (drop_cache (recordCache a))), w)
        else
          client ← deref (ConsulAgent a);
          let '(services, w) := Services client w in
          recs ← agentServiceRecords services (Consul.ServicePrefix config);
          c ← foldM (λ c r, UpdateCache (now w) c r "add") recs (recordCache a);
          Ret (Some (set_cache a c), w)
    end.

(** The call for one record of the delta. *)
Definition agent_call (client : option ClientConfig) (record : rec) (w : W) : go (error * W) :=
  if bool_decide (Action record = "add") then
    if bool_decide (Type_ record = "service") then
      s ← deref (Service record); c ← deref client; Ret (ServiceRegister c s w)
    else if bool_decide (Type_ record = "check") then
      k ← deref (Check_ record); c ← deref client; Ret (CheckRegister c k w)
    else Ret (None, w)
  else if bool_decide (Action record = "remove") then
    if bool_decide (Type_ record = "service") then
      s ← deref (Service record); c ← deref client; Ret (ServiceDeregister c (Service_ID s) w)
    else if bool_decide (Type_ record = "check") then
      k ← deref (Check_ record); c ← deref client; Ret (CheckDeregister c (Check_ID k) w)
    else Ret (None, w)
  else Ret (None, w).

(** One iteration of the loop over the delta; the third component collects
    what is sent on [updateTS]. *)
Definition agent_apply (st : agent * W * list Z) (record : rec) : go (agent * W * list Z) :=
  let '(a, w, ts) := st in
  if negb (Healthy a) then Ret st
  else
    '(err, w) ← agent_call (ConsulAgent a) record w;
    let a := match err with None => a | Some _ => set_Healthy a false end in
    c ← (if bool_decide (Action record ∈ ["add"; "remove"])
         then UpdateCache (now w) (recordCache a) record (Action record)
         else Ret (recordCache a));
    Ret (set_cache a c, w, ts ++ [Updated c]).

(** The difference between the cache and a record set. *)
Definition agent_delta (a : agent) (recordSet : list rec) : go (list rec) :=
  adds ← getDeltaRecords (CachedRecords "add" (recordCache a)) recordSet "add";
  removes ← getDeltaRecords recordSet (CachedRecords "remove" (recordCache a)) "remove";
  Ret (adds ++ removes).

(** [case recordSet := <-records] *)
Definition agent_update (recordSet : list rec) (a : agent) (w : W) : go (agent * W * list Z) :=
  let a := set_count a (count a + 1) in
  delta ← agent_delta a recordSet;
  foldM agent_apply delta (a, w, []).

(** The goroutine of the backend that stores the time stamps it receives in
    [Updated]. *)
Definition store_timestamps (Updated : Z) (ts : list Z) : Z :=
  foldl (λ _ timestamp, timestamp) Updated ts.

(** ** The loop as a transition system *)

Inductive loop_state :=
| Top (a : agent) (w : W)
| Select (a : agent) (w : W)
| Stopped
| Crashed (c : crash).

(** [sent]: the record sets that may arrive; [outside]: what the world does
    while the loop waits. *)
Inductive agent_step (config : Consul.Config) (address port : string) (sent : list rec → Prop)
    (outside : W → W → Prop) : loop_state → loop_state → Prop :=
| step_retry a w w' :
    agent_refresh config address port a w = Ret (None, w') →
    agent_step config address port sent outside (Top a w) (Top a w')
| step_ready a w a' w' :
    agent_refresh config address port a w = Ret (Some a', w') →
    agent_step config address port sent outside (Top a w) (Select a' w')
| step_refresh_crash a w c :
    agent_refresh config address port a w = Panic c →
    agent_step config address port sent outside (Top a w) (Crashed c)
| step_receive a w rs a' w' ts :
    sent rs → agent_update rs a w = Ret (a', w', ts) →
    agent_step config address port sent outside (Select a w) (Top a' w')
| step_receive_crash a w rs c :
    sent rs → agent_update rs a w = Panic c →
    agent_step config address port sent outside (Select a w) (Crashed c)
| step_control a w :
    agent_step config address port sent outside (Select a w) Stopped
| step_outside a w w' :
    outside w w' →
    agent_step config address port sent outside (Select a w) (Select a w').
End agent.
