(* ===== verification/ConsulSync.v ===== *)
(** * What a consul agent ends up with

    The difference of two record sets, the calls it leads to and the services
    that the agent has afterwards, for every interleaving of reconnects,
    refreshes and record sets. *)

From S2P Require Import Prelude GoStrings GoNet Labels State Store Consul ConsulProps ConsulAgent.

(** ** The difference of two record sets *)

(** [x] has an equal registration in [old]. *)
Definition matched {A} (field : rec → option A) (compare : A → A → bool) (old : list rec) (x : rec) :
    bool :=
  match field x with
  | Some a => existsb (λ y, match field y with Some b => compare a b | None => false end) old
  | None => false
  end.

(** The records of [new] that have a registration and no equal one in [old]. *)
Definition fresh {A} (field : rec → option A) (compare : A → A → bool) (old new : list rec) :
    list rec :=
  filter (λ x, is_Some (field x) ∧ matched field compare old x = false) new.

Section delta.
Context {A : Type} (field : rec → option A) (compare : A → A → bool).

Lemma found_matched x old :
  is_Some (field x) → found field compare x (having field old) = Ret (matched field compare old x).
Proof.
  intros [a Ha]. unfold matched, having. rewrite Ha.
  induction old as [|y old IH]; [done|]. rewrite filter_cons. cbn [existsb].
  destruct (decide (is_Some (field y))) as [[b Hb]|Hn].
  - cbn [found]. rewrite Ha, Hb. cbn. by destruct (compare a b).
  - rewrite IH. destruct (field y); [by destruct Hn|done].
Qed.

Lemma delta_loop_fresh old new action :
  delta_loop field compare (having field old) (having field new) action =
  Ret ((λ x, set_Action x action) <$> fresh field compare old new).
Proof.
  unfold delta_loop. induction new as [|x new IH] using rev_ind; [done|].
  unfold having, fresh in *. rewrite !filter_app, foldM_app, IH, !filter_cons, !filter_nil.
  cbn [mbind go_bind]. destruct (decide (is_Some (field x))) as [Hx|Hx].
  - cbn [foldM]. pose proof (found_matched x old Hx) as Hf. unfold having in Hf. rewrite Hf. cbn.
    destruct (matched field compare old x) eqn:Em.
    + rewrite decide_False by naive_solver. cbn. by rewrite app_nil_r.
    + rewrite decide_True by naive_solver. cbn. by rewrite fmap_app.
  - rewrite decide_False by naive_solver. cbn. by rewrite app_nil_r.
Qed.
End delta.

Abbreviation fresh_services := (fresh Service compareService).
Abbreviation fresh_checks := (fresh Check_ compareCheck).

(** [getDeltaRecords] always returns, and records without a registration
    play no part in it. *)
Lemma getDeltaRecords_fresh old new action :
  getDeltaRecords old new action =
  Ret ((λ x, set_Action x action) <$> fresh_services old new ++ fresh_checks old new).
Proof.
  unfold getDeltaRecords, getDeltaServices, getDeltaChecks.
  rewrite !delta_loop_fresh. cbn [mbind go_bind]. by rewrite fmap_app.
Qed.

(** ** Well-formed records *)

Definition wf_rec (r : rec) : Prop :=
  (Type_ r = "service" ∧ is_Some (Service r) ∧ Check_ r = None)
  ∨ (Type_ r = "check" ∧ Service r = None ∧ is_Some (Check_ r)).

(** A cache holds well-formed records and possibly the zero record. *)
Definition cache_ok (c : cache) : Prop :=
  map_Forall (λ _ r, wf_rec r ∨ r = rec0) (default ∅ (Records c)).

Lemma wf_service r : wf_rec r ∨ r = rec0 → is_Some (Service r) → wf_rec r ∧ Type_ r = "service".
Proof.
  intros [Hw| ->]; [|by intros [? ?]]. intros Hs. split; [done|].
  destruct Hw as [(? & _)|(_ & Hn & _)]; [done|]. rewrite Hn in Hs. by destruct Hs.
Qed.
Lemma wf_check r : wf_rec r ∨ r = rec0 → is_Some (Check_ r) → wf_rec r ∧ Type_ r = "check".
Proof.
  intros [Hw| ->]; [|by intros [? ?]]. intros Hs. split; [done|].
  destruct Hw as [(_ & _ & Hn)|(? & _)]; [|done]. rewrite Hn in Hs. by destruct Hs.
Qed.

Section cached.
Context `{MapOrder}.

Lemma elem_of_CachedRecords loop c r :
  r ∈ CachedRecords loop c → r = rec0 ∨ ∃ id, default ∅ (Records c) !! id = Some r.
Proof.
  unfold CachedRecords. rewrite elem_of_app. intros [Hr|Hr].
  - left. by apply elem_of_replicate_inv in Hr.
  - right. apply list_elem_of_omap in Hr as (id & _ & Hid). by exists id.
Qed.

Lemma CachedRecords_elem loop c id r :
  default ∅ (Records c) !! id = Some r → r ∈ CachedRecords loop c.
Proof.
  intros Hr. unfold CachedRecords. apply elem_of_app. right. apply list_elem_of_omap.
  exists id. split; [|done]. rewrite order_perm. apply elem_of_elements, elem_of_dom. by exists r.
Qed.

Lemma CachedRecords_ok loop c r : cache_ok c → r ∈ CachedRecords loop c → wf_rec r ∨ r = rec0.
Proof. intros Hc [->|[id Hid]]%elem_of_CachedRecords; [by right|]. by apply (Hc id). Qed.
End cached.

(** ** The services of an agent after an update *)

(** A registration is in the cache, and in a record set. *)
Definition cached (a : agent) (s : AgentServiceRegistration) : Prop :=
  ∃ id r, default ∅ (Records (recordCache a)) !! id = Some r ∧ Service r = Some s.

Definition wanted (rs : list rec) (s : AgentServiceRegistration) : Prop :=
  ∃ r, r ∈ rs ∧ Service r = Some s.

Lemma wanted_snoc l r s : wanted (l ++ [r]) s ↔ wanted l s ∨ Service r = Some s.
Proof.
  unfold wanted. setoid_rewrite elem_of_app. setoid_rewrite list_elem_of_singleton. naive_solver.
Qed.

(** [id] belongs to a cached service that no service of the set equals. *)
Definition stale (a : agent) (rs : list rec) (id : string) : Prop :=
  ∃ s, cached a s ∧ Service_ID s = id ∧ ∀ s', wanted rs s' → compareService s s' = false.

(** A service of the set that no cached service equals. *)
Definition added (a : agent) (rs : list rec) (s : AgentServiceRegistration) : Prop :=
  wanted rs s ∧ ∀ s', cached a s' → compareService s s' = false.

(** The services of a set have different IDs. *)
Definition unique_ids (rs : list rec) : Prop :=
  ∀ s s', wanted rs s → wanted rs s' → Service_ID s = Service_ID s' → s = s'.

(** The effect of one record of a delta on the services of an agent. *)
Definition reg_op (m : gmap string AgentServiceRegistration) (r : rec) :
    gmap string AgentServiceRegistration :=
  match Service r with
  | Some s =>
      if bool_decide (Action r = "add") then <[Service_ID s := s]> m
      else if bool_decide (Action r = "remove") then delete (Service_ID s) m else m
  | None => m
  end.

Lemma reg_op_none l m : Forall (λ r, Service r = None) l → foldl reg_op m l = m.
Proof. intros Hl. induction Hl as [|r l Hr Hl IH]; [done|]. cbn. unfold reg_op at 2. by rewrite Hr. Qed.

Lemma reg_op_remove l m id :
  let m' := foldl reg_op m ((λ x, set_Action x "remove") <$> l) in
  ((∃ s, wanted l s ∧ Service_ID s = id) → m' !! id = None)
  ∧ ((∀ s, wanted l s → Service_ID s ≠ id) → m' !! id = m !! id).
Proof.
  induction l as [|r l IH] using rev_ind; cbv zeta in *.
  { split; [|done]. by intros (s & (r & ?%elem_of_nil & _) & _). }
  destruct IH as [IH1 IH2]. rewrite fmap_app, foldl_app. cbn [fmap list_fmap foldl].
  set (m' := foldl reg_op m _) in *.
  pose proof (wanted_snoc l r) as Hw.
  unfold reg_op. cbn [Service set_Action Action].
  destruct (Service r) as [s|] eqn:Hs; [rewrite bool_decide_false, bool_decide_true by done|].
  - split.
    + intros (s' & Hs' & Hid). destruct (decide (Service_ID s = id)) as [->|Hne];
        [by rewrite lookup_delete_eq|].
      rewrite lookup_delete_ne by done. apply IH1. exists s'. split; [|done].
      apply Hw in Hs' as [?|[= ->]]; done.
    + intros Hall. rewrite lookup_delete_ne by (apply Hall, Hw; by right).
      apply IH2. intros s' Hs'. apply Hall, Hw. by left.
  - split.
    + intros (s' & Hs' & Hid). apply IH1. exists s'. split; [|done]. by apply Hw in Hs' as [?|?].
    + intros Hall. apply IH2. intros s' Hs'. apply Hall, Hw. by left.
Qed.

Lemma reg_op_add l m :
  unique_ids l →
  let m' := foldl reg_op m ((λ x, set_Action x "add") <$> l) in
  (∀ s, wanted l s → m' !! Service_ID s = Some s)
  ∧ (∀ id, (∀ s, wanted l s → Service_ID s ≠ id) → m' !! id = m !! id).
Proof.
  induction l as [|r l IH] using rev_ind; cbv zeta in *; intros Hu.
  { split; [|done]. by intros s (r & ?%elem_of_nil & _). }
  pose proof (wanted_snoc l r) as Hw.
  destruct IH as [IH1 IH2].
  { intros s s' Hs Hs'. apply Hu; apply Hw; by left. }
  rewrite fmap_app, foldl_app. cbn [fmap list_fmap foldl]. set (m' := foldl reg_op m _) in *.
  unfold reg_op. cbn [Service set_Action Action].
  destruct (Service r) as [s|] eqn:Hs; [rewrite bool_decide_true by done|].
  - split.
    + intros s' Hs'. destruct (decide (Service_ID s = Service_ID s')) as [E|Hne].
      * rewrite E, lookup_insert_eq. f_equal. apply Hu; [apply Hw; by right|done..].
      * rewrite lookup_insert_ne by done. apply IH1. apply Hw in Hs' as [?|[= ->]]; done.
    + intros id Hall. rewrite lookup_insert_ne by (apply Hall, Hw; by right).
      apply IH2. intros s' Hs'. apply Hall, Hw. by left.
  - split.
    + intros s' Hs'. apply IH1. by apply Hw in Hs' as [?|?].
    + intros id Hall. apply IH2. intros s' Hs'. apply Hall, Hw. by left.
Qed.

Lemma wanted_fresh old new s :
  wanted (fresh_services old new) s ↔
  wanted new s ∧ ∀ s', wanted old s' → compareService s s' = false.
Proof.
  unfold wanted, fresh, matched. setoid_rewrite list_elem_of_filter. split.
  - intros (r & [[_ Hm] Hr] & Hs). split; [by exists r|]. rewrite Hs in Hm.
    intros s' (r' & Hr' & Hs'). destruct (compareService s s') eqn:E; [|done].
    rewrite <-Hm. symmetry. apply existsb_exists. exists r'. rewrite Hs'.
    split; [by apply list_elem_of_In|done].
  - intros [(r & Hr & Hs) Hall]. exists r. split_and!; [by rewrite Hs| |done..].
    rewrite Hs. apply not_true_is_false. rewrite existsb_exists.
    intros (r' & Hr'%list_elem_of_In & Hc). destruct (Service r') as [s'|] eqn:Hs'; [|done].
    rewrite Hall in Hc; [done|by exists r'].
Qed.

Lemma fresh_checks_none old new action :
  Forall (λ r, wf_rec r ∨ r = rec0) new →
  Forall (λ r, Service r = None) ((λ x, set_Action x action) <$> fresh_checks old new).
Proof.
  intros Hnew. rewrite Forall_fmap. apply Forall_forall. intros r Hr.
  apply list_elem_of_filter in Hr as [[Hc _] Hr]. rewrite Forall_forall in Hnew.
  destruct (wf_check r) as [[(Ht & _)|(_ & ? & _)] Ht']; [by apply Hnew|done| |done].
  rewrite Ht in Ht'. done.
Qed.

Section sync.
Context {W : Type} `{ConsulLaws W} `{MapOrder}.

Lemma wanted_cached loop a s : wanted (CachedRecords loop (recordCache a)) s ↔ cached a s.
Proof.
  unfold wanted, cached. split.
  - intros (r & [->|[id Hid]]%elem_of_CachedRecords & Hs); [done|]. by exists id, r.
  - intros (id & r & Hr & Hs). exists r. split; [by eapply CachedRecords_elem|done].
Qed.

Lemma agent_delta_fresh a rs :
  let cs := CachedRecords "add" (recordCache a) in
  let cs' := CachedRecords "remove" (recordCache a) in
  agent_delta a rs =
  Ret (((λ x, set_Action x "add") <$> fresh_services cs rs ++ fresh_checks cs rs)
       ++ ((λ x, set_Action x "remove") <$> fresh_services rs cs' ++ fresh_checks rs cs')).
Proof. cbv zeta. unfold agent_delta. by rewrite !getDeltaRecords_fresh. Qed.

(** Every record of a delta is well formed. *)
Lemma agent_delta_wf a rs delta :
  cache_ok (recordCache a) → Forall wf_rec rs → agent_delta a rs = Ret delta → Forall wf_rec delta.
Proof.
  intros Hc Hrs. rewrite agent_delta_fresh. intros <-%Ret_inj.
  assert (∀ old new action, Forall (λ r, wf_rec r ∨ r = rec0) new →
    Forall wf_rec ((λ x, set_Action x action) <$> fresh_services old new ++ fresh_checks old new))
    as Hf.
  { intros old new action Hnew. rewrite Forall_fmap. apply Forall_forall.
    rewrite Forall_forall in Hnew. intros r [Hr|Hr]%elem_of_app;
      apply list_elem_of_filter in Hr as [[Hs _] Hr]; change (wf_rec r);
      [apply wf_service|apply wf_check]; auto. }
  apply Forall_app. split; apply Hf.
  - eapply Forall_impl; [exact Hrs|]. by left.
  - apply Forall_forall. intros r. by apply CachedRecords_ok.
Qed.

Lemma agent_call_registry c record w err w' :
  wf_rec record → agent_call (Some c) record w = Ret (err, w') → err = None →
  registered c w' = reg_op (registered c w) record.
Proof.
  unfold agent_call, reg_op. intros [(Ht & [s Hs] & _)|(Ht & Hs & [k Hk])] Hcall ->; rewrite Hs, Ht in *.
  - repeat case_bool_decide; try done; apply Ret_inj in Hcall.
    + by apply registered_register.
    + by apply registered_deregister.
    + by injection Hcall as <-.
  - rewrite Hk in Hcall. repeat case_bool_decide; try done; apply Ret_inj in Hcall.
    + by eapply registered_check.
    + by eapply registered_uncheck.
    + by injection Hcall as <-.
Qed.

(** An agent that is healthy after a record was healthy before it, and the
    call for it succeeded. *)
Lemma agent_apply_registry c record a w ts a' w' ts' :
  wf_rec record → ConsulAgent a = Some c →
  agent_apply (a, w, ts) record = Ret (a', w', ts') → Healthy a' = true →
  Healthy a = true ∧ ConsulAgent a' = Some c
  ∧ registered c w' = reg_op (registered c w) record.
Proof.
  intros Hwf Hc Happ Hh. unfold agent_apply in Happ.
  destruct (Healthy a) eqn:Ha; cbn [negb] in Happ; [|congruence].
  go_inv Happ. destruct r as [err w1]. go_inv Happ. apply Ret_inj in Happ.
  injection Happ as <- <- <-. destruct err as [e|]; [done|]. rewrite Hc in E.
  split_and!; [done..|]. by eapply agent_call_registry.
Qed.

Lemma agent_loop_registry c delta a w ts a' w' ts' :
  Forall wf_rec delta → ConsulAgent a = Some c →
  foldM agent_apply delta (a, w, ts) = Ret (a', w', ts') → Healthy a' = true →
  Healthy a = true ∧ ConsulAgent a' = Some c
  ∧ registered c w' = foldl reg_op (registered c w) delta.
Proof.
  intros Hwf. revert a w ts. induction Hwf as [|r l Hr Hl IH]; intros a w ts Hc Hf Hh.
  { apply Ret_inj in Hf. by injection Hf as <- <- <-. }
  cbn [foldM] in Hf. go_inv Hf. destruct r0 as [[a1 w1] ts1].
  assert (ConsulAgent a1 = Some c) as Hc1.
  { unfold agent_apply in E. destruct (Healthy a); cbn [negb] in E; [|congruence].
    go_inv E. destruct r0 as [err w2]. go_inv E. apply Ret_inj in E. injection E as <- _ _.
    by destruct err. }
  destruct (IH _ _ _ Hc1 Hf Hh) as (Hh1 & Hc' & Hreg).
  destruct (agent_apply_registry _ _ _ _ _ _ _ _ Hr Hc E Hh1) as (? & _ & Hreg1).
  split_and!; [done..|]. by rewrite Hreg, Hreg1.
Qed.

(** The services after an update that leaves the agent healthy. *)
Lemma agent_update_props c rs a w a' w' ts :
  agent_update rs a w = Ret (a', w', ts) → Healthy a' = true → ConsulAgent a = Some c →
  cache_ok (recordCache a) → Forall wf_rec rs → unique_ids rs →
  (∀ id, stale a rs id → registered c w' !! id = None)
  ∧ (∀ s, added a rs s → ¬ stale a rs (Service_ID s) →
       registered c w' !! Service_ID s = Some s)
  ∧ (∀ id, ¬ stale a rs id → (∀ s, added a rs s → Service_ID s ≠ id) →
       registered c w' !! id = registered c w !! id).
Proof.
  unfold agent_update. intros Hup Hh Hc Hok Hwf Hu. go_inv Hup. rename r into delta.
  pose proof (agent_delta_wf _ _ _ Hok Hwf E) as Hdwf.
  destruct (agent_loop_registry c _ (set_count a (count a + 1)) _ _ _ _ _ Hdwf Hc Hup Hh)
    as (_ & _ & Hreg).
  rewrite agent_delta_fresh in E. apply Ret_inj in E as <-.
  rewrite !fmap_app, !foldl_app in Hreg.
  set (adds := fresh_services _ rs) in *. set (rems := fresh_services rs _) in *.
  rewrite (reg_op_none (_ <$> fresh_checks _ rs)) in Hreg
    by (apply fresh_checks_none; eapply Forall_impl; [exact Hwf|by left]).
  rewrite (reg_op_none (_ <$> fresh_checks rs _)) in Hreg
    by (apply fresh_checks_none, Forall_forall; intros r; by apply CachedRecords_ok).
  set (m1 := foldl reg_op (registered c w) _) in *.
  assert (∀ s, wanted adds s ↔ added a rs s) as Hadds.
  { intros s. unfold adds, added. rewrite wanted_fresh. by setoid_rewrite wanted_cached. }
  assert (∀ id, (∃ s, wanted rems s ∧ Service_ID s = id) ↔ stale a rs id) as Hrems.
  { intros id. unfold rems, stale. setoid_rewrite wanted_fresh. setoid_rewrite wanted_cached.
    naive_solver. }
  assert (∀ id, ¬ stale a rs id → registered c w' !! id = m1 !! id) as Hkeep.
  { intros id Hid. rewrite Hreg. apply reg_op_remove. intros s Hs Hs'. apply Hid, Hrems. eauto. }
  destruct (reg_op_add adds (registered c w)) as [Hadd1 Hadd2].
  { intros s s' [Hs _]%Hadds [Hs' _]%Hadds. by apply Hu. }
  split_and!.
  - intros id Hid%Hrems. rewrite Hreg. by apply reg_op_remove.
  - intros s Hs Hst. rewrite Hkeep by done. by apply Hadd1, Hadds.
  - intros id Hst Hall. rewrite Hkeep by done. apply Hadd2. intros s Hs%Hadds. by apply Hall.
Qed.

(** C20: when an update leaves the agent healthy, the services of the agent
    are determined: a cached service that the record set does not have is
    gone, and so is every other service with its ID; any other service of the
    set that the cache does not have is registered as it is in the set; and
    nothing else has changed. *)
Theorem agent_update_registry c rs a w a' w' ts :
  agent_update rs a w = Ret (a', w', ts) → Healthy a' = true → ConsulAgent a = Some c →
  cache_ok (recordCache a) → Forall wf_rec rs → unique_ids rs →
  (∀ id, stale a rs id → registered c w' !! id = None)
  ∧ (∀ s, added a rs s → ¬ stale a rs (Service_ID s) →
       registered c w' !! Service_ID s = Some s)
  ∧ (∀ id, ¬ stale a rs id → (∀ s, added a rs s → Service_ID s ≠ id) →
       registered c w' !! id = registered c w !! id).
Proof. apply agent_update_props. Qed.

(** C27: a service that changes while its ID stays the same is lost: the
    update registers the new version and then deregisters the ID for the old
    one, so that the agent has neither. *)
Theorem changed_service_lost c rs a w a' w' ts old new :
  agent_update rs a w = Ret (a', w', ts) → Healthy a' = true → ConsulAgent a = Some c →
  cache_ok (recordCache a) → Forall wf_rec rs → unique_ids rs →
  cached a old → wanted rs new → Service_ID old = Service_ID new →
  compareService old new = false →
  registered c w' !! Service_ID new = None.
Proof.
  intros Hup Hh Hc Hok Hwf Hu Hold Hnew Hid Hcmp.
  destruct (agent_update_props _ _ _ _ _ _ _ Hup Hh Hc Hok Hwf Hu) as (Hst & _). apply Hst.
  exists old. split_and!; [done..|]. intros s' Hs'.
  destruct (compareService old s') eqn:E; [|done]. exfalso.
  assert (s' = new) as ->; [|congruence].
  apply compareService_true in E as (Hid' & _). apply Hu; [done..|congruence].
Qed.

Lemma added_or_equal a rs s :
  wanted rs s → added a rs s ∨ ∃ s', cached a s' ∧ compareService s s' = true.
Proof.
  intros Hs. destruct (existsb (λ y, match Service y with
      | Some b => compareService s b | None => false end) (CachedRecords "add" (recordCache a)))
    eqn:E.
  - right. apply existsb_exists in E as (y & Hy%list_elem_of_In & Hcmp).
    destruct (Service y) as [s'|] eqn:Hy'; [|done]. exists s'. split; [|done].
    apply (wanted_cached "add"). by exists y.
  - left. split; [done|]. intros s' (y & Hy & Hy')%(wanted_cached "add").
    destruct (compareService s s') eqn:Hcmp; [|done]. rewrite <-E. symmetry.
    apply existsb_exists. exists y. rewrite Hy'. split; [by apply list_elem_of_In|done].
Qed.

(** An update brings the agent in step with the record set.  When the
    cached services are the agent's, and none of them has the ID of a service
    of the set without being equal to it, then afterwards the agent has every
    service of the set, as it is in the set or as an equal one, and no cached
    service whose ID is not in the set. *)
Lemma update_in_step c rs a w a' w' ts :
  agent_update rs a w = Ret (a', w', ts) → Healthy a' = true → ConsulAgent a = Some c →
  cache_ok (recordCache a) → Forall wf_rec rs → unique_ids rs →
  (∀ s, cached a s → registered c w !! Service_ID s = Some s) →
  (∀ s s', wanted rs s → cached a s' → Service_ID s = Service_ID s' →
     compareService s s' = true ∧ compareService s' s = true) →
  (∀ s, wanted rs s →
     ∃ s', registered c w' !! Service_ID s = Some s' ∧ (s' = s ∨ compareService s s' = true))
  ∧ (∀ s, cached a s → (∀ s', wanted rs s' → Service_ID s' ≠ Service_ID s) →
       registered c w' !! Service_ID s = None).
Proof.
  intros Hup Hh Hc Hok Hwf Hu Hsync Heq.
  destruct (agent_update_props _ _ _ _ _ _ _ Hup Hh Hc Hok Hwf Hu) as (Hst & Hadd & Hkeep).
  assert (∀ s, wanted rs s → ¬ stale a rs (Service_ID s)) as Hns.
  { intros s Hs (s' & Hs' & Hid & Hall). destruct (Heq s s' Hs Hs' (eq_sym Hid)) as [_ E].
    by rewrite Hall in E. }
  split.
  - intros s Hs.
    destruct (added_or_equal a rs s Hs) as [Ha|(s' & Hs' & Hcmp)].
    + exists s. split; [|by left]. by apply Hadd, Hns.
    + exists s'. split; [|by right]. pose proof Hcmp as (Hid & _)%compareService_true.
      rewrite Hkeep; [by rewrite Hid, Hsync|by apply Hns|].
      intros t [Ht Hall] Hidt. assert (t = s) as -> by (by apply Hu). by rewrite Hall in Hcmp.
  - intros s Hs Hall. apply Hst. exists s. split_and!; [done..|]. intros s' Hs'.
    apply not_true_is_false. intros (Hid & _)%compareService_true. by apply (Hall s').
Qed.

(** After an update that applied a record the time stamp of the backend is that
    of the agent's cache. *)
Lemma update_timestamp u rs a w a' w' ts :
  agent_update rs a w = Ret (a', w', ts) → ts ≠ [] →
  store_timestamps u ts = Updated (recordCache a').
Proof.
  unfold agent_update. intros Hup. go_inv Hup.
  eapply (foldM_ind (λ '(a, _, ts), ts ≠ [] → store_timestamps u ts = Updated (recordCache a))) in Hup;
    [exact Hup|done|].
  intros [[a1 w1] ts1] x [[a2 w2] ts2] _ IH Hst. unfold agent_apply in Hst.
  destruct (negb (Healthy a1)); [by apply Ret_inj in Hst as [= <- <- <-]|].
  go_inv Hst. destruct r0 as [err w3]. go_inv Hst. apply Ret_inj in Hst as [= <- _ <-].
  intros _. unfold store_timestamps. by rewrite foldl_snoc.
Qed.
End sync.
