(* ===== verification/ConsulLoop.v ===== *)
(** * The loop of a consul agent

    What the cache holds after a reconnect, what a failed call leads to, and
    that the loop does not crash. *)

From S2P Require Import Prelude GoStrings GoNet Labels State Store Consul ConsulProps ConsulAgent.
From S2P Require Import ConsulSync.

(** ** Filling the cache *)

(** [id] is the ID of a service with the prefix of the resolver. *)
Definition owned (prefix id : string) : Prop := Split id ":" !! 0%nat = Some prefix.

Lemma owned_parts prefix id :
  owned prefix id → id ≠ prefix → ∃ slaveID, Split id ":" !! 1%nat = Some slaveID.
Proof.
  unfold owned. intros Ho Hne. pose proof (Join_Split id ":") as Hj.
  destruct (Split id ":") as [|x [|y l]]; [done| |by exists y]. injection Ho as ->.
  by destruct Hne.
Qed.

(** The record that is made of a listed service. *)
Definition listed_rec (v : AgentService) (r : rec) : Prop :=
  Type_ r = "service" ∧ Service r = Some (registration_of v) ∧ Check_ r = None.

Lemma agentServiceRecords_spec services prefix recs :
  agentServiceRecords (Some services) prefix = Ret recs →
  (∀ r, r ∈ recs → r = rec0 ∨ ∃ v, v ∈ services ∧ owned prefix (AS_ID v) ∧ listed_rec v r)
  ∧ (∀ v, v ∈ services → owned prefix (AS_ID v) → ∃ r, r ∈ recs ∧ listed_rec v r ∧ AS_ID v ≠ prefix).
Proof.
  cbn [agentServiceRecords]. generalize (length services) as n. intros n.
  revert recs. induction services as [|v l IH] using rev_ind; intros recs Hf.
  { apply Ret_inj in Hf as <-. split; [|by intros ? ?%elem_of_nil].
    intros r Hr. left. by eapply elem_of_replicate_inv. }
  rewrite foldM_app in Hf. go_inv Hf. rename r into recs0. cbn [foldM] in Hf. go_inv Hf.
  apply Ret_inj in Hf. subst r. go_inv E0. rename r into owner.
  destruct (IH _ E) as [IH1 IH2]. clear IH E.
  unfold index in E1. destruct (Split (AS_ID v) ":" !! 0%nat) as [o|] eqn:Eo; [|done].
  apply Ret_inj in E1 as ->. setoid_rewrite elem_of_app. setoid_rewrite list_elem_of_singleton.
  case_bool_decide as Hp; cbn [negb] in E0.
  - subst owner. go_inv E0. apply Ret_inj in E0 as <-. rename r into slaveID.
    assert (AS_ID v ≠ prefix) as Hne.
    { intros Hid. unfold index in E. pose proof (Split_fields ":"%char (AS_ID v)) as Hf.
      rewrite Hid in *. assert (prefix ∈ Split prefix ":") as Hin
        by (by eapply list_elem_of_lookup_2).
      rewrite Forall_forall in Hf. apply Hf in Hin. rewrite Split_nosep in E by done. done. }
    split.
    + intros r [Hr|Hr%list_elem_of_singleton]%elem_of_app; [|subst r].
      * destruct (IH1 r Hr) as [?|(v' & ? & ? & ?)]; [by left|right; exists v'; auto].
      * right. exists v. repeat split; auto.
    + intros v' [Hv| ->] Ho.
      * destruct (IH2 v' Hv Ho) as (r & Hr & Hl & ?). exists r. split; [|done].
        apply elem_of_app. by left.
      * eexists. split; [apply elem_of_app; right; by left|]. repeat split; done.
  - apply Ret_inj in E0 as <-. split.
    + intros r Hr. destruct (IH1 r Hr) as [?|(v' & ? & ? & ?)]; [by left|right; exists v'; auto].
    + intros v' [Hv| ->] Ho; [by apply IH2|]. unfold owned in Ho. congruence.
Qed.

Abbreviation entries c := (default ∅ (Records c)).

Lemma cache_ok_empty c : entries c = ∅ → cache_ok c.
Proof. unfold cache_ok. intros -> id r Hr. by rewrite lookup_empty in Hr. Qed.

(** Adding a list of records to a cache: what is cached afterwards was there
    before or is in the list, and every key of the list is taken by a record
    of the list. *)
Lemma cache_adds n recs c c' :
  foldM (λ c r, UpdateCache n c r "add") recs c = Ret c' →
  (∀ id r, entries c' !! id = Some r → entries c !! id = Some r ∨ r ∈ recs ∧ rec_key r = Ret id)
  ∧ (∀ id r, r ∈ recs → rec_key r = Ret id →
       ∃ r', entries c' !! id = Some r' ∧ r' ∈ recs ∧ rec_key r' = Ret id).
Proof.
  revert c'. induction recs as [|x recs IH] using rev_ind; intros c' Hf.
  { apply Ret_inj in Hf as <-. split; [by left|]. by intros ? ? ?%elem_of_nil. }
  rewrite foldM_app in Hf. go_inv Hf. rename r into c1. cbn [foldM] in Hf. go_inv Hf.
  apply Ret_inj in Hf as ->. destruct (IH _ E) as [IH1 IH2]. clear IH E.
  unfold UpdateCache in E0. go_inv E0. rename r into key. apply Ret_inj in E0 as <-. cbn [Records].
  rewrite bool_decide_true by done. cbn [default id].
  setoid_rewrite elem_of_app. setoid_rewrite list_elem_of_singleton. split.
  - intros id r Hr. destruct (decide (id = key)) as [->|Hne].
    + rewrite lookup_insert_eq in Hr. injection Hr as <-. right. auto.
    + rewrite lookup_insert_ne in Hr by done. destruct (IH1 _ _ Hr) as [?|[? ?]]; auto.
  - intros id r Hr Hk. destruct (decide (id = key)) as [->|Hne].
    + exists x. rewrite lookup_insert_eq. auto.
    + rewrite lookup_insert_ne by done. destruct Hr as [Hr| ->]; [|congruence].
      destruct (IH2 _ _ Hr Hk) as (r' & ? & ? & ?). exists r'. auto.
Qed.

Lemma listed_wf v r : listed_rec v r → wf_rec r.
Proof. intros (Ht & Hs & Hc). left. rewrite Hs. eauto. Qed.

Lemma listed_key v r : listed_rec v r → rec_key r = Ret (AS_ID v).
Proof. intros (Ht & Hs & _). unfold rec_key. by rewrite Ht, Hs. Qed.

Lemma owned_nonempty prefix id : owned prefix id → id ≠ prefix → id ≠ "".
Proof. intros Ho Hne ->. injection Ho as <-. done. Qed.

Section refresh.
Context {W : Type} `{ConsulLaws W}.

(** The cache after it is filled from the agent. *)
Lemma fill_cache prefix client n services w w' recs c c' :
  Services client w = (Some services, w') → entries c = ∅ →
  agentServiceRecords (Some services) prefix = Ret recs →
  foldM (λ c r, UpdateCache n c r "add") recs c = Ret c' →
  cache_ok c'
  ∧ (∀ id r s, entries c' !! id = Some r → Service r = Some s →
       registered client w' !! Service_ID s = Some s)
  ∧ (∀ s, registered client w' !! Service_ID s = Some s → owned prefix (Service_ID s) →
       ∃ id r, entries c' !! id = Some r ∧ Service r = Some s).
Proof.
  intros Hs Hc Hr Hf. destruct (registered_listed _ _ _ _ Hs) as [-> Hlist].
  destruct (agentServiceRecords_spec _ _ _ Hr) as [Hrecs Hall].
  destruct (cache_adds _ _ _ _ Hf) as [Hin Hkeys]. rewrite Hc in Hin.
  assert (∀ id r, entries c' !! id = Some r →
    r = rec0 ∧ id = "" ∨ ∃ v, v ∈ services ∧ AS_ID v = id ∧ listed_rec v r) as Hent.
  { intros id r Hid. destruct (Hin _ _ Hid) as [?|[Hir Hk]]; [by rewrite lookup_empty in *|].
    destruct (Hrecs r Hir) as [->|(v & Hv & _ & Hl)]; [left|right].
    - by injection Hk as <-.
    - exists v. rewrite (listed_key _ _ Hl) in Hk. by injection Hk as <-. }
  split_and!.
  - intros id r Hid. destruct (Hent _ _ Hid) as [[-> _]|(v & _ & _ & Hl)]; [by right|left].
    by eapply listed_wf.
  - intros id r s Hid Hrs. destruct (Hent _ _ Hid) as [[-> _]|(v & Hv & _ & Hl)]; [done|].
    destruct Hl as (_ & Hs' & _). rewrite Hrs in Hs'. injection Hs' as ->. by apply Hlist.
  - intros s Hreg Ho.
    set (v := {| AS_ID := Service_ID s; AS_Service := Service_Name s; AS_Tags := Service_Tags s;
                 AS_Port := Service_Port s; AS_Address := Service_Address s |}).
    assert (registration_of v = s) as Hv by (by destruct s).
    destruct (Hall v) as (r & Hr' & Hl & Hne); [apply Hlist; by rewrite Hv|done|].
    destruct (Hkeys _ _ Hr' (listed_key _ _ Hl)) as (r' & Hid & _).
    exists (AS_ID v), r'. split; [done|].
    destruct (Hent _ _ Hid) as [[_ Hid0]|(v' & Hv' & Heq & _ & -> & _)];
      [by destruct (owned_nonempty prefix (AS_ID v))|].
    apply Hlist in Hv'. rewrite Heq in Hv'. cbn [AS_ID v] in Hv'. congruence.
Qed.
End refresh.

(** ** Failures and reconnects *)

Section loop.
Context {W : Type} `{ConsulLaws W} `{MapOrder}.

Lemma unhealthy_loop delta a (w : W) ts :
  Healthy a = false → foldM agent_apply delta (a, w, ts) = Ret (a, w, ts).
Proof. intros Ha. induction delta as [|r l IH]; [done|]. cbn. by rewrite Ha. Qed.

Lemma consulInit_client config address port n (w : W) c w' :
  consulInit config address port n w = (inl c, w') → cc_Address c = Join [address; port] ":".
Proof.
  unfold consulInit. destruct (NewClient _); [done|]. destruct (Self _ w) as [[e|] w1]; [done|].
  by intros [= <- _].
Qed.

(** C23: while the agent is not healthy an update makes no call and keeps the
    cache.  A refresh that reconnects makes it healthy, and leaves only
    services in the cache that the agent has as they are cached; unless the
    cache is configured to be dropped, every service of the agent with the
    prefix of the resolver is in it, if the agent lists its services. *)
Theorem reconnect_in_step config address port a (w : W) :
  Healthy a = false →
  (∀ rs, agent_update rs a w = Ret (set_count a (count a + 1), w, []))
  ∧ ∀ a1 w1,
      Z.rem (count a) (Consul.CacheRefresh config) = 0%Z →
      agent_refresh config address port a w = Ret (Some a1, w1) →
      Healthy a1 = true ∧ cache_ok (recordCache a1)
      ∧ ∃ c, ConsulAgent a1 = Some c ∧ cc_Address c = Join [address; port] ":"
        ∧ (∀ s, cached a1 s → registered c w1 !! Service_ID s = Some s)
        ∧ (Consul.CacheOnly config = false → (∀ w0, is_Some (Services c w0).1) →
           ∀ s, registered c w1 !! Service_ID s = Some s →
             owned (Consul.ServicePrefix config) (Service_ID s) → cached a1 s).
Proof.
  intros Ha. split.
  { intros rs. unfold agent_update. rewrite agent_delta_fresh. cbn [mbind go_bind].
    by apply unhealthy_loop. }
  intros a1 w1 Hrem Href. unfold agent_refresh in Href. rewrite Hrem, Ha in Href.
  destruct (Z.eqb_spec (Consul.CacheRefresh config) 0); [done|]. cbn [Z.eqb negb] in Href.
  destruct (consulInit config address port 5 w) as [[c|e] w2] eqn:Hinit; [|done].
  pose proof (consulInit_client _ _ _ _ _ _ _ Hinit) as Hc.
  destruct (Consul.CacheOnly config).
  { apply Ret_inj in Href. injection Href as <- <-. split_and!; [done|by apply cache_ok_empty|].
    exists c. split_and!; [done..| |done]. by intros s (id & r & Hr & _). }
  cbn [deref ConsulAgent mbind go_bind recordCache] in Href.
  destruct (Services c w2) as [[services|] w3] eqn:Hs.
  - go_inv Href. apply Ret_inj in Href. injection Href as <- <-.
    destruct (fill_cache _ _ _ _ _ _ _ (drop_cache (recordCache a)) _ Hs eq_refl E E0)
      as (Hok & Hin & Hall).
    split_and!; [done..|]. exists c. split_and!; [done..| |].
    + intros s (id & x & Hr & Hrs). by eapply Hin.
    + intros _ _ s Hreg Ho. by apply Hall.
  - apply Ret_inj in Href. injection Href as <- <-. split_and!; [done|by apply cache_ok_empty|].
    exists c. split_and!; [done..| |]; [by intros s (id & r & Hr & _)|].
    intros _ Hall. specialize (Hall w2). rewrite Hs in Hall. by destruct Hall.
Qed.
End loop.

(** ** The records of a reload are well formed *)

Section reloads.
Context `{UnicodeTables}.
Context (unmarshal : list ascii → AgentCheckRegistration → AgentCheckRegistration * error).

Lemma foldl_Forall {A B} (P : B → Prop) (f : list B → A → list B) l acc :
  Forall P acc → (∀ acc x, Forall P acc → Forall P (f acc x)) → Forall P (foldl f acc l).
Proof. intros Hacc Hf. revert acc Hacc. induction l as [|x l IH]; cbn; auto. Qed.

Lemma service_rec_wf address slaveID s : wf_rec (service_rec address slaveID s).
Proof. left. cbn. eauto. Qed.

Lemma generateMesosRecords_wf st prefix recs infos :
  generateMesosRecords st prefix = Ret (recs, infos) → Forall wf_rec recs.
Proof.
  unfold generateMesosRecords. intros Hg. go_inv Hg. clear E E0 E1.
  eapply (foldM_ind (λ p, Forall wf_rec p.1)) in Hg; [done|constructor|].
  intros [recs0 infos0] slave [recs1 infos1] _ Hrecs Hf. go_inv Hf. destruct r2 as [x info].
  apply Ret_inj in Hf as [= <- _]. apply Forall_snoc; [done|].
  unfold mesos_record in E. go_inv E. apply Ret_inj in E as [= <- _]. apply service_rec_wf.
Qed.

Lemma generateFrameworkRecords_wf st prefix skip :
  Forall wf_rec (generateFrameworkRecords st prefix skip).
Proof.
  apply foldl_Forall; [constructor|]. intros acc f Hacc. destruct (skipped skip f); [done|].
  destruct (HostPort f). case_bool_decide; [done|]. apply Forall_snoc; [done|].
  apply service_rec_wf.
Qed.

Lemma check_records_wf kvs task id address port :
  Forall wf_rec (check_records unmarshal kvs task id address port).
Proof.
  apply foldl_Forall; [constructor|]. intros acc l Hacc. case_bool_decide; cbn [negb]; [|done].
  apply foldl_Forall; [done|]. intros acc' e Hacc'.
  destruct (createHealthChecks _ _ _ _ _ _) as [hc [err|]]; [done|].
  apply Forall_snoc; [done|]. right. cbn. eauto.
Qed.

Lemma task_records_wf prefix srcs infos kvs task recs :
  task_records unmarshal prefix srcs infos kvs task = Ret recs → Forall wf_rec recs.
Proof.
  unfold task_records. intros Ht. case_bool_decide; cbn [negb] in Ht;
    [|by apply Ret_inj in Ht as <-]. go_inv Ht.
  case_bool_decide; [by apply Ret_inj in Ht as <-|]. go_inv Ht. apply Ret_inj in Ht as <-.
  apply foldl_Forall; [constructor|]. intros acc port Hacc. apply Forall_app. split; [done|].
  apply Forall_app. split; [apply Forall_singleton, service_rec_wf|apply check_records_wf].
Qed.

Lemma generateTaskRecords_wf st prefix srcs infos kvs skip recs :
  generateTaskRecords unmarshal st prefix srcs infos kvs skip = Ret recs → Forall wf_rec recs.
Proof.
  unfold generateTaskRecords. intros Hg.
  eapply (foldM_ind (Forall wf_rec)) in Hg; [done|constructor|].
  intros acc f acc' _ Hacc Hf. destruct (skipped skip f); [by apply Ret_inj in Hf as <-|].
  eapply (foldM_ind (Forall wf_rec)) in Hf; [done|done|].
  intros acc1 t acc2 _ Hacc1 Ht. go_inv Ht. apply Ret_inj in Ht as <-.
  apply Forall_app. split; [done|]. by eapply task_records_wf.
Qed.

(** All records that [Dispatch] has collected are well formed. *)
Definition dispatch_ok (ds : dispatch_state) : Prop :=
  ∀ id, Forall wf_rec (default [] (recs_of ds !! id)).

Lemma append_rec_ok ds k r : dispatch_ok ds → wf_rec r → dispatch_ok (append_rec ds k r).
Proof.
  intros Hds Hr id. rewrite append_rec_recs. apply Forall_app. split; [done|].
  destruct (decide _); [by apply Forall_singleton|constructor].
Qed.

Lemma foldl_dispatch_ok (f : dispatch_state → rec → dispatch_state) l ds :
  dispatch_ok ds → Forall wf_rec l →
  (∀ ds r, dispatch_ok ds → wf_rec r → dispatch_ok (f ds r)) → dispatch_ok (foldl f ds l).
Proof. intros Hds Hl Hf. revert ds Hds. induction Hl; cbn; auto. Qed.

Lemma Dispatch_wf Agents mesos fws tasks sends id agent rs :
  Dispatch Agents mesos fws tasks = Ret sends →
  Forall wf_rec mesos → Forall wf_rec fws → Forall wf_rec tasks →
  sends !! id = Some (agent, rs) → Forall wf_rec rs.
Proof.
  unfold Dispatch. intros Hd Hm Hf Ht. go_inv Hd. rename r into ds. apply Ret_inj in Hd as <-.
  eapply (foldM_ind dispatch_ok) in E; [|by intros k; constructor|].
  2: { intros s x s' Hx Hs Hstep. unfold dispatch_mesos in Hstep. go_inv Hstep.
       apply Ret_inj in Hstep as <-. rewrite Forall_forall in Hm.
       apply append_rec_ok; [|by apply Hm]. by case_bool_decide. }
  rewrite map_lookup_imap. intros Hid. destruct (consulAgent _ !! id) as [a|]; [|done]. cbn in Hid.
  injection Hid as _ <-. revert id.
  change (dispatch_ok (foldl dispatch_task (foldl dispatch_framework ds fws) tasks)).
  apply foldl_dispatch_ok; [apply foldl_dispatch_ok; [done..|]|done|].
  - intros s r Hs Hr. unfold dispatch_framework. case_match; [by apply append_rec_ok|done].
  - intros s r. apply append_rec_ok.
Qed.

(** [rs] is a record set that some reload sends to some agent. *)
Definition reloaded (config : Consul.Config) (rs : list rec) : Prop :=
  ∃ Agents IPSources kvPairs st sends id agent,
    Reload_consul unmarshal Agents config IPSources kvPairs st = Ret sends
    ∧ sends !! id = Some (agent, rs).

Lemma reloaded_wf config rs : reloaded config rs → Forall wf_rec rs.
Proof.
  intros (Agents & srcs & kvs & st & sends & id & agent & Hr & Hid).
  unfold Reload_consul in Hr. go_inv Hr. destruct r as [mesos infos]. go_inv Hr.
  eapply Dispatch_wf; eauto using generateMesosRecords_wf, generateTaskRecords_wf,
    generateFrameworkRecords_wf.
Qed.
End reloads.

(** ** The loop does not crash *)

Section safety.
Context {W : Type} `{ConsulAPI W} `{MapOrder}.

(** A healthy agent has a client, and its cache is well formed. *)
Definition agent_ok (a : agent) : Prop :=
  cache_ok (recordCache a) ∧ (Healthy a = true → is_Some (ConsulAgent a)).

Lemma rec_key_wf r : wf_rec r ∨ r = rec0 → ∃ id, rec_key r = Ret id.
Proof.
  unfold rec_key. intros [[(-> & [s ->] & _)|(-> & _ & [k ->])]| ->]; cbn; eauto.
Qed.

Lemma UpdateCache_ok n c r action :
  cache_ok c → wf_rec r ∨ r = rec0 → ∃ c', UpdateCache n c r action = Ret c' ∧ cache_ok c'.
Proof.
  intros Hc Hr. unfold UpdateCache. destruct (rec_key_wf r Hr) as [id ->]. cbn.
  eexists. split; [done|]. unfold cache_ok. cbn. repeat case_bool_decide.
  - by apply map_Forall_insert_2.
  - by apply map_Forall_delete.
  - done.
Qed.

Lemma agent_apply_ok a (w : W) ts r :
  agent_ok a → wf_rec r → ∃ a' w' ts', agent_apply (a, w, ts) r = Ret (a', w', ts') ∧ agent_ok a'.
Proof.
  intros [Hc Hcl] Hr. unfold agent_apply. destruct (Healthy a) eqn:Ha; cbn [negb];
    [|exists a, w, ts; split; [done|split; [done|congruence]]].
  destruct (Hcl eq_refl) as [client Hclient].
  assert (∃ err w', agent_call (ConsulAgent a) r w = Ret (err, w')) as (err & w' & ->).
  { unfold agent_call. rewrite Hclient.
    destruct Hr as [(-> & [s ->] & _)|(-> & _ & [k ->])]; cbn;
      repeat case_bool_decide; try done;
      lazymatch goal with |- ∃ _ _, Ret ?e = _ => destruct e; eauto end. }
  cbn [mbind go_bind].
  set (a1 := match err with None => a | Some _ => set_Healthy a false end).
  assert (agent_ok a1 ∧ is_Some (ConsulAgent a1)) as [[Hc1 _] Hcl1]
    by (unfold a1; destruct err; cbn; rewrite Hclient; repeat split; eauto).
  case_bool_decide.
  - destruct (UpdateCache_ok (now w') (recordCache a1) r (Action r)) as (c & -> & Hok); [done|by left|].
    cbn. eexists _, _, _. split; [done|]. by split.
  - cbn. eexists _, _, _. split; [done|]. by split.
Qed.

Lemma agent_update_ok rs a (w : W) :
  agent_ok a → Forall wf_rec rs →
  ∃ a' w' ts, agent_update rs a w = Ret (a', w', ts) ∧ agent_ok a'.
Proof.
  intros Ha Hrs. unfold agent_update.
  destruct (agent_delta (set_count a (count a + 1)) rs) as [delta|c] eqn:Hd.
  - pose proof (agent_delta_wf (set_count a (count a + 1)) _ _ (proj1 Ha) Hrs Hd) as Hwf.
    rewrite Forall_forall in Hwf.
    destruct (foldM_returns (λ '(a, _, _), agent_ok a) agent_apply delta
      (set_count a (count a + 1), w, [])) as ([[a' w'] ts] & Hf & Hok); [done| |].
    + intros [[a1 w1] ts1] r Hr Ha1. destruct (agent_apply_ok a1 w1 ts1 r) as (a2 & w2 & ts2 & ? & ?);
        [done|by apply Hwf|]. by exists (a2, w2, ts2).
    + cbn. eauto.
  - by rewrite agent_delta_fresh in Hd.
Qed.

Lemma agentServiceRecords_ok services prefix :
  (∀ v, v ∈ default [] services → AS_ID v ≠ prefix) →
  ∃ recs, agentServiceRecords services prefix = Ret recs ∧ Forall (λ r, wf_rec r ∨ r = rec0) recs.
Proof.
  destruct services as [l|]; [|by exists []]. cbn [agentServiceRecords default]. intros Hne.
  apply (foldM_returns (Forall (λ r, wf_rec r ∨ r = rec0))).
  { apply Forall_replicate. by right. }
  intros recs v Hv Hrecs. cbv zeta. unfold index.
  destruct (Split (AS_ID v) ":" !! 0%nat) as [o|] eqn:Eo.
  2: { apply lookup_ge_None in Eo. pose proof (split_fuel_nonempty (String.length (AS_ID v)) ":" (AS_ID v)).
       unfold Split in Eo. destruct (split_fuel _ _ _); [done|]. cbn in Eo. lia. }
  cbn [mbind go_bind]. case_bool_decide as Ho; cbn [negb]; [|by exists recs].
  subst o. destruct (owned_parts _ _ Eo) as [slaveID ->]; [by apply Hne|].
  eexists. split; [done|]. apply Forall_app. split; [done|]. repeat constructor. cbn. eauto.
Qed.

(** The records that are read are well formed, and only an ID that is the
    prefix makes reading them panic. *)
Lemma agentServiceRecords_cases services prefix :
  match agentServiceRecords services prefix with
  | Ret recs => Forall (λ r, wf_rec r ∨ r = rec0) recs
  | Panic _ => ∃ v, v ∈ default [] services ∧ AS_ID v = prefix
  end.
Proof.
  destruct (agentServiceRecords services prefix) as [recs|c] eqn:E.
  - destruct services as [l|]; [|by apply Ret_inj in E as <-]. cbn [agentServiceRecords] in E.
    eapply (foldM_ind (Forall (λ r, wf_rec r ∨ r = rec0))) in E; [done|by apply Forall_replicate; right|].
    intros acc v acc' _ Hacc Hst. go_inv Hst. destruct (negb _); [by apply Ret_inj in Hst as <-|].
    go_inv Hst. apply Ret_inj in Hst as <-. apply Forall_app. split; [done|]. repeat constructor. cbn. eauto.
  - destruct (decide (Forall (λ v, AS_ID v ≠ prefix) (default [] services))) as [Hids|Hids].
    + rewrite Forall_forall in Hids. destruct (agentServiceRecords_ok _ _ Hids) as (recs & E' & _). congruence.
    + apply not_Forall_Exists, Exists_exists in Hids as (v & Hv & Hid); [|apply _].
      exists v. split; [done|]. by apply dec_stable.
Qed.

(** Some agent lists, at some time, a service whose ID is the bare prefix. *)
Definition lists_prefix (prefix : string) : Prop :=
  ∃ c (w : W) v, v ∈ default [] (Services c w).1 ∧ AS_ID v = prefix.

Lemma agent_refresh_ok config address port a (w : W) :
  agent_ok a → Consul.CacheRefresh config ≠ 0%Z →
  match agent_refresh config address port a w with
  | Ret (o, _) => from_option agent_ok True o
  | Panic _ => lists_prefix (Consul.ServicePrefix config)
  end.
Proof.
  intros Ha Hn. unfold agent_refresh. destruct (Z.eqb_spec (Consul.CacheRefresh config) 0); [done|].
  destruct (negb _); [done|].
  assert (∃ o w', (if Healthy a then (Some a, w) else
        match consulInit config address port 5 w with
        | (inr _, w) => (None, w)
        | (inl client, w) => (Some {| ConsulAgent := Some client; Healthy := true; count := count a;
            recordCache := drop_cache (recordCache a) |}, w)
        end) = (o, w') ∧ from_option (λ a, agent_ok a ∧ is_Some (ConsulAgent a)) True o)
    as (o & w' & -> & Ho).
  { destruct (Healthy a) eqn:Hh; [exists (Some a), w; split; [done|split; [done|by apply Ha]]|].
    destruct (consulInit config address port 5 w) as [[client|] w']; [|by exists None, w'].
    eexists (Some _), w'. split; [done|]. cbn. repeat split; cbn; eauto. by apply cache_ok_empty. }
  destruct o as [a1|]; [|done]. destruct Ho as [[Hc Hcl] [client Hclient]].
  destruct (Consul.CacheOnly config); [split; [by apply cache_ok_empty|done]|].
  rewrite Hclient. cbn [deref mbind go_bind].
  destruct (Services client w') as [services w2] eqn:Hsv.
  pose proof (agentServiceRecords_cases services (Consul.ServicePrefix config)) as Hrecs.
  destruct (agentServiceRecords _ _) as [recs|c]; cbn [mbind go_bind].
  2:{ destruct Hrecs as (v & Hv & Hid). exists client, w', v. by rewrite Hsv. }
  rewrite Forall_forall in Hrecs.
  destruct (foldM_returns cache_ok (λ c r, UpdateCache (now w2) c r "add") recs (recordCache a1))
    as (c' & -> & Hc'); [done|intros; by apply UpdateCache_ok; auto|].
  split; [done|]. intros _. cbn. by rewrite Hclient.
Qed.

(** What every reachable state of the loop satisfies. *)
Definition loop_ok (st : loop_state (W := W)) : Prop :=
  match st with
  | Top a _ | Select a _ => agent_ok a
  | Stopped => True
  | Crashed _ => False
  end.

(** The loop crashes only on a service with the bare prefix as its ID. *)
Definition loop_safe_at (prefix : string) (st : loop_state (W := W)) : Prop :=
  loop_ok st ∨ (∃ c, st = Crashed c) ∧ lists_prefix prefix.

Lemma loop_safe `{UnicodeTables} unmarshal config address port outside (w : W) st :
  Consul.CacheRefresh config ≠ 0%Z →
  rtc (agent_step config address port (reloaded unmarshal config) outside) (Top agent0 w) st →
  loop_safe_at (Consul.ServicePrefix config) st.
Proof.
  intros Hn Hst. pose proof (reloaded_wf unmarshal config) as Hsent. unfold loop_safe_at.
  apply (rtc_ind_r (λ st, loop_ok st ∨ (∃ c, st = Crashed c) ∧ lists_prefix (Consul.ServicePrefix config))
    (Top agent0 w)) in Hst; [done| |].
  { left. split; [by apply cache_ok_empty|done]. }
  clear st Hst. intros st st' _ Hstep [Hok|[[c ->] _]]; [|by inversion Hstep].
  destruct Hstep as
    [a w1 w2 Hr|a w1 a' w2 Hr|a w1 c Hr|a w1 rs a' w2 ts Hs Hu|a w1 rs c Hs Hu|a w1|a w1 w2 _]; cbn in *;
    try by left.
  - left. pose proof (agent_refresh_ok config address port a w1 Hok Hn) as Ho. by rewrite Hr in Ho.
  - right. pose proof (agent_refresh_ok config address port a w1 Hok Hn) as Ho. rewrite Hr in Ho. eauto.
  - destruct (agent_update_ok rs a w1) as (a2 & w3 & ts' & E & ?); [done|by apply Hsent|].
    rewrite Hu in E. left. by injection E as <- _ _.
  - destruct (agent_update_ok rs a w1) as (a2 & w3 & ts' & E & ?); [done|by apply Hsent|].
    by rewrite Hu in E.
Qed.

(** A service whose ID is the prefix has no slave in its ID, and reading the
    services of the agent panics. *)
Theorem bare_prefix_panics services prefix v :
  v ∈ services → AS_ID v = prefix → ":"%char ∉ bytes prefix →
  ∃ c, agentServiceRecords (Some services) prefix = Panic c.
Proof.
  intros Hv Hid Hfree. cbn [agentServiceRecords].
  generalize (replicate (length services) rec0) as recs.
  assert (Split prefix ":" = [prefix]) as Hsp.
  { by apply Split_nosep. }
  induction Hv as [v l|v v' l _ IH]; intros recs; cbn [foldM]; cbv zeta.
  - rewrite Hid, Hsp. cbn. rewrite bool_decide_true by done. cbn. by eexists.
  - match goal with |- ∃ c, mbind _ ?m = _ => destruct m as [recs'|c] end; [|by eexists].
    cbn [mbind go_bind]. by apply IH.
Qed.

(** A refresh period of zero panics at the first turn of the loop. *)
Theorem zero_refresh_panics config address port a (w : W) :
  Consul.CacheRefresh config = 0%Z → agent_refresh config address port a w = Panic DivideByZero.
Proof. intros Hz. unfold agent_refresh. by rewrite Hz. Qed.
End safety.
