(* ===== verification/ConsulDemo.v ===== *)
(** * A consul agent that keeps its promises

    An instance of the consul interface, an agent whose state is its map of
    services and whose calls always succeed, and the properties of the
    resolver on concrete inputs. *)

From S2P Require Import Prelude GoStrings GoNet Labels State Store Consul ConsulProps ConsulAgent.
From S2P Require Import ConsulSync ConsulLoop.

Module DemoConsul.
#[export] Instance tables : UnicodeTables := {| unicode_ToLower := λ s, s |}.

#[export] Instance some_order : MapOrder.
Proof. refine {| order := λ _ s, elements s |}. done. Defined.

Definition registry : Type := gmap string AgentServiceRegistration.

Definition listing (s : AgentServiceRegistration) : AgentService :=
  {| AS_ID := Service_ID s; AS_Service := Service_Name s; AS_Tags := Service_Tags s;
     AS_Port := Service_Port s; AS_Address := Service_Address s |}.

Definition list_services (m : registry) : list AgentService :=
  omap (λ '(id, s), if bool_decide (Service_ID s = id) then Some (listing s) else None)
    (map_to_list m).

#[export] Instance registry_api : ConsulAPI registry := {|
  now := λ _, 7%Z;
  NewClient := λ _, None;
  Self := λ _ w, (None, w);
  Members := λ _ w, (inl ["h"], w);
  Services := λ _ w, (Some (list_services w), w);
  ServiceRegister := λ _ s w, (None, <[Service_ID s := s]> w);
  ServiceDeregister := λ _ id w, (None, delete id w);
  CheckRegister := λ _ _ w, (None, w);
  CheckDeregister := λ _ _ w, (None, w) |}.

Lemma elem_of_list_services v m :
  v ∈ list_services m ↔ m !! AS_ID v = Some (registration_of v).
Proof.
  unfold list_services. rewrite list_elem_of_omap. split.
  - intros ([id s] & Hs%elem_of_map_to_list & Hv). case_bool_decide as Hid; [|done].
    injection Hv as <-. subst id. change (AS_ID (listing s)) with (Service_ID s).
    etransitivity; [exact Hs|]. by destruct s.
  - intros Hm. exists (AS_ID v, registration_of v). split; [by apply elem_of_map_to_list|].
    rewrite bool_decide_true by done. by destruct v.
Qed.

#[export] Instance registry_laws : ConsulLaws registry.
Proof.
  refine {| registered := λ _ w, w |}; cbn; [by intros ???? [= <-]..|].
  intros c w services w' [= <- <-]. split; [done|]. intros v. apply elem_of_list_services.
Defined.

Definition svc (id addr : string) : AgentServiceRegistration :=
  {| Service_ID := id; Service_Name := "n"; Service_Tags := ["t"]; Service_Port := 80;
     Service_Address := addr |}.

Definition client : ClientConfig :=
  {| cc_Address := "a:1"; cc_Datacenter := ""; cc_Scheme := "http"; cc_Token := "";
     cc_Timeout := 5 |}.

(** An agent that has cached the service [s]. *)
Definition having_cached (s : AgentServiceRegistration) : agent :=
  {| ConsulAgent := Some client; Healthy := true; count := 1;
     recordCache := {| Records := Some {[Service_ID s := service_rec "" "x" s]}; Updated := 0 |} |}.

Definition set_of (s : AgentServiceRegistration) : list rec := [service_rec "" "x" s].

Lemma having_cached_ok s : cache_ok (recordCache (having_cached s)).
Proof. apply map_Forall_singleton. left. apply service_rec_wf. Qed.
Lemma having_cached_iff s t : cached (having_cached s) t ↔ t = s.
Proof.
  split.
  - intros (id & r & Hr & Ht). cbn in Hr. apply lookup_singleton_Some in Hr as [_ <-]. by injection Ht.
  - intros ->. exists (Service_ID s), (service_rec "" "x" s). split; [apply lookup_singleton_eq|done].
Qed.
Lemma set_of_wf s : Forall wf_rec (set_of s).
Proof. apply Forall_singleton, service_rec_wf. Qed.
Lemma set_of_iff s t : wanted (set_of s) t ↔ t = s.
Proof.
  split; [|intros ->; by exists (service_rec "" "x" s); split; [left|]].
  intros (r & ->%list_elem_of_singleton & Ht). by injection Ht.
Qed.
Lemma set_of_unique s : unique_ids (set_of s).
Proof. intros t t' ->%set_of_iff ->%set_of_iff. done. Qed.

(** The update of [having_cached (svc "i" "1")] with a set of another service. *)
Definition after_other : registry := {["j" := svc "j" "2"]}.

Lemma update_other : ∃ a' ts,
  agent_update (set_of (svc "j" "2")) (having_cached (svc "i" "1"))
    ({["i" := svc "i" "1"]} : registry) = Ret (a', after_other, ts) ∧ Healthy a' = true.
Proof. eexists _, _. split; [vm_compute; reflexivity|done]. Defined.

Lemma agent_update_registry_witness :
  (after_other : registry) !! "i" = None ∧ after_other !! "j" = Some (svc "j" "2").
Proof.
  destruct update_other as (a' & ts & Hup & Hh).
  destruct (agent_update_registry client _ _ _ _ _ _ Hup Hh eq_refl (having_cached_ok _)
    (set_of_wf _) (set_of_unique _)) as (Hst & Hadd & _). split.
  - apply Hst. exists (svc "i" "1"). split_and!; [by apply having_cached_iff|done|].
    by intros s ->%set_of_iff.
  - apply (Hadd (svc "j" "2")).
    + split; [by apply set_of_iff|]. by intros s ->%having_cached_iff.
    + by intros (s & ->%having_cached_iff & Hid & _).
Defined.

Lemma changed_service_lost_witness :
  ∃ a' (w' : registry) ts,
    agent_update (set_of (svc "i" "2")) (having_cached (svc "i" "1"))
      ({["i" := svc "i" "1"]} : registry) = Ret (a', w', ts)
    ∧ w' !! "i" = None.
Proof.
  eexists _, _, _. split; [vm_compute; reflexivity|].
  refine (changed_service_lost client (set_of (svc "i" "2")) (having_cached (svc "i" "1"))
    {["i" := svc "i" "1"]} _ _ _ (svc "i" "1") (svc "i" "2") _ _ eq_refl (having_cached_ok _)
    (set_of_wf _) (set_of_unique _) _ _ eq_refl eq_refl).
  - vm_compute. reflexivity.
  - done.
  - by apply having_cached_iff.
  - by apply set_of_iff.
Defined.

Definition config : Consul.Config :=
  {| Consul.Address := "a:1"; Consul.CacheOnly := false; Consul.CacheRefresh := 3;
     Consul.Datacenter := ""; Consul.Scheme := "http"; Consul.ServicePrefix := "p";
     Consul.SkipInactiveFrameworks := false; Consul.Token := "" |}.

Definition one_service : registry := {["p:x" := svc "p:x" "1"]}.

Definition refreshed : go (option agent * registry) :=
  Eval vm_compute in agent_refresh config "a" "1" agent0 one_service.

Lemma refreshed_eq : agent_refresh config "a" "1" agent0 one_service = refreshed.
Proof. vm_compute. reflexivity. Qed.

Lemma reconnect_in_step_witness : ∃ a1 (w1 : registry),
  agent_refresh config "a" "1" agent0 one_service = Ret (Some a1, w1)
  ∧ Healthy a1 = true ∧ (∀ s, cached a1 s → w1 !! Service_ID s = Some s)
  ∧ ∀ s, w1 !! Service_ID s = Some s → owned "p" (Service_ID s) → cached a1 s.
Proof.
  eexists _, _. split; [exact refreshed_eq|].
  edestruct (proj2 (reconnect_in_step config "a" "1" agent0 one_service eq_refl))
    as (Hh & _ & c & _ & _ & Hall & Hback); [done|exact refreshed_eq|].
  split; [exact Hh|]. split; [exact Hall|]. apply Hback; [done|]. intros w0. by eexists.
Defined.

(** A cluster with one slave and one running task, and an agent on the slave. *)
Definition slave1 : Slave :=
  {| Slave_ID := "s"; Slave_Hostname := "n.x";
     Slave_PID := Some {| UPID_ID := "i"; UPID_Host := "h"; UPID_Port := "5" |};
     Attrs := {| DC := ""; Master := ""; Rack := "" |}; Slave_Active := true |}.

Definition task1 : Task :=
  {| FrameworkID := "f"; Task_ID := "t"; Task_Name := "web"; SlaveID := "s";
     Task_State := "TASK_RUNNING"; Statuses := []; Task_Resources := {| PortRanges := "" |};
     Task_DiscoveryInfo := {| Visibilty := ""; DiscoveryInfo_Version := "";
       DiscoveryInfo_Name := ""; Location := ""; Environment := "";
       DiscoveryPorts := []; DiscoveryInfo_Labels := [] |};
     SlaveIP := ""; Task_Labels := [] |}.

Definition cluster : State :=
  {| Frameworks := [{| Tasks := [task1]; Framework_PID := None; Framework_Name := "m";
                       Framework_Hostname := "h"; Framework_Active := true |}];
     Slaves := [slave1]; Leader := "m@l:5" |}.

Definition no_checks (_ : list ascii) (c : AgentCheckRegistration) : AgentCheckRegistration * error :=
  (c, None).

Definition sends : go (gmap string (string * list rec)) :=
  Eval vm_compute in Reload_consul no_checks {["h"]} config [] [] cluster.

Lemma sends_eq : Reload_consul no_checks {["h"]} config [] [] cluster = sends.
Proof. vm_compute. reflexivity. Qed.

Lemma Reload_routes_witness : ∃ m,
  Reload_consul no_checks {["h"]} config [] [] cluster = Ret m
  ∧ ∃ mesos infos, generateMesosRecords cluster "p" = Ret (mesos, infos)
                   ∧ rec_SlaveID <$> mesos = ["s"].
Proof.
  eexists. split; [exact sends_eq|].
  edestruct (Reload_routes no_checks {["h"]} config [] [] cluster) as (mesos & infos & _ & Hg & Hm & _);
    [exact sends_eq|by apply NoDup_singleton|].
  by exists mesos, infos.
Defined.

(** An agent without services. *)
Definition quiet_api : ConsulAPI unit := {|
  now := λ _, 0%Z; NewClient := λ _, None; Self := λ _ w, (None, w);
  Members := λ _ w, (inl [], w); Services := λ _ w, (Some [], w); ServiceRegister := λ _ _ w, (None, w);
  ServiceDeregister := λ _ _ w, (None, w); CheckRegister := λ _ _ w, (None, w);
  CheckDeregister := λ _ _ w, (None, w) |}.
End DemoConsul.
