(* ===== verification/ConsulReload.v ===== *)
(** * When the reload of the consul resolver returns

    The goroutines of a reload index splits, follow pointers and end the
    process for a malformed source of addresses.  [reloadable] says when none
    of this happens. *)

From S2P Require Import Prelude GoStrings GoNet Labels State Config Store Consul ConsulProps ConsulDemo.

(** A source that [getAddress] can read: a label source has one name. *)
Definition readable_source (src : string) : Prop :=
  match Split src ":" with key :: args => key = "label" → length args = 1%nat | [] => False end.

(** The leader has an address with a port, every slave has a PID, and the
    running tasks of the frameworks that are looked at have port ranges that
    can be read. *)
Record reloadable (IPSources : list string) (skip : bool) (st : State) : Prop := {
  rl_leader : ∃ addr host port, Split (Leader st) "@" !! 1%nat = Some addr
    ∧ Split addr ":" !! 0%nat = Some host ∧ Split addr ":" !! 1%nat = Some port;
  rl_slaves : ∀ s, s ∈ Slaves st → is_Some (Slave_PID s);
  rl_sources : Forall readable_source IPSources;
  rl_ports : ∀ f t, f ∈ Frameworks st → skipped skip f = false → t ∈ Tasks f →
    Task_State t = "TASK_RUNNING" → returns (Ports (Task_Resources t)) }.

(** [ret_bind H] runs the first step of a bind that is known to return. *)
Ltac ret_bind H := let x := fresh "x" in let E := fresh "E" in destruct H as [x E]; rewrite E; cbn [mbind go_bind].

Lemma getAddress_returns task srcs slaveip :
  Forall readable_source srcs → returns (getAddress task srcs slaveip).
Proof.
  induction 1 as [|src srcs Hs _ IH]; [by eexists|]. cbn [getAddress].
  assert (∀ a, returns (if bool_decide (a = "") then getAddress task srcs slaveip else Ret a)) as Hnext.
  { intros a. case_bool_decide; [exact IH|by eexists]. }
  unfold readable_source in Hs. destruct (Split src ":") as [|key args]; [done|]. cbn -[elem_of].
  case_bool_decide; [apply Hnext|]. case_bool_decide as Hl.
  - specialize (Hs Hl). destruct args as [|name [|]]; [done| |done].
    destruct (_ && _); [by eexists|apply Hnext].
  - case_bool_decide; apply Hnext.
Qed.

Lemma task_sources_readable IPSources n :
  Forall readable_source IPSources →
  Forall readable_source (replicate n "" ++ IPSources ++ ["fallback"]).
Proof.
  intros Hs. rewrite !Forall_app. split_and!; [|done|by repeat constructor].
  apply Forall_replicate. done.
Qed.

Section reload.
Context `{UnicodeTables}.
Context (unmarshal : list ascii → AgentCheckRegistration → AgentCheckRegistration * error).

(** The loops that collect records return when their bodies do. *)
Lemma foldM_body_ret {A B} (f : B → A → go B) l b :
  (∀ b x, x ∈ l → returns (f b x)) → returns (foldM f l b).
Proof.
  intros Hf. destruct (foldM_returns (λ _, True) f l b) as (b' & Hb & _); [done| |by exists b'].
  intros b1 x Hx _. destruct (Hf b1 x Hx) as [b2 Hb2]. by exists b2.
Qed.

Lemma index_first_ret s sep : returns (index (Split s sep) 0).
Proof.
  unfold index. pose proof (split_fuel_nonempty (String.length s) sep s) as Hne.
  unfold Split. destruct (split_fuel _ _ _) as [|f fs]; [done|]. by exists f.
Qed.

Lemma mesos_record_ret prefix leadHost slave :
  is_Some (Slave_PID slave) →
  ∃ r info, mesos_record prefix leadHost slave = Ret (r, info) ∧ is_Some (Service r).
Proof.
  intros [pid Hp]. unfold mesos_record. rewrite Hp.
  destruct (index_first_ret (Slave_Hostname slave) ".") as [h Hh]. rewrite Hh. cbn.
  eexists _, _. split; [done|]. by eexists.
Qed.

Lemma generateMesosRecords_ret IPSources skip st prefix :
  reloadable IPSources skip st →
  ∃ recs infos, generateMesosRecords st prefix = Ret (recs, infos)
    ∧ Forall (λ r, is_Some (Service r)) recs.
Proof.
  intros [(addr & host & port & Ha & Hh & Hp) Hs _ _]. unfold generateMesosRecords, index.
  rewrite Ha. cbn [mbind go_bind]. rewrite Hh. cbn [mbind go_bind]. rewrite Hp. cbn [mbind go_bind].
  destruct (foldM_returns (λ p : list rec * gmap string SlaveInfo, Forall (λ r, is_Some (Service r)) p.1)
    (λ '((recs, taskSlaves) : list rec * gmap string SlaveInfo) slave,
      '(r, info) ← mesos_record prefix host slave;
      Ret (recs ++ [r], <[Slave_ID slave := info]> taskSlaves)) (Slaves st) ([], ∅))
    as ([recs infos] & Hf & Hrecs); [constructor| |by exists recs, infos].
  intros [recs infos] slave Hsl Hrecs.
  destruct (mesos_record_ret prefix host slave (Hs _ Hsl)) as (r & info & -> & Hr).
  eexists (_, _). split; [done|]. cbn in *. by apply Forall_snoc.
Qed.

Lemma generateTaskRecords_ret IPSources skip st prefix infos kvPairs :
  reloadable IPSources skip st →
  returns (generateTaskRecords unmarshal st prefix IPSources infos kvPairs skip).
Proof.
  intros [_ _ Hsrc Hports]. unfold generateTaskRecords. apply foldM_body_ret. intros recs f Hf.
  destruct (skipped skip f) eqn:Hsk; [by eexists|]. apply foldM_body_ret. intros recs' t Ht.
  unfold task_records. case_bool_decide as Hrun; cbn [negb]; [|by eexists].
  ret_bind (getAddress_returns t _ (match infos !! SlaveID t with Some i => Info_Address i | None => "" end)
    (task_sources_readable IPSources (length IPSources + 1) Hsrc)).
  case_bool_decide; [by eexists|]. ret_bind (Hports f t Hf Hsk Ht Hrun). by eexists.
Qed.

(** C26: the reload of the consul resolver returns, without a panic and without
    ending the process, for every state whose leader has an address with a
    port, whose slaves have PIDs and whose running tasks have readable port
    ranges, when every label source of addresses names one label. *)
Theorem Reload_consul_returns Agents config IPSources kvPairs st :
  reloadable IPSources (Consul.SkipInactiveFrameworks config) st →
  returns (Reload_consul unmarshal Agents config IPSources kvPairs st).
Proof.
  intros Hr. unfold Reload_consul.
  destruct (generateMesosRecords_ret _ _ _ (Consul.ServicePrefix config) Hr) as (recs & infos & -> & Hrecs).
  cbn [mbind go_bind]. ret_bind (generateTaskRecords_ret _ _ _ (Consul.ServicePrefix config) infos kvPairs Hr).
  unfold Dispatch. ret_bind (foldM_body_ret (dispatch_mesos Agents) recs
    {| consulAgent := ∅; recs_of := ∅; slaveLookup := ∅ |}
    (λ ds r Hin, match proj1 (Forall_forall _ _) Hrecs r Hin with
                 | ex_intro _ s Hs => ltac:(unfold dispatch_mesos; rewrite Hs; by eexists) end)).
  by eexists.
Qed.
End reload.

Module DemoReload.
Import DemoConsul.

Lemma Reload_consul_returns_witness :
  returns (Reload_consul no_checks {["h"]} config ["netinfo"; "label:ip"] [] cluster).
Proof.
  apply Reload_consul_returns. split.
  - by exists "l:5", "l", "5".
  - intros s ->%list_elem_of_singleton. by eexists.
  - repeat constructor; by vm_compute.
  - intros f t ->%list_elem_of_singleton _ ->%list_elem_of_singleton _. vm_compute. by eexists.
Defined.
End DemoReload.
