(* ===== verification/ConsulSystem.v ===== *)
(** * Reloads and the loop of an agent together

    [Dispatch] sends every record set from a goroutine of its own, so the sets
    of several reloads wait side by side until the loop of the agent receives
    one of them.  The system of the reloads and the loop is a transition
    system; its runs are runs of the loop. *)

From S2P Require Import Prelude GoStrings GoNet State Store Consul ConsulProps ConsulAgent.
From S2P Require Import ConsulSync ConsulLoop ConsulDemo.

Section system.
Context {W : Type} `{ConsulAPI W, MapOrder, UnicodeTables}.
Context (unmarshal : list ascii → AgentCheckRegistration → AgentCheckRegistration * error).
Context (config : Consul.Config) (address port : string) (outside : W → W → Prop).

(** The record sets that wait to be received, and the loop. *)
Record system := { pending : list (list rec); loop : loop_state (W := W) }.

Definition set_loop (s : system) (l : loop_state) : system :=
  {| pending := pending s; loop := l |}.

Abbreviation internal := (agent_step config address port (λ _, False) outside).

(** [case recordSet := <-records] *)
Definition receive (rs : list rec) (a : agent) (w : W) : loop_state :=
  match agent_update rs a w with
  | Ret (a', w', _) => Top a' w'
  | Panic c => Crashed c
  end.

(** A reload adds a set; a step of the loop that receives takes any of those
    that wait; the other steps of the loop do not touch them. *)
Inductive sys_step : system → system → Prop :=
| sys_reload s rs :
    reloaded unmarshal config rs →
    sys_step s {| pending := pending s ++ [rs]; loop := loop s |}
| sys_receive s rs rest a w :
    pending s ≡ₚ rs :: rest → loop s = Select a w →
    sys_step s {| pending := rest; loop := receive rs a w |}
| sys_internal s l :
    internal (loop s) l → sys_step s (set_loop s l).

Lemma receive_step (sent : list rec → Prop) rs a w :
  sent rs → agent_step config address port sent outside (Select a w) (receive rs a w).
Proof.
  intros Hs. unfold receive. destruct (agent_update rs a w) as [[[a' w'] ts]|c] eqn:E.
  - by eapply step_receive.
  - by eapply step_receive_crash.
Qed.

(** A step of the loop is one for every larger set of record sets. *)
Lemma agent_step_mono (sent sent' : list rec → Prop) st st' :
  (∀ rs, sent rs → sent' rs) →
  agent_step config address port sent outside st st' →
  agent_step config address port sent' outside st st'.
Proof. intros Hs Hst. destruct Hst; econstructor; eauto. Qed.

Definition sys_start (w : W) : system := {| pending := []; loop := Top agent0 w |}.

(** The run of the loop in a run of the system: it receives only sets that
    reloads have sent. *)
Lemma system_refines_loop w s :
  rtc sys_step (sys_start w) s →
  rtc (agent_step config address port (reloaded unmarshal config) outside) (Top agent0 w) (loop s)
  ∧ Forall (reloaded unmarshal config) (pending s).
Proof.
  intros Hrun. apply (rtc_ind_r (λ s, rtc (agent_step config address port
    (reloaded unmarshal config) outside) (Top agent0 w) (loop s)
    ∧ Forall (reloaded unmarshal config) (pending s)) (sys_start w)) in Hrun; [done| |].
  { split; [apply rtc_refl|constructor]. }
  clear s Hrun. intros s s' _ Hstep [IH Hp].
  destruct Hstep as [s rs Hrs|s rs rest a w1 Hperm Hl|s l Hst]; cbn [loop pending set_loop].
  - split; [done|]. by apply Forall_snoc.
  - rewrite Hperm, Forall_cons in Hp. destruct Hp as [Hrs Hrest]. split; [|done].
    eapply rtc_r; [exact IH|]. rewrite Hl. by apply receive_step.
  - split; [|done]. eapply rtc_r; [exact IH|]. by eapply agent_step_mono; [|exact Hst].
Qed.

(** C22: the loop of an agent keeps going and its cache stays well formed,
    however many reloads send it record sets and in whatever order it receives
    them, however calls fail and whatever happens to the agent in between, for
    a refresh period that is not zero.  Only one thing can crash it: a service
    of the agent whose ID is the bare prefix of the resolver. *)
Theorem system_safe w s :
  Consul.CacheRefresh config ≠ 0%Z →
  rtc sys_step (sys_start w) s →
  loop_ok (loop s)
  ∨ (∃ c, loop s = Crashed c)
    ∧ ∃ c (w0 : W) v, v ∈ default [] (Services c w0).1 ∧ AS_ID v = Consul.ServicePrefix config.
Proof.
  intros Hn [Hrun _]%system_refines_loop. by eapply loop_safe.
Qed.

(** Record sets can overtake each other: with two sets waiting the newer one
    may be applied first, so that the agent ends up with the older one. *)
Theorem older_set_may_win s a w old new a1 w1 ts1 a2 w2 ts2 :
  loop s = Select a w → pending s = [old; new] →
  Consul.CacheRefresh config ≠ 0%Z →
  Z.rem (count a1) (Consul.CacheRefresh config) ≠ 0%Z →
  agent_update new a w = Ret (a1, w1, ts1) → agent_update old a1 w1 = Ret (a2, w2, ts2) →
  rtc sys_step s {| pending := []; loop := Top a2 w2 |}.
Proof.
  intros Hl Hp Hn Hrem H1' H2'.
  eapply rtc_l; [apply (sys_receive s new [old] a w); [|done]|].
  - rewrite Hp. apply Permutation_swap.
  - unfold receive. rewrite H1'. eapply rtc_l; [apply (sys_internal _ (Select a1 w1))|].
    + cbn [loop]. apply step_ready. unfold agent_refresh.
      destruct (Z.eqb_spec (Consul.CacheRefresh config) 0); [done|].
      destruct (Z.eqb_spec (Z.rem (count a1) (Consul.CacheRefresh config)) 0); done.
    + apply rtc_once. pose proof (sys_receive (set_loop {| pending := [old]; loop := Top a1 w1 |}
        (Select a1 w1)) old [] a1 w1) as Hr. unfold receive in Hr. rewrite H2' in Hr. by apply Hr.
Qed.
End system.

Module DemoSystem.
Import DemoConsul.

Abbreviation demo_step :=
  (sys_step (H := quiet_api) no_checks config "a" "1" (λ _ _, True)).

(** The set that a reload of [cluster] sends, and the agent that has applied
    it. *)
Definition sent_set : list rec :=
  Eval vm_compute in
    match sends with Ret m => match m !! "s" with Some (_, rs) => rs | None => [] end | Panic _ => [] end.

Lemma sent_set_reloaded : reloaded no_checks config sent_set.
Proof.
  pose proof sends_eq as Hs. unfold sends in Hs.
  match type of Hs with _ = Ret ?m => exists {["h"]}, [], [], cluster, m, "s", "h" end.
  split; [exact Hs|]. vm_compute. reflexivity.
Qed.

Definition connected : agent :=
  Eval vm_compute in
    match agent_refresh (H := quiet_api) config "a" "1" agent0 () with
    | Ret (Some a, _) => a | _ => agent0 end.

Definition updated : loop_state (W := unit) := receive (H := quiet_api) sent_set connected ().

(** A record set is sent, the loop connects and receives it. *)
Lemma system_safe_witness :
  rtc demo_step (sys_start ()) {| pending := []; loop := updated |}
  ∧ ∃ a, updated = Top a () ∧ agent_ok a ∧ dom (entries (recordCache a)) = {["p:s"; "p:s:t:0"]}.
Proof.
  assert (rtc demo_step (sys_start ()) {| pending := []; loop := updated |}) as Hrun.
  { eapply rtc_l; [apply (sys_reload (H := quiet_api)), sent_set_reloaded|].
    eapply rtc_l; [apply (sys_internal (H := quiet_api) _ _ _ _ _ _ (Select connected ())),
      (step_ready (H := quiet_api)); vm_compute; reflexivity|].
    apply rtc_once. by apply (sys_receive (H := quiet_api) _ _ _ _ _ _ sent_set [] connected ()). }
  split; [exact Hrun|].
  assert (∃ a, updated = Top a () ∧ dom (entries (recordCache a)) = {["p:s"; "p:s:t:0"]}) as (a & Ha & Hd)
    by (eexists; split; vm_compute; reflexivity).
  exists a. split; [exact Ha|]. split; [|exact Hd].
  destruct (system_safe (H := quiet_api) no_checks config "a" "1" _ () _ ltac:(done) Hrun)
    as [Hok|[_ (c & w0 & v & Hv & _)]].
  - cbn in Hok. rewrite Ha in Hok. exact Hok.
  - by apply elem_of_nil in Hv.
Defined.
End DemoSystem.
