(* ===== verification/ConsulTasks.v ===== *)
(** * From a running task to its consul services

    The services that a reload sends for the tasks of a slave, that their IDs
    tell them apart, and that an update registers them. *)

From S2P Require Import Prelude GoStrings GoNet Labels State Store Consul ConsulProps ConsulAgent.
From S2P Require Import ConsulSync ConsulLoop ConsulDemo.

(** ** Loops that append *)

Lemma foldM_append {A B} (g : A → go (list B)) l acc acc' y :
  foldM (λ acc x, ys ← g x; Ret (acc ++ ys)) l acc = Ret acc' →
  y ∈ acc' ↔ y ∈ acc ∨ ∃ x ys, x ∈ l ∧ g x = Ret ys ∧ y ∈ ys.
Proof.
  revert acc. induction l as [|x l IH]; intros acc Hf; cbn in Hf.
  - apply Ret_inj in Hf as <-. split; [by left|]. intros [?|(? & ? & ?%elem_of_nil & _)]; done.
  - go_inv Hf. go_inv E. apply Ret_inj in E as <-. rewrite (IH _ Hf), elem_of_app.
    setoid_rewrite elem_of_cons. split.
    + intros [[?|?]|(z & ys & ? & ? & ?)]; [by left|right; exists x; eauto|right; exists z; eauto].
    + intros [?|(z & ys & [->|?] & Hg & ?)]; [by left; left| |right; eauto].
      left. right. congruence.
Qed.

(** A loop over an inner loop that is skipped for some elements. *)
Lemma foldM_append2 {A B C} (skip : A → bool) (inner : A → list B) (g : B → go (list C)) l acc acc' y :
  foldM (λ acc x, if skip x then Ret acc
           else foldM (λ acc z, ys ← g z; Ret (acc ++ ys)) (inner x) acc) l acc = Ret acc' →
  y ∈ acc' ↔
  y ∈ acc ∨ ∃ x z ys, x ∈ l ∧ skip x = false ∧ z ∈ inner x ∧ g z = Ret ys ∧ y ∈ ys.
Proof.
  revert acc. induction l as [|x l IH]; intros acc Hf; cbn in Hf.
  - apply Ret_inj in Hf as <-. split; [by left|]. intros [?|(? & ? & ? & ?%elem_of_nil & _)]; done.
  - go_inv Hf. rename r into acc1. rewrite (IH _ Hf). setoid_rewrite elem_of_cons.
    destruct (skip x) eqn:Hx.
    + apply Ret_inj in E as <-. split.
      * intros [?|(x' & z & ys & ? & ?)]; [by left|right; exists x', z, ys; auto].
      * intros [?|(x' & z & ys & [->|?] & ? & ?)]; [by left|congruence|right; eauto 10].
    + rewrite (foldM_append _ _ _ _ y E). split.
      * intros [[?|(z & ys & ? & ? & ?)]|(x' & z & ys & ? & ?)];
          [by left|right; exists x, z, ys; auto|right; exists x', z, ys; auto].
      * intros [?|(x' & z & ys & [->|?] & ? & ? & ? & ?)];
          [by left; left|left; right; eauto|right; eauto 10].
Qed.

(** When the loops return, so do their bodies. *)
Lemma foldM_body_returns {A B} (f : B → A → go B) l acc r x :
  foldM f l acc = Ret r → x ∈ l → ∃ acc1 acc2, f acc1 x = Ret acc2.
Proof.
  revert acc. induction l as [|y l IH]; intros acc Hf; [by intros ?%elem_of_nil|].
  cbn in Hf. go_inv Hf. intros [->|Hx]%elem_of_cons; [eauto|by eapply IH].
Qed.

Lemma foldM_returns_inner {A B C} (skip : A → bool) (inner : A → list B) (g : B → go (list C)) l acc
    acc' x z :
  foldM (λ acc x, if skip x then Ret acc
           else foldM (λ acc z, ys ← g z; Ret (acc ++ ys)) (inner x) acc) l acc = Ret acc' →
  x ∈ l → skip x = false → z ∈ inner x → ∃ ys, g z = Ret ys.
Proof.
  intros Hf Hx Hs Hz. destruct (foldM_body_returns _ _ _ _ _ Hf Hx) as (a1 & a2 & Hb).
  rewrite Hs in Hb. destruct (foldM_body_returns _ _ _ _ _ Hb Hz) as (b1 & b2 & Hb').
  go_inv Hb'. eauto.
Qed.

(** ** The services of a task *)

(** The ports a task is registered with. *)
Definition service_ports (ports : list string) : list string :=
  match ports with [] => ["0"] | _ => ports end.

(** The sources of addresses that are tried. *)
Definition task_sources (IPSources : list string) : list string :=
  replicate (length IPSources + 1) "" ++ IPSources ++ ["fallback"].

Definition slave_address (infos : gmap string SlaveInfo) (t : Task) : string :=
  match infos !! SlaveID t with Some i => Info_Address i | None => "" end.
Definition slave_tags (infos : gmap string SlaveInfo) (t : Task) : list string :=
  match infos !! SlaveID t with Some i => [Info_Hostname i] | None => [] end.

Section tasks.
Context `{UnicodeTables}.
Context (unmarshal : list ascii → AgentCheckRegistration → AgentCheckRegistration * error).
Context (prefix : string) (IPSources : list string) (infos : gmap string SlaveInfo).

Definition task_id (t : Task) (port : string) : string :=
  Join [prefix; SlaveID t; Task_ID t; port] ":".

Definition task_service (t : Task) (address port : string) : AgentServiceRegistration :=
  CreateService (task_id t port) (Task_Name t) address port (slave_tags infos t).

(** [t] is registered at [address] with [ports]. *)
Record registers (t : Task) (address : string) (ports : list string) : Prop := {
  reg_running : Task_State t = "TASK_RUNNING";
  reg_address : getAddress t (task_sources IPSources) (slave_address infos t) = Ret address;
  reg_some : address ≠ "";
  reg_ports : Ports (Task_Resources t) = Ret ports }.

Lemma check_records_service kvs task id address port r :
  r ∈ check_records unmarshal kvs task id address port → Service r = None ∧ rec_SlaveID r = SlaveID task.
Proof.
  revert r. apply Forall_forall. apply foldl_Forall; [constructor|]. intros acc l Hacc.
  case_bool_decide; cbn [negb]; [|done]. apply foldl_Forall; [done|]. intros acc' e Hacc'.
  destruct (createHealthChecks _ _ _ _ _ _) as [hc [err|]]; [done|]. by apply Forall_snoc.
Qed.

(** The services among the records of one task. *)
Lemma task_records_services kvs t trs r s :
  task_records unmarshal prefix (task_sources IPSources) infos kvs t = Ret trs →
  r ∈ trs ∧ Service r = Some s ↔
  ∃ address ports port, registers t address ports ∧ port ∈ service_ports ports
    ∧ r = service_rec address (SlaveID t) s ∧ s = task_service t address port.
Proof.
  unfold task_records. intros Ht. case_bool_decide as Hrun; cbn [negb] in Ht.
  2: { apply Ret_inj in Ht as <-. split; [by intros [?%elem_of_nil _]|].
       intros (? & ? & ? & [Hr _ _ _] & _). done. }
  go_inv Ht. rename r0 into address. change (getAddress t (task_sources IPSources)
    (slave_address infos t) = Ret address) in E. case_bool_decide as Ha.
  { apply Ret_inj in Ht as <-. split; [by intros [?%elem_of_nil _]|].
    intros (a & ? & ? & [_ Ha' Hne _] & _). rewrite E in Ha'. apply Ret_inj in Ha'. congruence. }
  go_inv Ht. rename r0 into ports. apply Ret_inj in Ht as <-.
  change (match ports with [] => ["0"] | _ => ports end) with (service_ports ports).
  assert (∀ l, r ∈ foldl (λ recs port, recs ++ [service_rec address (SlaveID t)
        (CreateService (Join [prefix; SlaveID t; Task_ID t; port] ":") (Task_Name t) address port
          (slave_tags infos t))] ++ check_records unmarshal kvs t
        (Join [prefix; SlaveID t; Task_ID t; port] ":") address port) [] l
      ∧ Service r = Some s ↔
      ∃ port, port ∈ l ∧ r = service_rec address (SlaveID t) s ∧ s = task_service t address port)
    as Hl.
  { intros l. induction l as [|p l IH] using rev_ind.
    { split; [by intros [?%elem_of_nil _]|by intros (? & ?%elem_of_nil & _)]. }
    rewrite foldl_snoc, !elem_of_app, list_elem_of_singleton. setoid_rewrite elem_of_app.
    setoid_rewrite list_elem_of_singleton. split.
    - intros [[Hr|[->|Hr]] Hs].
      + destruct (proj1 IH (conj Hr Hs)) as (p' & ? & ?). exists p'. auto.
      + injection Hs as <-. exists p. auto.
      + apply check_records_service in Hr as [Hr _]. congruence.
    - intros (p' & [Hp| ->] & Hr & Hs).
      + destruct (proj2 IH) as [? ?]; [eauto|]. auto.
      + split; [|by rewrite Hr]. right. left. by rewrite Hr, Hs. }
  etransitivity; [apply Hl|]. split.
  - intros (port & Hp & Hr & Hs). exists address, ports, port. by repeat split.
  - intros (a & ps & port & [_ Ha' _ Hps] & Hp & Hr & Hs). rewrite E in Ha'. rewrite E0 in Hps.
    apply Ret_inj in Ha' as <-. apply Ret_inj in Hps as <-. by exists port.
Qed.

(** The services among the records of all tasks. *)
Lemma generateTaskRecords_services kvs skip st tasks s :
  generateTaskRecords unmarshal st prefix IPSources infos kvs skip = Ret tasks →
  ∀ id, wanted (filter (λ r, rec_SlaveID r = id) tasks) s ↔
  ∃ f t address ports port, f ∈ Frameworks st ∧ skipped skip f = false ∧ t ∈ Tasks f
    ∧ SlaveID t = id ∧ registers t address ports ∧ port ∈ service_ports ports
    ∧ s = task_service t address port.
Proof.
  unfold generateTaskRecords. intros Hg id. unfold wanted. setoid_rewrite list_elem_of_filter.
  split.
  - intros (r & [Hid Hr] & Hs).
    apply (foldM_append2 _ _ _ _ _ _ r Hg) in Hr as [?%elem_of_nil|(f & t & trs & ? & ? & ? & Ht & Hr)];
      [done|].
    destruct (proj1 (task_records_services _ _ _ r s Ht) (conj Hr Hs)) as (a & ps & p & ? & ? & -> & ->).
    by exists f, t, a, ps, p.
  - intros (f & t & a & ps & p & Hf & Hsk & Ht & <- & Hreg & Hp & ->).
    exists (service_rec a (SlaveID t) (task_service t a p)). split; [split; [done|]|done].
    destruct (foldM_returns_inner _ _ _ _ _ _ f t Hg Hf Hsk Ht) as [trs Htrs].
    apply (foldM_append2 _ _ _ _ _ _ _ Hg). right. exists f, t, trs. split_and!; [done..|].
    apply (proj2 (task_records_services _ _ _ _ (task_service t a p) Htrs)). by exists a, ps, p.
Qed.
End tasks.

(** ** IDs tell services apart *)

Abbreviation colon_free s := (":"%char ∉ bytes s).

Lemma Itoa_colon_free z : colon_free (Itoa z).
Proof. intros [Hd|Hd]%Itoa_bytes; by vm_compute in Hd. Qed.

Lemma Ports_colon_free r ports port :
  Ports r = Ret ports → port ∈ service_ports ports → colon_free port.
Proof.
  intros Hp. assert (Forall (λ p, ∃ z, p = Itoa z) ports) as Hall.
  { unfold Ports in Hp. destruct (_ || _); [by apply Ret_inj in Hp as <-|]. go_inv Hp.
    eapply (foldM_ind (Forall (λ p, ∃ z, p = Itoa z))) in Hp; [done|constructor|].
    intros acc p acc' _ Hacc Hst. go_inv Hst. apply Ret_inj in Hst as <-.
    apply Forall_app. split; [done|]. unfold port_loop in E3.
    destruct (_ <? _)%Z; [by apply Ret_inj in E3 as <-|].
    destruct (_ =? _)%Z; [done|]. apply Ret_inj in E3 as <-.
    apply Forall_fmap, Forall_forall. intros z _. by exists z. }
  unfold service_ports. destruct ports as [|p ps].
  - intros ->%list_elem_of_singleton. set_solver.
  - intros Hin. rewrite Forall_forall in Hall. destruct (Hall _ Hin) as [z ->].
    apply Itoa_colon_free.
Qed.

(** The identifiers of the tasks of a state that are not skipped: no colons,
    and a slave and a task ID are of one task. *)
Record ids_ok (prefix : string) (skip : bool) (st : State) : Prop := {
  ids_prefix : colon_free prefix;
  ids_slaves : Forall (λ s, colon_free (Slave_ID s)) (Slaves st);
  ids_tasks : ∀ f t, f ∈ Frameworks st → skipped skip f = false → t ∈ Tasks f →
    colon_free (SlaveID t) ∧ colon_free (Task_ID t);
  ids_unique : ∀ f f' t t', f ∈ Frameworks st → f' ∈ Frameworks st →
    skipped skip f = false → skipped skip f' = false → t ∈ Tasks f → t' ∈ Tasks f' →
    SlaveID t = SlaveID t' → Task_ID t = Task_ID t' → t = t' }.

Section sent.
Context `{UnicodeTables}.
Context (unmarshal : list ascii → AgentCheckRegistration → AgentCheckRegistration * error).
Context (Agents : gset string) (config : Consul.Config) (IPSources : list string).
Context (kvPairs : list KVPair) (st : State).
Context (mesos : list rec) (infos : gmap string SlaveInfo).

Abbreviation prefix := (Consul.ServicePrefix config).
Abbreviation skip := (Consul.SkipInactiveFrameworks config).

(** The record of a slave has the prefix and the slave in its ID. *)
Lemma generateMesosRecords_service r :
  generateMesosRecords st prefix = Ret (mesos, infos) → r ∈ mesos →
  ∃ s, Service r = Some s ∧ Service_ID s = Join [prefix; rec_SlaveID r] ":".
Proof.
  unfold generateMesosRecords. intros Hg Hr. go_inv Hg. clear E E0 E1.
  eapply (foldM_ind (λ p, Forall (λ r, ∃ s, Service r = Some s
    ∧ Service_ID s = Join [prefix; rec_SlaveID r] ":") p.1)) in Hg; [|constructor|].
  - cbn [fst] in Hg. rewrite Forall_forall in Hg. by apply Hg.
  - intros [recs infos0] sl p _ Hrecs Hst. go_inv Hst. destruct r3 as [r' i].
    apply Ret_inj in Hst as <-. cbn [fst] in *. apply Forall_snoc; [done|].
    unfold mesos_record in E. go_inv E. apply Ret_inj in E as [= <- _]. by eexists.
Qed.

(** The task [t], of a framework that is not skipped, is registered on the
    slave [id] with [port]. *)
Definition runs (id : string) (t : Task) (address port : string) : Prop :=
  ∃ f ports, f ∈ Frameworks st ∧ skipped skip f = false ∧ t ∈ Tasks f ∧ SlaveID t = id
    ∧ registers IPSources infos t address ports ∧ port ∈ service_ports ports.

(** The record set of the slave [id]: a service for the slave and one for
    every port of every task that runs there. *)
Lemma sent_services sends id agent rs :
  Reload_consul unmarshal Agents config IPSources kvPairs st = Ret sends →
  NoDup (Slave_ID <$> Slaves st) → "" ∉ Agents →
  generateMesosRecords st prefix = Ret (mesos, infos) →
  sends !! id = Some (agent, rs) →
  id ∈ Slave_ID <$> Slaves st
  ∧ ∃ sv, Service_ID sv = Join [prefix; id] ":"
      ∧ ∀ s, wanted rs s ↔ s = sv ∨ ∃ t address port,
               runs id t address port ∧ s = task_service prefix infos t address port.
Proof.
  intros Hrel Hnd Hne Hm Hs.
  destruct (Reload_sends _ _ _ _ _ _ _ Hrel Hnd Hne) as (mesos' & infos' & tasks & Hm' & Hids & Ht & Hsd).
  rewrite Hm in Hm'. apply Ret_inj in Hm'.
  injection Hm' as Em Ei. rewrite <-Em in Hids, Hsd. rewrite <-Ei in Ht.
  apply Hsd in Hs as (r & Hr & (Hid & _) & ->).
  destruct (generateMesosRecords_service r Hm Hr) as (sv & Hsv & Hsvid). rewrite Hid in Hsvid.
  split; [rewrite <-Hids, <-Hid; by apply list_elem_of_fmap_2|]. exists sv. split; [done|]. intros s.
  pose proof (generateTaskRecords_services unmarshal _ _ _ _ _ _ _ s Ht id) as Hw.
  unfold wanted in *. setoid_rewrite elem_of_cons. split.
  - intros (r' & [->|Hr'] & Hs'); [left; congruence|right].
    destruct (proj1 Hw (ex_intro _ r' (conj Hr' Hs'))) as (f & t & a & ps & p & ?).
    exists t, a, p. split; [exists f, ps|]; tauto.
  - intros [->|(t & a & p & (f & ps & ?) & Hs')]; [by exists r; auto|].
    destruct (proj2 Hw) as (r' & ? & ?); [exists f, t, a, ps, p; tauto|]. exists r'. auto.
Qed.

Lemma task_id_inj p t port t' port' :
  colon_free p → colon_free (SlaveID t) → colon_free (Task_ID t) → colon_free port →
  colon_free (SlaveID t') → colon_free (Task_ID t') → colon_free port' →
  task_id p t port = task_id p t' port' →
  SlaveID t = SlaveID t' ∧ Task_ID t = Task_ID t' ∧ port = port'.
Proof.
  unfold task_id. intros ??????? E. apply (f_equal (λ s, Split s ":")) in E.
  rewrite !Split_Join in E by (done || (repeat constructor; done)). by injection E.
Qed.

(** The services of a set that is sent have different IDs. *)
Lemma sent_unique sends id agent rs :
  Reload_consul unmarshal Agents config IPSources kvPairs st = Ret sends →
  NoDup (Slave_ID <$> Slaves st) → "" ∉ Agents → ids_ok prefix skip st →
  generateMesosRecords st prefix = Ret (mesos, infos) →
  sends !! id = Some (agent, rs) → unique_ids rs.
Proof.
  intros Hrel Hnd Hne [Hp Hsl Htk Huq] Hm Hs.
  destruct (sent_services _ _ _ _ Hrel Hnd Hne Hm Hs) as ([sl [-> Hin]]%list_elem_of_fmap & sv & Hsv & Hw).
  rewrite Forall_forall in Hsl. pose proof (Hsl _ Hin) as Hslid.
  assert (∀ t a p, runs (Slave_ID sl) t a p →
    colon_free (SlaveID t) ∧ colon_free (Task_ID t) ∧ colon_free p) as Hfree.
  { intros t a p (f & ps & ? & ? & ? & ? & [_ _ _ ?] & ?). destruct (Htk f t) as [? ?]; [done..|].
    split_and!; [done..|by eapply Ports_colon_free]. }
  assert (∀ t a p, runs (Slave_ID sl) t a p → Service_ID sv ≠ task_id prefix t p) as Hdiff.
  { intros t a p Ht. destruct (Hfree _ _ _ Ht) as (? & ? & ?). rewrite Hsv. unfold task_id.
    intros E. apply (f_equal (λ s, Split s ":")) in E.
    rewrite !Split_Join in E by (done || (repeat constructor; done)). done. }
  intros s s' [->|(t & a & p & Ht & ->)]%Hw [->|(t' & a' & p' & Ht' & ->)]%Hw E; [done|..].
  - by destruct (Hdiff _ _ _ Ht').
  - by destruct (Hdiff _ _ _ Ht).
  - destruct (Hfree _ _ _ Ht) as (? & ? & ?), (Hfree _ _ _ Ht') as (? & ? & ?).
    destruct (task_id_inj prefix t p t' p') as (Es & Et & <-); [done..|].
    destruct Ht as (f & ps & ? & ? & ? & _ & [_ Ha _ _] & _).
    destruct Ht' as (f' & ps' & ? & ? & ? & _ & [_ Ha' _ _] & _).
    assert (t = t') as <- by (by apply (Huq f f')). rewrite Ha in Ha'.
    by apply Ret_inj in Ha' as <-.
Qed.
End sent.

(** ** From the cluster to the agent *)

Section registered.
Context {W : Type} `{ConsulLaws W} `{MapOrder, UnicodeTables}.
Context (unmarshal : list ascii → AgentCheckRegistration → AgentCheckRegistration * error).

(** C21: a reload and the update of an agent with the record set it is sent
    bring the agent in step with the cluster.  When the set of the slave [id]
    is applied by a healthy agent whose cache agrees with its services, and no
    service changed in place, then every task that runs on the slave and has an
    address is registered for each of its ports, at that address, and a cached
    service that is neither the slave's nor such a task's is gone.  The
    identifiers are assumed to be free of colons, and no two tasks of a slave to
    have the same ID. *)
Theorem running_task_registered Agents config IPSources kvPairs st sends mesos infos
    id agent rs c a w a' w' ts :
  let prefix := Consul.ServicePrefix config in
  Reload_consul unmarshal Agents config IPSources kvPairs st = Ret sends →
  NoDup (Slave_ID <$> Slaves st) → "" ∉ Agents →
  ids_ok prefix (Consul.SkipInactiveFrameworks config) st →
  generateMesosRecords st prefix = Ret (mesos, infos) →
  sends !! id = Some (agent, rs) →
  agent_update rs a w = Ret (a', w', ts) → Healthy a' = true → ConsulAgent a = Some c →
  cache_ok (recordCache a) →
  (∀ s, cached a s → registered c w !! Service_ID s = Some s) →
  (∀ s s', wanted rs s → cached a s' → Service_ID s = Service_ID s' →
     compareService s s' = true ∧ compareService s' s = true) →
  (∀ t address port, runs config IPSources st infos id t address port →
     ∃ s, registered c w' !! task_id prefix t port = Some s ∧ Service_Address s = address
          ∧ compareService (task_service prefix infos t address port) s = true)
  ∧ (∀ s, cached a s → Service_ID s ≠ Join [prefix; id] ":" →
       (∀ t address port, runs config IPSources st infos id t address port →
          Service_ID s ≠ task_id prefix t port) →
       registered c w' !! Service_ID s = None).
Proof.
  cbv zeta. intros Hrel Hnd Hne Hids Hm Hs Hup Hh Hc Hok Hsync Heq.
  assert (Forall wf_rec rs) as Hwf.
  { eapply reloaded_wf. by exists Agents, IPSources, kvPairs, st, sends, id, agent. }
  pose proof (sent_unique _ _ _ _ _ _ _ _ _ _ _ _ Hrel Hnd Hne Hids Hm Hs) as Hu.
  destruct (sent_services _ _ _ _ _ _ _ _ _ _ _ _ Hrel Hnd Hne Hm Hs) as (_ & sv & Hsv & Hw).
  destruct (update_in_step c rs a w a' w' ts) as [Hin Hout]; [done..|]. split.
  - intros t address port Ht.
    destruct (Hin (task_service (Consul.ServicePrefix config) infos t address port))
      as (s & Hreg & Hcmp); [apply Hw; right; by exists t, address, port|].
    exists s. split; [done|].
    assert (compareService (task_service (Consul.ServicePrefix config) infos t address port) s = true)
      as Hc' by (destruct Hcmp as [-> |?]; [by apply compareService_true|done]).
    split; [|done]. by apply compareService_true in Hc' as (_ & _ & <- & _).
  - intros s Hcs Hsl Htk. apply Hout; [done|]. intros s' [->|(t & address & port & Ht & ->)]%Hw;
      [congruence|]. intros E. by apply (Htk _ _ _ Ht).
Qed.
End registered.

Module DemoTasks.
Import DemoConsul.

(** The sets that the reload of [cluster] sends, and that for the slave. *)
Definition sent : gmap string (string * list rec) :=
  Eval vm_compute in match sends with Ret m => m | Panic _ => ∅ end.
Lemma sent_eq : Reload_consul no_checks {["h"]} config [] [] cluster = Ret sent.
Proof. exact sends_eq. Qed.

Definition sent_recs : list rec :=
  Eval vm_compute in match sent !! "s" with Some (_, rs) => rs | None => [] end.
Lemma sent_lookup : sent !! "s" = Some ("h", sent_recs).
Proof. vm_compute. reflexivity. Qed.

Definition mesos_infos : list rec * gmap string SlaveInfo :=
  Eval vm_compute in
    match generateMesosRecords cluster "p" with Ret r => r | Panic _ => ([], ∅) end.
Lemma mesos_infos_eq : generateMesosRecords cluster "p" = Ret (mesos_infos.1, mesos_infos.2).
Proof. vm_compute. reflexivity. Qed.

(** The agent has a service of a task that is gone. *)
Definition old : AgentServiceRegistration := svc "p:s:old:0" "1".

Definition after_sent : registry :=
  Eval vm_compute in
    match agent_update sent_recs (having_cached old) ({[Service_ID old := old]} : registry) with
    | Ret (_, w, _) => w
    | Panic _ => ∅
    end.

Lemma update_sent : ∃ a' ts,
  agent_update sent_recs (having_cached old) ({[Service_ID old := old]} : registry)
  = Ret (a', after_sent, ts) ∧ Healthy a' = true.
Proof. eexists _, _. split; [vm_compute; reflexivity|done]. Qed.

Lemma cluster_ids : ids_ok "p" false cluster.
Proof.
  split.
  - set_solver.
  - apply Forall_singleton. set_solver.
  - intros f t ->%list_elem_of_singleton _ ->%list_elem_of_singleton. split; set_solver.
  - by intros f f' t t' ->%list_elem_of_singleton ->%list_elem_of_singleton _ _
      ->%list_elem_of_singleton ->%list_elem_of_singleton.
Qed.

(** The task of [cluster] is registered without a port, at the address of its
    slave. *)
Lemma agents_named : "" ∉ ({["h"]} : gset string).
Proof. set_solver. Qed.

Lemma cluster_runs : runs config [] cluster mesos_infos.2 "s" task1 "h" "0".
Proof.
  eexists _, []. split_and!; [by left|done|by left|done| |by left].
  split; [done|vm_compute; reflexivity|done|vm_compute; reflexivity].
Qed.

Lemma running_task_registered_witness :
  (∃ s, (after_sent : registry) !! "p:s:t:0" = Some s ∧ Service_Address s = "h")
  ∧ after_sent !! "p:s:old:0" = None.
Proof.
  destruct update_sent as (a' & ts & Hup & Hh).
  assert (∀ s, wanted sent_recs s → Service_ID s ≠ Service_ID old) as Hnew.
  { assert (Forall (λ r, ∀ s, Service r = Some s → Service_ID s ≠ Service_ID old) sent_recs) as Hf
      by (repeat constructor; by intros s [= <-]).
    rewrite Forall_forall in Hf. intros s (r & Hr & Hs). by apply (Hf r). }
  destruct (running_task_registered no_checks {["h"]} config [] [] cluster sent mesos_infos.1
    mesos_infos.2 "s" "h" sent_recs client (having_cached old) {[Service_ID old := old]} a'
    after_sent ts sent_eq (NoDup_singleton _) agents_named cluster_ids mesos_infos_eq sent_lookup
    Hup Hh eq_refl (having_cached_ok _)) as [Hin Hout].
  - by intros s ->%having_cached_iff.
  - intros s s' Hs%Hnew ->%having_cached_iff E. destruct (Hs E).
  - split.
    + destruct (Hin task1 "h" "0") as (s & ? & ? & _); [exact cluster_runs|eauto].
    + apply (Hout old); [by apply having_cached_iff|done|].
      intros t a p (f & ps & ->%list_elem_of_singleton & _ & ->%list_elem_of_singleton & _) E.
      apply (f_equal (λ s, String.get 4 s)) in E. discriminate E.
Defined.
End DemoTasks.
