(* ===== verification/ConsulPipeline.v ===== *)
(** * The goroutines of a reload (src/resolvers/consul: Reload, Dispatch, parser.go)

    [Reload] starts four goroutines that meet at unbuffered channels: the
    generators of the records of slaves, frameworks and tasks, and [Dispatch],
    which receives from them one after the other.  The generator of tasks first
    waits for the slaves and for the health checks of the key-value store.
    The goroutines are a transition system; however they are scheduled they end
    with what the sequential definition [Reload_consul] computes. *)

From S2P Require Import Prelude GoStrings GoNet State Store Consul ConsulProps ConsulDemo ConsulTasks.

(** The generator of slaves: records to send; the channel is closed and the
    slaves are to be sent; gone. *)
Inductive mesos_pc := MSending (l : list rec) | MInfo | MGone.

(** The generator of frameworks: records to send; closed and gone. *)
Inductive framework_pc := FSending (l : list rec) | FGone.

(** The generator of tasks: waiting for the slaves; for the health checks;
    records to send; closed and gone. *)
Inductive task_pc := TInfo | TChecks | TSending (l : list rec) | TGone.

(** [Dispatch]: in one of its loops, or done with its sends. *)
Inductive dispatch_pc :=
| DMesos | DFrameworks | DTasks | DGone (sends : gmap string (string * list rec)).

Record pipeline := {
  pl_mesos : mesos_pc; pl_frameworks : framework_pc; pl_tasks : task_pc;
  pl_dispatch : dispatch_pc; pl_maps : dispatch_state }.

Section pipeline.
Context (Agents : gset string) (mesos frameworks tasks : list rec).

(** The sends of the last loop of [Dispatch]. *)
Definition sends_of (ds : dispatch_state) : gmap string (string * list rec) :=
  map_imap (λ slaveid agent, Some (agent, default [] (recs_of ds !! slaveid))) (consulAgent ds).

Definition dispatch0 : dispatch_state := {| consulAgent := ∅; recs_of := ∅; slaveLookup := ∅ |}.

Definition pipeline0 : pipeline :=
  {| pl_mesos := MSending mesos; pl_frameworks := FSending frameworks; pl_tasks := TInfo;
     pl_dispatch := DMesos; pl_maps := dispatch0 |}.

Definition at_mesos (p : pipeline) (m : mesos_pc) (ds : dispatch_state) : pipeline :=
  {| pl_mesos := m; pl_frameworks := pl_frameworks p; pl_tasks := pl_tasks p;
     pl_dispatch := pl_dispatch p; pl_maps := ds |}.
Definition at_frameworks (p : pipeline) (f : framework_pc) (ds : dispatch_state) : pipeline :=
  {| pl_mesos := pl_mesos p; pl_frameworks := f; pl_tasks := pl_tasks p;
     pl_dispatch := pl_dispatch p; pl_maps := ds |}.
Definition at_tasks (p : pipeline) (t : task_pc) (ds : dispatch_state) : pipeline :=
  {| pl_mesos := pl_mesos p; pl_frameworks := pl_frameworks p; pl_tasks := t;
     pl_dispatch := pl_dispatch p; pl_maps := ds |}.
Definition at_dispatch (p : pipeline) (d : dispatch_pc) : pipeline :=
  {| pl_mesos := pl_mesos p; pl_frameworks := pl_frameworks p; pl_tasks := pl_tasks p;
     pl_dispatch := d; pl_maps := pl_maps p |}.

(** A send and its receive are one step; a [range] loop ends when its channel
    is closed.  [tasks] are the records for the slaves and the health checks
    that are received. *)
Inductive pstep : pipeline → pipeline → Prop :=
| p_mesos p r l ds :
    pl_mesos p = MSending (r :: l) → pl_dispatch p = DMesos →
    dispatch_mesos Agents (pl_maps p) r = Ret ds → pstep p (at_mesos p (MSending l) ds)
| p_mesos_close p : pl_mesos p = MSending [] → pstep p (at_mesos p MInfo (pl_maps p))
| p_mesos_end p :
    pl_dispatch p = DMesos → pl_mesos p = MInfo ∨ pl_mesos p = MGone →
    pstep p (at_dispatch p DFrameworks)
| p_info p :
    pl_mesos p = MInfo → pl_tasks p = TInfo →
    pstep p (at_tasks (at_mesos p MGone (pl_maps p)) TChecks (pl_maps p))
| p_checks p : pl_tasks p = TChecks → pstep p (at_tasks p (TSending tasks) (pl_maps p))
| p_framework p r l :
    pl_frameworks p = FSending (r :: l) → pl_dispatch p = DFrameworks →
    pstep p (at_frameworks p (FSending l) (dispatch_framework (pl_maps p) r))
| p_framework_close p :
    pl_frameworks p = FSending [] → pstep p (at_frameworks p FGone (pl_maps p))
| p_framework_end p :
    pl_dispatch p = DFrameworks → pl_frameworks p = FGone → pstep p (at_dispatch p DTasks)
| p_task p r l :
    pl_tasks p = TSending (r :: l) → pl_dispatch p = DTasks →
    pstep p (at_tasks p (TSending l) (dispatch_task (pl_maps p) r))
| p_task_close p : pl_tasks p = TSending [] → pstep p (at_tasks p TGone (pl_maps p))
| p_task_end p :
    pl_dispatch p = DTasks → pl_tasks p = TGone →
    pstep p (at_dispatch p (DGone (sends_of (pl_maps p)))).

(** ** The result does not depend on the schedule *)

Definition rest_mesos (m : mesos_pc) : list rec := match m with MSending l => l | _ => [] end.
Definition rest_frameworks (f : framework_pc) : list rec := match f with FSending l => l | _ => [] end.
Definition rest_tasks (t : task_pc) : list rec :=
  match t with TInfo | TChecks => tasks | TSending l => l | TGone => [] end.

(** The sends when what is left is done in order. *)
Definition final (p : pipeline) : go (gmap string (string * list rec)) :=
  let finish_tasks ds := sends_of (foldl dispatch_task ds (rest_tasks (pl_tasks p))) in
  let finish_frameworks ds :=
    finish_tasks (foldl dispatch_framework ds (rest_frameworks (pl_frameworks p))) in
  match pl_dispatch p with
  | DMesos =>
      ds ← foldM (dispatch_mesos Agents) (rest_mesos (pl_mesos p)) (pl_maps p);
      Ret (finish_frameworks ds)
  | DFrameworks => Ret (finish_frameworks (pl_maps p))
  | DTasks => Ret (finish_tasks (pl_maps p))
  | DGone sends => Ret sends
  end.

(** Where the goroutines can be at the same time. *)
Record pipe_ok (p : pipeline) : Prop := {
  pipe_mesos : pl_dispatch p ≠ DMesos → rest_mesos (pl_mesos p) = [] ∧ pl_mesos p ≠ MSending [];
  pipe_frameworks : pl_dispatch p ≠ DMesos → pl_dispatch p ≠ DFrameworks → pl_frameworks p = FGone;
  pipe_info : pl_tasks p = TInfo → pl_mesos p ≠ MGone }.

Lemma pstep_ok p p' : pstep p p' → pipe_ok p → pipe_ok p'.
Proof.
  intros Hst [Hm Hf Hi]. destruct Hst as [p r l ds Em Ed Hds|p Em|p Ed Em|p Em Et|p Et|p r l Ef Ed|p Ef
    |p Ed Ef|p r l Et Ed|p Et|p Ed Et]; split; cbn; try done; try congruence;
    try (intros Hd; destruct (Hm Hd); split; congruence);
    try (intros Hd Hd'; specialize (Hf Hd Hd'); congruence).
  - intros _. by destruct Em as [-> | ->].
  - intros _. apply Hm. congruence.
  - intros _. apply Hm. congruence.
  - intros _ _. apply Hf; congruence.
Qed.

Lemma pstep_final p p' : pstep p p' → final p' = final p.
Proof.
  intros Hst. destruct Hst as [p r l ds Em Ed Hds|p Em|p Ed Em|p Em Et|p Et|p r l Ef Ed|p Ef
    |p Ed Ef|p r l Et Ed|p Et|p Ed Et]; unfold final; cbn.
  - rewrite Ed, Em. cbn. by rewrite Hds.
  - by rewrite Em.
  - rewrite Ed. by destruct Em as [-> | ->].
  - by rewrite Em, Et.
  - by rewrite Et.
  - by rewrite Ed, Ef.
  - by rewrite Ef.
  - by rewrite Ed, Ef.
  - by rewrite Ed, Et.
  - by rewrite Et.
  - by rewrite Ed, Et.
Qed.

(** The steps that are left. *)
Definition pipe_work (p : pipeline) : nat :=
  match pl_mesos p with MSending l => length l + 2 | MInfo => 1 | MGone => 0 end
  + match pl_frameworks p with FSending l => length l + 1 | FGone => 0 end
  + match pl_tasks p with
    | TInfo => length tasks + 3 | TChecks => length tasks + 2 | TSending l => length l + 1 | TGone => 0
    end
  + match pl_dispatch p with DMesos => 3 | DFrameworks => 2 | DTasks => 1 | DGone _ => 0 end.

Lemma pstep_work p p' : pstep p p' → (pipe_work p' < pipe_work p)%nat.
Proof.
  unfold pipe_work. intros Hst. destruct Hst as [p r l ds Em Ed Hds|p Em|p Ed Em|p Em Et|p Et
    |p r l Ef Ed|p Ef|p Ed Ef|p r l Et Ed|p Et|p Ed Et]; cbn;
    rewrite ?Ef, ?Et, ?Ed; try (rewrite Em; cbn; lia); try (cbn; lia).
  all: cbn; lia.
Qed.

Lemma pipe_progress p sends :
  pipe_ok p → final p = Ret sends → pl_dispatch p = DGone sends ∨ ∃ p', pstep p p'.
Proof.
  intros [Hm Hf Hi] Hfin. unfold final in Hfin. destruct (pl_dispatch p) as [| | |s] eqn:Ed.
  - right. destruct (pl_mesos p) as [[|r l]| |] eqn:Em; cbn in Hfin.
    + eexists. by apply p_mesos_close.
    + go_inv Hfin. go_inv E. eexists. by eapply p_mesos.
    + eexists. apply p_mesos_end; auto.
    + eexists. apply p_mesos_end; auto.
  - right. destruct (pl_frameworks p) as [[|r l]|] eqn:Ef.
    + eexists. by apply p_framework_close.
    + eexists. by eapply p_framework.
    + eexists. by apply p_framework_end.
  - right. destruct (pl_tasks p) as [| |[|r l]|] eqn:Et.
    + destruct (Hm) as [Hr Hne]; [done|]. specialize (Hi eq_refl).
      destruct (pl_mesos p) as [l| |] eqn:Em; [cbn in Hr; congruence| |done].
      eexists. by apply p_info.
    + eexists. by apply p_checks.
    + eexists. by apply p_task_close.
    + eexists. by eapply p_task.
    + eexists. by apply p_task_end.
  - left. apply Ret_inj in Hfin. congruence.
Qed.
End pipeline.

Section reload.
Context `{UnicodeTables}.
Context (unmarshal : list ascii → AgentCheckRegistration → AgentCheckRegistration * error).

(** C25: the goroutines of a reload cannot deadlock and cannot race: in every
    schedule they stop after a bounded number of steps, when [Dispatch] has
    made exactly the sends of the sequential definition. *)
Theorem pipeline_deterministic Agents config IPSources kvPairs st mesos infos tasks sends :
  let prefix := Consul.ServicePrefix config in
  let skip := Consul.SkipInactiveFrameworks config in
  generateMesosRecords st prefix = Ret (mesos, infos) →
  generateTaskRecords unmarshal st prefix IPSources infos kvPairs skip = Ret tasks →
  Reload_consul unmarshal Agents config IPSources kvPairs st = Ret sends →
  let p0 := pipeline0 mesos (generateFrameworkRecords st prefix skip) in
  ∀ k p, nsteps (pstep Agents tasks) k p0 p →
    (k ≤ pipe_work tasks p0)%nat
    ∧ (pl_dispatch p = DGone sends ∨ ∃ p', pstep Agents tasks p p').
Proof.
  cbv zeta. intros Hm Ht Hr k p Hk. set (p0 := pipeline0 _ _) in *. split.
  - assert (k + pipe_work tasks p ≤ pipe_work tasks p0)%nat; [|lia]. clear Hm Ht Hr.
    induction Hk as [|k x y z Hxy _ IH]; [lia|]. apply pstep_work in Hxy. lia.
  - assert (pipe_ok p0 ∧ final Agents tasks p0 = Ret sends) as [Hok Hfin].
    { split; [by split|]. unfold Reload_consul in Hr. rewrite Hm in Hr. cbn in Hr. rewrite Ht in Hr.
      exact Hr. }
    assert (pipe_ok p ∧ final Agents tasks p = Ret sends) as [Hok' Hfin'].
    { clear Hm Ht Hr. induction Hk as [|k x y z Hxy _ IH]; [done|]. apply IH;
        [by eapply pstep_ok|]. by rewrite (pstep_final _ _ _ _ Hxy). }
    by apply pipe_progress.
Qed.
End reload.

Module DemoPipeline.
Import DemoConsul DemoTasks.

Definition task_recs : list rec :=
  Eval vm_compute in
    match generateTaskRecords no_checks cluster "p" [] mesos_infos.2 [] false with
    | Ret l => l | Panic _ => []
    end.
Lemma task_recs_eq :
  generateTaskRecords no_checks cluster "p" [] mesos_infos.2 [] false = Ret task_recs.
Proof. vm_compute. reflexivity. Qed.

(** The first step of a reload of [cluster]. *)
Lemma pipeline_deterministic_witness : ∃ p,
  pstep {["h"]} task_recs
    (pipeline0 mesos_infos.1 (generateFrameworkRecords cluster "p" false)) p.
Proof.
  destruct (pipeline_deterministic no_checks {["h"]} config [] [] cluster mesos_infos.1 mesos_infos.2
    task_recs sent mesos_infos_eq task_recs_eq sent_eq 0
    (pipeline0 mesos_infos.1 (generateFrameworkRecords cluster "p" false)) (nsteps_O _ _))
    as [_ [[=]|Hp]].
  exact Hp.
Defined.
End DemoPipeline.
