(* ===== verification/Resolvers.v ===== *)
(** * Building the resolvers (src/resolvers/resolvers.go)

    [New] makes a resolver for every entry of the setting Resolvers that names
    one, with the defaults of that resolver merged with the entry.  The
    consul resolver connects to its agent while it is built and reports a
    failure on the error channel; a send on that channel waits until the main
    loop receives, which does not run yet.

    The constructor of the consul backend and the poller of its key-value
    store are here as well. *)

From Corelib Require Import SpecFloat.
From S2P Require Import Prelude GoStrings GoNet State Config Store Merge Dns Exchanger Resolver.
From S2P Require Import Consul ConsulProps ConsulAgent.

(** ** The configuration structs *)

#[export] Instance builtin_struct : Struct Builtin.Config.
Proof.
  refine {|
    names := ["DNSOn"; "ExternalOn"; "HTTPOn"; "HTTPPort"; "HTTPListener"; "Listener"; "Port";
              "RecurseOn"; "ExternalDNS"; "Timeout"; "TTL"; "EnumerationOn"];
    types := [TBool; TBool; TBool; TInt Int; TString; TString; TInt Int; TBool; TStrings; TInt Int;
              TInt Int32; TBool];
    values := λ c, [VBool (Builtin.DNSOn c); VBool (Builtin.ExternalOn c); VBool (Builtin.HTTPOn c);
      VInt Int (Builtin.HTTPPort c); VString (Builtin.HTTPListener c); VString (Builtin.Listener c);
      VInt Int (Builtin.Port c); VBool (Builtin.RecurseOn c); VStrings (Builtin.ExternalDNS c);
      VInt Int (Builtin.Timeout c); VInt Int32 (Builtin.TTL c); VBool (Builtin.EnumerationOn c)];
    build := λ vs,
      match vs with
      | [VBool d; VBool e; VBool h; VInt _ hp; VString hl; VString l; VInt _ p; VBool r;
         VStrings ex; VInt _ t; VInt _ ttl; VBool en] =>
          Some {| Builtin.DNSOn := d; Builtin.ExternalOn := e; Builtin.HTTPOn := h;
            Builtin.HTTPPort := hp; Builtin.HTTPListener := hl; Builtin.Listener := l;
            Builtin.Port := p; Builtin.RecurseOn := r; Builtin.ExternalDNS := ex;
            Builtin.Timeout := t; Builtin.TTL := ttl; Builtin.EnumerationOn := en |}
      | _ => None
      end |}.
  - by apply (bool_decide_unpack _).
  - done.
  - done.
  - by intros [].
  - intros vs Hvs. do 12 (destruct vs as [|[] vs]; try discriminate Hvs).
    destruct vs; [|discriminate Hvs]. injection Hvs as -> -> -> ->. eexists. split; done.
Defined.

#[export] Instance consul_struct : Struct Consul.Config.
Proof.
  refine {|
    names := ["Address"; "CacheOnly"; "CacheRefresh"; "Datacenter"; "Scheme"; "ServicePrefix";
              "SkipInactiveFrameworks"; "Token"];
    types := [TString; TBool; TInt Int; TString; TString; TString; TBool; TString];
    values := λ c, [VString (Consul.Address c); VBool (Consul.CacheOnly c);
      VInt Int (Consul.CacheRefresh c); VString (Consul.Datacenter c); VString (Consul.Scheme c);
      VString (Consul.ServicePrefix c); VBool (Consul.SkipInactiveFrameworks c);
      VString (Consul.Token c)];
    build := λ vs,
      match vs with
      | [VString a; VBool co; VInt _ cr; VString d; VString s; VString p; VBool sk; VString t] =>
          Some {| Consul.Address := a; Consul.CacheOnly := co; Consul.CacheRefresh := cr;
            Consul.Datacenter := d; Consul.Scheme := s; Consul.ServicePrefix := p;
            Consul.SkipInactiveFrameworks := sk; Consul.Token := t |}
      | _ => None
      end |}.
  - by apply (bool_decide_unpack _).
  - done.
  - done.
  - by intros [].
  - intros vs Hvs. do 8 (destruct vs as [|[] vs]; try discriminate Hvs).
    destruct vs; [|discriminate Hvs]. injection Hvs as ->. eexists. split; done.
Defined.

(** ** The constructors *)

(** A constructor returns, or waits to send an error. *)
Inductive construction (A : Type) := Built (x : A) | Sending_error (e : string).
Arguments Built {A} _.
Arguments Sending_error {A} _.

(** The part of [consul.Backend] that [Dispatch] and [Reload] read: the
    agents, one for every member, and the configuration. *)
Record Backend := { Agents : gset string; Backend_Config : Consul.Config }.

(** The servers that a resolver starts. *)
Inductive server := ServeDNS | ServeHTTP.

Definition New_builtin (config : Builtin.Config) (rg : RecordGenerator) (version : string) :
    Resolver * list server :=
  ({| res_version := version; res_config := config; res_rg := rg |},
   (if Builtin.DNSOn config then [ServeDNS] else [])
   ++ (if Builtin.HTTPOn config then [ServeHTTP] else [])).

Section new.
Context {W : Type} `{UnicodeTables, FloatConv, MapOrder, ConsulAPI W}.

(** [consul.New]; [None] is the nil pointer. *)
Definition New_consul (config : Consul.Config) (RefreshSeconds : Z) (w : W) :
    construction (option Backend) * W :=
  let '(addr, port, err) := SplitHostPort (Consul.Address config) in
  match err with
  | Some _ => (Built None, w)
  | None =>
      match consulInit config addr port RefreshSeconds w with
      | (inr e, w) => (Sending_error e, w)
      | (inl client, w) =>
          match Members client w with
          | (inr e, w) => (Sending_error e, w)
          | (inl members, w) =>
              (Built (Some {| Agents := list_to_set members; Backend_Config := config |}), w)
          end
      end
  end.

(** A resolver as [New] returns it. *)
Inductive built :=
| BuiltBuiltin (r : Resolver) (servers : list server)
| BuiltConsul (b : option Backend).

(** One entry of the setting. *)
Definition new_step (rg : RecordGenerator) (refresh : Z) (version : string) (m : gmap string json)
    (st : construction (list built) * W) (k : string) : go (construction (list built) * W) :=
  match st with
  | (Sending_error e, w) => Ret (Sending_error e, w)
  | (Built resolvers, w) =>
      let v := default JNull (m !! k) in
      if bool_decide (ToLower k = "builtin") then
        conf ← Merge v Builtin.NewConfig;
        let '(r, servers) := New_builtin conf rg version in
        Ret (Built (resolvers ++ [BuiltBuiltin r servers]), w)
      else if bool_decide (ToLower k = "consul") then
        conf ← Merge v Consul.NewConfig;
        match New_consul conf refresh w with
        | (Sending_error e, w) => Ret (Sending_error e, w)
        | (Built b, w) => Ret (Built (resolvers ++ [BuiltConsul b]), w)
        end
      else Ret (Built resolvers, w)
  end.

Definition New_resolvers (rg : RecordGenerator) (config : Config) (version : string) (w : W) :
    go (construction (list built) * W) :=
  let m := default ∅ (Resolvers config) in
  foldM (new_step rg (RefreshSeconds config) version m) (order "resolvers" (dom m)) (Built [], w).

(** ** The poller of the key-value store *)

(** One turn of [pollConsulKVHC]: the count, the pairs, and what is sent.
    [answer] is the answer of the store in this turn, [None] an error. *)
Definition poll_turn (refresh : Z) (answer : option (list KVPair)) (count : Z) (kvs : list KVPair) :
    go (Z * list KVPair * option (list KVPair)) :=
  let count := (count + 1)%Z in
  if (refresh =? 0)%Z then Panic DivideByZero
  else if (Z.rem count refresh =? 1)%Z then
    match answer with
    | None => Ret (count, [], None)
    | Some kvs => Ret (count, kvs, Some kvs)
    end
  else Ret (count, kvs, Some kvs).
End new.
