(* ===== verification/ResolversProps.v ===== *)
(** * Properties of the construction of resolvers

    Which resolvers are built from the settings and with which configuration,
    which settings have no effect, and when construction never finishes. *)

From Corelib Require Import SpecFloat.
From S2P Require Import Prelude GoStrings GoNet State Config Store Merge Dns Exchanger Resolver.
From S2P Require Import Consul ConsulProps ConsulAgent ConsulDemo Resolvers.

(** ** Settings without an effect *)

Section lists.
Context `{FloatConv, MapOrder} {T : Type} `{Struct T}.

Lemma SetField_keeps_list (obj : T) name v e obj' n l :
  SetField obj name (of_json v) = Ret (e, obj') → FieldByName obj n = Some (VStrings l) →
  FieldByName obj' n = Some (VStrings l).
Proof.
  intros Hset Hn.
  destruct (SetField_merged obj name v) as (e1 & obj1 & Hset1 & Hf).
  - destruct v; try (left; done). right. intros [i Hi%index_of_Some]%list_elem_of_lookup_1.
    unfold SetField in Hset. by destruct (FieldByName_Some obj _ _ Hi) as [old Ho]; rewrite Ho in Hset.
  - rewrite Hset in Hset1. injection Hset1 as <- <-. rewrite Hf, Hn.
    destruct (decide _); [|done]. by destruct v.
Qed.

(** A merge does not change a list of strings. *)
Lemma Merge_keeps_list data (c c' : T) n l :
  Merge data c = Ret c' → FieldByName c n = Some (VStrings l) →
  FieldByName c' n = Some (VStrings l).
Proof.
  destruct data as [| | | | |m]; cbn [Merge]; try (by intros <-%Ret_inj).
  intros Hm Hc. eapply (foldM_ind (λ c, FieldByName c n = Some (VStrings l))) in Hm; [done..|].
  intros s k s' _ Hs Hk. destruct (_ !! k) as [v|]; [|by apply Ret_inj in Hk as <-].
  go_inv Hk. destruct r as [e s1]. apply Ret_inj in Hk as <-. by eapply SetField_keeps_list.
Qed.
End lists.

(** No setting changes the external servers of the builtin resolver, although
    they are documented as one: whatever the configuration file says for it, the resolver forwards to its
    default server or to none. *)
Theorem ExternalDNS_fixed `{FloatConv, MapOrder} data c c' :
  Merge data c = Ret c' → Builtin.ExternalDNS c' = Builtin.ExternalDNS c.
Proof.
  intros Hm. pose proof (Merge_keeps_list data c c' "ExternalDNS" _ Hm eq_refl) as Hl.
  by injection Hl.
Qed.

(** ** What is built *)

Section new.
Context {W : Type} `{UnicodeTables, FloatConv, MapOrder, ConsulAPI W}.
Context (rg : RecordGenerator) (refresh : Z) (version : string) (m : gmap string json).

Abbreviation step := (new_step rg refresh version m).

(** The configuration that the entry [k] leads to. *)
Definition builtin_entry (k : string) (conf : Builtin.Config) : Prop :=
  ToLower k = "builtin" ∧ Merge (default JNull (m !! k)) Builtin.NewConfig = Ret conf.
Definition consul_entry (k : string) (conf : Consul.Config) : Prop :=
  ToLower k = "consul" ∧ Merge (default JNull (m !! k)) Consul.NewConfig = Ret conf.

(** A list is only returned when no entry on the way is stuck. *)
Lemma new_loop_snoc l k (w : W) rs w' :
  foldM step (l ++ [k]) (Built [], w) = Ret (Built rs, w') →
  ∃ rs0 w0, foldM step l (Built [], w) = Ret (Built rs0, w0)
    ∧ step (Built rs0, w0) k = Ret (Built rs, w').
Proof.
  rewrite foldM_app. intros Hf. go_inv Hf. destruct r as [[rs0|e] w0]; cbn [foldM] in Hf; go_inv Hf;
    apply Ret_inj in Hf; subst r.
  - by exists rs0, w0.
  - by apply Ret_inj in E0.
Qed.

(** One entry adds its resolver and nothing else. *)
Lemma new_step_built rs0 (w0 : W) k rs w' :
  step (Built rs0, w0) k = Ret (Built rs, w') →
  (∃ conf, builtin_entry k conf
     ∧ rs = rs0 ++ [BuiltBuiltin (New_builtin conf rg version).1 (New_builtin conf rg version).2])
  ∨ (∃ conf b, consul_entry k conf ∧ New_consul conf refresh w0 = (Built b, w')
       ∧ rs = rs0 ++ [BuiltConsul b])
  ∨ (ToLower k ≠ "builtin" ∧ ToLower k ≠ "consul" ∧ rs = rs0).
Proof.
  cbn [new_step]. case_bool_decide as Hb; [|case_bool_decide as Hc].
  - intros Hk. go_inv Hk. apply Ret_inj in Hk as [= <- _]. left. by exists r.
  - intros Hk. go_inv Hk. destruct (New_consul r refresh w0) as [[b|e] w1] eqn:En; [|done].
    apply Ret_inj in Hk as [= <- <-]. right. left. by exists r, b.
  - intros Hk%Ret_inj. injection Hk as <- _. auto.
Qed.

Lemma new_loop_builtin l (w : W) rs w' r ss :
  foldM step l (Built [], w) = Ret (Built rs, w') →
  BuiltBuiltin r ss ∈ rs ↔
  ∃ k conf, k ∈ l ∧ builtin_entry k conf ∧ (r, ss) = New_builtin conf rg version.
Proof.
  revert rs w'. induction l as [|k l IH] using rev_ind; intros rs w' Hf.
  { apply Ret_inj in Hf as [= <- _]. split; [by intros ?%elem_of_nil|].
    by intros (? & ? & ?%elem_of_nil & _). }
  apply new_loop_snoc in Hf as (rs0 & w0 & Hf & Hk). specialize (IH _ _ Hf).
  setoid_rewrite elem_of_app. setoid_rewrite list_elem_of_singleton.
  apply new_step_built in Hk as [(conf & Hc & ->)|[(conf & b & Hc & _ & ->)|(Hb & _ & ->)]];
    rewrite ?elem_of_app, ?list_elem_of_singleton, IH; split.
  - intros [(k' & conf' & ? & ?)|[= -> ->]]; [exists k', conf'; auto|].
    exists k, conf. split_and!; [by right|done|apply surjective_pairing].
  - intros (k' & conf' & [?| ->] & Hc' & Hr); [left; exists k', conf'; auto|right].
    destruct Hc as [_ Hc], Hc' as [_ Hc']. rewrite Hc in Hc'. apply Ret_inj in Hc' as <-.
    by rewrite <-Hr.
  - intros [(k' & conf' & ? & ?)|?]; [exists k', conf'; auto|done].
  - intros (k' & conf' & [?| ->] & Hc' & Hr); [left; exists k', conf'; auto|].
    destruct Hc as [Hc _], Hc' as [Hc' _]. congruence.
  - intros (k' & conf' & ? & ?). exists k', conf'. auto.
  - intros (k' & conf' & [?| ->] & Hc' & Hr); [exists k', conf'; auto|].
    by destruct Hc' as [Hc' _].
Qed.

Lemma new_loop_consul l (w : W) rs w' k conf :
  foldM step l (Built [], w) = Ret (Built rs, w') → k ∈ l → consul_entry k conf →
  ∃ b w1 w2, New_consul conf refresh w1 = (Built b, w2) ∧ BuiltConsul b ∈ rs.
Proof.
  intros Hf Hk Hc. revert rs w' Hf. induction l as [|x l IH] using rev_ind; intros rs w' Hf.
  { by apply elem_of_nil in Hk. }
  apply new_loop_snoc in Hf as (rs0 & w0 & Hf & Hx).
  apply elem_of_app in Hk as [Hk|Hk%list_elem_of_singleton].
  - destruct (IH Hk _ _ Hf) as (b & w1 & w2 & Hb & Hin). exists b, w1, w2. split; [done|].
    apply new_step_built in Hx as [(? & _ & ->)|[(? & ? & _ & _ & ->)|(_ & _ & ->)]];
      rewrite ?elem_of_app; auto.
  - subst x. destruct Hc as [Hlow Hm].
    apply new_step_built in Hx as [(? & [? _] & _)|[(conf' & b & [_ Hm'] & Hb & ->)|(_ & ? & _)]];
      [congruence| |done].
    rewrite Hm in Hm'. apply Ret_inj in Hm' as <-. exists b, w0, w'.
    split; [done|]. apply elem_of_app. right. by left.
Qed.
End new.

Section outcome.
Context {W : Type} `{UnicodeTables, FloatConv, MapOrder, ConsulAPI W}.

Lemma elem_of_loop loop (m : gmap string json) k : k ∈ order loop (dom m) ↔ is_Some (m !! k).
Proof. by rewrite order_perm, elem_of_elements, elem_of_dom. Qed.

(** C29: when the construction returns, the builtin resolvers are exactly
    those of the entries that name one in any case, each with the defaults
    merged with its entry, and every entry for consul has been built. *)
Theorem New_builds rg config version (w : W) rs w' :
  New_resolvers rg config version w = Ret (Built rs, w') →
  let m := default ∅ (Resolvers config) in
  (∀ r ss, BuiltBuiltin r ss ∈ rs ↔
     ∃ k conf, is_Some (m !! k) ∧ builtin_entry m k conf ∧ (r, ss) = New_builtin conf rg version)
  ∧ (∀ k conf, is_Some (m !! k) → consul_entry m k conf → ∃ b, BuiltConsul b ∈ rs).
Proof.
  unfold New_resolvers. intros Hn. cbv zeta. set (m := default ∅ (Resolvers config)) in *. split.
  - intros r ss. rewrite (new_loop_builtin _ _ _ _ _ _ _ _ r ss Hn).
    by setoid_rewrite elem_of_loop.
  - intros k conf Hk%(elem_of_loop "resolvers") Hc.
    destruct (new_loop_consul _ _ _ _ _ _ _ _ _ _ Hn Hk Hc) as (b & _ & _ & _ & Hb). by exists b.
Qed.

(** With an entry for consul whose agent cannot be reached no list of
    resolvers is ever returned, also when other resolvers are configured: the
    construction waits for the main loop, which starts after it, to receive
    the error. *)
Theorem New_waits_for_consul rg config version (w : W) k conf addr port :
  is_Some (default ∅ (Resolvers config) !! k) →
  consul_entry (default ∅ (Resolvers config)) k conf →
  SplitHostPort (Consul.Address conf) = (addr, port, None) →
  (∀ w1, ∃ e w2, consulInit conf addr port (RefreshSeconds config) w1 = (inr e, w2)) →
  ¬ ∃ rs w', New_resolvers rg config version w = Ret (Built rs, w').
Proof.
  intros Hk%(elem_of_loop "resolvers") Hc Hsplit Hdown (rs & w' & Hn).
  destruct (new_loop_consul _ _ _ _ _ _ _ _ _ _ Hn Hk Hc) as (b & w1 & w2 & Hb & _).
  unfold New_consul in Hb. rewrite Hsplit in Hb. destruct (Hdown w1) as (e & w3 & He).
  by rewrite He in Hb.
Qed.
End outcome.

(** ** The key-value store *)

(** The pairs that are sent in a run of the poller. *)
Definition poll_run (refresh : Z) (answers : list (option (list KVPair))) :
    go (Z * list KVPair * list (list KVPair)) :=
  foldM (λ '(count, kvs, sent) answer,
      '(count, kvs, out) ← poll_turn refresh answer count kvs;
      Ret (count, kvs, sent ++ match out with Some kvs => [kvs] | None => [] end))
    answers (0%Z, [], []).

(** With a refresh period of one the store is never read, and only empty
    lists are sent: no health check is ever found. *)
Theorem poll_every_turn answers :
  ∃ count, poll_run 1 answers = Ret (count, [], replicate (length answers) []).
Proof.
  unfold poll_run. induction answers as [|a l IH] using rev_ind; [by exists 0%Z|].
  destruct IH as [count IH]. exists (count + 1)%Z. rewrite foldM_app, IH. cbn.
  rewrite Z.rem_1_r. cbn. by rewrite length_app, replicate_add.
Qed.

(** With a longer period the first successful answer is sent at once. *)
Lemma poll_first refresh kvs :
  (1 < refresh)%Z → poll_run refresh [Some kvs] = Ret (1%Z, kvs, [kvs]).
Proof.
  intros Hr. unfold poll_run. cbn. unfold poll_turn. rewrite Z.rem_small by lia.
  destruct (Z.eqb_spec refresh 0); [lia|]. done.
Qed.

(** ** Examples *)

Module DemoResolvers.
Import DemoConsul.

#[export] Instance truncating : FloatConv.
Proof.
  refine {| to_int := λ _ x, default 0%Z (trunc x); to_float32 := λ x, x |}.
  by intros k x z -> _.
Defined.

(** [{"Port": 5353, "ExternalDNS": ["1.1.1.1"], "port": 1}] *)
Definition settings : list (string * json) :=
  [("Port", JNumber (S754_finite false 5353 0)); ("ExternalDNS", JArray [JString "1.1.1.1"]);
   ("port", JNumber (S754_finite false 1 0))].

Lemma settings_no_null k v :
  (list_to_map (reverse settings) : gmap string json) !! k = Some v →
  v ≠ JNull ∨ k ∉ names (T := Builtin.Config).
Proof.
  intros Hv%elem_of_list_to_map_2. rewrite elem_of_reverse in Hv. left. intros ->.
  unfold settings in Hv. rewrite !elem_of_cons, elem_of_nil in Hv. naive_solver.
Qed.

Lemma Merge_fieldwise_witness :
  (∃ c', Merge (JObject settings) Builtin.NewConfig = Ret c'
     ∧ FieldByName c' "Port" = Some (VInt Int 5353))
  ∧ ∃ e, Merge (JObject [("TTL", JNull)]) Builtin.NewConfig = Panic e.
Proof.
  split.
  - destruct (proj1 (Merge_fieldwise settings Builtin.NewConfig) settings_no_null) as (c' & Hm & Hf).
    exists c'. split; [exact Hm|]. rewrite Hf. vm_compute. reflexivity.
  - apply (proj2 (Merge_fieldwise [("TTL", JNull)] Builtin.NewConfig) "TTL"); [done|].
    apply (bool_decide_unpack _). vm_compute. exact I.
Defined.

Lemma ExternalDNS_fixed_witness : ∃ c',
  Merge (JObject settings) Builtin.NewConfig = Ret c' ∧ Builtin.ExternalDNS c' = ["8.8.8.8"].
Proof.
  destruct (merge_loop (list_to_map (reverse settings)) (order "merge" (dom
    (list_to_map (reverse settings) : gmap string json))) Builtin.NewConfig) as (c' & Hm & _).
  { rewrite order_perm. apply NoDup_elements. }
  { apply settings_no_null. }
  exists c'. split; [exact Hm|]. exact (ExternalDNS_fixed (JObject settings) _ _ Hm).
Defined.

Definition with_resolvers (m : gmap string json) : Config :=
  let c := Config.NewConfig 0 in
  {| Domain := Domain c; EnforceRFC952 := EnforceRFC952 c; File := File c;
     IPSources := IPSources c; Masters := Masters c; RefreshSeconds := RefreshSeconds c;
     Resolvers := Some m; StateTimeoutSeconds := StateTimeoutSeconds c;
     SOAExpire := SOAExpire c; SOAMinttl := SOAMinttl c; SOAMname := SOAMname c;
     SOARefresh := SOARefresh c; SOARetry := SOARetry c; SOARname := SOARname c;
     SOASerial := SOASerial c; Zk := Zk c; ZkDetectionTimeout := ZkDetectionTimeout c |}.

Definition no_services : registry := (∅ : gmap string AgentServiceRegistration).

Definition one_builtin : Config := with_resolvers {["BuiltIn" := JNull]}.

Definition construction_demo : go (construction (list built) * registry) :=
  Eval vm_compute in New_resolvers NewRecordGenerator one_builtin "v" no_services.

Lemma construction_demo_eq :
  New_resolvers NewRecordGenerator one_builtin "v" no_services = construction_demo.
Proof. vm_compute. reflexivity. Qed.

Lemma New_builds_witness : ∃ rs (w' : registry),
  New_resolvers NewRecordGenerator one_builtin "v" no_services = Ret (Built rs, w')
  ∧ BuiltBuiltin (New_builtin Builtin.NewConfig NewRecordGenerator "v").1 [ServeDNS; ServeHTTP] ∈ rs.
Proof.
  eexists _, _. split; [exact construction_demo_eq|].
  apply (New_builds _ _ _ _ _ _ construction_demo_eq).
  exists "BuiltIn", Builtin.NewConfig. by repeat split.
Defined.

(** An agent that does not answer. *)
Definition down_api : ConsulAPI unit := {|
  now := λ _, 0%Z; NewClient := λ _, None; Self := λ _ w, (Some "connection refused", w);
  Members := λ _ w, (inl [], w); Services := λ _ w, (None, w);
  ServiceRegister := λ _ _ w, (None, w); ServiceDeregister := λ _ _ w, (None, w);
  CheckRegister := λ _ _ w, (None, w); CheckDeregister := λ _ _ w, (None, w) |}.

Lemma New_waits_for_consul_witness :
  ¬ ∃ rs w', New_resolvers (H2 := down_api) NewRecordGenerator
      (with_resolvers {["consul" := JNull]}) "v" () = Ret (Built rs, w').
Proof.
  apply (New_waits_for_consul (H2 := down_api) NewRecordGenerator
    (with_resolvers {["consul" := JNull]}) "v" () "consul" Consul.NewConfig "127.0.0.1" "8500").
  - by eexists.
  - by split.
  - vm_compute. reflexivity.
  - intros []. by eexists _, _.
Defined.
End DemoResolvers.
