(* ===== verification/Startup.v ===== *)
(** * From start to the event loop (src/main.go)

    [main] before its loop: the configuration, master detection, the
    resolvers.  The resolvers it builds implement the interface of the loop,
    so what is proved about the loop holds of the whole process. *)

From S2P Require Import Prelude GoStrings GoNet Labels State Config Store Generator Loader Merge.
From S2P Require Import Dns Exchanger Resolver Main Consul ConsulAgent Resolvers ResolversProps.

(** ** The resolvers behind the interface *)

(** A resolver of the process.  A consul resolver keeps no generator: its
    [Reload] starts the goroutines of ConsulPipeline.v with the generator as
    their argument, and they run on their own from then on.
    [live_started] are the generators of the goroutines that have been started
    for it, the last ones last ([b.count] counts them and is read nowhere). *)
Record live := { live_built : built; live_started : list RecordGenerator }.

Definition reload_live (l : live) (rg : RecordGenerator) : go live :=
  match live_built l with
  | BuiltBuiltin r ss =>
      Ret {| live_built := BuiltBuiltin (Reload r rg) ss; live_started := live_started l |}
  | BuiltConsul (Some b) =>
      Ret {| live_built := BuiltConsul (Some b); live_started := live_started l ++ [rg] |}
  | BuiltConsul None => Panic NilDeref
  end.

(** The generator whose records a resolver publishes: the one it reads, or the
    one its last goroutines were started with, none at first. *)
Definition serves_live (l : live) : RecordGenerator :=
  match live_built l with
  | BuiltBuiltin r _ => res_rg r
  | BuiltConsul _ => default NewRecordGenerator (last (live_started l))
  end.

(** All generators that a resolver or one of its goroutines reads. *)
Definition uses_live (l : live) (x : RecordGenerator) : Prop :=
  match live_built l with BuiltBuiltin r _ => x = res_rg r | BuiltConsul _ => x ∈ live_started l end.

#[export] Instance live_reloads : Reloads live.
Proof.
  refine {| reload := reload_live; serves := serves_live; uses := uses_live |}.
  - intros [[r ss|[b|]] st] l' rg; cbn; [..|done]; intros <-%Ret_inj; [done|].
    unfold serves_live. cbn. by rewrite last_snoc.
  - intros [[r ss|[b|]] st] l' rg x; cbn; [..|done]; intros <-%Ret_inj; unfold uses_live; cbn.
    + by left.
    + intros [?| ->%list_elem_of_singleton]%elem_of_app; [by right|by left].
Defined.

(** ** Starting *)

Section startup.
Context {W : Type} `{UnicodeTables, FloatConv, MapOrder, ConsulAPI W}.
Context (getenv : string → string) (abs : string → option string)
        (readFile : string → option (list ascii))
        (unmarshalConfig : list ascii → Config → option Config + string).
(** [detector.New] and [Detect] for a ZooKeeper address. *)
Context (detect : string → error).

Inductive startup :=
| Exits (code : Z)
| Waits (e : string)
| Loops (p : process (W := W) (R := live)).

(** [versionFlag] and [cjson] are the flags.  A panic before the loop is not
    handled and ends the process with status 2; [time.NewTicker] panics for an
    interval that is not positive. *)
Definition main_start (now : Z) (versionFlag : bool) (cjson version : string) (w : W) : startup :=
  if versionFlag then Exits 0
  else
  match SetConfig getenv abs readFile unmarshalConfig now cjson with
  | Panic _ => Exits 2
  | Ret (inl _) => Exits 1
  | Ret (inr config) =>
      if (Seconds (RefreshSeconds config) <=? 0)%Z then Exits 2
      else
      match (if bool_decide (Zk config = "") then None else detect (Zk config)) with
      | Some _ => Exits 1
      | None =>
          match New_resolvers NewRecordGenerator config version w with
          | Panic _ => Exits 2
          | Ret (Sending_error e, _) => Waits e
          | Ret (Built rs, w) =>
              Loops (start config
                ((λ b, {| live_built := b; live_started := [] |}) <$> rs) w)
          end
      end
  end.

Context (get : URL → W → (list ascii + string) * W) (unmarshal : list ascii → State + string).
Context (resolve : string → option IP).

(** The resolvers start with the generator of the start. *)
Lemma new_loop_serves rg refresh version m l (w : W) rs w' :
  foldM (new_step rg refresh version m) l (Built [], w) = Ret (Built rs, w') →
  Forall (λ b, match b with BuiltBuiltin r _ => res_rg r = rg | BuiltConsul _ => True end) rs.
Proof.
  revert rs w'. induction l as [|k l IH] using rev_ind; intros rs w' Hf.
  { apply Ret_inj in Hf as [= <- _]. constructor. }
  apply new_loop_snoc in Hf as (rs0 & w0 & Hf & Hk). specialize (IH _ _ Hf).
  apply new_step_built in Hk as [(conf & _ & ->)|[(conf & b & _ & _ & ->)|(_ & _ & ->)]]; [..|done];
    apply Forall_app; (split; [done|]); by apply Forall_singleton.
Qed.

Lemma main_start_serves now versionFlag cjson version (w : W) p :
  main_start now versionFlag cjson version w = Loops p →
  ∃ config rs w', p = start config rs w'
    ∧ Forall (λ r, serves r = NewRecordGenerator ∧ ∀ x, uses r x → x = NewRecordGenerator) rs
    ∧ SetConfig getenv abs readFile unmarshalConfig now cjson = Ret (inr config)
    ∧ (0 < Seconds (RefreshSeconds config))%Z.
Proof.
  unfold main_start. destruct versionFlag; [done|].
  destruct (SetConfig _ _ _ _ _ _) as [[|config]|] eqn:Ec; [done| |done].
  destruct (Z.leb_spec (Seconds (RefreshSeconds config)) 0); [done|].
  destruct (if bool_decide _ then _ else _); [done|].
  destruct (New_resolvers _ _ _ _) as [[[rs|] w']|] eqn:En; [|done..]. intros [= <-].
  eexists config, _, w'. split; [done|]. split; [|done]. apply Forall_fmap.
  eapply Forall_impl; [exact (new_loop_serves _ _ _ _ _ _ _ _ En)|]. 
  intros [r ss|b]; cbn; [|by intros _; split; [done|]; intros x ?%elem_of_nil].
  intros ->. by split.
Qed.

(** C19: whatever the configuration, the masters, the consul agents and the
    events, in every state of a process that reached its loop the resolvers
    hold whole generations only: the empty one of the start, or the well-formed
    records of a state with a leader that a master answered with; and so does
    every goroutine that a reload has started.  A reload reaches the resolvers
    one after the other, and requests are served meanwhile: while it is at the
    resolver [i] those before [i] have the new generation and the others that
    of the last reload.  When the loop is in its [select], or waits to send the
    error of a failed reload, all resolvers have the same generation. *)
Theorem process_consistent now versionFlag cjson version (w : W) p0 p :
  main_start now versionFlag cjson version w = Loops p0 →
  rtc (step get unmarshal resolve) p0 p →
  consistent get unmarshal p.
Proof.
  intros (config & rs & w' & -> & Hrs & _ & _)%main_start_serves.
  by apply loop_consistent.
Qed.

(** The refresh interval is not validated: with 0 seconds, or with so many that
    their nanoseconds overflow, the ticker panics and the process ends with
    status 2. *)
Theorem bad_refresh_exits now cjson version (w : W) config :
  SetConfig getenv abs readFile unmarshalConfig now cjson = Ret (inr config) →
  (RefreshSeconds config ≤ 0 ∨ RefreshSeconds config = 10 ^ 10)%Z →
  (- 2 ^ 63 ≤ RefreshSeconds config * 10 ^ 9)%Z →
  main_start now false cjson version w = Exits 2.
Proof.
  intros Hc Hr Hb. unfold main_start. rewrite Hc.
  assert (Seconds (RefreshSeconds config) ≤ 0)%Z as Hs.
  { destruct Hr as [Hr| ->]; [|vm_compute; congruence]. unfold Seconds. rewrite Z.mod_small; lia. }
  by rewrite (proj2 (Z.leb_le _ _) Hs).
Qed.

(** A configuration file that says null ends the process with status 2. *)
Theorem null_config_exits now cjson version (w : W) :
  ReadConfig getenv abs readFile unmarshalConfig now cjson = inr None →
  main_start now false cjson version w = Exits 2.
Proof. intros Hr. unfold main_start, SetConfig. by rewrite Hr. Qed.

(** A turn of the loop before or at a nil pointer. *)
Lemma reload_next_nil (q : process (W := W) (R := live)) rg j k l :
  live_built l = BuiltConsul None → (j ≤ k)%nat → p_rs q !! k = Some l →
  p_phase (reload_next rg j q) = Exited 1 ∨
  p_phase (reload_next rg j q) = Reloading rg (S j) ∧ (S j ≤ k)%nat
    ∧ p_rs (reload_next rg j q) !! k = Some l.
Proof.
  intros Hnil Hjk Hq. unfold reload_next.
  destruct (lookup_lt_is_Some_2 (p_rs q) j) as [r Hr]; [apply lookup_lt_Some in Hq; lia|].
  rewrite Hr. destruct (decide (j = k)) as [->|Hne].
  - left. rewrite Hq in Hr. injection Hr as <-. cbn. unfold reload_live. by rewrite Hnil.
  - cbn. unfold reload_live. destruct (live_built r) as [|[]]; [right|right|by left];
      (split_and!; [done|lia|cbn; by rewrite list_lookup_insert_ne by lia]).
Qed.

(** A consul resolver with a malformed address is a nil pointer in the list,
    and the reload that reaches it ends the process: from a reload whose turn
    it has not been yet the loop never gets back to its [select], and it can end
    with status 1. *)
Theorem nil_backend_exits (p : process (W := W) (R := live)) rg i k l :
  p_phase p = Reloading rg i → (i ≤ k)%nat → p_rs p !! k = Some l → live_built l = BuiltConsul None →
  (∀ p', rtc (step get unmarshal resolve) p p' → p_phase p' ≠ Running)
  ∧ ∃ p', rtc (step get unmarshal resolve) p p' ∧ p_phase p' = Exited 1.
Proof.
  intros Hph Hik Hk Hnil.
  set (ahead := λ q : process (W := W) (R := live),
    (∃ j, p_phase q = Reloading rg j ∧ (j ≤ k)%nat ∧ p_rs q !! k = Some l) ∨ ∃ c, p_phase q = Exited c).
  pose proof (λ q j, reload_next_nil q rg j k l Hnil) as Hnext.
  split.
  - intros p' Hrun. assert (ahead p') as [(j & -> & _)|[c ->]]; [|done..].
    assert (ahead p) as Ha by (left; by exists i). clear Hph Hik Hk.
    induction Hrun as [|x y z Hxy _ IH]; [done|]. apply IH.
    destruct Ha as [(j & Hj & Hjk & Hq)|[c Hc]].
    + destruct Hxy as [q now Hq'|q now ms Hq'|q rg' j' Hq'|q e ss Hq' Hse|q msg Ht Hq'|q e Hq'];
        try congruence; try (left; by exists j).
      rewrite Hj in Hq'. injection Hq' as <- <-.
      destruct (Hnext q j Hjk Hq) as [?|(? & ? & ?)]; [right; by eexists|left; by exists (S j)].
    + destruct Hxy as [q now Hq'|q now ms Hq'|q rg' j' Hq'|q e ss Hq' Hse|q msg Ht Hq'|q e Hq'];
        try congruence; by destruct (Hq' c).
  - remember (k - i)%nat as n eqn:En. revert p i Hph Hik Hk En.
    induction n as [|n IH]; intros p i Hph Hik Hk En;
      (destruct (Hnext p i Hik Hk) as [Hx|(H1' & H2' & H3')];
        [exists (reload_next rg i p); split; [by apply rtc_once, step_reload|done]|]); [lia|].
    destruct (IH (reload_next rg i p) (S i)) as (p' & Hrun & Hp'); [done..|lia|].
    exists p'. split; [|done]. by eapply rtc_l; [apply step_reload|].
Qed.
End startup.

(** ** A start with the default resolvers *)

Module DemoStart.
Import ConsulDemo.DemoConsul DemoResolvers.

Definition no_agents : ConsulAPI nat := {|
  now := λ _, 0%Z; NewClient := λ _, Some "none"; Self := λ _ w, (None, w);
  Members := λ _ w, (inl [], w); Services := λ _ w, (None, w);
  ServiceRegister := λ _ _ w, (None, w); ServiceDeregister := λ _ _ w, (None, w);
  CheckRegister := λ _ _ w, (None, w); CheckDeregister := λ _ _ w, (None, w) |}.

Definition started : startup (W := nat) :=
  main_start (H2 := no_agents) (λ _, "") Some (λ _, Some [])
    (λ _ c, inl (Some (set_Masters c ["10.0.0.2:5050"]))) (λ _, None) 7 false "config.json" "v" 0%nat.

Definition first_state : process (W := nat) (R := live) :=
  Eval vm_compute in match started with Loops p => p | _ => start (Config.NewConfig 0) [] 0%nat end.

Lemma started_eq : started = Loops first_state.
Proof. vm_compute. reflexivity. Qed.

(** The first masters come, and the reload has reached the resolver. *)
Definition first_reload : process (W := nat) (R := live) :=
  on_changed Loader.Demo.get Loader.Demo.unmarshal (λ _, None) 7 ["10.0.0.2:5050"] first_state.

Definition reloading : process (W := nat) (R := live) :=
  match p_phase first_reload with Reloading rg i => reload_next rg i first_reload | _ => first_reload end.

Lemma process_consistent_witness :
  (∃ rg, p_phase reloading = Reloading rg 1 ∧ Forall (λ r, serves r = rg) (p_rs reloading))
  ∧ consistent (R := live) Loader.Demo.get Loader.Demo.unmarshal reloading.
Proof.
  assert (∃ rg, p_phase first_reload = Reloading rg 0) as [rg Hph] by (eexists; vm_compute; reflexivity).
  assert (consistent (R := live) Loader.Demo.get Loader.Demo.unmarshal reloading) as Hc.
  { refine (process_consistent (H2 := no_agents) _ _ _ _ _ Loader.Demo.get Loader.Demo.unmarshal
      (λ _, None) _ _ _ _ _ _ _ started_eq _).
    eapply rtc_l; [apply step_changed; reflexivity|]. unfold reloading. rewrite Hph.
    apply rtc_once. by apply step_reload. }
  split; [|exact Hc]. destruct Hc as [_ (old & new & i & _ & _ & Ht & _ & Hi)].
  assert (length (p_rs reloading) = 1%nat) as Hlen by (vm_compute; reflexivity).
  assert (∃ rg', p_phase reloading = Reloading rg' 1) as [rg' Hr] by (eexists; vm_compute; reflexivity).
  rewrite Hr in Hi. destruct Hi as [-> ->]. exists rg'. split; [exact Hr|].
  rewrite take_ge in Ht by (rewrite Hlen; done). exact Ht.
Defined.
End DemoStart.
