(* ===== verification/Live.v ===== *)
(** * Answers while the process runs

    The start, the main loop, the generator and the handlers together: what a
    client of a process that was started from a configuration file gets, while
    its requests and the reloads of the records interleave. *)

From S2P Require Import Prelude GoStrings GoNet Labels State Hash Config Store Generator GeneratorSpec.
From S2P Require Import GeneratorProps Loader Dns Exchanger Resolver ResolverProps Main Server EndToEnd.
From S2P Require Import Concurrent Serials ConcurrentProps ConcurrentRuns Merge Consul ConsulAgent Resolvers.
From S2P Require Import ResolversProps Startup.

(** ** Every generation comes from a state *)

Section generated.
Context `{UnicodeTables, MapOrder, Rand} {W : Type}.
Context (get : URL → W → (list ascii + string) * W) (unmarshal : list ascii → State + string).
Context (resolve : string → option IP).
Context (res0 : Resolver) (config0 : Config).

Abbreviation system := (system (W := W)).
Abbreviation step := (sstep get unmarshal resolve).

(** [rg] has the records of its state, under the settings of the start. *)
Definition generated (rg : RecordGenerator) : Prop :=
  ∃ masters now config config',
    InsertState resolve (Domain config0) (hostSpec config0) (rg_State rg) masters
      (IPSources config0) now NewRecordGenerator config = Ret (rg, config', None).

Lemma ParseState_generated now z ms (w : W) rg config' w' :
  ParseState get unmarshal resolve now NewRecordGenerator
    (set_Masters (set_SOASerial config0 z) ms) w = Ret (rg, config', None, w') → generated rg.
Proof.
  intros [([e [=]] & _)|(_ & sj & _ & _ & Hi)]%ParseState_props.
  pose proof (InsertState_props _ _ _ _ _ _ _ _ _ _ _ _ Hi) as (_ & _ & Hst & _).
  exists ms, now, (set_Masters (set_SOASerial config0 z) ms), config'. rewrite Hst. exact Hi.
Qed.

(** All generations but that of the start, and the one that comes next. *)
Record gen_ok (s : system) : Prop := {
  gen_past : ∀ g rg, s_past s !! S g = Some rg → generated rg;
  gen_coming : ∀ rg, coming (s_main s) = Some rg → generated rg;
  gen_some : s_past s ≠ [] }.

Lemma gen_step (s s' : system) :
  step s s' → sys_ok get unmarshal res0 config0 s → gen_ok s → gen_ok s'.
Proof.
  intros [Hi|[s0 req|s0 now ev Hm]] Hs [Hp Hc Hn]; [|by split|].
  - destruct Hi as [| | | | | | | |s rg l Hm Hl|s rg l Hm Hl|s rg Hm|s Hm];
      [by split..| | | |]; rewrite Hm in Hc; split; cbn; try done.
    + intros g rg' Hg. cbn in *. destruct (s_past s) as [|x past] eqn:E; [done|].
      cbn in Hg. apply lookup_app_Some in Hg as [Hg|[_ Hg]]; [by eapply (Hp g)|].
      apply list_lookup_singleton_Some in Hg as [_ <-]. by apply Hc.
    + intros E. by apply app_eq_nil in E as [_ [=]].
  - unfold parse. destruct (ok_config _ _ _ _ _ Hs) as (z & ms & Hcfg & _).
    destruct (ParseState _ _ _ _ _ _ _) as [[[[rg config] [e|]] w]|] eqn:E;
      split; try exact Hp; try exact Hn; try done; cbn.
    + intros ? [= <-]. destruct ev as [|m]; rewrite Hcfg in E.
      * exact (ParseState_generated _ _ _ _ _ _ _ E).
      * exact (ParseState_generated _ z m _ _ _ _ E).
Qed.

Lemma reachable_gen w s :
  res_rg res0 = NewRecordGenerator → rtc step (sys0 res0 config0 w) s → gen_ok s.
Proof.
  intros Hr Hrun. assert (gen_ok (sys0 res0 config0 w)) as Hinit by (split; cbn; [by intros []|done|done]).
  refine (rtc_ind_r (R := step) (λ s, gen_ok s) (sys0 res0 config0 w) Hinit _ s Hrun).
  intros x y Hx Hxy. eapply gen_step; [exact Hxy|]. by eapply reachable_ok.
Qed.

Lemma past_starts w s : rtc step (sys0 res0 config0 w) s → s_past s !! 0%nat = Some (res_rg res0).
Proof.
  intros Hrun.
  refine (rtc_ind_r (R := step) (λ s, s_past s !! 0%nat = Some (res_rg res0)) _ _ _ s Hrun); [done|].
  intros x y _ [[]|[]] Hx; try done; cbn [s_past store]; [by apply lookup_app_l_Some|].
  unfold parse. by destruct (ParseState _ _ _ _ _ _ _) as [[[[??] []] ?]|].
Qed.

(** ** Tasks that run throughout a request *)

(** In the state that [rg] was generated from a task runs on a known slave;
    [name] is its name in the zone and [a] its address. *)
Definition runs_as (rg : RecordGenerator) (name a : string) : Prop :=
  ∃ f t ip ctx fname,
    f ∈ Frameworks (rg_State rg) ∧ t ∈ Tasks f ∧ Task_State t = "TASK_RUNNING"
    ∧ default ∅ (SlaveIPs rg) !! SlaveID t = Some ip
    ∧ published (hostSpec config0) (IPSources config0) t ip ctx
    ∧ DomainFrag (Framework_Name f) Sep (hostSpec config0) = Ret fname
    ∧ name = ctx_taskName ctx +:+ "." +:+ fname +:+ "." +:+ Domain config0 +:+ "."
    ∧ a = task_address t ip (IPSources config0).

Lemma runs_as_has rg name a :
  generated rg → runs_as rg name a → ParseIP a ≠ [] → has rg A name a.
Proof.
  intros (ms & now & c & c' & Hi) (f & t & ip & ctx & fname & Hf & Ht & Hrun & Hip & Hpub & Hfn & -> & ->) Hp.
  destruct (running_task_has _ _ _ _ _ _ _ _ _ _ _ _ f t ip Hi) as (ctx' & fname' & Hpub' & Hfn' & Ha);
    [by unfold hostSpec; destruct (EnforceRFC952 config0)|done..|].
  assert (fname' = fname) as -> by congruence.
  assert (ctx_taskName ctx' = ctx_taskName ctx) as <-; [|by apply Ha].
  pose proof (pub_name _ _ _ _ _ Hpub). pose proof (pub_name _ _ _ _ _ Hpub'). congruence.
Qed.

(** The reply to an A query depends on one generation and on no serial. *)
Lemma respond_A c1 c2 rg network r q qs name a :
  Questions r = q :: qs → Q_Qtype q = TypeA → lookup_name q = name →
  has rg A name a → ParseIP a ≠ [] →
  ∃ m h, respond_between (Reload res0 rg) c1 c2 (DnsQuery network r) = DnsReply m
    ∧ Id m = Id r ∧ Rcode m = RcodeSuccess
    ∧ (Truncated m = true ∨ RR_A h (To4 (ParseIP a)) ∈ Answer m).
Proof.
  intros Hq Hty <- Hhas Hp.
  destruct (A_query_answered (Reload res0 rg) c2 network r CurLog q qs a Hq Hty Hhas Hp)
    as (log' & m & h & Hm & Hprops).
  exists m, h. split; [|done].
  assert (mesos_ask (Reload res0 rg) c1 r q = mesos_ask (Reload res0 rg) c2 r q) as E.
  { unfold mesos_ask, handle_question. by rewrite Hty. }
  transitivity (respond_between (Reload res0 rg) c2 c2 (DnsQuery network r)).
  - cbn. by rewrite Hq, E.
  - rewrite between_alone. cbn -[HandleMesos]. by rewrite Hm.
Qed.

Lemma live_reply w s c resp e network r q qs name a :
  res_rg res0 = NewRecordGenerator → rtc step (sys0 res0 config0 w) s →
  c ∈ s_clients s → c_phase c = Replied resp e →
  c_req c = DnsQuery network r → Questions r = q :: qs → Q_Qtype q = TypeA →
  lookup_name q = name → ParseIP a ≠ [] →
  (∀ g rg, (c_start c ≤ g ≤ e)%nat → s_past s !! g = Some rg → runs_as rg name a) →
  ∃ m h, resp = DnsReply m ∧ Id m = Id r ∧ Rcode m = RcodeSuccess
    ∧ (Truncated m = true ∨ RR_A h (To4 (ParseIP a)) ∈ Answer m).
Proof.
  intros Hr0 Hrun Hc Hph Hreq Hq Hty Hn Hp Hall.
  pose proof (reachable_ok _ _ _ _ _ w s Hr0 Hrun) as Hs. pose proof (reachable_gen w s Hr0 Hrun) as Hg.
  pose proof (proj1 (Forall_forall _ _) (ok_clients _ _ _ _ _ Hs) c Hc) as [_ Hok]. rewrite Hph in Hok.
  destruct Hok as (g & rg & j1 & z1 & j2 & z2 & Hge & _ & Hrg & _ & _ & _ & _ & ->).
  rewrite Hreq. specialize (Hall g rg Hge Hrg).
  eapply respond_A; [done..| |done]. apply runs_as_has; [|done..].
  destruct g as [|g]; [|by eapply (gen_past s Hg g)].
  assert (rg = NewRecordGenerator) as ->; [|by destruct Hall as (f & ? & ? & ? & ? & Hf%elem_of_nil & _)].
  rewrite (past_starts w s Hrun) in Hrg. congruence.
Qed.
End generated.

(** ** From the start to an answer *)

Section live.
Context {W : Type} `{UnicodeTables, FloatConv, MapOrder, Rand, ConsulAPI W}.
Context (getenv : string → string) (abs : string → option string)
        (readFile : string → option (list ascii))
        (unmarshalConfig : list ascii → Config → option Config + string)
        (detect : string → error).
Context (get : URL → W → (list ascii + string) * W) (unmarshal : list ascii → State + string).
Context (resolve : string → option IP).

(** C1: a client of a process that was started with the builtin resolver and
    that asks for a task by its name gets its address: if the task runs, at
    this address, in every state whose records were current while the request
    was served, then the reply succeeds and holds the address unless it is
    truncated, however the steps of this request, of other requests and of
    reloads interleave. *)
Theorem live_task_resolves now versionFlag cjson version (w : W) config l w0 res ss
    s c resp e network r q qs name a :
  main_start getenv abs readFile unmarshalConfig detect now versionFlag cjson version w
    = Loops (start config [l] w0) →
  live_built l = BuiltBuiltin res ss →
  rtc (sstep get unmarshal resolve) (sys0 res config w0) s →
  c ∈ s_clients s → c_phase c = Replied resp e →
  c_req c = DnsQuery network r → Questions r = q :: qs → Q_Qtype q = TypeA →
  lookup_name q = name → ParseIP a ≠ [] →
  (∀ g rg, (c_start c ≤ g ≤ e)%nat → s_past s !! g = Some rg → runs_as config rg name a) →
  ∃ m h, resp = DnsReply m ∧ Id m = Id r ∧ Rcode m = RcodeSuccess
    ∧ (Truncated m = true ∨ RR_A h (To4 (ParseIP a)) ∈ Answer m).
Proof.
  intros (config' & rs & w' & Hst & Hrs & _)%main_start_serves Hl. injection Hst as <- <- <-.
  apply Forall_cons_1 in Hrs as [[Hserves _] _]. cbn in Hserves. unfold serves_live in Hserves.
  rewrite Hl in Hserves. by eapply live_reply.
Qed.
End live.

(** ** A task that is asked for while the process runs *)

Module DemoLive.
Import DemoStart ConcurrentRuns.DemoConcurrent DemoZone.
#[local] Instance ascii_tables : UnicodeTables := {| unicode_ToLower := λ s, s |}.

(** The leader answers with the state of the running task. *)
Definition cluster (_ : list ascii) : State + string := inl demo_state.

Definition resolver : Resolver :=
  {| res_version := "v"; res_config := Builtin.NewConfig; res_rg := NewRecordGenerator |}.

Definition settings : Config := Eval vm_compute in p_config first_state.

(** One reload, and then a query. *)
Definition served : system (W := nat) :=
  default (sys0 resolver settings 0%nat)
    (exec_all Loader.Demo.get cluster (λ _, None) (sys0 resolver settings 0%nat)
      ([Event 7 Tick; Loop; Loop; Loop; Loop; Request (DnsQuery "udp" (query "NGINX.Marathon.mesos." TypeA))]
       ++ replicate 5 (Client 0))).

Lemma served_run : rtc (sstep Loader.Demo.get cluster (λ _, None)) (sys0 resolver settings 0%nat) served.
Proof.
  unfold served. destruct (exec_all _ _ _ _ _) as [s|] eqn:E; cbn; [|done]. by eapply exec_all_sound.
Qed.

(** The query came when the generation of the reload was current, and so it
    was when the reply was sent. *)
Example served_phases :
  (λ c, (c_req c, c_start c, snd <$> dns_reply c)) <$> s_clients served
  = [(DnsQuery "udp" (query "NGINX.Marathon.mesos." TypeA), 1%nat, Some 1%nat)].
Proof. vm_compute. reflexivity. Qed.

Definition task : Task := demo_task "nginx.1" "TASK_RUNNING".

Lemma served_task rg :
  s_past served !! 1%nat = Some rg → runs_as settings rg "nginx.marathon.mesos." "10.0.0.5".
Proof.
  intros Hrg. pose proof (gen_past _ _ _ (reachable_gen _ _ _ resolver settings 0%nat served
    eq_refl served_run) 0 rg Hrg) as (ms & now & c & c' & Hi).
  assert (rg_State rg = demo_state ∧ default ∅ (SlaveIPs rg) !! SlaveID task = Some "10.0.0.5") as [Hst Hip].
  { assert ((λ rg, (rg_State rg, default ∅ (SlaveIPs rg) !! SlaveID task)) <$> s_past served !! 1%nat
      = Some (demo_state, Some "10.0.0.5")) as Hs by (vm_compute; reflexivity).
    rewrite Hrg in Hs. apply (inj Some) in Hs. exact (conj (f_equal fst Hs) (f_equal snd Hs)). }
  destruct (running_task_has _ _ _ _ _ _ _ _ _ _ _ _ demo_framework task "10.0.0.5" Hi)
    as (ctx & fname & Hp & Hf & _); [done|by rewrite Hst; left|by left|done|done|].
  exists demo_framework, task, "10.0.0.5", ctx, fname.
  split_and!; [by rewrite Hst; left|by left|done|done|done|done| |by vm_compute].
  assert (RFC1123 "nginx" = Ret "nginx") as E by (vm_compute; reflexivity).
  pose proof (pub_name _ _ _ _ _ Hp) as E'. change (RFC1123 "nginx" = Ret (ctx_taskName ctx)) in E'.
  assert (DomainFrag "Marathon" Sep RFC1123 = Ret "marathon") as F by (vm_compute; reflexivity).
  change (DomainFrag "Marathon" Sep RFC1123 = Ret fname) in Hf.
  replace (ctx_taskName ctx) with "nginx" by congruence. by replace fname with "marathon" by congruence.
Qed.

Lemma served_client : ∃ c resp,
  s_clients served = [c] ∧ c_phase c = Replied resp 1
  ∧ c_req c = DnsQuery "udp" (query "NGINX.Marathon.mesos." TypeA) ∧ c_start c = 1%nat.
Proof.
  generalize served_phases. generalize (s_clients served) as l. intros [|c [|]] [=]. exists c.
  unfold dns_reply in *. destruct (c_phase c) as [| | | | |[m| | | |] e]; simplify_eq/=. by exists (DnsReply m).
Qed.

Lemma live_task_resolves_witness :
  ∃ c m e h, c ∈ s_clients served ∧ c_phase c = Replied (DnsReply m) e ∧ Rcode m = RcodeSuccess
    ∧ (Truncated m = true ∨ RR_A h [10; 0; 0; 5]%Z ∈ Answer m).
Proof.
  destruct served_client as (c & resp & Hc & Hph & Hreq & Hst).
  assert (c ∈ s_clients served) as Hin by (rewrite Hc; left).
  destruct (live_task_resolves (H3 := no_agents) _ _ _ _ _ Loader.Demo.get cluster (λ _, None)
    _ _ _ _ _ settings _ 0%nat resolver [ServeDNS; ServeHTTP] served c resp 1 "udp" (query "NGINX.Marathon.mesos." TypeA)
    {| Q_Name := "NGINX.Marathon.mesos."; Q_Qtype := TypeA; Q_Qclass := ClassINET |} []
    "nginx.marathon.mesos." "10.0.0.5" started_eq) as (m & h & -> & _ & Hrc & Ha).
  - reflexivity.
  - exact served_run.
  - exact Hin.
  - exact Hph.
  - exact Hreq.
  - reflexivity.
  - reflexivity.
  - vm_compute. reflexivity.
  - vm_compute. discriminate.
  - intros g rg Hg Hrg. assert (g = 1%nat) as -> by lia. exact (served_task rg Hrg).
  - exists c, m, 1%nat, h. exact (conj Hin (conj Hph (conj Hrc Ha))).
Defined.
End DemoLive.
