(* ===== verification/Bench.v ===== *)
(** * The load generator (src/tools/main.go)

    [main] starts a goroutine for every query and ends; when it ends, so does
    the process, with all goroutines that are still there.  The exchange with
    the server is the argument [exchange]: it acts on a world [W] and returns
    an error or none.  The run is a transition system. *)

From S2P Require Import Prelude GoStrings GoNet Labels State Config Store Dns Exchanger Resolver ResolverProps Server.

Definition nameserver : string := "127.0.0.1:8053".

(** The message of [query]: all fields but the question have the zero value,
    the identifier too. *)
Definition query_msg (dom : string) : Msg :=
  {| Id := Id Msg0; Response := Response Msg0; Opcode := Opcode Msg0;
     Authoritative := Authoritative Msg0; Truncated := Truncated Msg0;
     RecursionDesired := RecursionDesired Msg0; RecursionAvailable := RecursionAvailable Msg0;
     Zero := Zero Msg0; AuthenticatedData := AuthenticatedData Msg0;
     CheckingDisabled := CheckingDisabled Msg0; Rcode := Rcode Msg0; Compress := Compress Msg0;
     Questions := [{| Q_Name := Fqdn dom; Q_Qtype := TypeA; Q_Qclass := ClassINET |}];
     Answer := []; Ns := []; Extra := [] |}.

Section bench.
Context {W : Type} (exchange : string → Msg → string → W → error * W).

(** [query]: the world after it and what it prints. *)
Definition query (dom : string) (w : W) : W * list string :=
  let '(err, w) := exchange "udp" (query_msg dom) nameserver w in
  (w, match err with Some e => [e] | None => [] end).

Definition cnt : nat := 10000.

(** [b_i]: the turns of the loop; [b_waiting]: the goroutines that have been
    started and have not made their query; [b_made]: the queries made;
    [b_done]: [main] has returned. *)
Record bench := {
  b_i : nat; b_waiting : nat; b_made : nat; b_printed : list string; b_world : W; b_done : bool }.

Definition bench0 (w : W) : bench :=
  {| b_i := 0; b_waiting := 0; b_made := 0; b_printed := []; b_world := w; b_done := false |}.

(** [go query("bob.mesos")] *)
Definition spawn (b : bench) : bench :=
  {| b_i := S (b_i b); b_waiting := S (b_waiting b); b_made := b_made b; b_printed := b_printed b;
     b_world := b_world b; b_done := b_done b |}.

Definition run_query (b : bench) : bench :=
  let '(w, out) := query "bob.mesos" (b_world b) in
  {| b_i := b_i b; b_waiting := pred (b_waiting b); b_made := S (b_made b);
     b_printed := b_printed b ++ out; b_world := w; b_done := b_done b |}.

(** The two log lines, and the end. *)
Definition finish (b : bench) : bench :=
  {| b_i := b_i b; b_waiting := b_waiting b; b_made := b_made b; b_printed := b_printed b;
     b_world := b_world b; b_done := true |}.

Inductive bench_step : bench → bench → Prop :=
| b_spawn b : b_done b = false → (b_i b < cnt)%nat → bench_step b (spawn b)
| b_query b : b_done b = false → (0 < b_waiting b)%nat → bench_step b (run_query b)
| b_finish b : b_done b = false → b_i b = cnt → bench_step b (finish b).

(** ** Properties *)

#[local] Opaque cnt.

(** Every goroutine makes one query: those that were started are those that
    wait and those that are done. *)
Lemma bench_counts w b :
  rtc bench_step (bench0 w) b → b_i b = (b_waiting b + b_made b)%nat ∧ (b_i b ≤ cnt)%nat.
Proof.
  intros Hrun. refine (rtc_ind_r (R := bench_step)
    (λ b, b_i b = (b_waiting b + b_made b)%nat ∧ (b_i b ≤ cnt)%nat) _ _ _ b Hrun);
    [split; [done|apply Nat.le_0_l]|].
  intros x y _ [c Hd Hi|c Hd Hw|c Hd Hi] [IH1 IH2]; [cbn; lia| |by split].
  unfold run_query. destruct (query _ _). cbn. lia.
Qed.

(** The steps that are left. *)
Definition bench_work (b : bench) : nat :=
  if b_done b then 0 else 2 * (cnt - b_i b) + b_waiting b + 1.

Lemma bench_step_work b b' : bench_step b b' → (bench_work b' < bench_work b)%nat.
Proof.
  unfold bench_work. intros [c Hd Hi|c Hd Hw|c Hd Hi]; rewrite Hd.
  - cbn. rewrite Hd. lia.
  - unfold run_query. destruct (query _ _). cbn. rewrite Hd. lia.
  - cbn. lia.
Qed.

(** Every run ends, after at most [2 * cnt + 1] steps, with all queries
    started. *)
Theorem bench_ends w n b :
  nsteps bench_step n (bench0 w) b →
  (n ≤ 2 * cnt + 1)%nat ∧ ((∃ b', bench_step b b') ∨ (b_done b = true ∧ b_i b = cnt)).
Proof.
  intros Hn. split.
  - assert (n + bench_work b ≤ bench_work (bench0 w))%nat as Hle.
    { induction Hn as [|n x y z Hxy _ IH]; [lia|]. apply bench_step_work in Hxy. lia. }
    change (bench_work (bench0 w)) with (2 * (cnt - 0) + 0 + 1)%nat in Hle. lia.
  - apply rtc_nsteps_2 in Hn as Hrun. destruct (bench_counts w b Hrun) as [_ Hi].
    destruct (b_done b) eqn:Hd.
    + right. split; [done|]. clear -Hrun Hd. revert Hd.
      refine (rtc_ind_r (R := bench_step) (λ b, b_done b = true → b_i b = cnt) _ _ _ b Hrun); [done|].
      intros x y _ [c Hd Hi|c Hd Hw|c Hd Hi] _; cbn; [congruence| |done].
      unfold run_query. destruct (query _ _). cbn. congruence.
    + left. destruct (decide (b_i b = cnt)); [exists (finish b); by constructor|].
      exists (spawn b). constructor; [done|lia].
Qed.

(** [main] does not wait for its goroutines: whatever the server does, the
    process can end before it has made a single query, and prints a rate for
    all of them. *)
Theorem bench_may_ask_nothing w :
  ∃ b, rtc bench_step (bench0 w) b ∧ b_done b = true ∧ b_made b = 0%nat ∧ b_world b = w.
Proof.
  assert (∀ k, (k ≤ cnt)%nat → ∃ b, rtc bench_step (bench0 w) b
    ∧ b_i b = k ∧ b_done b = false ∧ b_made b = 0%nat ∧ b_world b = w) as Hk.
  { induction k as [|k IH]; intros Hle; [by exists (bench0 w)|].
    destruct IH as (b & Hb & Hi & Hd & Hm & Hw); [lia|]. exists (spawn b).
    split; [eapply rtc_r; [exact Hb|constructor; [done|lia]]|]. cbn. by rewrite Hi. }
  destruct (Hk cnt) as (b & Hb & Hi & Hd & Hm & Hw); [done|].
  exists (finish b). split; [eapply rtc_r; [exact Hb|by constructor]|done].
Qed.
End bench.

(** A server for the domain mesos answers the query from its records. *)
Lemma bench_query_routed :
  in_zone "mesos" "bob.mesos." = true ∧ Q_Name <$> Questions (query_msg "bob.mesos") = ["bob.mesos."].
Proof. split; vm_compute; reflexivity. Qed.
