(* ===== verification/FakeCluster.v ===== *)
(** * The cluster of the repository's tests (src/factories/fake.json)

    The state that the tests of the generator and of the resolver run on, with
    every field that the decoder of the state reads, and what the tests expect
    of it.  A time stamp is the nearest 64-bit floating-point number. *)

From Corelib Require Import SpecFloat.
From S2P Require Import Prelude GoStrings GoNet Labels State Config Store Generator.

Definition lab (k v : string) : Label := {| Label_Key := k; Label_Value := v |}.

Definition status (ts : spec_float) (state : string) (labels : list Label) : Status :=
  {| Timestamp := ts; Status_State := state; Status_Labels := labels;
     Status_ContainerStatus := {| NetworkInfos := [] |} |}.

Definition port (protocol : string) (number : Z) (name : string) : DiscoveryPort :=
  {| DiscoveryPort_Protocol := protocol; DiscoveryPort_Number := number;
     DiscoveryPort_Name := name |}.

Definition no_discovery : DiscoveryInfo :=
  {| Visibilty := ""; DiscoveryInfo_Version := ""; DiscoveryInfo_Name := ""; Location := "";
     Environment := ""; DiscoveryInfo_Labels := []; DiscoveryPorts := [] |}.

Definition task (framework id name slave state : string) (statuses : list Status) (ports : string)
    (discovery : DiscoveryInfo) : Task :=
  {| FrameworkID := framework; Task_ID := id; Task_Name := name; SlaveID := slave;
     Task_State := state; Statuses := statuses; Task_Resources := {| PortRanges := ports |};
     Task_DiscoveryInfo := discovery; SlaveIP := ""; Task_Labels := [] |}.

Definition pid (s : string) : PID := (upid_Parse (λ _, None) s).1.

Definition task1 : Task :=
  task "20140703-014514-3041283216-5050-5348-000" "some-box.b8db9f73-562f-11e4-a088-c20493233aa5"
    "some-box" "20140803-125133-3041283216-5050-2410-0" "TASK_RUNNING"
    [status (S754_finite false 5928952330055582 (-22)) "TASK_RUNNING" []]
    "[31354-31354]"
    no_discovery.

Definition task2 : Task :=
  task "20140703-014514-3041283216-5050-5348-0000" "poseidon.bc4e3796-2d7a-11e4-b8df-d43d7edb01cd"
    "poseidon.bc4e3796-2d7a-11e4-b8df-d43d7edb01cd" "20140803-125133-3041283216-5050-2410-0" "TASK_KILLED"
    [status (S754_finite false 5910179500267038 (-22)) "TASK_RUNNING" [lab "foo" "bar"]]
    "[31112-31112]"
    no_discovery.

Definition task3 : Task :=
  task "20140703-014514-3041283216-5050-5348-0000" "liquor-store.b8db9f73-562f-11e4-a088-c20493233aa5"
    "liquor.store" "20140803-125133-3041283216-5050-2410-0" "TASK_RUNNING"
    [status (S754_finite false 5928952250156020 (-22)) "TASK_RUNNING" [lab "foo" "bar"; lab "Docker.NetworkSettings.IPAddress" "10.3.0.4"];
     status (S754_finite false 5928952330055582 (-22)) "TASK_RUNNING" [lab "foo" "bar"; lab "Docker.NetworkSettings.IPAddress" "10.3.0.1"];
     status (S754_finite false 5928952291969414 (-22)) "TASK_RUNNING" [lab "foo" "bar"; lab "container-ip" ""];
     status (S754_finite false 5928952287775278 (-22)) "TASK_STARTING" []]
    "[31354-31354, 31355-31355]"
    {| Visibilty := "CLUSTER"; DiscoveryInfo_Version := "1.0"; DiscoveryInfo_Name := "liquor.store";
         Location := "europe"; Environment := "prod";
         DiscoveryInfo_Labels := [lab "dc" "de1"; lab "canary" "Teneriffa"];
         DiscoveryPorts := [port "tcp" 80 "http"; port "tcp" 443 "https"] |}.

Definition task4 : Task :=
  task "20140703-014514-3041283216-5050-5348-0000" "liquor-store.b8db9f73-562f-11e4-a088-c20493233aa5"
    "big.dog2" "20140803-125133-3041283216-5050-2410-0" "TASK_RUNNING"
    [status (S754_finite false 5928952250156020 (-22)) "TASK_RUNNING" [lab "foo" "bar"; lab "Docker.NetworkSettings.IPAddress" "10.3.0.4"];
     status (S754_finite false 5928952330055582 (-22)) "TASK_RUNNING" [lab "foo" "bar"; lab "Docker.NetworkSettings.IPAddress" "10.3.0.1"];
     status (S754_finite false 5928952291969414 (-22)) "TASK_RUNNING" [lab "foo" "bar"; lab "container-ip" ""];
     status (S754_finite false 5928952287775278 (-22)) "TASK_STARTING" []]
    "[31354-31354, 31355-31355]"
    {| Visibilty := "CLUSTER"; DiscoveryInfo_Version := "1.0"; DiscoveryInfo_Name := "big.dog";
         Location := "europe"; Environment := "prod";
         DiscoveryInfo_Labels := [lab "dc" "de1"; lab "canary" "Teneriffa"];
         DiscoveryPorts := [port "tcp" 80 "http"; port "tcp" 443 "https"] |}.

Definition task5 : Task :=
  task "20140703-014514-3041283216-5050-5348-0000" "liquor-store.b71166c1-562f-11e4-a088-c20493233aa5"
    "non-human-readable-liquor-store" "20140827-000744-3041283216-5050-2116-1" "TASK_RUNNING"
    [status (S754_finite false 5928952300497650 (-22)) "TASK_RUNNING" [lab "foo" "bar"; lab "Docker.NetworkSettings.IPAddress" "10.3.0.2"]]
    "[31737-31738]"
    {| Visibilty := "CLUSTER"; DiscoveryInfo_Version := "1.0"; DiscoveryInfo_Name := "liquor.store";
         Location := "europe"; Environment := "prod";
         DiscoveryInfo_Labels := [lab "dc" "de1"; lab "canary" "Lanzarote"];
         DiscoveryPorts := [port "tcp" 80 "http"; port "tcp" 443 "https"] |}.

Definition task6 : Task :=
  task "20140703-014514-3041283216-5050-5348-0000" "car-store.43758382-562f-11e4-a088-c20493233aa5"
    "car.store" "20140803-125133-3041283216-5050-2410-0" "TASK_RUNNING"
    [status (S754_finite false 5928951209968628 (-22)) "TASK_RUNNING" []]
    "[31364-31364, 31365-31365]"
    no_discovery.

Definition task7 : Task :=
  task "20140703-014514-3041283216-5050-5348-0000" "chronos.49b91a9a-3dda-11e4-a088-c20493233aa5"
    "chronos" "20140803-125133-3041283216-5050-2410-0" "TASK_RUNNING"
    [status (S754_finite false 5917730324922289 (-22)) "TASK_RUNNING" []]
    "[31332-31332]"
    no_discovery.

Definition task8 : Task :=
  task "20140703-014514-3041283216-5050-5348-0000" "nginx.1bc32344-3dda-11e4-a088-c20493233aa5"
    "nginx" "20140803-125133-3041283216-5050-2410-0" "TASK_RUNNING"
    [status (S754_finite false 5917730324922289 (-22)) "TASK_RUNNING" [lab "MesosContainerizer.NetworkSettings.IPAddress" "10.3.0.3"]]
    "[]"
    no_discovery.

Definition task9 : Task :=
  task "20140703-014514-3041283216-5050-5348-0000" "reviewbot.8c9b3434-615a-11e4-a088-c20493233aa5"
    "reviewbot" "20140827-000744-3041283216-5050-2116-1" "TASK_RUNNING"
    [status (S754_finite false 5934102252756559 (-22)) "TASK_RUNNING" []]
    "[31744-31744]"
    no_discovery.

Definition fake (leader : string) : State :=
  {| Frameworks :=
      [{| Tasks := [task1]; Framework_PID := (pid "scheduler(2)@1.2.3.12:25501");
         Framework_Name := "chronos with a space AND MIXED CASE-2.0.1";
         Framework_Hostname := "localhost"; Framework_Active := true |};
       {| Tasks := []; Framework_PID := None;
         Framework_Name := "no pid";
         Framework_Hostname := "localhost"; Framework_Active := true |};
       {| Tasks := [task2; task3; task4; task5; task6; task7; task8; task9]; Framework_PID := (pid "scheduler(1)@1.2.3.11:25501");
         Framework_Name := "marathon";
         Framework_Hostname := "google.com"; Framework_Active := true |}];
     Slaves :=
      [{| Slave_ID := "20140916-194712-631065744-5050-4798-2"; Slave_Hostname := "1.2.3.10";
         Slave_PID := pid "slave(1)@1.2.3.10:5051"; Attrs := {| DC := ""; Master := ""; Rack := "" |};
         Slave_Active := false |};
       {| Slave_ID := "20140803-125133-3041283216-5050-2410-0"; Slave_Hostname := "1.2.3.11";
         Slave_PID := pid "slave(1)@1.2.3.11:5051"; Attrs := {| DC := ""; Master := ""; Rack := "" |};
         Slave_Active := false |};
       {| Slave_ID := "20140827-000744-3041283216-5050-2116-1"; Slave_Hostname := "1.2.3.12";
         Slave_PID := pid "slave(1)@1.2.3.12:5051"; Attrs := {| DC := ""; Master := ""; Rack := "" |};
         Slave_Active := false |}];
     Leader := leader |}.

(** ** TestInsertState (src/records/generator_test.go) *)

#[local] Instance ascii_tables : UnicodeTables := {| unicode_ToLower := λ s, s |}.

(** [testRecordGenerator] *)
Definition test_generator (srcs : list string) : go RecordGenerator :=
  (λ r, r.1.1) <$>
  InsertState (λ _, None) "mesos" RFC952 (fake "master@144.76.157.37:5050") ["144.76.157.37:5050"]
    srcs 0 NewRecordGenerator (NewConfig 0).

(** A row of the table: the hosts of a name are those that are wanted. *)
Definition row (store : RecordGenerator → option rrs) (rg : RecordGenerator) (r : string * list string) :
    bool :=
  bool_decide (default ∅ (default ∅ (store rg) !! r.1) = list_to_set r.2).

Definition passes (srcs : list string) (as_rows srv_rows : list (string * list string)) : bool :=
  match test_generator srcs with
  | Ret rg => forallb (row As rg) as_rows && forallb (row SRVs rg) srv_rows
  | Panic _ => false
  end.

Example TestInsertState :
  passes ["docker"; "mesos"; "host"]
    [("big-dog.marathon.mesos.", ["10.3.0.1"]);
     ("liquor-store.marathon.mesos.", ["10.3.0.1"; "10.3.0.2"]);
     ("liquor-store.marathon.slave.mesos.", ["1.2.3.11"; "1.2.3.12"]);
     ("car-store.marathon.slave.mesos.", ["1.2.3.11"]);
     ("nginx.marathon.mesos.", ["10.3.0.3"]);
     ("poseidon.marathon.mesos.", []);
     ("poseidon.marathon.slave.mesos.", []);
     ("master.mesos.", ["144.76.157.37"]);
     ("master0.mesos.", ["144.76.157.37"]);
     ("leader.mesos.", ["144.76.157.37"]);
     ("slave.mesos.", ["1.2.3.10"; "1.2.3.11"; "1.2.3.12"]);
     ("some-box.chronoswithaspaceandmixe.mesos.", ["1.2.3.11"]);
     ("marathon.mesos.", ["1.2.3.11"])]
    [("_big-dog._tcp.marathon.mesos.",
        ["big-dog-4dfjd-0.marathon.mesos.:80"; "big-dog-4dfjd-0.marathon.mesos.:443"]);
     ("_poseidon._tcp.marathon.mesos.", []);
     ("_leader._tcp.mesos.", ["leader.mesos.:5050"]);
     ("_liquor-store._tcp.marathon.mesos.",
        ["liquor-store-4dfjd-0.marathon.mesos.:80"; "liquor-store-4dfjd-0.marathon.mesos.:443";
         "liquor-store-zasmd-1.marathon.mesos.:80"; "liquor-store-zasmd-1.marathon.mesos.:443"]);
     ("_liquor-store._udp.marathon.mesos.", []);
     ("_liquor-store.marathon.mesos.", []);
     ("_https._liquor-store._tcp.marathon.mesos.",
        ["liquor-store-4dfjd-0.marathon.mesos.:443"; "liquor-store-zasmd-1.marathon.mesos.:443"]);
     ("_http._liquor-store._tcp.marathon.mesos.",
        ["liquor-store-4dfjd-0.marathon.mesos.:80"; "liquor-store-zasmd-1.marathon.mesos.:80"]);
     ("_car-store._tcp.marathon.mesos.",
        ["car-store-zinaz-0.marathon.slave.mesos.:31364";
         "car-store-zinaz-0.marathon.slave.mesos.:31365"]);
     ("_car-store._udp.marathon.mesos.",
        ["car-store-zinaz-0.marathon.slave.mesos.:31364";
         "car-store-zinaz-0.marathon.slave.mesos.:31365"]);
     ("_slave._tcp.mesos.", ["slave.mesos.:5051"]);
     ("_framework._tcp.marathon.mesos.", ["marathon.mesos.:25501"])]
  = true.
Proof. vm_compute. reflexivity. Qed.

(** The rows for the other sources of addresses: task, task on the slave,
    nginx, car-store. *)
Definition by_source (liquor : list string) (nginx : string) : list (string * list string) :=
  [("liquor-store.marathon.mesos.", liquor);
   ("liquor-store.marathon.slave.mesos.", ["1.2.3.11"; "1.2.3.12"]);
   ("nginx.marathon.mesos.", [nginx]);
   ("car-store.marathon.slave.mesos.", ["1.2.3.11"])].

Example TestInsertState_slave :
  passes ["host"] (by_source ["1.2.3.11"; "1.2.3.12"] "1.2.3.11") [] = true.
Proof. vm_compute. reflexivity. Qed.
Example TestInsertState_mesos :
  passes ["mesos"; "host"] (by_source ["1.2.3.11"; "1.2.3.12"] "10.3.0.3") [] = true.
Proof. vm_compute. reflexivity. Qed.
Example TestInsertState_docker :
  passes ["docker"; "host"] (by_source ["10.3.0.1"; "10.3.0.2"] "1.2.3.11") [] = true.
Proof. vm_compute. reflexivity. Qed.
