(* ===== verification/Dnstest.v ===== *)
(** * The test helpers (src/dnstest), and the repository's tests of the handlers

    Messages are built from options; a recorder keeps the message that a
    handler writes.  The tests of the resolver (resolver_test.go) run on the
    generation of the cluster of FakeCluster.v. *)

From S2P Require Import Prelude GoStrings GoNet Labels State Config Store Generator Dns Exchanger.
From S2P Require Import Resolver FakeCluster.

(** ** message.go *)

Module Dnstest.
Definition MsgOpt : Type := Msg → Msg.

Definition Message (opts : list MsgOpt) : Msg := foldl (λ m opt, opt m) Msg0 opts.

Definition Header (auth : bool) (rcode : Z) : MsgOpt := λ m,
  {| Id := Id m; Response := true; Opcode := Opcode m; Authoritative := auth;
     Truncated := Truncated m; RecursionDesired := RecursionDesired m;
     RecursionAvailable := RecursionAvailable m; Zero := Zero m;
     AuthenticatedData := AuthenticatedData m; CheckingDisabled := CheckingDisabled m;
     Rcode := rcode; Compress := true;
     Questions := Questions m; Answer := Answer m; Ns := Ns m; Extra := Extra m |}.

(** [SetQuestion] draws the identifier at random: it is an argument. *)
Definition Question (id : Z) (name : string) (qtype : Z) : MsgOpt := λ m,
  {| Id := id; Response := Response m; Opcode := Opcode m; Authoritative := Authoritative m;
     Truncated := Truncated m; RecursionDesired := true;
     RecursionAvailable := RecursionAvailable m; Zero := Zero m;
     AuthenticatedData := AuthenticatedData m; CheckingDisabled := CheckingDisabled m;
     Rcode := Rcode m; Compress := Compress m;
     Questions := [{| Q_Name := name; Q_Qtype := qtype; Q_Qclass := ClassINET |}];
     Answer := Answer m; Ns := Ns m; Extra := Extra m |}.

Definition Answers (rrs : list RR) : MsgOpt := λ m, set_Answer m (Answer m ++ rrs).
Definition NSs (rrs : list RR) : MsgOpt := λ m, set_Ns m (Ns m ++ rrs).
Definition Extras (rrs : list RR) : MsgOpt := λ m, set_Extra m (Extra m ++ rrs).

Definition RRHeader (name : string) (rrtype ttl : Z) : RR_Header :=
  {| Hdr_Name := name; Hdr_Rrtype := rrtype; Hdr_Class := ClassINET; Hdr_Ttl := ttl |}.

Definition A (hdr : RR_Header) (ip : IP) : RR := RR_A hdr (To4 ip).

Definition SRV (hdr : RR_Header) (target : string) (port priority weight : Z) : RR :=
  RR_SRV hdr priority weight port target.

Definition NS (hdr : RR_Header) (ns : string) : RR := RR_NS hdr ns.

Definition SOA (hdr : RR_Header) (ns mbox : string) (minttl : Z) : RR :=
  RR_SOA hdr ns mbox 0 60 600 86400 minttl.

(** ** response_recorder.go *)

(** The addresses are [net.IPAddr], whose network is "ip". *)
Record ResponseRecorder := { Local : IP; Remote : IP; RecordedMsg : option Msg }.

Definition Network (_ : IP) : string := "ip".

Definition LocalAddr (r : ResponseRecorder) : IP := Local r.
Definition RemoteAddr (r : ResponseRecorder) : IP := Remote r.

Definition WriteMsg (r : ResponseRecorder) (m : Msg) : ResponseRecorder * error :=
  ({| Local := Local r; Remote := Remote r; RecordedMsg := Some m |}, None).

(** The methods that are not implemented do nothing. *)
Definition Write (r : ResponseRecorder) (_ : list ascii) : ResponseRecorder * (Z * error) := (r, (0%Z, None)).
Definition Close (r : ResponseRecorder) : ResponseRecorder * error := (r, None).
Definition TsigStatus (_ : ResponseRecorder) : error := None.
Definition TsigTimersOnly (r : ResponseRecorder) (_ : bool) : ResponseRecorder := r.
Definition Hijack (r : ResponseRecorder) : ResponseRecorder := r.

(** A message that is built shows exactly its options: the sections hold the
    records in the order of the options, and the code is the last one. *)
Lemma Message_parts id name qtype auth rcode an ns ex :
  let m := Message [Question id name qtype; Header auth rcode; Answers an; NSs ns; Extras ex] in
  Answer m = an ∧ Ns m = ns ∧ Extra m = ex ∧ Rcode m = rcode ∧ Truncated m = false
  ∧ Questions m = [{| Q_Name := name; Q_Qtype := qtype; Q_Qclass := ClassINET |}].
Proof. by split_and!. Qed.
End Dnstest.

(** ** TestHandlers (src/resolvers/builtin/resolver_test.go) *)

Module TestHandlers.
Import Dnstest.

#[local] Instance ascii_tables : UnicodeTables := {| unicode_ToLower := λ s, s |}.
#[local] Instance some_order : MapOrder.
Proof. refine {| order := λ _ s, elements s |}. done. Defined.
#[local] Instance some_rand : Rand.
Proof. refine {| intn := λ _ n, n - 1 |}. intros; lia. Defined.

#[local] Instance RR_Header_eq_dec : EqDecision RR_Header.
Proof. solve_decision. Defined.
#[local] Instance RR_eq_dec : EqDecision RR.
Proof. solve_decision. Defined.
#[local] Instance Question_eq_dec : EqDecision Dns.Question.
Proof. solve_decision. Defined.

(** Messages with the same header and question and the same records, in any
    order. *)
Definition equivalent (m other : Msg) : bool :=
  bool_decide (Id m = Id other ∧ Response m = Response other ∧ Opcode m = Opcode other
    ∧ Authoritative m = Authoritative other ∧ Truncated m = Truncated other
    ∧ RecursionDesired m = RecursionDesired other
    ∧ RecursionAvailable m = RecursionAvailable other ∧ Zero m = Zero other
    ∧ AuthenticatedData m = AuthenticatedData other
    ∧ CheckingDisabled m = CheckingDisabled other ∧ Rcode m = Rcode other
    ∧ Compress m = Compress other ∧ Questions m = Questions other)
  && bool_decide (Ns m ≡ₚ Ns other) && bool_decide (Answer m ≡ₚ Answer other)
  && bool_decide (Extra m ≡ₚ Extra other).

(** [fakeDNS] *)
Definition test_config : Config := set_SOASerial (NewConfig 0) 0.

Definition builtin_config : Builtin.Config :=
  let c := Builtin.NewConfig in
  {| Builtin.DNSOn := Builtin.DNSOn c; Builtin.ExternalOn := Builtin.ExternalOn c;
     Builtin.HTTPOn := Builtin.HTTPOn c; Builtin.HTTPPort := Builtin.HTTPPort c;
     Builtin.HTTPListener := Builtin.HTTPListener c; Builtin.Listener := Builtin.Listener c;
     Builtin.Port := Builtin.Port c; Builtin.RecurseOn := false;
     Builtin.ExternalDNS := Builtin.ExternalDNS c; Builtin.Timeout := Builtin.Timeout c;
     Builtin.TTL := Builtin.TTL c; Builtin.EnumerationOn := Builtin.EnumerationOn c |}.

Definition fakeDNS : go Resolver :=
  (λ r, {| res_version := "0.1.1"; res_config := builtin_config; res_rg := r.1.1 |}) <$>
  InsertState (λ _, None) "mesos" RFC952 (fake "master@1.2.3.4:5050") ["1.2.3.4:5050"]
    ["docker"; "mesos"; "host"] 0 NewRecordGenerator (NewConfig 0).

Definition recorder : ResponseRecorder := {| Local := []; Remote := []; RecordedMsg := None |}.

(** One case: the expected message is also the query, and the recorder ends up
    with a message that is equivalent to it. *)
Definition case_ok (res : Resolver) (want : Msg) : bool :=
  match HandleMesos res test_config (Network (RemoteAddr recorder)) want CurLog with
  | (_, Ret got) =>
      match RecordedMsg (WriteMsg recorder got).1 with
      | Some got => equivalent got want
      | None => false
      end
  | (_, Panic _) => false
  end.

Definition soa (name : string) : RR := SOA (RRHeader name TypeSOA 60) "ns1.mesos" "root.ns1.mesos" 60.
Definition a (name ip : string) : RR := A (RRHeader name TypeA 60) (ParseIP ip).
Definition srv (name target : string) (port : Z) : RR := SRV (RRHeader name TypeSRV 60) target port 0 0.

Definition cases : list Msg :=
  [Message [Question 1 "chronos.marathon.mesos." TypeA; Header true RcodeSuccess;
     Answers [a "chronos.marathon.mesos." "1.2.3.11"]];
   Message [Question 2 "cHrOnOs.MARATHON.mesoS." TypeA; Header true RcodeSuccess;
     Answers [a "chronos.marathon.mesos." "1.2.3.11"]];
   Message [Question 3 "_liquor-store._tcp.marathon.mesos." TypeSRV; Header true RcodeSuccess;
     Answers [srv "_liquor-store._tcp.marathon.mesos." "liquor-store-4dfjd-0.marathon.mesos." 443;
              srv "_liquor-store._tcp.marathon.mesos." "liquor-store-zasmd-1.marathon.mesos." 80;
              srv "_liquor-store._tcp.marathon.mesos." "liquor-store-zasmd-1.marathon.mesos." 443;
              srv "_liquor-store._tcp.marathon.mesos." "liquor-store-4dfjd-0.marathon.mesos." 80];
     Extras [a "liquor-store-4dfjd-0.marathon.mesos." "10.3.0.1";
             a "liquor-store-zasmd-1.marathon.mesos." "10.3.0.2"]];
   Message [Question 4 "_car-store._udp.marathon.mesos." TypeSRV; Header true RcodeSuccess;
     Answers [srv "_car-store._udp.marathon.mesos." "car-store-zinaz-0.marathon.slave.mesos." 31365;
              srv "_car-store._udp.marathon.mesos." "car-store-zinaz-0.marathon.slave.mesos." 31364];
     Extras [a "car-store-zinaz-0.marathon.slave.mesos." "1.2.3.11"]];
   Message [Question 5 "_car-store._udp.marathon.mesos." TypeA; Header true RcodeSuccess;
     NSs [soa "_car-store._udp.marathon.mesos."]];
   Message [Question 6 "non-existing.mesos." TypeSOA; Header true RcodeSuccess;
     NSs [soa "non-existing.mesos."]];
   Message [Question 7 "non-existing.mesos." TypeNS; Header true RcodeSuccess;
     NSs [NS (RRHeader "non-existing.mesos." TypeNS 60) "ns1.mesos"]];
   Message [Question 8 "missing.mesos." TypeA; Header true RcodeNameError;
     NSs [soa "missing.mesos."]];
   Message [Question 9 "chronos.marathon.mesos." TypeAAAA; Header true RcodeSuccess;
     NSs [soa "chronos.marathon.mesos."]];
   Message [Question 10 "missing.mesos." TypeAAAA; Header true RcodeSuccess;
     NSs [soa "missing.mesos."]]].

Example runHandlers :
  match fakeDNS with Ret res => forallb (case_ok res) cases | Panic _ => false end = true.
Proof. vm_compute. reflexivity. Qed.
End TestHandlers.
