(* ===== verification/RepoTests.v ===== *)
(** * More tests of the repository, replayed on the model

    The tables of labels_test.go, generator_test.go, validation_test.go,
    state_test.go and of TestHTTP in resolver_test.go. *)

From S2P Require Import Prelude GoStrings GoNet Labels State Config Store Generator Dns Exchanger.
From S2P Require Import Resolver Server FakeCluster Dnstest.

#[local] Instance ascii_tables : UnicodeTables := {| unicode_ToLower := λ s, s |}.

(** ** labels_test.go *)

(** A row: a name and the label of it. *)
Definition label_case (f : string → go string) (c : string * string) : bool :=
  match f c.1 with Ret l => bool_decide (l = c.2) | Panic _ => false end.

Example TestRFC952 : forallb (label_case RFC952)
  [("4abc123", "abc123"); ("-4abc123", "abc123");
   ("fd%gsf---gs7-f$gs--d7fddg-123", "fdgsf---gs7-fgs--d7fddg1");
   ("89fdgsf---gs7-fgs--d7fddg-123", "fdgsf---gs7-fgs--d7fddg1");
   ("89fdgsf---gs7-fgs--d7fddg---123", "fdgsf---gs7-fgs--d7fddg1");
   ("89fdgsf---gs7-fgs--d7fddg-", "fdgsf---gs7-fgs--d7fddg");
   ("chronos with a space AND MIXED CASE-2.0.1", "chronoswithaspaceandmixe");
   ("chronos with a space AND----------MIXED--", "chronoswithaspaceandmixe")] = true.
Proof. vm_compute. reflexivity. Qed.

Example TestRFC1123 : forallb (label_case RFC1123)
  [("4abc123", "4abc123"); ("-4abc123", "4abc123");
   ("89fdgsf---gs7-fgs--d7fddg-123", "89fdgsf---gs7-fgs--d7fddg-123");
   ("89fdgsf---gs7-fgs--d7fddg---123", "89fdgsf---gs7-fgs--d7fddg---123");
   ("89fdgsf---gs7-fgs--d7fddg-", "89fdgsf---gs7-fgs--d7fddg");
   ("fd%gsf---gs7-f$gs--d7fddg-123", "fdgsf---gs7-fgs--d7fddg-123");
   ("fd%gsf---gs7-f$gs--d7fddg123456789012345678901234567890123456789-123",
    "fdgsf---gs7-fgs--d7fddg1234567890123456789012345678901234567891");
   ("$$fdgsf---gs7-fgs--d7fddg123456789012345678901234567890123456789-123",
    "fdgsf---gs7-fgs--d7fddg1234567890123456789012345678901234567891");
   ("%%fdgsf---gs7-fgs--d7fddg123456789012345678901234567890123456789---123",
    "fdgsf---gs7-fgs--d7fddg1234567890123456789012345678901234567891");
   ("##fdgsf---gs7-fgs--d7fddg123456789012345678901234567890123456789-",
    "fdgsf---gs7-fgs--d7fddg123456789012345678901234567890123456789")] = true.
Proof. vm_compute. reflexivity. Qed.

Example TestDomainFrag :
  label_case (λ s, DomainFrag s Sep RFC952)
    ("pod_123$abc.marathon-0.6.0-dev.mesos", "pod-123abc.marathon-0.dev.mesos")
  && label_case (λ s, DomainFrag s Sep RFC1123)
    ("pod_123$abc.marathon-0.6.0-dev.mesos", "pod-123abc.marathon-0.6.0-dev.mesos") = true.
Proof. vm_compute. reflexivity. Qed.

(** ** TestMasterRecord (generator_test.go) *)

(** The stores are exactly the expected records. *)
Definition master_case (c : list string * string * list (string * string * rrsKind)) : bool :=
  let '(masters, leader, expect) := c in
  let rg := masterRecord "foo.com" masters leader
    {| As := Some ∅; SRVs := Some ∅; rg_State := State0; SlaveIPs := None; EnumData := [] |} in
  let want k := foldl (λ (r : rrs) '(n, h, k'), if bool_decide (k' = k) then (rrs_add r n h).2 else r)
    ∅ expect in
  bool_decide (As rg = Some (want A)) && bool_decide (SRVs rg = Some (want SRV)).

Definition leader_6 (others : list (string * string * rrsKind)) : list (string * string * rrsKind) :=
  [("leader.foo.com.", "6", A); ("_leader._tcp.foo.com.", "leader.foo.com.:7", SRV);
   ("_leader._udp.foo.com.", "leader.foo.com.:7", SRV); ("master.foo.com.", "6", A)] ++ others.

Definition and_8 : list (string * string * rrsKind) :=
  [("master.foo.com.", "8", A); ("master1.foo.com.", "6", A); ("master0.foo.com.", "8", A)].

Example TestMasterRecord : forallb master_case
  [([], "", []); ([], "@", []); ([], "1@", []); ([], "@2", []); ([], "3@4", []);
   ([], "5@6:7", leader_6 [("master0.foo.com.", "6", A)]);
   (["6:7"], "5@6:7", leader_6 [("master0.foo.com.", "6", A)]);
   (["8:9"], "5@6:7", leader_6 and_8);
   (["8:9"; "8:9"], "5@6:7", leader_6 and_8);
   (["8:9"; "6:7"], "5@6:7", leader_6 and_8);
   (["8:9"; "6:7"; "6:7"], "5@6:7", leader_6 and_8);
   (["8:9"; "6:7"; "bob:0"], "5@6:7",
    leader_6 (and_8 ++ [("master.foo.com.", "bob", A); ("master2.foo.com.", "bob", A)]))] = true.
Proof. vm_compute. reflexivity. Qed.

(** ** validation_test.go *)

Example TestValidateMasters :
  forallb (λ '(ms, valid), Bool.eqb (bool_decide (validateMasters ms = None)) valid)
  [([], true); ([""], false); ([""; ""], false); (["a"], false); (["a:1234"], true);
   (["a"; "b"], false); (["a:1"; "b:1"], true); (["1.2.3.4"], false); (["1.2.3.4:5"], true);
   (["1.2.3.4.5"], false); (["1.2.3.4.5:6"], true); (["1.2.3.4"; "1.2.3.4"], false);
   (["1.2.3.4:1"; "1.2.3.4:1"], false); (["1.2.3.4:1"; "5.6.7.8:1"], true);
   (["[2001:0db8:3c4d:0015:0000:0000:1a2f:1a2b]:1"], true);
   (["[2001:db8:3c4d:15::1a2f:1a2b]:1"], true);
   (["[2001:0db8:3c4d:0015:0000:0000:1a2f:1a2b]:1"; "[2001:db8:3c4d:15::1a2f:1a2b]:1"], false)]
  = true.
Proof. vm_compute. reflexivity. Qed.

(** ** state_test.go *)

Definition quoted (before inside after : string) : list ascii :=
  bytes before ++ ["034"%char] ++ bytes inside ++ ["034"%char] ++ bytes after.

Example TestPID_UnmarshalJSON :
  let want := (Some {| UPID_ID := "slave(1)"; UPID_Host := "127.0.0.1"; UPID_Port := "5051" |}, None) in
  UnmarshalJSON (λ _, None) (quoted "" "slave(1)@127.0.0.1:5051" "") = want
  ∧ UnmarshalJSON (λ _, None) (quoted "  " "slave(1)@127.0.0.1:5051" "  ") = want
  ∧ UnmarshalJSON (λ _, None) (quoted "" "  slave(1)@127.0.0.1:5051  " "") = want.
Proof. vm_compute. done. Qed.

(** ** TestHTTP (resolver_test.go) *)

#[local] Instance some_order : MapOrder.
Proof. refine {| order := λ _ s, elements s |}. done. Defined.

Definition rest_case {A} `{EqDecision A} (f : Resolver → go (A * LogOut)) (want : A) : bool :=
  match TestHandlers.fakeDNS with
  | Ret res => match f res with Ret (got, _) => bool_decide (got = want) | Panic _ => false end
  | Panic _ => false
  end.

Example TestHTTP :
  rest_case (λ res, RestService res TestHandlers.test_config "_leader._tcp.mesos." CurLog)
    [("_leader._tcp.mesos.", "leader.mesos.", "1.2.3.4", "5050")]
  && rest_case (λ res, RestService res TestHandlers.test_config "_myservice._tcp.mesos." CurLog)
    [("", "", "", "")]
  && rest_case (λ res, RestHost res TestHandlers.test_config "leader.mesos" CurLog)
    [("leader.mesos.", "1.2.3.4")] = true.
Proof. vm_compute. reflexivity. Qed.
