(* ===== verification/UnitTests.v ===== *)
(** * Unit tests of the repository, replayed on the model

    The tables of state_test.go (TestTask_IPs), masters_test.go,
    forwarder_test.go, exchanger_test.go, config_test.go, validation_test.go,
    parser_test.go and of TestMultiError and TestTruncate in
    resolver_test.go. *)

From Corelib Require Import SpecFloat.
From S2P Require Import Prelude GoStrings GoNet Labels State Config Store Generator Dns Exchanger.
From S2P Require Import Resolver Detect Consul FakeCluster Dnstest.

#[local] Instance ascii_tables : UnicodeTables := {| unicode_ToLower := λ s, s |}.

(** ** TestTask_IPs (state_test.go) *)

Module TestTask.
Definition netinfo (ips : list string) : NetworkInfo :=
  {| IPAddresses := (λ ip, {| IPAddress_IPAddress := ip |}) <$> ips; NetworkInfo_IPAddress := "" |}.
Definition oldnetinfo (ip : string) : NetworkInfo :=
  {| IPAddresses := []; NetworkInfo_IPAddress := ip |}.
Definition oldnewnetinfo (oldip newip : string) : NetworkInfo :=
  {| IPAddresses := [{| IPAddress_IPAddress := newip |}]; NetworkInfo_IPAddress := oldip |}.

(** A small number as a [float64]. *)
Definition float (z : Z) : spec_float := binary_normalize 53 1024 z 0 false.

Definition status (state : string) (t : Z) (labels : list (string * string)) (nets : list NetworkInfo) : Status :=
  {| Timestamp := float t; Status_State := state;
     Status_Labels := (λ '(k, v), {| Label_Key := k; Label_Value := v |}) <$> labels;
     Status_ContainerStatus := {| NetworkInfos := nets |} |}.

Definition task (slaveIP : string) (st : list Status) : Task :=
  {| FrameworkID := ""; Task_ID := ""; Task_Name := ""; SlaveID := ""; Task_State := ""; Statuses := st;
     Task_Resources := {| PortRanges := "" |};
     Task_DiscoveryInfo := {| Visibilty := ""; DiscoveryInfo_Version := ""; DiscoveryInfo_Name := "";
       Location := ""; Environment := ""; DiscoveryInfo_Labels := []; DiscoveryPorts := [] |};
     SlaveIP := slaveIP; Task_Labels := [] |}.

Abbreviation up := "TASK_RUNNING".

Definition cases : list (Task * list string * list string) :=
  [(task "" [status up 0 [] [netinfo ["1.2.3.4"]]], ["host"; "mesos"], []);
   (task "" [status up 0 [] [netinfo ["1.2.3.4"]]], ["foo"; "netinfo"; "bar"], ["1.2.3.4"]);
   (task "" [status up 0 [] [netinfo ["1.2.3.4"]; netinfo ["2.3.4.5"]]], ["netinfo"], ["1.2.3.4"; "2.3.4.5"]);
   (task "" [status up 0 [] [netinfo ["1.2.3.4"; "2.3.4.5"]]], ["netinfo"], ["1.2.3.4"; "2.3.4.5"]);
   (task "" [status up 0 [] [oldnetinfo "1.2.3.4"]], ["netinfo"], ["1.2.3.4"]);
   (task "" [status up 0 [] [oldnetinfo ""; netinfo ["1.2.3.4"]]], ["netinfo"], ["1.2.3.4"]);
   (task "" [status up 0 [] [oldnewnetinfo "1.2.3.4" "1.2.4.8"]], ["netinfo"], ["1.2.4.8"]);
   (task "2.3.4.5" [status up 0 [] [netinfo ["1.2.3.4"]]], ["host"; "netinfo"], ["2.3.4.5"; "1.2.3.4"]);
   (task "" [status up 0 [] [netinfo ["1.2.3.4"]]; status "TASK_STOPPED" 0 [] [netinfo ["2.3.4.5"]]],
    ["netinfo"], ["1.2.3.4"]);
   (task "" [status up 1 [] [netinfo ["1.2.3.4"]]; status up 4 [] [netinfo ["1.3.5.7"]];
             status up 3 [(DockerIPLabel, "2.3.4.5")] []; status up 5 [(DockerIPLabel, "2.4.6.8")] [];
             status up 2 [(DockerIPLabel, "2.5.8.1")] []], ["docker"; "netinfo"], ["2.4.6.8"]);
   (task "" [status up 0 [(DockerIPLabel, "1.2.3.4"); (DockerIPLabel, "2.3.4.5")] []], ["docker"],
    ["1.2.3.4"; "2.3.4.5"])].

Example TestTask_IPs :
  forallb (λ '(t, srcs, want), bool_decide (IPs t srcs = ParseIP <$> want)) cases = true.
Proof. vm_compute. reflexivity. Qed.
End TestTask.

(** ** masters_test.go *)

Module TestMasters.
Definition masterInfo (ip : string) (port : option Z) : MasterInfo :=
  {| MasterInfo_Ip :=
       match To4 (ParseIP ip) with [a; b; c; d] => Some (Uint32 LittleEndian a b c d) | _ => None end;
     MasterInfo_Port := port; MasterInfo_Address := None |}.
Definition masterAt (ip : string) (port : Z) : MasterInfo :=
  {| MasterInfo_Ip := None; MasterInfo_Port := None;
     MasterInfo_Address := Some {| Address_Ip := Some ip; Address_Port := Some port |} |}.
Abbreviation ip a := (Some (masterInfo a None)).

(** Every event emits the list that is expected after it. *)
Fixpoint emits (ms : Masters) (cases : list (event * list string)) : bool :=
  match cases with
  | [] => true
  | (e, want) :: cases =>
      match on_event LittleEndian e ms with
      | Ret (ms, got) => bool_decide (got = want) && emits ms cases
      | Panic _ => false
      end
  end.

Example TestMasters_UpdatedMasters : emits (NewMasters [])
  [(MastersUpdated [ip "1.1.1.1"], [""; "1.1.1.1:5050"]);
   (MastersUpdated [ip "1.1.1.1"; ip "1.1.1.2"; ip "1.1.1.3"],
    [""; "1.1.1.1:5050"; "1.1.1.2:5050"; "1.1.1.3:5050"]);
   (MastersUpdated [], [""]); (MastersUpdated [], [""])] = true.
Proof. vm_compute. reflexivity. Qed.

Example TestMasters_OnMasterChanged : emits (NewMasters ["1.1.1.1:5050"; "1.1.1.2:5050"])
  [(LeaderChanged (ip "1.1.1.1"), ["1.1.1.1:5050"; "1.1.1.2:5050"]);
   (LeaderChanged (ip "1.1.1.3"), ["1.1.1.3:5050"; "1.1.1.2:5050"]);
   (LeaderChanged (ip "1.1.1.2"), ["1.1.1.2:5050"]);
   (LeaderChanged None, [""])] = true.
Proof. vm_compute. reflexivity. Qed.

Example TestMasterAddr :
  forallb (λ '(info, addr), bool_decide (masterAddr LittleEndian info = addr))
    [(None, ""); (Some (masterAt "" 1234), ":1234"); (Some (masterAt "1.1.1.1" 0), "1.1.1.1:0");
     (Some (masterAt "1.1.1.1" 1234), "1.1.1.1:1234");
     (Some {| MasterInfo_Ip := None; MasterInfo_Port := Some 1234%Z; MasterInfo_Address := None |},
      "0.0.0.0:1234");
     (ip "1.1.1.1", "1.1.1.1:5050"); (Some (masterInfo "1.1.1.1" (Some 1234%Z)), "1.1.1.1:1234")] = true.
Proof. vm_compute. reflexivity. Qed.
End TestMasters.

(** ** forwarder_test.go and exchanger_test.go *)

Module TestExchanger.
Definition msg : Msg := Dnstest.Message [Dnstest.Question 7 "foo.bar" TypeA].

Definition stub (m : option Msg) (err : error) : Exchange (W := unit) := λ _ _ st, ((m, 0%Z, err), st).

Definition udp (ex : Exchange (W := unit)) : gmap string (Exchange (W := unit)) := {["udp" := ex]}.

(** The second server of two behaves as [m] and [err] say. *)
Definition second (m : option Msg) (err : error) : Exchange (W := unit) := λ _ a st,
  ((if bool_decide (a = "1.2.3.4:53") then (None, 0%Z, Some "timeout") else (m, 0%Z, err)), st).

Definition forwarded (addrs : list string) (ex : Exchange (W := unit)) (proto : string) :
    option Z * option forward_error :=
  let r := (Forward (NewForwarder addrs (udp ex)) Msg0 proto (CurLog, ())).1 in (Id <$> r.1, r.2).

Example TestForwarder :
  forwarded [] (stub None None) "tcp" = (None, Some (ForwardError [] "tcp"))
  ∧ forwarded [] (stub None None) "udp" = (None, Some (ForwardError [] "udp"))
  ∧ forwarded ["1.2.3.4"] (stub (Some msg) None) "udp" = (Some 7%Z, None)
  ∧ forwarded ["1.2.3.4"] (stub None (Some "timeout")) "udp" = (None, Some (ExchangeError "timeout"))
  ∧ forwarded ["1.2.3.4"; "2.3.4.5"] (second (Some msg) None) "udp" = (Some 7%Z, None)
  ∧ forwarded ["1.2.3.4"; "2.3.4.5"] (second None (Some "eof")) "udp" = (None, Some (ExchangeError "eof")).
Proof. by vm_compute. Qed.

(** The three counters after one exchange. *)
Definition counted (err : error) : list string :=
  let l := (Instrumentation NonMesosForwarded NonMesosSuccess NonMesosFailed (stub None err) Msg0
              "1.2.3.4" (CurLog, ())).2.1 in
  LogCounter_String l <$> [NonMesosForwarded; NonMesosSuccess; NonMesosFailed].

Example TestInstrumentation :
  counted (Some "timeout") = ["1"; "0"; "1"] ∧ counted None = ["1"; "1"; "0"].
Proof. by vm_compute. Qed.
End TestExchanger.

(** ** config_test.go and validation_test.go *)

Example TestNewConfigValidates :
  let c := NewConfig 0 in
  validateIPSources (IPSources c) = None ∧ validateMasters (Config.Masters c) = None
  ∧ is_Some (validateEnabledServices c)
  ∧ Builtin.validateExternalDNS (Builtin.ExternalDNS Builtin.NewConfig) = None
  ∧ "127.0.0.1" ∉ Builtin.nonLocalAddies [[127; 0; 0; 1]%Z] ["127.0.0.1"].
Proof. vm_compute. split_and!; [done|done|by eexists|done|]. intros H. inversion H. Qed.

Example TestValidateExternalDNS :
  forallb (λ '(rs, valid), Bool.eqb (bool_decide (Builtin.validateExternalDNS rs = None)) valid)
  [([], true); ([""], false); ([""; ""], false); (["a"], false); (["a"; "b"], false);
   (["1.2.3.4"], true); (["1.2.3.4.5"], false); (["1.2.3.4"; "1.2.3.4"], false);
   (["1.2.3.4"; "5.6.7.8"], true); (["2001:0db8:3c4d:0015:0000:0000:1a2f:1a2b"], true);
   (["2001:db8:3c4d:15::1a2f:1a2b"], true);
   (["2001:0db8:3c4d:0015:0000:0000:1a2f:1a2b"; "2001:db8:3c4d:15::1a2f:1a2b"], false)] = true.
Proof. vm_compute. reflexivity. Qed.

(** ** TestMultiError and TestTruncate (resolver_test.go) *)

Example TestMultiError :
  let me := multiError_Add (multiError_Add [] [Single None]) [Multi []] in
  multiError_Nil me = true
  ∧ multiError_Error (multiError_Add me
      [Single (Some "abc"); Single (Some "123"); Multi []; Multi [Some "456"]; Multi [Some "789"];
       Single (Some "def")]) = "abc; 123; 456; 789; def".
Proof. by vm_compute. Qed.

Module TestTruncate.
Import Dnstest.

(** All records share the slice of their address. *)
Definition genA (n : nat) : list RR :=
  replicate n (Dnstest.A (RRHeader "example.com." TypeA 60) [Z.of_nat n - 1; 0; 0; 0]%Z).

Definition newTruncated : go Msg :=
  truncate (Message [Question 7 "example.com." TypeA; Header false RcodeSuccess; Answers (genA 50)]) true.

Example truncated_ok :
  match newTruncated with
  | Ret m => Truncated m && (Len m <=? 512)%Z && (512 <=? Len (set_Answer m (Answer m ++ genA 1)))%Z
  | Panic _ => false
  end = true.
Proof. vm_compute. reflexivity. Qed.
End TestTruncate.

(** ** parser_test.go *)

Module TestParser.
Definition pid (host port : string) : PID := Some {| UPID_ID := ""; UPID_Host := host; UPID_Port := port |}.

Definition cluster (active : bool) : State :=
  {| Frameworks := [{| Tasks := []; Framework_PID := pid "127.0.0.1" "8080"; Framework_Name := "marathon";
                       Framework_Hostname := "slave.local"; Framework_Active := active |}];
     Slaves := [{| Slave_ID := "slave1"; Slave_Hostname := "slave.local"; Slave_PID := pid "127.0.0.1" "5050";
                   Attrs := {| DC := ""; Master := ""; Rack := "" |}; Slave_Active := false |}];
     Leader := "master@127.0.0.1:5050" |}.

Example TestGenerateMesosRecords :
  match generateMesosRecords (cluster true) "mesos-dns" with
  | Ret (recs, _) => rec_SlaveID <$> recs
  | Panic _ => []
  end = ["slave1"].
Proof. vm_compute. reflexivity. Qed.

(** The names of the services of the frameworks. *)
Definition framework_names (active skip : bool) : list (option string) :=
  (λ r, Service_Name <$> Service r) <$> generateFrameworkRecords (cluster active) "mesos-dns" skip.

Example TestGenerateFrameworkRecords :
  framework_names true true = [Some "marathon"] ∧ framework_names true false = [Some "marathon"]
  ∧ framework_names false true = [] ∧ framework_names false false = [Some "marathon"].
Proof. by vm_compute. Qed.
End TestParser.
